(* ===== verification/_CoqProject ===== *)
-Q . S2P
Prelude.v
Primitives.v
Codec.v
Header.v
MetadataCodec.v
FindCoord.v
ConsumerProtocol.v
JoinGroup.v
SyncGroup.v
ClientCodecs.v
Kwire.v
Locality.v
Frame.v
Tracker.v
Conn.v
ConnTheorems.v
ConnRun.v
ConnTracking.v
Session.v
Topology.v
Plan.v
PlanFacts.v
PlanTheorems.v
PlanPool.v
Store.v
MetaCache.v
Planner.v
Telemetry.v
Interceptor.v
InterceptorTheorems.v
System.v
EndToEnd.v
Shutdown.v
KClient.v
Poller.v
Listener.v
Obs.v
Background.v
Startup.v
Process.v
Utf8.v
TopologyText.v
Examples.v
Scenario.v
