(* ===== verification/Prelude.v ===== *)
(** * kproxy: a verification development

    kproxy is a Kafka proxy written in Go.  It sits between consumers and
    brokers, relays length-prefixed frames in both directions, and intercepts
    a few messages: broker addresses in Metadata and FindCoordinator responses
    are replaced by advertised ones, the subscriptions in JoinGroup requests
    are remembered, and the assignments in the leader's SyncGroup request are
    replaced by a plan of the proxy's own.

    ** How the parts fit together

    A connection (internal/proxy) runs two pumps.  The upstream pump reads a
    request frame (internal/frame), decodes its header (internal/kwire), asks
    the interceptor (internal/interceptor) about it, registers what the
    interceptor wants to see answered in the correlation tracker, and forwards
    the frame.  The downstream pump reads a response frame, takes the entry of
    its correlation id from the tracker, and forwards the frame as it is or as
    the entry's rewriter makes it.  The interceptor consults the topology
    (internal/topology), the subscription store (internal/subscription), the
    metadata cache (internal/metadata), the telemetry snapshot
    (internal/telemetry) and the planner pool (internal/planner), whose workers
    run the planner proper (internal/plan).  Metadata and telemetry come from
    the brokers over a client connection of the proxy's own (internal/kclient).
    A listener accepts the connections, and a drain group ends them.

    ** Files

    - Prelude.v: Go's integers, bytes, strings, slices and outcomes
      ([Ok], [Fail], [Panic]); the hint databases [kwire] and [golib].
    - Primitives.v: kwire/primitives.go, the cursor as a state-and-error
      monad [Dec], the append helpers; the classes [Safe] (never panics) and
      [Appender] (only appends), the judgements [yields] (what a successful
      read guarantees) and [decodes] (what a reader makes of an encoding).
    - Codec.v: the field combinators every message repeats (plain or flexible
      string, nullable, array, tagged fields) and the class [WireCodec] with
      the laws every message codec is shown to meet.
    - Header.v (apikey.go, header.go), MetadataCodec.v (metadata.go),
      FindCoord.v (findcoord.go), ConsumerProtocol.v (consumer_protocol.go),
      JoinGroup.v, SyncGroup.v, ClientCodecs.v (offsetfetch.go,
      listoffsets.go, describegroups.go): one record per struct, one reader
      and one appender per message.
    - Kwire.v: the theorems about the codecs.  Locality.v: readers look only
      at what they consume (needed for re-spliced requests).
    - Frame.v: frame/reader.go, writer.go, pool.go over streams and sinks.
    - Tracker.v: proxy/correlation.go.
    - Conn.v: proxy/conn.go and intercept.go; the interface [Interceptor] with
      its law [InterceptorOk]; one definition per pump iteration, runs as the
      relation [run_step].  ConnTheorems.v: the theorems, for every
      interceptor.  ConnRun.v: [Run] with its four goroutines, the pumps with a
      program counter, [closeBoth] socket by socket ([go_step], [sys_step]).
      ConnTracking.v: a request from its registration to its response, on that
      model.  Session.v: a connection together with a broker that answers what
      it was sent ([session_step]), and schedules that can be run ([acts]).
    - Topology.v: topology/topology.go and rewriter.go.
    - Plan.v: plan/plan.go.  PlanFacts.v: its invariants ([good], [load_ok],
      [move]).  PlanTheorems.v: the theorems.  PlanPool.v: the pool of free
      partitions against the ordered set it stands for.
    - Store.v: subscription/store.go, with the bounded map it refines.
    - MetaCache.v: metadata/cache.go.  Planner.v: planner/planner.go; the
      interface [PlannerOk].  Telemetry.v: telemetry/snapshot.go.
    - Interceptor.v: interceptor/interceptor.go, an instance of the interface
      of Conn.v.  InterceptorTheorems.v: the handlers end to end.
    - System.v: connection and interceptor together.  EndToEnd.v: the sessions
      of the production interceptor, and the bytes a client receives.
    - Shutdown.v: shutdown/deadline.go.  Listener.v: proxy/listener.go.
    - KClient.v: kclient/conn.go and rpc.go, the proxy's own connection to a
      broker, with the aliasing of its response buffer, its deadline and its
      closing.
    - Poller.v: telemetry/kafka_native.go, one tick of the lag poller, against a
      coordinator that may be [Truthful] about the cluster.
    - Obs.v: obs/metrics.go and admin.go, down to the printed digits.
    - Background.v: the ticker loops Cache.Run, Poller.Run and gaugeRefresher.
    - Startup.v: cmd/kproxy/main.go up to the listener, LoadFile, the health
      check.  Process.v: the rest of [run], the goroutines of the process, the
      drain and the shutdown ([proc_step], each step labelled with who takes it:
      the process, its environment, a ticker, the side channel's broker), the
      wiring of store and registry ([wire_step]).
    - Utf8.v: the runes of a Go string.  TopologyText.v: the text of the
      -topology flag, endpoint specifications and their parsing.
    - Examples.v: example/consumer/main.go, example/producer/main.go and
      example/probe/main.go.
      Scenario.v: example/scenario/main.go, which starts a proxy, consumers and
      a producer as processes and reports on them.

    ** What is shown

    - Codecs (Kwire.v, ClientCodecs.v): no input makes a decoder panic; what is
      decoded is re-encoded without loss; headers delimit payloads; length
      prefixes are bounded by the input.
    - Framing (Frame.v): frames are read back as written, and a peer's length
      prefix cannot make the buffer grow beyond the cap.
    - Tracker (Tracker.v): bounded, each entry under its id, a registered
      request is returned exactly once unless it expires.
    - Connection (ConnTheorems.v): no panic; transparent without interception;
      a request whose response must be rewritten is only forwarded when it is
      tracked; its response is rewritten or dropped; what [Run] reports.
      ConnRun.v shows transparency, termination and the returned error over
      all interleavings of single operations, silent peers included,
      ConnTracking.v that an intercepted request is tracked until its response
      is rewritten or the entry expires, and
      [iterations_refined] that the iterations of Conn.v are runs of its pumps.
    - Topology (Topology.v): loaded entries resolve, rewriting touches nothing
      but addresses and leaves no real one when all brokers are mapped.
    - Planner (PlanTheorems.v): the plan is an exact partition of the
      subscribed work, balanced, fair to lagging members, sticky, and leaves no
      member of a single-topic group idle.  The pool with tombstones is
      equivalent to a sorted set (PlanPool.v).
    - Pool and cache (Planner.v, MetaCache.v): the concurrent components as
      transition systems, with their invariants over all interleavings.
    - Store (Store.v): refinement of a bounded map.
    - Interceptor and system (InterceptorTheorems.v, System.v): what the client
      decodes from a Metadata exchange (with a topology that has an entry under
      a node id), and what the broker decodes from a leader's SyncGroup for
      which the planner returned a plan, across the whole path.
    - Sessions (Session.v, EndToEnd.v): with a broker that answers each request
      at most once, after all of it arrived, and a client that never uses a
      correlation id twice, over all interleavings, and whatever other
      connections do to the interceptor's state, a response that must be
      rewritten never bypasses its rewriter unless its entry expired, and
      everything a client receives is, in order, the broker's response or the
      broker's response with its addresses rewritten.
    - Client and poller (KClient.v, Poller.v): a call returns the response to
      its own request; against a coordinator that answers truthfully, the lag
      the planner reads is the sum over a member's partitions of how far the
      group's commits are behind the ends of the logs.
    - Listener and drain group (Listener.v, Shutdown.v): the connection cap,
      the accounting of sockets, the back-off; whom a drain cancels and when it
      may return.
    - Process (Obs.v, Background.v, Startup.v, Process.v): the metrics are read
      back from their text; a topology file is loaded whole or not at all and
      hides the brokers it lists by node id; what a failed start-up leaves
      behind (the planner's workers, when it is [Listen] that failed, and
      nothing else); the health check tolerates one missed refresh; the poller
      hears of every group; the shutdown is orderly and, if the side channel
      answers, completes.
    - Flags and texts (TopologyText.v): an endpoint is read back as printed, and
      the same entries given by flag or by file make the same mapping, if their
      fields survive the splitting and trimming of the flag.
    - Example programs (Examples.v, Scenario.v): the consumers and the producer
      count what they handled and wind down when cancelled; the scenario reads
      back the metrics the proxy prints, keeps lines whole, and its summary adds
      up.

    Where the code falls short of its comments the shortfall is a theorem too
    (for instance [mixed_case_host_never_found], [panic_is_silent],
    [late_response_not_rewritten], [later_error_is_lost], [cache_can_regress],
    [stale_token_ends_drain], [shared_body_is_overwritten],
    [silent_side_channel_hangs_shutdown], [failure_exits_cleanly],
    [zero_refresh_is_unhealthy],
    [member_starved_with_enough_partitions], [timeout_desyncs],
    [unchecked_flags_panic], [proxy_killed_before_commit]).

    ** Modelling choices

    - Machine integers are [Z] with the wrap-around written out ([uwrap],
      [swrap]); [int] is 64 bits wide.  Byte slices are lists; slicing out of
      range is [Panic], and no decoder can reach it.  Errors are values.
    - Strings are Rocq strings of bytes.  A nil slice and an empty one, and a
      nil map and an empty one, are read alike by the code and are one value,
      except where the code tests for nil (an [option] there).
    - Time is a number of nanoseconds, an argument wherever the code asks for
      the clock.
    - Go ranges over maps in any order: where that can be observed the order is
      an argument ([MapOrder], [RenderOrder]) required only to be a permutation
      of the keys, and the theorems hold for every such order.
    - Library code outside the repository is an argument: [HostText] for
      [net.ParseIP] and [strings.ToLower], the environment of a connection
      ([Env], [Stream], [Sink]), the source of the metadata cache, the JSON
      decoder ([TopologyJson]), the answers of the operating system ([Net]).
      The Kafka client library of the example programs and the processes the
      scenario starts appear as the events they deliver.
    - The broker of Session.v is a hypothesis on the peer, as weak as the proxy
      needs: which requests it answers, when, in which order and with which
      bytes is open.  Its client never uses a correlation id twice, which the
      proxy does not check.
    - The scratch slice a rewriter is handed is empty; that its memory is that
      of an earlier result is not represented (see Conn.v).
    - A float64 is a [spec_float] of the Standard Library with its correctly
      rounded conversion and division.
    - A peer is a finite stream and a sink; it may also hang or stall for ever
      ([Peer]).  The loops of Background.v are run over the ticks they are
      given; in Process.v a tick may come at any moment, any number of times.
    - Concurrency: an operation under a mutex is one step, and in Conn.v an
      iteration of a pump is; ConnRun.v, the cache, the pool, the listener, the
      drain group and the process are refined to their channel operations and
      lock sections.

    ** Fuel and bounds

    Recursion is structural nearly everywhere: array readers recurse on the
    count that was read, which is at most the number of bytes left
    ([array_length_bounded]).  [append_uvarint] has five units of fuel, enough
    for any [uint32] ([uvarint_roundtrip] shows that more changes nothing).
    [read_all] of Frame.v reads as many frames as it is told.

    ** Not modelled, and the plan

    The internals of net/http (path cleaning, timeouts) and of pprof, the
    parsing of JSON and, in general, of command lines, and the logging are I/O or
    library code and stay outside, as do the Kafka client library of the example
    programs and the processes the scenario starts.  Next: the accuracy of the
    printed durations, and what the connections of one group's members promise
    together through the store they share. *)

From stdpp Require Export base numbers list strings gmap.
From Stdlib Require Export ZArith Lia.
From Stdlib Require Import Strings.Byte.

#[global] Open Scope Z_scope.

(** ** Automation shared by all files *)

(** [kwire] collects the lemmas about codecs: appenders, safe readers and the
    round trips.  [golib] collects the arithmetic facts of Go's integers. *)
Create HintDb kwire discriminated.
#[export] Hint Constants Opaque : kwire.
Create HintDb golib discriminated.
Create Rewrite HintDb golib.
Create Rewrite HintDb kwire.

(** Case analysis on the boolean conditions of the source, turned into
    arithmetic facts. *)
Ltac destr_ltb :=
  repeat match goal with
  | |- context [ (?a <? ?b)%Z ] => destruct (Z.ltb_spec a b)
  | |- context [ (?a <=? ?b)%Z ] => destruct (Z.leb_spec a b)
  | |- context [ (?a =? ?b)%Z ] => destruct (Z.eqb_spec a b)
  end.

Ltac destr_ltb_in H :=
  repeat match type of H with
  | context [ (?a <? ?b)%Z ] => destruct (Z.ltb_spec a b)
  | context [ (?a <=? ?b)%Z ] => destruct (Z.leb_spec a b)
  | context [ (?a =? ?b)%Z ] => destruct (Z.eqb_spec a b)
  end.

(** ** Go slices: lengths *)

(** [len(x)] as a Go [int].  Go's [int] is 64 bits wide on the platforms the
    proxy is built for, and a slice is shorter than [2^63]. *)
Definition len {A} (l : list A) : Z := Z.of_nat (length l).

Lemma len_nil {A} : len (@nil A) = 0.
Proof. reflexivity. Qed.

Lemma len_cons {A} (x : A) l : len (x :: l) = 1 + len l.
Proof. unfold len. simpl. lia. Qed.

Lemma len_app {A} (l1 l2 : list A) : len (l1 ++ l2) = len l1 + len l2.
Proof. unfold len. rewrite length_app. lia. Qed.

Lemma len_nonneg {A} (l : list A) : 0 <= len l.
Proof. unfold len. lia. Qed.

Lemma len_to_nat {A} (l : list A) : Z.to_nat (len l) = length l.
Proof. unfold len. lia. Qed.

Lemma len_map {A B} (f : A -> B) l : len (map f l) = len l.
Proof. unfold len. by rewrite length_map. Qed.

#[export] Hint Rewrite @len_nil @len_cons @len_app @len_map : golib.
#[export] Hint Resolve len_nonneg : golib.

Ltac len_lia :=
  autorewrite with golib in *;
  repeat match goal with
  | |- context [ len ?l ] =>
      lazymatch goal with
      | H : 0 <= len l |- _ => fail
      | _ => pose proof (len_nonneg l)
      end
  | _ : context [ len ?l ] |- _ =>
      lazymatch goal with
      | H : 0 <= len l |- _ => fail
      | _ => pose proof (len_nonneg l)
      end
  end; lia.

(** ** Fixed-width integers

    An [intN] or [uintN] of the source is a [Z]; a conversion between widths
    is the wrap-around written out here. *)

Definition uwrap (w z : Z) : Z := z mod 2 ^ w.
Definition swrap (w z : Z) : Z := (z + 2 ^ (w - 1)) mod 2 ^ w - 2 ^ (w - 1).

Definition in_int (w z : Z) : Prop := - 2 ^ (w - 1) <= z < 2 ^ (w - 1).
Definition in_uint (w z : Z) : Prop := 0 <= z < 2 ^ w.

Abbreviation int8 := (in_int 8).
Abbreviation int16 := (in_int 16).
Abbreviation int32 := (in_int 32).
Abbreviation int64 := (in_int 64).
Abbreviation uint32 := (in_uint 32).

#[global] Instance in_int_dec w z : Decision (in_int w z).
Proof. unfold in_int. apply _. Defined.
#[global] Instance in_uint_dec w z : Decision (in_uint w z).
Proof. unfold in_uint. apply _. Defined.

Lemma pow2_half w : 0 < w -> 2 ^ w = 2 * 2 ^ (w - 1).
Proof. intros. rewrite <- Z.pow_succ_r by lia. f_equal. lia. Qed.

Lemma pow2_pos w : 0 <= w -> 0 < 2 ^ w.
Proof. intros. apply Z.pow_pos_nonneg; lia. Qed.

Lemma swrap_range w z : 0 < w -> in_int w (swrap w z).
Proof.
  intros Hw. unfold in_int, swrap.
  pose proof (pow2_half w Hw). pose proof (pow2_pos (w - 1) ltac:(lia)).
  pose proof (Z.mod_pos_bound (z + 2 ^ (w - 1)) (2 ^ w)). lia.
Qed.

Lemma swrap_add_l w a b : swrap w (swrap w a + b) = swrap w (a + b).
Proof.
  unfold swrap. f_equal.
  replace ((a + 2 ^ (w - 1)) mod 2 ^ w - 2 ^ (w - 1) + b + 2 ^ (w - 1))
    with ((a + 2 ^ (w - 1)) mod 2 ^ w + b) by lia.
  rewrite Zplus_mod_idemp_l. f_equal. lia.
Qed.

Lemma uwrap_range w z : 0 <= w -> in_uint w (uwrap w z).
Proof. intros Hw. apply Z.mod_pos_bound, pow2_pos, Hw. Qed.

Lemma swrap_id w z : 0 < w -> in_int w z -> swrap w z = z.
Proof.
  intros Hw [??]. unfold swrap. pose proof (pow2_half w Hw).
  rewrite Z.mod_small by lia. lia.
Qed.

Lemma uwrap_id w z : in_uint w z -> uwrap w z = z.
Proof. intros ?. by apply Z.mod_small. Qed.

Lemma swrap_uwrap w z : 0 < w -> swrap w (uwrap w z) = swrap w z.
Proof.
  intros Hw. unfold swrap, uwrap. f_equal.
  pose proof (pow2_pos w ltac:(lia)). by rewrite Z.add_mod_idemp_l by lia.
Qed.

Lemma swrap_uwrap_id w z : 0 < w -> in_int w z -> swrap w (uwrap w z) = z.
Proof. intros. rewrite swrap_uwrap by lia. by apply swrap_id. Qed.

#[export] Hint Resolve swrap_range uwrap_range : golib.

(** ** Bytes *)

Abbreviation byte := Init.Byte.byte.

#[global] Instance byte_eq_dec : EqDecision byte := Byte.byte_eq_dec.

Definition byte_val (b : byte) : Z := Z.of_N (Byte.to_N b).

(** The conversion [byte(z)]: the low eight bits. *)
Definition byte_of (z : Z) : byte :=
  match Byte.of_N (Z.to_N (z mod 256)) with
  | Some b => b
  | None => Byte.x00
  end.

Lemma byte_val_range b : 0 <= byte_val b < 256.
Proof. unfold byte_val. pose proof (Byte.to_N_bounded b). lia. Qed.

Lemma byte_val_of z : byte_val (byte_of z) = z mod 256.
Proof.
  unfold byte_of, byte_val. pose proof (Z.mod_pos_bound z 256).
  destruct (Byte.of_N _) as [b|] eqn:E.
  - apply Byte.to_of_N in E. lia.
  - apply Byte.of_N_None_iff in E. lia.
Qed.

Lemma byte_of_val b : byte_of (byte_val b) = b.
Proof.
  unfold byte_of. rewrite Z.mod_small by apply byte_val_range.
  unfold byte_val. by rewrite N2Z.id, Byte.of_to_N.
Qed.

Lemma byte_val_inj b1 b2 : byte_val b1 = byte_val b2 -> b1 = b2.
Proof. intros H. by rewrite <- (byte_of_val b1), H, byte_of_val. Qed.

(** ** Big-endian integers (package encoding/binary) *)

(** [binary.BigEndian.AppendUintN]: the [n] bytes of [v], most significant
    first. *)
Fixpoint be_bytes (n : nat) (v : Z) : list byte :=
  match n with
  | O => []
  | S n => byte_of (Z.shiftr v (8 * Z.of_nat n)) :: be_bytes n v
  end.

(** [binary.BigEndian.UintN] on exactly the bytes it reads. *)
Definition be_val (l : list byte) : Z :=
  fold_left (fun acc b => Z.lor (Z.shiftl acc 8) (byte_val b)) l 0.

Lemma lor_shiftl_add a k b :
  0 <= k -> 0 <= b < 2 ^ k -> Z.lor (Z.shiftl a k) b = a * 2 ^ k + b.
Proof.
  intros Hk Hb. rewrite <- Z.shiftl_mul_pow2 by lia.
  rewrite <- Z.lxor_lor; [symmetry; apply Z.add_nocarry_lxor |];
    apply Z.bits_inj'; intros n Hn; rewrite Z.land_spec, Z.bits_0;
    (destruct (Z.ltb_spec n k);
     [ rewrite Z.shiftl_spec_low by lia; reflexivity
     | rewrite <- (Z.mod_small b (2 ^ k)) by lia;
       rewrite Z.mod_pow2_bits_high by lia; apply andb_false_r ]).
Qed.

Lemma be_val_cons_aux l acc :
  fold_left (fun acc b => Z.lor (Z.shiftl acc 8) (byte_val b)) l acc =
  acc * 2 ^ (8 * len l) + be_val l.
Proof.
  unfold be_val. revert acc. induction l as [|b l IH]; intros acc; simpl.
  - change (acc = acc * 1 + 0). lia.
  - rewrite (IH (Z.lor (Z.shiftl acc 8) _)), (IH (Z.lor (Z.shiftl 0 8) _)).
    rewrite len_cons, Z.mul_add_distr_l, Z.pow_add_r by len_lia.
    pose proof (byte_val_range b). rewrite !lor_shiftl_add by (simpl; lia). lia.
Qed.

Lemma be_val_cons b l : be_val (b :: l) = byte_val b * 2 ^ (8 * len l) + be_val l.
Proof.
  unfold be_val at 1. cbn [fold_left]. rewrite be_val_cons_aux.
  pose proof (byte_val_range b). by rewrite Z.shiftl_0_l, Z.lor_0_l.
Qed.

Lemma be_val_range l : 0 <= be_val l < 2 ^ (8 * len l).
Proof.
  induction l as [|b l IH].
  - vm_compute. split; congruence.
  - rewrite be_val_cons, len_cons, Z.mul_add_distr_l, Z.pow_add_r by len_lia.
    pose proof (byte_val_range b). nia.
Qed.

Lemma length_be_bytes n v : length (be_bytes n v) = n.
Proof. induction n; simpl; congruence. Qed.

Lemma len_be_bytes n v : len (be_bytes n v) = Z.of_nat n.
Proof. unfold len. by rewrite length_be_bytes. Qed.

Lemma be_val_bytes n v : be_val (be_bytes n v) = v mod 2 ^ (8 * Z.of_nat n).
Proof.
  induction n as [|n IH]; simpl be_bytes.
  - change (be_val []) with 0. by rewrite Z.mul_0_r, Z.pow_0_r, Z.mod_1_r.
  - rewrite be_val_cons, IH, byte_val_of, len_be_bytes, Z.shiftr_div_pow2 by lia.
    replace (8 * Z.of_nat (S n)) with (8 * Z.of_nat n + 8) by lia.
    rewrite Z.pow_add_r by lia.
    pose proof (pow2_pos (8 * Z.of_nat n) ltac:(lia)).
    rewrite Z.rem_mul_r by lia. change (2 ^ 8) with 256. lia.
Qed.

Lemma be_val_bytes_uwrap n w v :
  w = 8 * Z.of_nat n -> 0 < w -> be_val (be_bytes n (uwrap w v)) = uwrap w v.
Proof.
  intros -> ?. rewrite be_val_bytes. apply uwrap_id, uwrap_range. lia.
Qed.

#[export] Hint Rewrite len_be_bytes : golib.

(** ** Go strings

    A Go string is a sequence of bytes, which is what [String.string] is; the
    conversions [string(b)] and [[]byte(s)] copy the bytes. *)

Definition string_of_bytes (l : list byte) : string := String.string_of_list_byte l.
Definition bytes_of_string (s : string) : list byte := String.list_byte_of_string s.

Lemma string_of_bytes_of_string s : string_of_bytes (bytes_of_string s) = s.
Proof. apply String.string_of_list_byte_of_string. Qed.

Lemma bytes_of_string_of_bytes l : bytes_of_string (string_of_bytes l) = l.
Proof. apply String.list_byte_of_string_of_list_byte. Qed.

(** [len(s)] of a string. *)
Definition slen (s : string) : Z := len (bytes_of_string s).

Lemma slen_of_bytes l : slen (string_of_bytes l) = len l.
Proof. unfold slen. by rewrite bytes_of_string_of_bytes. Qed.

Lemma slen_nonneg s : 0 <= slen s.
Proof. apply len_nonneg. Qed.

Lemma slen_empty s : slen s = 0 -> s = ""%string.
Proof.
  unfold slen. intros H.
  rewrite <- (string_of_bytes_of_string s).
  destruct (bytes_of_string s); [done|]. len_lia.
Qed.

#[export] Hint Resolve slen_nonneg : golib.
#[export] Hint Rewrite slen_of_bytes : golib.

(** ** Errors and panics

    A fallible operation returns its value, a Go [error], or panics: an index
    or slice expression out of range is a run-time panic, and that it never
    happens is a theorem, not a convention of the model. *)

Inductive outcome (E A : Type) : Type :=
| Ok (a : A)
| Fail (e : E)
| Panic.
Arguments Ok {E A} a.
Arguments Fail {E A} e.
Arguments Panic {E A}.

(** The slice expression [b[lo:hi]].  Go bounds [hi] by the capacity, the
    model by the length, so it panics whenever Go does. *)
Definition go_slice {A} (b : list A) (lo hi : Z) : option (list A) :=
  if (0 <=? lo) && (lo <=? hi) && (hi <=? len b)
  then Some (take (Z.to_nat (hi - lo)) (drop (Z.to_nat lo) b))
  else None.

Lemma go_slice_some {A} (b : list A) lo hi :
  0 <= lo -> lo <= hi -> hi <= len b ->
  go_slice b lo hi = Some (take (Z.to_nat (hi - lo)) (drop (Z.to_nat lo) b)).
Proof. intros. unfold go_slice. destr_ltb; (lia || done). Qed.

Lemma go_slice_mid {A} (pre l rest : list A) :
  go_slice (pre ++ l ++ rest) (len pre) (len pre + len l) = Some l.
Proof.
  rewrite go_slice_some by len_lia. f_equal.
  replace (len pre + len l - len pre) with (len l) by lia.
  by rewrite !len_to_nat, drop_app_length, take_app_length.
Qed.

Lemma go_slice_len {A} (b l : list A) lo hi :
  go_slice b lo hi = Some l -> len l = hi - lo.
Proof.
  unfold go_slice. destr_ltb; simpl; try done. intros [= <-].
  unfold len in *. rewrite length_take, length_drop. lia.
Qed.

(** Big-endian bytes are determined by their value. *)
Lemma be_val_inj l1 l2 : length l1 = length l2 -> be_val l1 = be_val l2 -> l1 = l2.
Proof.
  revert l2. induction l1 as [|b1 l1 IH]; intros [|b2 l2] Hl E; simpl in Hl; try lia; [done|].
  rewrite !be_val_cons in E. assert (len l1 = len l2) as Hlen by (unfold len; lia).
  pose proof (be_val_range l1) as H1. pose proof (be_val_range l2) as H2. rewrite Hlen in *.
  set (k := 2 ^ (8 * len l2)) in *.
  assert (byte_val b1 = byte_val b2) as Hb.
  { assert (be_val l1 = be_val l2 + (byte_val b2 - byte_val b1) * k) by lia.
    destruct (Z.lt_trichotomy (byte_val b1) (byte_val b2)) as [?|[?|?]]; [nia|done|nia]. }
  f_equal; [by apply byte_val_inj|]. apply IH; [lia|]. rewrite Hb in E. lia.
Qed.

Lemma be_bytes_of_val l : be_bytes (length l) (be_val l) = l.
Proof.
  apply be_val_inj; [by rewrite length_be_bytes|]. rewrite be_val_bytes.
  apply Z.mod_small, be_val_range.
Qed.

Lemma go_slice_tail {A} (a b : list A) : go_slice (a ++ b) (len a) (len (a ++ b)) = Some b.
Proof. rewrite len_app. rewrite <- (app_nil_r b) at 1. apply go_slice_mid. Qed.

(** ** Loops *)

(** A loop keeps what every iteration keeps. *)
Lemma fold_left_inv {A B} (P : A -> Prop) (f : A -> B -> A) (l : list B) (a : A) :
  P a -> (forall a b, b ∈ l -> P a -> P (f a b)) -> P (fold_left f l a).
Proof.
  revert a. induction l as [|b l IH]; intros a Ha Hf; simpl; [done|].
  apply IH; [apply Hf; [left|done]|]. intros a' b' Hb. apply Hf. by right.
Qed.

(** A loop over [l] reaches [Q] when some element of [l] establishes it from an
    invariant [P], and it then stays. *)
Lemma fold_left_reach {A B} (P Q : A -> Prop) (f : A -> B -> A) (l : list B) (a : A) b0 :
  b0 ∈ l -> P a -> (forall a b, b ∈ l -> P a -> P (f a b)) ->
  (forall a, P a -> Q (f a b0)) -> (forall a b, b ∈ l -> Q a -> Q (f a b)) ->
  Q (fold_left f l a).
Proof.
  intros Hb HP Hpres Hest Hstay. apply list_elem_of_split in Hb as (l1 & l2 & ->).
  rewrite fold_left_app. simpl. apply fold_left_inv.
  - apply Hest, fold_left_inv; [done|]. intros a' b' Hb'. apply Hpres. set_solver.
  - intros a' b' Hb'. apply Hstay. set_solver.
Qed.
