(* ===== verification/Primitives.v ===== *)
(** * The wire primitives: internal/kwire/primitives.go

    The cursor and its [Read] methods as a state-and-error monad over the
    cursor, the [Append] functions as functions of the destination slice, and
    the three facts every codec is built from: a reader is [Safe] (it never
    panics, never leaves the buffer, never moves back), it [Yields] values in
    range, and it decodes what its appender wrote ([decodes]). *)

From stdpp Require Import base numbers list strings gmap.
From Stdlib Require Import ZArith Lia Strings.Byte.
From S2P Require Import Prelude.

(** ** The cursor *)

Inductive kerr := ErrTruncated | ErrMalformed.

#[global] Instance kerr_eq_dec : EqDecision kerr.
Proof. solve_decision. Defined.

Record Cursor := mkCursor { buf : list byte; off : Z }.

Definition NewCursor (b : list byte) : Cursor := {| buf := b; off := 0 |}.

Definition Remaining (c : Cursor) : Z := len (buf c) - off c.

Definition Offset (c : Cursor) : Z := off c.

Definition Bytes (c : Cursor) : list byte := buf c.

(** [c.off += n]. *)
Definition advance (c : Cursor) (n : Z) : Cursor :=
  {| buf := buf c; off := off c + n |}.

(** ** The decoder monad

    A method with a [*Cursor] receiver: the outcome, and the cursor it leaves
    (which a failing read may already have advanced). *)
Definition Dec (A : Type) : Type := Cursor -> outcome kerr A * Cursor.

Definition ret {A} (a : A) : Dec A := fun c => (Ok a, c).

Definition fail {A} (e : kerr) : Dec A := fun c => (Fail e, c).

Definition bind {A B} (m : Dec A) (k : A -> Dec B) : Dec B := fun c =>
  match m c with
  | (Ok a, c') => k a c'
  | (Fail e, c') => (Fail e, c')
  | (Panic, c') => (Panic, c')
  end.

Declare Scope dec_scope.
Delimit Scope dec_scope with dec.
Notation "x <- m ;; k" := (bind m (fun x => k))
  (at level 100, m at next level, right associativity) : dec_scope.
Notation "m ;; k" := (bind m (fun _ => k))
  (at level 100, right associativity) : dec_scope.
#[global] Open Scope dec_scope.

(** Run a decoder on the slice [b]: [c := NewCursor(b)] and the result of the
    function that owns the cursor. *)
Definition run_dec {A} (m : Dec A) (b : list byte) : outcome kerr A :=
  fst (m (NewCursor b)).

(** [n, err := d(); if n > 0 { out := make([]T, n); for i := range n {...} }]:
    the elements in order, the first error returned. *)
Fixpoint replicateM {A} (n : nat) (d : Dec A) : Dec (list A) :=
  match n with
  | O => ret []
  | S n => x <- d ;; xs <- replicateM n d ;; ret (x :: xs)
  end.

(** [for range n { body }] for a 32-bit count: iteration by halves, so that
    the count never becomes a unary number.  The first error ends the loop. *)
Fixpoint loop_pos (p : positive) (body : Dec unit) : Dec unit :=
  match p with
  | xH => body
  | xO q => loop_pos q body ;; loop_pos q body
  | xI q => body ;; loop_pos q body ;; loop_pos q body
  end.

Definition for_range (n : Z) (body : Dec unit) : Dec unit :=
  match n with
  | Zpos p => loop_pos p body
  | _ => ret tt
  end.

(** ** Readers *)

Definition Skip (n : Z) : Dec unit := fun c =>
  if (n <? 0) || (len (buf c) <? off c + n)
  then (Fail ErrTruncated, c)
  else (Ok tt, advance c n).

Definition ReadInt8 : Dec Z := fun c =>
  if len (buf c) <? off c + 1 then (Fail ErrTruncated, c) else
  match go_slice (buf c) (off c) (off c + 1) with
  | Some [b] => (Ok (swrap 8 (byte_val b)), advance c 1)
  | _ => (Panic, c)
  end.

(** [binary.BigEndian.UintK(b)]: panics on a slice shorter than [k]. *)
Definition be_uint (k : nat) (b : list byte) : option Z :=
  if len b <? Z.of_nat k then None else Some (be_val (take k b)).

(** The common body of [ReadInt16], [ReadInt32] and [ReadInt64]. *)
Definition read_be (k : nat) : Dec Z := fun c =>
  if len (buf c) <? off c + Z.of_nat k then (Fail ErrTruncated, c) else
  match go_slice (buf c) (off c) (len (buf c)) with
  | None => (Panic, c)
  | Some b =>
      match be_uint k b with
      | None => (Panic, c)
      | Some u => (Ok (swrap (8 * Z.of_nat k) u), advance c (Z.of_nat k))
      end
  end.

Definition ReadInt16 : Dec Z := read_be 2.
Definition ReadInt32 : Dec Z := read_be 4.
Definition ReadInt64 : Dec Z := read_be 8.

(** [if c.off+n > len(c.buf) { return ErrTruncated }; b := c.buf[c.off:c.off+n];
    c.off += n], the tail of every string and bytes reader. *)
Definition read_n (n : Z) : Dec (list byte) := fun c =>
  if len (buf c) <? off c + n then (Fail ErrTruncated, c) else
  match go_slice (buf c) (off c) (off c + n) with
  | None => (Panic, c)
  | Some b => (Ok b, advance c n)
  end.

Definition ReadString : Dec string :=
  n <- ReadInt16 ;;
  if n <? 0 then fail ErrMalformed else
  b <- read_n n ;; ret (string_of_bytes b).

Definition ReadNullableString : Dec (string * bool) :=
  n <- ReadInt16 ;;
  if n <? 0 then ret (""%string, true) else
  b <- read_n n ;; ret (string_of_bytes b, false).

Definition ReadBytes : Dec (list byte) :=
  n <- ReadInt32 ;;
  if n <? 0 then fail ErrMalformed else read_n n.

Definition ReadNullableBytes : Dec (list byte * bool) :=
  n <- ReadInt32 ;;
  if n <? 0 then ret ([], true) else
  b <- read_n n ;; ret (b, false).

(** The body of [for range 5] in [ReadUvarint]; [v] and [shift] are its loop
    variables.  The shifted bits are cut to 32, as [uint32] does. *)
Fixpoint uvarint_loop (k : nat) (v shift : Z) : Dec Z := fun c =>
  match k with
  | O => (Fail ErrMalformed, c)
  | S k =>
      if len (buf c) <=? off c then (Fail ErrTruncated, c) else
      match go_slice (buf c) (off c) (off c + 1) with
      | Some [b] =>
          let c := advance c 1 in
          let v := Z.lor v (uwrap 32 (Z.shiftl (Z.land (byte_val b) 127) shift)) in
          if Z.land (byte_val b) 128 =? 0 then (Ok v, c)
          else uvarint_loop k v (shift + 7) c
      | _ => (Panic, c)
      end
  end.

Definition ReadUvarint : Dec Z := uvarint_loop 5 0 0.

Definition ReadCompactString : Dec string :=
  n <- ReadUvarint ;;
  if n =? 0 then fail ErrMalformed else
  b <- read_n (n - 1) ;; ret (string_of_bytes b).

Definition ReadCompactNullableString : Dec (string * bool) :=
  n <- ReadUvarint ;;
  if n =? 0 then ret (""%string, true) else
  b <- read_n (n - 1) ;; ret (string_of_bytes b, false).

Definition ReadCompactBytes : Dec (list byte) :=
  n <- ReadUvarint ;;
  if n =? 0 then fail ErrMalformed else read_n (n - 1).

Definition ReadCompactNullableBytes : Dec (list byte * bool) :=
  n <- ReadUvarint ;;
  if n =? 0 then ret ([], true) else
  b <- read_n (n - 1) ;; ret (b, false).

Definition ReadArrayLen : Dec (Z * bool) :=
  v <- ReadInt32 ;;
  if v <? 0 then ret (0, true) else fun c =>
  if Remaining c <? v then (Fail ErrTruncated, c) else (Ok (v, false), c).

Definition ReadCompactArrayLen : Dec (Z * bool) :=
  v <- ReadUvarint ;;
  if v =? 0 then ret (0, true) else fun c =>
  let n := v - 1 in
  if (n <? 0) || (Remaining c <? n) then (Fail ErrTruncated, c) else (Ok (n, false), c).

Definition SkipTaggedFields : Dec unit :=
  n <- ReadUvarint ;;
  for_range n (
    _ <- ReadUvarint ;;
    sz <- ReadUvarint ;;
    Skip sz).

(** ** Appenders *)

Definition AppendInt8 (dst : list byte) (v : Z) : list byte :=
  dst ++ [byte_of (uwrap 8 v)].

Definition AppendInt16 (dst : list byte) (v : Z) : list byte :=
  dst ++ be_bytes 2 (uwrap 16 v).

Definition AppendInt32 (dst : list byte) (v : Z) : list byte :=
  dst ++ be_bytes 4 (uwrap 32 v).

Definition AppendInt64 (dst : list byte) (v : Z) : list byte :=
  dst ++ be_bytes 8 (uwrap 64 v).

(** [for v >= 0x80 {...}; return append(dst, byte(v))].  Five units of fuel
    are enough for a [uint32] ([append_uvarint_fuel] below). *)
Fixpoint append_uvarint (fuel : nat) (dst : list byte) (v : Z) : list byte :=
  match fuel with
  | O => dst ++ [byte_of v]
  | S fuel =>
      if 128 <=? v
      then append_uvarint fuel (dst ++ [byte_of (Z.lor (uwrap 8 v) 128)]) (Z.shiftr v 7)
      else dst ++ [byte_of v]
  end.

Definition AppendUvarint (dst : list byte) (v : Z) : list byte := append_uvarint 5 dst v.

Definition AppendString (dst : list byte) (s : string) : list byte :=
  AppendInt16 dst (swrap 16 (slen s)) ++ bytes_of_string s.

Definition AppendNullableString (dst : list byte) (s : string) (isNull : bool) : list byte :=
  if isNull then AppendInt16 dst (-1) else AppendString dst s.

Definition AppendBytes (dst b : list byte) : list byte :=
  AppendInt32 dst (swrap 32 (len b)) ++ b.

Definition AppendNullableBytes (dst b : list byte) (isNull : bool) : list byte :=
  if isNull then AppendInt32 dst (-1) else AppendBytes dst b.

Definition AppendCompactString (dst : list byte) (s : string) : list byte :=
  AppendUvarint dst (uwrap 32 (slen s + 1)) ++ bytes_of_string s.

Definition AppendCompactNullableString (dst : list byte) (s : string) (isNull : bool) : list byte :=
  if isNull then AppendUvarint dst 0 else AppendCompactString dst s.

Definition AppendCompactBytes (dst b : list byte) : list byte :=
  AppendUvarint dst (uwrap 32 (len b + 1)) ++ b.

Definition AppendCompactNullableBytes (dst b : list byte) (isNull : bool) : list byte :=
  if isNull then AppendUvarint dst 0 else AppendCompactBytes dst b.

Definition AppendArrayLen (dst : list byte) (n : Z) (isNull : bool) : list byte :=
  if isNull then AppendInt32 dst (-1) else AppendInt32 dst (swrap 32 n).

Definition AppendCompactArrayLen (dst : list byte) (n : Z) (isNull : bool) : list byte :=
  if isNull then AppendUvarint dst 0 else AppendUvarint dst (uwrap 32 (n + 1)).

Definition AppendEmptyTaggedFields (dst : list byte) : list byte := dst ++ [Byte.x00].

(** ** Decoders up to pointwise equality

    Two decoders are equivalent when they agree on every cursor; the monad laws
    and the unrolling of [for range n] hold up to this equivalence. *)

Record dec_eq {A} (d d' : Dec A) : Prop := { dec_eq_at : forall c, d c = d' c }.

#[global] Instance dec_equiv A : Equiv (Dec A) := dec_eq.

#[global] Instance dec_equivalence A : Equivalence (@equiv (Dec A) _).
Proof.
  split.
  - by intros x.
  - intros x y [H]. split. intros c. by rewrite H.
  - intros x y z [H1] [H2]. split. intros c. by rewrite H1, H2.
Qed.

#[global] Instance bind_proper A B :
  Proper (equiv ==> pointwise_relation A equiv ==> equiv) (@bind A B).
Proof.
  intros m m' [Hm] k k' Hk. split. intros c. unfold bind. rewrite <- (Hm c).
  destruct (m c) as [[a| |] c']; [apply (Hk a)|done..].
Qed.

Lemma bind_ret_r {A} (m : Dec A) : bind m ret ≡ m.
Proof. split. intros c. unfold bind, ret. by destruct (m c) as [[]]. Qed.

Lemma bind_assoc {A B C} (m : Dec A) (k : A -> Dec B) (h : B -> Dec C) :
  bind (bind m k) h ≡ bind m (fun a => bind (k a) h).
Proof. split. intros c. unfold bind. by destruct (m c) as [[a| |] c']. Qed.

Lemma loop_pos_comm p body :
  (loop_pos p body ;; body) ≡ (body ;; loop_pos p body).
Proof.
  induction p as [q IH|q IH|]; cbn [loop_pos]; [| |done].
  all: assert (((loop_pos q body ;; loop_pos q body) ;; body) ≡
               (body ;; loop_pos q body ;; loop_pos q body)) as Hd
    by (rewrite bind_assoc; setoid_rewrite IH;
        rewrite <- (bind_assoc (loop_pos q body) (fun _ => body)), IH; apply bind_assoc).
  - rewrite bind_assoc. by setoid_rewrite Hd.
  - exact Hd.
Qed.

Lemma loop_pos_succ p body :
  loop_pos (Pos.succ p) body ≡ (body ;; loop_pos p body).
Proof.
  induction p as [q IH|q IH|]; [|done..].
  change (loop_pos (Pos.succ q~1) body)
    with (loop_pos (Pos.succ q) body ;; loop_pos (Pos.succ q) body).
  setoid_rewrite IH. rewrite bind_assoc. apply bind_proper; [done|]. intros _.
  rewrite <- (bind_assoc (loop_pos q body) (fun _ => body)), loop_pos_comm. apply bind_assoc.
Qed.

(** The loop of a [for range n] runs its body once and then [n-1] times. *)
Lemma for_range_succ n body :
  0 <= n -> for_range (1 + n) body ≡ (body ;; for_range n body).
Proof.
  intros Hn. destruct n as [|p|p]; [| |lia]; cycle 1.
  { change (1 + Z.pos p) with (Z.pos (1 + p)). rewrite Pos.add_1_l. apply loop_pos_succ. }
  split. intros c. simpl. unfold bind, ret. by destruct (body c) as [[[]| |] c'].
Qed.

(** ** Safety: what any reader does on any input *)

Definition wf_cursor (c : Cursor) : Prop := 0 <= off c <= len (buf c).

(** A reader that, on any well-formed cursor, returns without a panic, keeps
    the buffer and leaves the cursor inside it, not before where it was. *)
Class Safe {A} (d : Dec A) : Prop :=
  safe : forall c, wf_cursor c ->
    exists o c', d c = (o, c') /\ o <> Panic /\ buf c' = buf c /\
                 off c <= off c' <= len (buf c).

Ltac solve_safe :=
  eexists _, _; split; [reflexivity|]; simpl; repeat split; (done || lia).

Lemma wf_NewCursor b : wf_cursor (NewCursor b).
Proof. unfold wf_cursor; simpl. len_lia. Qed.

Lemma safe_run {A} (d : Dec A) b : Safe d -> run_dec d b <> Panic.
Proof.
  intros Hd. destruct (Hd (NewCursor b) (wf_NewCursor b)) as (o & c' & E & Ho & _).
  unfold run_dec. by rewrite E.
Qed.

#[global] Instance safe_ret {A} (a : A) : Safe (ret a).
Proof. intros c Hc. exists (Ok a), c. destruct Hc. repeat split; (done || lia). Qed.

#[global] Instance safe_fail {A} e : Safe (@fail A e).
Proof. intros c Hc. exists (Fail e), c. destruct Hc. repeat split; (done || lia). Qed.

Lemma safe_bind_strong {A B} (m : Dec A) (k : A -> Dec B) :
  Safe m -> (forall a c c', m c = (Ok a, c') -> Safe (k a)) -> Safe (bind m k).
Proof.
  intros Hm Hk c Hc. destruct (Hm c Hc) as (o & c' & E & Ho & Hb & Hoff).
  unfold bind. rewrite E. destruct o as [a|e|]; [|by eauto 10|done].
  assert (wf_cursor c') as Hc' by (unfold wf_cursor in *; rewrite Hb; lia).
  destruct (Hk _ _ _ E c' Hc') as (o' & c'' & E' & Ho' & Hb' & Hoff').
  exists o', c''. rewrite Hb in *. repeat split; (done || lia || congruence).
Qed.

#[global] Instance safe_bind {A B} (m : Dec A) (k : A -> Dec B) :
  Safe m -> (forall a, Safe (k a)) -> Safe (bind m k).
Proof. intros ? Hk. apply safe_bind_strong; [done|]. intros a ???. apply Hk. Qed.

#[global] Instance safe_if {A} (b : bool) (d1 d2 : Dec A) :
  Safe d1 -> Safe d2 -> Safe (if b then d1 else d2).
Proof. by destruct b. Qed.

#[global] Instance safe_replicateM {A} n (d : Dec A) : Safe d -> Safe (replicateM n d).
Proof. intros Hd. induction n as [|n IH]; simpl; apply _. Qed.

#[global] Instance safe_for_range n d : Safe d -> Safe (for_range n d).
Proof.
  intros Hd. destruct n as [|p|p]; simpl; [apply _| |apply _].
  induction p as [q IH|q IH|]; simpl; apply _.
Qed.

#[global] Instance safe_Skip n : Safe (Skip n).
Proof.
  intros c [??]. unfold Skip. destr_ltb; simpl; solve_safe.
Qed.

Lemma go_slice_1 (b : list byte) o :
  0 <= o -> o + 1 <= len b -> exists x, go_slice b o (o + 1) = Some [x].
Proof.
  intros. rewrite go_slice_some by lia. unfold len in *.
  replace (o + 1 - o) with 1 by lia. destruct (drop (Z.to_nat o) b) as [|x l] eqn:E.
  - apply (f_equal length) in E. rewrite length_drop in E. simpl in E. lia.
  - exists x. done.
Qed.

#[global] Instance safe_ReadInt8 : Safe ReadInt8.
Proof.
  intros c [??]. unfold ReadInt8. destruct (Z.ltb_spec (len (buf c)) (off c + 1)).
  - solve_safe.
  - destruct (go_slice_1 (buf c) (off c)) as [x ->]; [lia..|].
    solve_safe.
Qed.

#[global] Instance safe_read_be k : Safe (read_be k).
Proof.
  intros c [??]. unfold read_be. destruct (Z.ltb_spec (len (buf c)) (off c + Z.of_nat k)).
  - solve_safe.
  - rewrite go_slice_some by lia. unfold be_uint.
    destruct (Z.ltb_spec (len (take (Z.to_nat (len (buf c) - off c))
      (drop (Z.to_nat (off c)) (buf c)))) (Z.of_nat k)) as [Hlt|_].
    + unfold len in *. rewrite length_take, length_drop in Hlt. lia.
    + solve_safe.
Qed.

#[global] Instance safe_ReadInt16 : Safe ReadInt16 := safe_read_be 2.
#[global] Instance safe_ReadInt32 : Safe ReadInt32 := safe_read_be 4.
#[global] Instance safe_ReadInt64 : Safe ReadInt64 := safe_read_be 8.

(** [read_n] slices [c.buf[c.off:c.off+n]], which panics for a negative [n]:
    every caller has excluded it. *)
Lemma safe_read_n n : 0 <= n -> Safe (read_n n).
Proof.
  intros Hn c [??]. unfold read_n. destruct (Z.ltb_spec (len (buf c)) (off c + n)).
  - solve_safe.
  - rewrite go_slice_some by lia. solve_safe.
Qed.

Lemma safe_uvarint_loop k v shift : Safe (uvarint_loop k v shift).
Proof.
  revert v shift. induction k as [|k IH]; intros v shift c [??]; simpl.
  - solve_safe.
  - destruct (Z.leb_spec (len (buf c)) (off c)).
    { solve_safe. }
    destruct (go_slice_1 (buf c) (off c)) as [x ->]; [lia..|].
    destruct (_ =? 0).
    { solve_safe. }
    destruct (IH (Z.lor v (uwrap 32 (Z.shiftl (Z.land (byte_val x) 127) shift)))
                 (shift + 7) (advance c 1)) as (o & c' & -> & Ho & Hb & Hoff).
    { unfold wf_cursor; simpl; lia. }
    simpl in *. exists o, c'. repeat split; (done || lia).
Qed.

#[global] Instance safe_ReadUvarint : Safe ReadUvarint := safe_uvarint_loop 5 0 0.

(** ** The values a reader yields *)

(** Every value [d] returns, from any cursor, satisfies [P]. *)
Definition yields {A} (d : Dec A) (P : A -> Prop) : Prop :=
  forall c a c', d c = (Ok a, c') -> P a.

Lemma bind_ok {A B} (m : Dec A) (k : A -> Dec B) c b c' :
  bind m k c = (Ok b, c') -> exists a c1, m c = (Ok a, c1) /\ k a c1 = (Ok b, c').
Proof. unfold bind. destruct (m c) as [[a| |] c1]; [eauto|done..]. Qed.

Lemma yields_ret {A} (a : A) (P : A -> Prop) : P a -> yields (ret a) P.
Proof. intros ???? [= <- <-]. done. Qed.

Lemma yields_fail {A} e (P : A -> Prop) : yields (fail e) P.
Proof. by intros ???. Qed.

Lemma yields_bind {A B} (m : Dec A) (k : A -> Dec B) P Q :
  yields m P -> (forall a, P a -> yields (k a) Q) -> yields (bind m k) Q.
Proof. intros Hm Hk c b c' (a & c1 & E1 & E2)%bind_ok. eapply Hk; eauto. Qed.

Lemma yields_any {A} (d : Dec A) : yields d (fun _ => True).
Proof. done. Qed.

Lemma yields_weaken {A} (d : Dec A) (P Q : A -> Prop) :
  yields d P -> (forall a, P a -> Q a) -> yields d Q.
Proof. intros H HPQ c a c' E. eauto. Qed.

Lemma yields_replicateM {A} n (d : Dec A) P :
  yields d P -> yields (replicateM n d) (fun xs => Forall P xs /\ length xs = n).
Proof.
  intros Hd. induction n as [|n IH]; simpl.
  - by apply yields_ret.
  - eapply yields_bind; [exact Hd|]. intros x Hx.
    eapply yields_bind; [exact IH|]. intros xs [Hxs Hl].
    apply yields_ret. split; [by constructor | simpl; lia].
Qed.

Lemma yields_read_be k : (0 < k)%nat -> yields (read_be k) (in_int (8 * Z.of_nat k)).
Proof.
  intros Hk c a c' E. unfold read_be in E. destruct (_ <? _); [done|].
  destruct (go_slice _ _ _); [|done]. destruct (be_uint _ _); [|done].
  injection E as <- <-. apply swrap_range. lia.
Qed.

Lemma yields_ReadInt8 : yields ReadInt8 int8.
Proof.
  intros c a c' E. unfold ReadInt8 in E. destruct (_ <? _); [done|].
  destruct (go_slice _ _ _) as [[|b [|??]]|]; try done.
  injection E as <- <-. by apply swrap_range.
Qed.

Lemma yields_ReadInt16 : yields ReadInt16 int16.
Proof. apply (yields_read_be 2). lia. Qed.
Lemma yields_ReadInt32 : yields ReadInt32 int32.
Proof. apply (yields_read_be 4). lia. Qed.
Lemma yields_ReadInt64 : yields ReadInt64 int64.
Proof. apply (yields_read_be 8). lia. Qed.

Lemma yields_read_n n : yields (read_n n) (fun b => len b = n).
Proof.
  intros c a c' E. unfold read_n in E. destruct (_ <? _); [done|].
  destruct (go_slice _ _ _) eqn:F; [|done]. injection E as <- <-.
  apply go_slice_len in F. lia.
Qed.

Lemma lor_uint32 a b : uint32 a -> uint32 b -> uint32 (Z.lor a b).
Proof.
  unfold in_uint. intros Ha Hb. split; [apply Z.lor_nonneg; lia|].
  destruct (Z.eq_dec (Z.lor a b) 0) as [->|?]; [lia|].
  apply Z.log2_lt_pow2; [pose proof (Z.lor_nonneg a b); lia|].
  rewrite Z.log2_lor by lia. apply Z.max_lub_lt.
  - destruct (Z.eq_dec a 0) as [->|]; [done|]. apply Z.log2_lt_pow2; lia.
  - destruct (Z.eq_dec b 0) as [->|]; [done|]. apply Z.log2_lt_pow2; lia.
Qed.

Lemma yields_uvarint_loop k v shift :
  uint32 v -> yields (uvarint_loop k v shift) uint32.
Proof.
  revert v shift. induction k as [|k IH]; intros v shift Hv c a c' E; simpl in E; [done|].
  destruct (_ <=? _); [done|].
  destruct (go_slice _ _ _) as [[|b [|??]]|]; try done.
  assert (uint32 (Z.lor v (uwrap 32 (Z.shiftl (Z.land (byte_val b) 127) shift)))) as Hv'.
  { apply lor_uint32; [done|]. by apply uwrap_range. }
  destruct (_ =? 0); [by injection E as <- <-|]. exact (IH _ _ Hv' _ _ _ E).
Qed.

Lemma yields_ReadUvarint : yields ReadUvarint uint32.
Proof. apply yields_uvarint_loop. by vm_compute. Qed.

(** *** Strings, bytes and array lengths *)

(** What fits the two string encodings: an [int16] length, or an unsigned
    varint holding the length plus one. *)
Definition str16 (s : string) : Prop := slen s < 2 ^ 15.
Definition str_compact (s : string) : Prop := slen s + 1 < 2 ^ 32.
Definition bytes32 (b : list byte) : Prop := len b < 2 ^ 31.
Definition bytes_compact (b : list byte) : Prop := len b + 1 < 2 ^ 32.

(** A nullable value: the null flag comes with the zero value. *)
Definition nullable {A} (zero : A) (P : A -> Prop) (x : A * bool) : Prop :=
  if snd x then fst x = zero else P (fst x).

Ltac yields_step :=
  first
    [ apply yields_fail
    | apply yields_ret
    | eapply yields_bind; [solve [eauto with kwire]|]; intros ? ?
    | match goal with |- yields (if ?b then _ else _) _ => destruct b eqn:? end ].

#[export] Hint Resolve yields_ReadInt8 yields_ReadInt16 yields_ReadInt32
  yields_ReadInt64 yields_ReadUvarint yields_read_n : kwire.

Lemma yields_ReadString : yields ReadString str16.
Proof.
  unfold ReadString. repeat yields_step. unfold str16, in_int in *.
  rewrite slen_of_bytes. lia.
Qed.

Lemma yields_ReadNullableString : yields ReadNullableString (nullable ""%string str16).
Proof.
  unfold ReadNullableString. repeat yields_step; unfold nullable, str16, in_int in *; simpl.
  - done.
  - rewrite slen_of_bytes. lia.
Qed.

Lemma yields_ReadBytes : yields ReadBytes bytes32.
Proof.
  unfold ReadBytes. repeat yields_step.
  eapply yields_weaken; [apply yields_read_n|]. unfold bytes32, in_int in *. lia.
Qed.

Lemma yields_ReadNullableBytes : yields ReadNullableBytes (nullable [] bytes32).
Proof.
  unfold ReadNullableBytes. repeat yields_step;
    unfold nullable, bytes32, in_int in *; simpl; (done || lia).
Qed.

Lemma yields_ReadCompactString : yields ReadCompactString str_compact.
Proof.
  unfold ReadCompactString. repeat yields_step. unfold str_compact, in_uint in *.
  rewrite slen_of_bytes. lia.
Qed.

Lemma yields_ReadCompactNullableString :
  yields ReadCompactNullableString (nullable ""%string str_compact).
Proof.
  unfold ReadCompactNullableString.
  repeat yields_step; unfold nullable, str_compact, in_uint in *; simpl.
  - done.
  - rewrite slen_of_bytes. lia.
Qed.

Lemma yields_ReadCompactBytes : yields ReadCompactBytes bytes_compact.
Proof.
  unfold ReadCompactBytes. repeat yields_step.
  eapply yields_weaken; [apply yields_read_n|]. unfold bytes_compact, in_uint in *. lia.
Qed.

Lemma yields_ReadCompactNullableBytes :
  yields ReadCompactNullableBytes (nullable [] bytes_compact).
Proof.
  unfold ReadCompactNullableBytes. repeat yields_step;
    unfold nullable, bytes_compact, in_uint in *; simpl; (done || lia).
Qed.

Lemma yields_ReadArrayLen : yields ReadArrayLen (fun p => 0 <= fst p < 2 ^ 31).
Proof.
  unfold ReadArrayLen. eapply yields_bind; [apply yields_ReadInt32|]. intros v Hv.
  destruct (Z.ltb_spec v 0); [by apply yields_ret|].
  intros c a c' E. destruct (_ <? _); [done|]. injection E as <- <-.
  unfold in_int in Hv. simpl in *. lia.
Qed.

Lemma yields_ReadCompactArrayLen :
  yields ReadCompactArrayLen (fun p => 0 <= fst p /\ fst p + 1 < 2 ^ 32).
Proof.
  unfold ReadCompactArrayLen. eapply yields_bind; [apply yields_ReadUvarint|]. intros v Hv.
  destruct (Z.eqb_spec v 0); [by apply yields_ret|].
  intros c a c' E. destruct (_ || _); [done|]. injection E as <- <-.
  unfold in_uint in Hv. simpl in *. lia.
Qed.

#[export] Hint Resolve yields_ReadString yields_ReadNullableString yields_ReadBytes
  yields_ReadNullableBytes yields_ReadCompactString yields_ReadCompactNullableString
  yields_ReadCompactBytes yields_ReadCompactNullableBytes yields_ReadArrayLen
  yields_ReadCompactArrayLen : kwire.

(** *** Safety of the composite readers *)

#[global] Instance safe_ReadString : Safe ReadString.
Proof.
  unfold ReadString. apply safe_bind; [apply _|]. intros n.
  destruct (Z.ltb_spec n 0); [apply _|]. apply safe_bind; [by apply safe_read_n|apply _].
Qed.

#[global] Instance safe_ReadNullableString : Safe ReadNullableString.
Proof.
  unfold ReadNullableString. apply safe_bind; [apply _|]. intros n.
  destruct (Z.ltb_spec n 0); [apply _|]. apply safe_bind; [by apply safe_read_n|apply _].
Qed.

#[global] Instance safe_ReadBytes : Safe ReadBytes.
Proof.
  unfold ReadBytes. apply safe_bind; [apply _|]. intros n.
  destruct (Z.ltb_spec n 0); [apply _|]. by apply safe_read_n.
Qed.

#[global] Instance safe_ReadNullableBytes : Safe ReadNullableBytes.
Proof.
  unfold ReadNullableBytes. apply safe_bind; [apply _|]. intros n.
  destruct (Z.ltb_spec n 0); [apply _|]. apply safe_bind; [by apply safe_read_n|apply _].
Qed.

(** The compact readers slice [n-1] bytes for the varint [n <> 0] just read. *)
Lemma safe_compact {A} (null : Dec A) (k : list byte -> Dec A) :
  Safe null -> (forall b, Safe (k b)) ->
  Safe (n <- ReadUvarint ;; if n =? 0 then null else b <- read_n (n - 1) ;; k b).
Proof.
  intros ??. apply safe_bind_strong; [apply _|]. intros n c c' E%yields_ReadUvarint.
  destruct (Z.eqb_spec n 0); [done|]. apply safe_bind; [|done].
  apply safe_read_n. destruct E. lia.
Qed.

#[global] Instance safe_ReadCompactString : Safe ReadCompactString.
Proof. apply safe_compact; apply _. Qed.
#[global] Instance safe_ReadCompactNullableString : Safe ReadCompactNullableString.
Proof. apply safe_compact; apply _. Qed.
#[global] Instance safe_ReadCompactNullableBytes : Safe ReadCompactNullableBytes.
Proof. apply safe_compact; apply _. Qed.
#[global] Instance safe_ReadCompactBytes : Safe ReadCompactBytes.
Proof.
  unfold ReadCompactBytes. apply safe_bind_strong; [apply _|].
  intros n c c' E%yields_ReadUvarint.
  destruct (Z.eqb_spec n 0); [apply _|]. apply safe_read_n. destruct E. lia.
Qed.

#[global] Instance safe_guard {A} (cond : Cursor -> bool) e (a : A) :
  Safe (fun c => if cond c then (Fail e, c) else (Ok a, c)).
Proof. intros c [??]. destruct (cond c); solve_safe. Qed.

#[global] Instance safe_ReadArrayLen : Safe ReadArrayLen.
Proof. unfold ReadArrayLen. apply _. Qed.
#[global] Instance safe_ReadCompactArrayLen : Safe ReadCompactArrayLen.
Proof.
  unfold ReadCompactArrayLen. apply safe_bind; [apply _|]. intros v.
  destruct (v =? 0); [apply _|]. apply (safe_guard (fun c => _ || (Remaining c <? _))).
Qed.
#[global] Instance safe_SkipTaggedFields : Safe SkipTaggedFields.
Proof. unfold SkipTaggedFields. apply _. Qed.

(** ** Appenders extend their destination *)

(** [f dst a] only appends: what it writes does not depend on [dst]. *)
Class Appender {A} (f : list byte -> A -> list byte) : Prop :=
  append_app : forall dst a, f dst a = dst ++ f [] a.

#[global] Instance appender_int8 : Appender AppendInt8.
Proof. by intros dst v. Qed.
#[global] Instance appender_int16 : Appender AppendInt16.
Proof. by intros dst v. Qed.
#[global] Instance appender_int32 : Appender AppendInt32.
Proof. by intros dst v. Qed.
#[global] Instance appender_int64 : Appender AppendInt64.
Proof. by intros dst v. Qed.

#[global] Instance appender_uvarint_loop fuel : Appender (append_uvarint fuel).
Proof.
  induction fuel as [|fuel IH]; intros dst v; simpl; [done|].
  destruct (128 <=? v); [|done]. rewrite IH, (IH [_]). by rewrite <- app_assoc.
Qed.

#[global] Instance appender_uvarint : Appender AppendUvarint := appender_uvarint_loop 5.

Lemma append_tagged dst : AppendEmptyTaggedFields dst = dst ++ [Byte.x00].
Proof. done. Qed.

#[global] Instance appender_string : Appender AppendString.
Proof. intros dst v. unfold AppendString. rewrite (appender_int16 dst). by rewrite <- app_assoc. Qed.
#[global] Instance appender_bytes : Appender AppendBytes.
Proof. intros dst v. unfold AppendBytes. rewrite (appender_int32 dst). by rewrite <- app_assoc. Qed.
#[global] Instance appender_compact_string : Appender AppendCompactString.
Proof. intros dst v. unfold AppendCompactString. rewrite (appender_uvarint dst). by rewrite <- app_assoc. Qed.
#[global] Instance appender_compact_bytes : Appender AppendCompactBytes.
Proof. intros dst v. unfold AppendCompactBytes. rewrite (appender_uvarint dst). by rewrite <- app_assoc. Qed.

Lemma append_nullable_string dst s b :
  AppendNullableString dst s b = dst ++ AppendNullableString [] s b.
Proof. destruct b; [apply appender_int16|apply appender_string]. Qed.
Lemma append_nullable_bytes dst s b :
  AppendNullableBytes dst s b = dst ++ AppendNullableBytes [] s b.
Proof. destruct b; [apply appender_int32|apply appender_bytes]. Qed.
Lemma append_compact_nullable_string dst s b :
  AppendCompactNullableString dst s b = dst ++ AppendCompactNullableString [] s b.
Proof. destruct b; [apply appender_uvarint|apply appender_compact_string]. Qed.
Lemma append_compact_nullable_bytes dst s b :
  AppendCompactNullableBytes dst s b = dst ++ AppendCompactNullableBytes [] s b.
Proof. destruct b; [apply appender_uvarint|apply appender_compact_bytes]. Qed.
Lemma append_array_len dst n b : AppendArrayLen dst n b = dst ++ AppendArrayLen [] n b.
Proof. destruct b; apply appender_int32. Qed.
Lemma append_compact_array_len dst n b :
  AppendCompactArrayLen dst n b = dst ++ AppendCompactArrayLen [] n b.
Proof. destruct b; apply appender_uvarint. Qed.

(** A [for _, x := range xs { dst = f(dst, x) }] loop. *)
Lemma append_fold {A} (f : list byte -> A -> list byte) `{!Appender f} xs dst :
  fold_left f xs dst = dst ++ concat (map (f []) xs).
Proof.
  revert dst. induction xs as [|x xs IH]; intros dst; simpl.
  - by rewrite app_nil_r.
  - by rewrite IH, (append_app dst), app_assoc.
Qed.

(** ** Round trips *)

(** [d] reads exactly the bytes [bs], wherever they are in the buffer, and
    returns [a]. *)
Definition decodes {A} (d : Dec A) (bs : list byte) (a : A) : Prop :=
  forall pre rest,
    d {| buf := pre ++ bs ++ rest; off := len pre |} =
    (Ok a, {| buf := pre ++ bs ++ rest; off := len pre + len bs |}).

Lemma decodes_run {A} (d : Dec A) bs a rest :
  decodes d bs a -> run_dec d (bs ++ rest) = Ok a.
Proof. intros H. exact (f_equal fst (H [] rest)). Qed.

Lemma decodes_run_nil {A} (d : Dec A) bs a : decodes d bs a -> run_dec d bs = Ok a.
Proof. intros H. rewrite <- (app_nil_r bs). by apply decodes_run. Qed.

Lemma decodes_ret {A} (a : A) : decodes (ret a) [] a.
Proof. intros pre rest. unfold ret. by rewrite Z.add_0_r. Qed.

Lemma decodes_bind {A B} (m : Dec A) (k : A -> Dec B) bs1 bs2 a b :
  decodes m bs1 a -> decodes (k a) bs2 b -> decodes (bind m k) (bs1 ++ bs2) b.
Proof.
  intros Hm Hk pre rest. unfold bind.
  rewrite <- (app_assoc bs1), (Hm pre (bs2 ++ rest)).
  replace (pre ++ bs1 ++ bs2 ++ rest) with ((pre ++ bs1) ++ bs2 ++ rest)
    by by rewrite <- !app_assoc.
  replace (len pre + len bs1) with (len (pre ++ bs1)) by len_lia.
  rewrite Hk. do 2 f_equal. len_lia.
Qed.

(** The last reader of a sequence, with nothing read after it. *)
Lemma decodes_bind_nil {A B} (m : Dec A) (k : A -> Dec B) bs a b :
  decodes m bs a -> decodes (k a) [] b -> decodes (bind m k) bs b.
Proof. intros. rewrite <- (app_nil_r bs). by eapply decodes_bind. Qed.

Lemma decodes_ret_bind {A B} (a : A) (k : A -> Dec B) bs b :
  decodes (k a) bs b -> decodes (bind (ret a) k) bs b.
Proof. done. Qed.

Lemma decodes_replicateM {A} (d : Dec A) (e : A -> list byte) xs :
  Forall (fun x => decodes d (e x) x) xs ->
  decodes (replicateM (length xs) d) (concat (map e xs)) xs.
Proof.
  induction 1 as [|x xs Hx Hxs IH]; simpl; [apply decodes_ret|].
  eapply decodes_bind; [exact Hx|]. eapply decodes_bind_nil; [exact IH|]. apply decodes_ret.
Qed.

Lemma decodes_read_be k w v :
  w = 8 * Z.of_nat k -> 0 < w -> in_int w v ->
  decodes (read_be k) (be_bytes k (uwrap w v)) v.
Proof.
  intros Hw Hpos Hv pre rest. unfold read_be, be_uint; simpl.
  destruct (Z.ltb_spec (len (pre ++ be_bytes k (uwrap w v) ++ rest)) (len pre + Z.of_nat k)).
  { len_lia. }
  rewrite go_slice_some by len_lia. rewrite len_to_nat, drop_app_length.
  replace (len (pre ++ be_bytes k (uwrap w v) ++ rest) - len pre)
    with (len (be_bytes k (uwrap w v) ++ rest)) by len_lia.
  rewrite len_to_nat, firstn_all.
  destruct (Z.ltb_spec (len (be_bytes k (uwrap w v) ++ rest)) (Z.of_nat k)); [len_lia|].
  rewrite take_app_length' by by rewrite length_be_bytes.
  rewrite be_val_bytes_uwrap by lia. rewrite <- Hw, swrap_uwrap_id by done.
  unfold advance; simpl. by rewrite len_be_bytes.
Qed.

Lemma decodes_ReadInt16 v : int16 v -> decodes ReadInt16 (AppendInt16 [] v) v.
Proof. intros. by apply (decodes_read_be 2). Qed.
Lemma decodes_ReadInt32 v : int32 v -> decodes ReadInt32 (AppendInt32 [] v) v.
Proof. intros. by apply (decodes_read_be 4). Qed.
Lemma decodes_ReadInt64 v : int64 v -> decodes ReadInt64 (AppendInt64 [] v) v.
Proof. intros. by apply (decodes_read_be 8). Qed.

Lemma go_slice_mid_1 {A} (pre : list A) x rest :
  go_slice (pre ++ x :: rest) (len pre) (len pre + 1) = Some [x].
Proof. apply (go_slice_mid pre [x] rest). Qed.

Lemma decodes_ReadInt8 v : int8 v -> decodes ReadInt8 (AppendInt8 [] v) v.
Proof.
  intros Hv pre rest. unfold ReadInt8, AppendInt8; simpl.
  destruct (Z.ltb_spec (len (pre ++ byte_of (uwrap 8 v) :: rest)) (len pre + 1)); [len_lia|].
  rewrite go_slice_mid_1. unfold advance; simpl.
  rewrite byte_val_of. change 256 with (2 ^ 8). fold (uwrap 8 (uwrap 8 v)).
  rewrite (uwrap_id 8 (uwrap 8 v)) by by apply uwrap_range.
  by rewrite swrap_uwrap_id.
Qed.

Lemma decodes_read_n b : decodes (read_n (len b)) b b.
Proof.
  intros pre rest. unfold read_n; simpl.
  destruct (Z.ltb_spec (len (pre ++ b ++ rest)) (len pre + len b)); [len_lia|].
  by rewrite go_slice_mid.
Qed.

(** *** Unsigned varints *)

(** Once [v] fits the bytes the fuel allows, more fuel changes nothing: the
    loop left by its own condition. *)
Lemma append_uvarint_fuel f f' dst v :
  (f <= f')%nat -> 0 <= v < 2 ^ (7 * Z.of_nat (S f)) ->
  append_uvarint f' dst v = append_uvarint f dst v.
Proof.
  revert f' dst v. induction f as [|f IH]; intros f' dst v Hle Hv.
  - destruct f' as [|f']; [done|]. simpl in *. destruct (Z.leb_spec 128 v); [lia|done].
  - destruct f' as [|f']; [lia|]. simpl. destruct (128 <=? v); [|done].
    apply IH; [lia|]. rewrite Z.shiftr_div_pow2 by lia.
    replace (7 * Z.of_nat (S (S f))) with (7 + 7 * Z.of_nat (S f)) in Hv by lia.
    rewrite Z.pow_add_r in Hv by lia. split; [apply Z.div_pos; lia|].
    apply Z.div_lt_upper_bound; lia.
Qed.

Lemma land_127 z : Z.land z 127 = z mod 128.
Proof. change 127 with (Z.ones 7). by rewrite Z.land_ones. Qed.

Lemma byte_cont v :
  byte_val (byte_of (Z.lor (uwrap 8 v) 128)) = 128 + v mod 128.
Proof.
  rewrite byte_val_of. unfold uwrap. change (2 ^ 8) with 256.
  assert (exists q r, v = 256 * q + r /\ 0 <= r < 256) as (q & r & -> & Hr).
  { exists (v / 256), (v mod 256). pose proof (Z.div_mod v 256). pose proof (Z.mod_pos_bound v 256). lia. }
  rewrite (Z.add_comm (256 * q)), (Z.mul_comm 256), Z.mod_add, (Z.mod_small r) by lia.
  replace ((r + q * 256) mod 128) with (r mod 128)
    by (replace (r + q * 256) with (r + (q * 2) * 128) by lia; by rewrite Z.mod_add by lia).
  assert (forall n : nat, (n < 256)%nat ->
    Z.lor (Z.of_nat n) 128 mod 256 = 128 + Z.of_nat n mod 128) as Hall.
  { intros n Hn. do 256 (destruct n as [|n]; [vm_compute; reflexivity|]). lia. }
  specialize (Hall (Z.to_nat r)). rewrite Z2Nat.id in Hall by lia. apply Hall. lia.
Qed.

Lemma cont_bit_set r : 0 <= r < 128 -> Z.land (128 + r) 128 <> 0.
Proof.
  intros Hr E. assert (Z.testbit (Z.land (128 + r) 128) 7 = false) as H
    by (rewrite E; apply Z.bits_0).
  rewrite Z.land_spec in H. change (Z.testbit 128 7) with true in H. rewrite andb_true_r in H.
  rewrite Z.testbit_false in H by lia. change (2 ^ 7) with 128 in H.
  replace (128 + r) with (r + 1 * 128) in H by lia.
  rewrite Z.div_add, Z.div_small in H by lia. done.
Qed.

Lemma cont_bit_clear r : 0 <= r < 128 -> Z.land r 128 = 0.
Proof.
  intros Hr. apply Z.bits_inj'. intros n Hn. rewrite Z.land_spec, Z.bits_0.
  destruct (Z.eq_dec n 7) as [->|].
  - rewrite <- (Z.mod_small r (2 ^ 7)) by lia. by rewrite Z.mod_pow2_bits_high by lia.
  - change 128 with (2 ^ 7). by rewrite Z.pow2_bits_false, andb_false_r by lia.
Qed.

Lemma uvarint_acc acc x shift :
  0 <= shift -> 0 <= acc < 2 ^ shift -> 0 <= x -> x * 2 ^ shift < 2 ^ 32 ->
  Z.lor acc (uwrap 32 (Z.shiftl x shift)) = acc + x * 2 ^ shift.
Proof.
  intros. rewrite uwrap_id.
  - rewrite Z.lor_comm, lor_shiftl_add by lia. lia.
  - rewrite Z.shiftl_mul_pow2 by lia. unfold in_uint. nia.
Qed.

Lemma decodes_uvarint_loop k acc shift v :
  0 <= shift -> 0 <= acc < 2 ^ shift -> 0 <= v -> v * 2 ^ shift < 2 ^ 32 ->
  v < 2 ^ (7 * Z.of_nat k) -> (0 < k)%nat ->
  decodes (uvarint_loop k acc shift) (append_uvarint k [] v) (acc + v * 2 ^ shift).
Proof.
  revert acc shift v. induction k as [|k IH]; intros acc shift v Hs Hacc Hv Hv32 Hvk Hk; [lia|].
  pose proof (pow2_pos shift Hs). pose proof (Z.mod_pos_bound v 128 ltac:(lia)).
  pose proof (Z.div_mod v 128 ltac:(lia)) as Hdiv.
  intros pre rest. cbn [append_uvarint uvarint_loop]. destruct (Z.leb_spec 128 v).
  - cbn [app]. set (b := byte_of _). rewrite !(appender_uvarint_loop k [b]). cbn [app].
    assert (0 < Z.of_nat k) as Hk'.
    { destruct k; [|lia]. change (2 ^ (7 * Z.of_nat 1)) with 128 in Hvk. lia. }
    simpl. destruct (Z.leb_spec (len (pre ++ b :: append_uvarint k [] (Z.shiftr v 7) ++ rest))
      (len pre)); [len_lia|].
    rewrite go_slice_mid_1. subst b. rewrite byte_cont.
    destruct (Z.eqb_spec (Z.land (128 + v mod 128) 128) 0) as [E|_];
      [by apply cont_bit_set in E|].
    rewrite land_127.
    replace ((128 + v mod 128) mod 128) with (v mod 128)
      by (replace (128 + v mod 128) with (v mod 128 + 1 * 128) by lia;
          rewrite Z.mod_add by lia; by rewrite Z.mod_mod by lia).
    rewrite uvarint_acc by nia.
    rewrite Z.shiftr_div_pow2 by lia. change (2 ^ 7) with 128.
    assert (2 ^ (shift + 7) = 2 ^ shift * 128) as Hpow by (rewrite Z.pow_add_r by lia; done).
    assert (v / 128 < 2 ^ (7 * Z.of_nat k)) as Hv7.
    { replace (7 * Z.of_nat (S k)) with (7 + 7 * Z.of_nat k) in Hvk by lia.
      rewrite Z.pow_add_r in Hvk by lia. apply Z.div_lt_upper_bound; lia. }
    pose proof (IH (acc + v mod 128 * 2 ^ shift) (shift + 7) (v / 128) ltac:(lia)
      ltac:(nia) ltac:(apply Z.div_pos; lia) ltac:(nia) Hv7 ltac:(lia)
      (pre ++ [byte_of (Z.lor (uwrap 8 v) 128)]) rest) as Hrec.
    rewrite <- app_assoc in Hrec. simpl in Hrec. unfold advance; simpl.
    replace (len pre + 1) with (len (pre ++ [byte_of (Z.lor (uwrap 8 v) 128)])) by len_lia.
    rewrite Hrec. f_equal; [f_equal; nia|]. f_equal. len_lia.
  - simpl. destruct (Z.leb_spec (len (pre ++ byte_of v :: rest)) (len pre)); [len_lia|].
    rewrite go_slice_mid_1, byte_val_of, (Z.mod_small v) by lia.
    rewrite cont_bit_clear by lia. simpl.
    rewrite land_127, (Z.mod_small v 128), uvarint_acc by lia. done.
Qed.

Lemma decodes_ReadUvarint v : uint32 v -> decodes ReadUvarint (AppendUvarint [] v) v.
Proof.
  intros [??]. replace v with (0 + v * 2 ^ 0) at 2 by lia.
  change (2 ^ 32) with 4294967296 in *.
  apply decodes_uvarint_loop; (lia || (simpl; lia)).
Qed.

(** *** Strings, bytes and array lengths *)

Lemma swrap_small w n : 0 < w -> 0 <= n < 2 ^ (w - 1) -> swrap w n = n.
Proof. intros. apply swrap_id; [done|]. unfold in_int. lia. Qed.

Lemma decodes_prefixed16 {A} (neg : Dec A) (k : list byte -> Dec A) b a :
  len b < 2 ^ 15 -> decodes (k b) [] a ->
  decodes (n <- ReadInt16 ;; if n <? 0 then neg else b <- read_n n ;; k b)
          (AppendInt16 [] (swrap 16 (len b)) ++ b) a.
Proof.
  intros Hb Hk. pose proof (len_nonneg b).
  rewrite swrap_small by (simpl; lia).
  eapply decodes_bind; [apply decodes_ReadInt16; unfold in_int; simpl; lia|].
  destruct (Z.ltb_spec (len b) 0); [lia|].
  eapply decodes_bind_nil; [apply decodes_read_n|done].
Qed.

Lemma decodes_prefixed32 {A} (neg : Dec A) (k : list byte -> Dec A) b a :
  len b < 2 ^ 31 -> decodes (k b) [] a ->
  decodes (n <- ReadInt32 ;; if n <? 0 then neg else b <- read_n n ;; k b)
          (AppendInt32 [] (swrap 32 (len b)) ++ b) a.
Proof.
  intros Hb Hk. pose proof (len_nonneg b).
  rewrite swrap_small by (simpl; lia).
  eapply decodes_bind; [apply decodes_ReadInt32; unfold in_int; simpl; lia|].
  destruct (Z.ltb_spec (len b) 0); [lia|].
  eapply decodes_bind_nil; [apply decodes_read_n|done].
Qed.

Lemma decodes_compact {A} (null : Dec A) (k : list byte -> Dec A) b a :
  len b + 1 < 2 ^ 32 -> decodes (k b) [] a ->
  decodes (n <- ReadUvarint ;; if n =? 0 then null else b <- read_n (n - 1) ;; k b)
          (AppendUvarint [] (uwrap 32 (len b + 1)) ++ b) a.
Proof.
  intros Hb Hk. pose proof (len_nonneg b).
  rewrite uwrap_id by (unfold in_uint; lia).
  eapply decodes_bind; [apply decodes_ReadUvarint; unfold in_uint; lia|].
  destruct (Z.eqb_spec (len b + 1) 0); [lia|].
  replace (len b + 1 - 1) with (len b) by lia.
  eapply decodes_bind_nil; [apply decodes_read_n|done].
Qed.

Lemma decodes_string_of_bytes {A} (f : string -> A) s :
  decodes (ret (f (string_of_bytes (bytes_of_string s)))) [] (f s).
Proof. rewrite string_of_bytes_of_string. apply decodes_ret. Qed.

Lemma decodes_ext {A} (d d' : Dec A) bs a :
  d ≡ d' -> decodes d bs a -> decodes d' bs a.
Proof. intros [E] H pre rest. by rewrite <- E. Qed.

Lemma decodes_ReadString s : str16 s -> decodes ReadString (AppendString [] s) s.
Proof. intros. apply decodes_prefixed16; [done|]. apply (decodes_string_of_bytes id). Qed.

Lemma decodes_ReadNullableString s b :
  nullable ""%string str16 (s, b) ->
  decodes ReadNullableString (AppendNullableString [] s b) (s, b).
Proof.
  unfold nullable; destruct b; simpl; intros H.
  - subst s. eapply decodes_bind_nil;
      [apply decodes_ReadInt16; unfold in_int; simpl; lia | apply decodes_ret].
  - apply decodes_prefixed16; [done|]. apply (decodes_string_of_bytes (fun s => (s, false))).
Qed.

Lemma decodes_ReadBytes b : bytes32 b -> decodes ReadBytes (AppendBytes [] b) b.
Proof.
  intros. unfold ReadBytes.
  eapply decodes_ext, (decodes_prefixed32 (fail ErrMalformed) ret); [|done|apply decodes_ret].
  apply bind_proper; [done|]. intros n. destruct (n <? 0); [done|]. apply bind_ret_r.
Qed.

Lemma decodes_ReadNullableBytes x b :
  nullable [] bytes32 (x, b) ->
  decodes ReadNullableBytes (AppendNullableBytes [] x b) (x, b).
Proof.
  unfold nullable; destruct b; simpl; intros H.
  - subst x. eapply decodes_bind_nil;
      [apply decodes_ReadInt32; unfold in_int; simpl; lia | apply decodes_ret].
  - apply decodes_prefixed32; [done|]. apply decodes_ret.
Qed.

Lemma decodes_ReadCompactString s :
  str_compact s -> decodes ReadCompactString (AppendCompactString [] s) s.
Proof. intros. apply decodes_compact; [done|]. apply (decodes_string_of_bytes id). Qed.

Lemma decodes_ReadCompactNullableString s b :
  nullable ""%string str_compact (s, b) ->
  decodes ReadCompactNullableString (AppendCompactNullableString [] s b) (s, b).
Proof.
  unfold nullable; destruct b; simpl; intros H.
  - subst s. eapply decodes_bind_nil;
      [apply decodes_ReadUvarint; unfold in_uint; lia | apply decodes_ret].
  - apply decodes_compact; [done|]. apply (decodes_string_of_bytes (fun s => (s, false))).
Qed.

Lemma decodes_ReadCompactBytes b :
  bytes_compact b -> decodes ReadCompactBytes (AppendCompactBytes [] b) b.
Proof.
  intros. unfold ReadCompactBytes.
  eapply decodes_ext, (decodes_compact (fail ErrMalformed) ret); [|done|apply decodes_ret].
  apply bind_proper; [done|]. intros n. destruct (n =? 0); [done|]. apply bind_ret_r.
Qed.

Lemma decodes_ReadCompactNullableBytes x b :
  nullable [] bytes_compact (x, b) ->
  decodes ReadCompactNullableBytes (AppendCompactNullableBytes [] x b) (x, b).
Proof.
  unfold nullable; destruct b; simpl; intros H.
  - subst x. eapply decodes_bind_nil;
      [apply decodes_ReadUvarint; unfold in_uint; lia | apply decodes_ret].
  - apply decodes_compact; [done|]. apply decodes_ret.
Qed.

Lemma decodes_SkipTaggedFields : decodes SkipTaggedFields [Byte.x00] tt.
Proof.
  unfold SkipTaggedFields.
  eapply decodes_bind_nil; [apply (decodes_ReadUvarint 0); unfold in_uint; lia|].
  apply decodes_ret.
Qed.

(** An array length is accepted when at least that many bytes follow. *)
Lemma read_array_len pre n tail :
  0 <= n < 2 ^ 31 -> n <= len tail ->
  ReadArrayLen {| buf := pre ++ AppendArrayLen [] n false ++ tail; off := len pre |} =
  (Ok (n, false), {| buf := pre ++ AppendArrayLen [] n false ++ tail;
                     off := len pre + len (AppendArrayLen [] n false) |}).
Proof.
  intros Hn Ht. unfold ReadArrayLen, AppendArrayLen, bind.
  rewrite swrap_small by (simpl; lia).
  rewrite decodes_ReadInt32 by (unfold in_int; simpl; lia).
  destruct (Z.ltb_spec n 0); [lia|]. unfold Remaining; cbn [buf off].
  match goal with |- context [ ?a <? n ] => destruct (Z.ltb_spec a n) end; [len_lia|done].
Qed.

Lemma read_compact_array_len pre n tail :
  0 <= n -> n + 1 < 2 ^ 32 -> n <= len tail ->
  ReadCompactArrayLen {| buf := pre ++ AppendCompactArrayLen [] n false ++ tail; off := len pre |} =
  (Ok (n, false), {| buf := pre ++ AppendCompactArrayLen [] n false ++ tail;
                     off := len pre + len (AppendCompactArrayLen [] n false) |}).
Proof.
  intros Hn Hn' Ht. unfold ReadCompactArrayLen, AppendCompactArrayLen, bind.
  rewrite uwrap_id by (unfold in_uint; lia).
  rewrite decodes_ReadUvarint by (unfold in_uint; lia).
  destruct (Z.eqb_spec (n + 1) 0); [lia|]. unfold Remaining; cbn [buf off].
  replace (n + 1 - 1) with n by lia. destruct (Z.ltb_spec n 0); [lia|]. cbn [orb].
  match goal with |- context [ ?a <? n ] => destruct (Z.ltb_spec a n) end; [len_lia|done].
Qed.

Lemma len_append_int16 v : len (AppendInt16 [] v) = 2.
Proof. reflexivity. Qed.
Lemma len_append_int32 v : len (AppendInt32 [] v) = 4.
Proof. reflexivity. Qed.

#[export] Hint Rewrite len_append_int16 len_append_int32 : golib.

(** Proofs go through the lemmas above, not through the bytes. *)
#[global] Arguments AppendInt8 : simpl never.
#[global] Arguments AppendInt16 : simpl never.
#[global] Arguments AppendInt32 : simpl never.
#[global] Arguments AppendInt64 : simpl never.
#[global] Arguments AppendUvarint : simpl never.
#[global] Arguments AppendEmptyTaggedFields : simpl never.
#[global] Arguments be_bytes : simpl never.
