(* ===== verification/Codec.v ===== *)
(** * The shape shared by all message codecs

    The idioms every file of internal/kwire repeats: a field whose encoding
    depends on whether the version is flexible, an array of elements, a field
    present from a version on, the tagged-fields trailer; and the interface
    [WireCodec] that a message's decoder and encoder satisfy together. *)

From stdpp Require Import base numbers list strings gmap.
From Stdlib Require Import ZArith Lia Strings.Byte.
From S2P Require Import Prelude Primitives.

(** ** Readers *)

(** [if flex { s, err = c.ReadCompactString() } else { s, err = c.ReadString() }] *)
Definition rd_string (flex : bool) : Dec string :=
  if flex then ReadCompactString else ReadString.

Definition rd_nstring (flex : bool) : Dec (string * bool) :=
  if flex then ReadCompactNullableString else ReadNullableString.

Definition rd_bytes (flex : bool) : Dec (list byte) :=
  if flex then ReadCompactBytes else ReadBytes.

Definition rd_nbytes (flex : bool) : Dec (list byte * bool) :=
  if flex then ReadCompactNullableBytes else ReadNullableBytes.

(** [if flex { if err := c.SkipTaggedFields(); err != nil {...} }] *)
Definition rd_tagged (flex : bool) : Dec unit :=
  if flex then SkipTaggedFields else ret tt.

(** A field read only under a condition on the version, else left at its
    initial value. *)
Definition rd_when {A} (cond : bool) (d : Dec A) (zero : A) : Dec A :=
  if cond then d else ret zero.

(** metadata.go: the array length for the version's encoding. *)
Definition readArrLen (flex : bool) : Dec Z :=
  if flex
  then p <- ReadCompactArrayLen ;; ret (fst p)
  else p <- ReadArrayLen ;; ret (fst p).

(** [n, err := readArrLen(c, flex); if n > 0 { out = make([]T, n); for i := range n {...} }] *)
Definition rd_array {A} (flex : bool) (d : Dec A) : Dec (list A) :=
  n <- readArrLen flex ;; replicateM (Z.to_nat n) d.

(** ** Appenders *)

Definition ap_string (flex : bool) (dst : list byte) (s : string) : list byte :=
  if flex then AppendCompactString dst s else AppendString dst s.

Definition ap_nstring (flex : bool) (dst : list byte) (s : string) (null : bool) : list byte :=
  if flex then AppendCompactNullableString dst s null else AppendNullableString dst s null.

Definition ap_bytes (flex : bool) (dst b : list byte) : list byte :=
  if flex then AppendCompactBytes dst b else AppendBytes dst b.

Definition ap_nbytes (flex : bool) (dst b : list byte) (null : bool) : list byte :=
  if flex then AppendCompactNullableBytes dst b null else AppendNullableBytes dst b null.

Definition ap_tagged (flex : bool) (dst : list byte) : list byte :=
  if flex then AppendEmptyTaggedFields dst else dst.

(** metadata.go: append the array length. *)
Definition appendArrLen (dst : list byte) (n : Z) (flex : bool) : list byte :=
  if flex then AppendCompactArrayLen dst n false else AppendArrayLen dst n false.

(** [dst = appendArrLen(dst, len(xs), flex); for _, x := range xs { dst = f(dst, x) }] *)
Definition ap_array {A} (flex : bool) (f : list byte -> A -> list byte)
    (dst : list byte) (xs : list A) : list byte :=
  fold_left f xs (appendArrLen dst (len xs) flex).

(** metadata.go: arrays of INT32. *)
Definition decodeInt32Array (flex : bool) : Dec (list Z) := rd_array flex ReadInt32.

Definition appendInt32Array (flex : bool) (dst : list byte) (xs : list Z) : list byte :=
  ap_array flex AppendInt32 dst xs.

(** ** What fits each encoding *)

Definition str_ok (flex : bool) (s : string) : Prop :=
  if flex then str_compact s else str16 s.
Definition nstr_ok (flex : bool) (p : string * bool) : Prop :=
  nullable ""%string (str_ok flex) p.
Definition bytes_ok (flex : bool) (b : list byte) : Prop :=
  if flex then bytes_compact b else bytes32 b.
Definition nbytes_ok (flex : bool) (p : list byte * bool) : Prop :=
  nullable [] (bytes_ok flex) p.
Definition arr_ok {A} (flex : bool) (P : A -> Prop) (xs : list A) : Prop :=
  Forall P xs /\ (if flex then len xs + 1 < 2 ^ 32 else len xs < 2 ^ 31).
(** A field absent from the version has its initial value. *)
Definition when_ok {A} (cond : bool) (P : A -> Prop) (zero a : A) : Prop :=
  if cond then P a else a = zero.

(** ** The facts about the idioms *)

#[global] Instance safe_rd_string flex : Safe (rd_string flex).
Proof. destruct flex; apply _. Qed.
#[global] Instance safe_rd_nstring flex : Safe (rd_nstring flex).
Proof. destruct flex; apply _. Qed.
#[global] Instance safe_rd_bytes flex : Safe (rd_bytes flex).
Proof. destruct flex; apply _. Qed.
#[global] Instance safe_rd_nbytes flex : Safe (rd_nbytes flex).
Proof. destruct flex; apply _. Qed.
#[global] Instance safe_rd_tagged flex : Safe (rd_tagged flex).
Proof. destruct flex; apply _. Qed.
#[global] Instance safe_rd_when {A} cond (d : Dec A) zero : Safe d -> Safe (rd_when cond d zero).
Proof. destruct cond; apply _. Qed.
#[global] Instance safe_readArrLen flex : Safe (readArrLen flex).
Proof. destruct flex; simpl; apply _. Qed.
#[global] Instance safe_rd_array {A} flex (d : Dec A) : Safe d -> Safe (rd_array flex d).
Proof. unfold rd_array. apply _. Qed.
#[global] Instance safe_decodeInt32Array flex : Safe (decodeInt32Array flex).
Proof. unfold decodeInt32Array. apply _. Qed.

Lemma yields_rd_string flex : yields (rd_string flex) (str_ok flex).
Proof. destruct flex; [apply yields_ReadCompactString|apply yields_ReadString]. Qed.
Lemma yields_rd_nstring flex : yields (rd_nstring flex) (nstr_ok flex).
Proof. destruct flex; simpl; [apply yields_ReadCompactNullableString|apply yields_ReadNullableString]. Qed.
Lemma yields_rd_bytes flex : yields (rd_bytes flex) (bytes_ok flex).
Proof. destruct flex; [apply yields_ReadCompactBytes|apply yields_ReadBytes]. Qed.
Lemma yields_rd_nbytes flex : yields (rd_nbytes flex) (nbytes_ok flex).
Proof. destruct flex; simpl; [apply yields_ReadCompactNullableBytes|apply yields_ReadNullableBytes]. Qed.
Lemma yields_rd_tagged flex : yields (rd_tagged flex) (fun _ => True).
Proof. apply yields_any. Qed.
Lemma yields_rd_when {A} cond (d : Dec A) P zero :
  yields d P -> yields (rd_when cond d zero) (when_ok cond P zero).
Proof. intros. destruct cond; simpl; [done|by apply yields_ret]. Qed.

Lemma yields_readArrLen flex :
  yields (readArrLen flex)
         (fun n => 0 <= n /\ if flex then n + 1 < 2 ^ 32 else n < 2 ^ 31).
Proof.
  destruct flex; simpl; (eapply yields_bind; [auto with kwire|]); simpl;
    intros; apply yields_ret; lia.
Qed.

Lemma yields_rd_array {A} flex (d : Dec A) P :
  yields d P -> yields (rd_array flex d) (arr_ok flex P).
Proof.
  intros Hd. eapply yields_bind; [apply yields_readArrLen|]. intros n Hn.
  eapply yields_weaken; [apply yields_replicateM, Hd|].
  intros xs [Hxs Hl]. split; [done|]. unfold len. rewrite Hl.
  destruct flex; rewrite Z2Nat.id; lia.
Qed.

#[export] Hint Resolve yields_rd_string yields_rd_nstring yields_rd_bytes yields_rd_nbytes
  yields_rd_tagged yields_rd_when yields_readArrLen yields_rd_array : kwire.

Lemma yields_decodeInt32Array flex : yields (decodeInt32Array flex) (arr_ok flex int32).
Proof. apply yields_rd_array. auto with kwire. Qed.
#[export] Hint Resolve yields_decodeInt32Array : kwire.

#[global] Instance appender_ap_string flex : Appender (ap_string flex).
Proof. destruct flex; apply _. Qed.
#[global] Instance appender_ap_bytes flex : Appender (ap_bytes flex).
Proof. destruct flex; apply _. Qed.
Lemma append_ap_nstring flex dst s b : ap_nstring flex dst s b = dst ++ ap_nstring flex [] s b.
Proof. destruct flex; [apply append_compact_nullable_string|apply append_nullable_string]. Qed.
Lemma append_ap_nbytes flex dst s b : ap_nbytes flex dst s b = dst ++ ap_nbytes flex [] s b.
Proof. destruct flex; [apply append_compact_nullable_bytes|apply append_nullable_bytes]. Qed.
Lemma append_ap_tagged flex dst : ap_tagged flex dst = dst ++ ap_tagged flex [].
Proof. destruct flex; simpl; [done|by rewrite app_nil_r]. Qed.
Lemma append_appendArrLen flex dst n : appendArrLen dst n flex = dst ++ appendArrLen [] n flex.
Proof. destruct flex; [apply append_compact_array_len|apply append_array_len]. Qed.
#[global] Instance appender_ap_array {A} flex (f : list byte -> A -> list byte) :
  Appender f -> Appender (ap_array flex f).
Proof.
  intros Hf dst xs. unfold ap_array.
  rewrite !(append_fold f), (append_appendArrLen flex dst). by rewrite <- app_assoc.
Qed.
#[global] Instance appender_appendInt32Array flex : Appender (appendInt32Array flex).
Proof. unfold appendInt32Array. apply _. Qed.

Lemma decodes_rd_string flex s :
  str_ok flex s -> decodes (rd_string flex) (ap_string flex [] s) s.
Proof. destruct flex; [apply decodes_ReadCompactString|apply decodes_ReadString]. Qed.
Lemma decodes_rd_nstring flex s b :
  nstr_ok flex (s, b) -> decodes (rd_nstring flex) (ap_nstring flex [] s b) (s, b).
Proof. destruct flex; [apply decodes_ReadCompactNullableString|apply decodes_ReadNullableString]. Qed.
Lemma decodes_rd_bytes flex s :
  bytes_ok flex s -> decodes (rd_bytes flex) (ap_bytes flex [] s) s.
Proof. destruct flex; [apply decodes_ReadCompactBytes|apply decodes_ReadBytes]. Qed.
Lemma decodes_rd_nbytes flex s b :
  nbytes_ok flex (s, b) -> decodes (rd_nbytes flex) (ap_nbytes flex [] s b) (s, b).
Proof. destruct flex; [apply decodes_ReadCompactNullableBytes|apply decodes_ReadNullableBytes]. Qed.
Lemma decodes_rd_tagged flex : decodes (rd_tagged flex) (ap_tagged flex []) tt.
Proof. destruct flex; [apply decodes_SkipTaggedFields|apply decodes_ret]. Qed.

Lemma len_concat_ge {A} (e : A -> list byte) xs :
  Forall (fun x => e x <> []) xs -> len xs <= len (concat (map e xs)).
Proof.
  induction 1 as [|x xs Hx _ IH]; simpl; [done|].
  destruct (e x); [done|]. len_lia.
Qed.

Lemma decodes_rd_array {A} flex (d : Dec A) f `{!Appender f} P xs :
  (forall x, P x -> decodes d (f [] x) x /\ f [] x <> []) ->
  arr_ok flex P xs -> decodes (rd_array flex d) (ap_array flex f [] xs) xs.
Proof.
  intros Hd [Hxs Hlen] pre rest. unfold ap_array.
  rewrite (append_fold f). unfold rd_array. set (els := concat _).
  assert (len xs <= len els) as Hge.
  { apply len_concat_ge. eapply Forall_impl; [done|]. intros x Hx. by apply Hd. }
  assert (readArrLen flex {| buf := pre ++ appendArrLen [] (len xs) flex ++ els ++ rest;
                             off := len pre |} =
          (Ok (len xs), {| buf := pre ++ appendArrLen [] (len xs) flex ++ els ++ rest;
                           off := len pre + len (appendArrLen [] (len xs) flex) |})) as Hrd.
  { pose proof (len_nonneg xs). unfold readArrLen, appendArrLen, bind. destruct flex.
    - rewrite read_compact_array_len by len_lia. done.
    - rewrite read_array_len by len_lia. done. }
  unfold bind. rewrite <- app_assoc, Hrd, len_to_nat.
  assert (decodes (replicateM (length xs) d) els xs) as Hels.
  { apply (decodes_replicateM d (f [])). eapply Forall_impl; [done|].
    intros x Hx. by apply Hd. }
  specialize (Hels (pre ++ appendArrLen [] (len xs) flex) rest).
  rewrite <- app_assoc in Hels.
  replace (len (pre ++ appendArrLen [] (len xs) flex))
    with (len pre + len (appendArrLen [] (len xs) flex)) in Hels by len_lia.
  rewrite Hels. do 2 f_equal. len_lia.
Qed.

Lemma be_bytes_nonempty n v : (0 < n)%nat -> be_bytes n v <> [].
Proof. by destruct n; [lia|]. Qed.

Lemma decodes_decodeInt32Array flex xs :
  arr_ok flex int32 xs -> decodes (decodeInt32Array flex) (appendInt32Array flex [] xs) xs.
Proof.
  intros. apply (decodes_rd_array _ _ _ int32); [|done].
  intros x Hx. split; [by apply decodes_ReadInt32|done].
Qed.

Lemma uvarint_pos v : 0 < len (AppendUvarint [] v).
Proof.
  unfold AppendUvarint. generalize 5%nat as fuel. intros [|fuel]; cbn [append_uvarint]; [done|].
  destruct (128 <=? v); [|done]. rewrite (appender_uvarint_loop fuel). len_lia.
Qed.

Lemma ap_string_pos flex s : 0 < len (ap_string flex [] s).
Proof.
  destruct flex; simpl; unfold ap_string, AppendCompactString, AppendString;
    rewrite len_app; pose proof (len_nonneg (bytes_of_string s)).
  - pose proof (uvarint_pos (uwrap 32 (slen s + 1))). lia.
  - rewrite len_append_int16. lia.
Qed.

(** ** The codec interface *)

(** The decoder and encoder of one message: the encoder only appends, the
    decoder is safe and yields well-formed values, and decoding inverts
    encoding on them. *)
Class WireCodec {A} (wf : A -> Prop) (enc : list byte -> A -> list byte) (dec : Dec A) : Prop := {
  codec_appender :: Appender enc;
  codec_safe :: Safe dec;
  codec_yields : yields dec wf;
  codec_decodes : forall a, wf a -> decodes dec (enc [] a) a;
}.

Section codec.
Context {A} {wf : A -> Prop} {enc : list byte -> A -> list byte} {dec : Dec A}.
Context `{!WireCodec wf enc dec}.

Lemma codec_no_panic b : run_dec dec b <> Panic.
Proof. apply safe_run. apply _. Qed.

Lemma codec_run_wf b a : run_dec dec b = Ok a -> wf a.
Proof.
  unfold run_dec. destruct (dec (NewCursor b)) as [o c'] eqn:E. simpl. intros ->.
  by eapply codec_yields.
Qed.

Lemma codec_roundtrip a : wf a -> run_dec dec (enc [] a) = Ok a.
Proof. intros. by apply decodes_run_nil, codec_decodes. Qed.

(** Re-encoding a decoded message loses nothing. *)
Lemma codec_reencode b a : run_dec dec b = Ok a -> run_dec dec (enc [] a) = Ok a.
Proof. intros. by eapply codec_roundtrip, codec_run_wf. Qed.
End codec.

#[global] Arguments appendInt32Array : simpl never.
#[global] Arguments decodeInt32Array : simpl never.
#[global] Arguments ap_array : simpl never.
#[global] Arguments rd_array : simpl never.
#[global] Arguments appendArrLen : simpl never.
#[global] Arguments readArrLen : simpl never.
#[global] Arguments ap_string : simpl never.
#[global] Arguments ap_nstring : simpl never.
#[global] Arguments ap_bytes : simpl never.
#[global] Arguments ap_nbytes : simpl never.
#[global] Arguments ap_tagged : simpl never.
#[global] Arguments rd_when : simpl never.
#[global] Arguments rd_tagged : simpl never.

(** ** Tactics for the message files *)

Lemma append_if (c : bool) (d x : list byte) :
  (if c then d ++ x else d) = d ++ (if c then x else []).
Proof. destruct c; [done|by rewrite app_nil_r]. Qed.

Lemma append_if_else (c : bool) (d x y : list byte) :
  (if c then d ++ x else d ++ y) = d ++ (if c then x else y).
Proof. by destruct c. Qed.

(** One append moved in front of its destination; [[]] is already in front. *)
Ltac append_at L d := lazymatch d with [] => fail | _ => L end.

Ltac append_step :=
  match goal with
  | |- context [AppendInt8 ?d ?v] => append_at ltac:(rewrite (appender_int8 d v)) d
  | |- context [AppendInt16 ?d ?v] => append_at ltac:(rewrite (appender_int16 d v)) d
  | |- context [AppendInt32 ?d ?v] => append_at ltac:(rewrite (appender_int32 d v)) d
  | |- context [AppendInt64 ?d ?v] => append_at ltac:(rewrite (appender_int64 d v)) d
  | |- context [AppendUvarint ?d ?v] => append_at ltac:(rewrite (appender_uvarint d v)) d
  | |- context [AppendEmptyTaggedFields ?d] =>
      append_at ltac:(rewrite (append_tagged d)) d
  | |- context [AppendNullableString ?d ?s ?b] =>
      append_at ltac:(rewrite (append_nullable_string d s b)) d
  | |- context [AppendNullableBytes ?d ?s ?b] =>
      append_at ltac:(rewrite (append_nullable_bytes d s b)) d
  | |- context [AppendString ?d ?v] => append_at ltac:(rewrite (appender_string d v)) d
  | |- context [AppendCompactString ?d ?v] =>
      append_at ltac:(rewrite (appender_compact_string d v)) d
  | |- context [ap_string ?fl ?d ?v] => append_at ltac:(rewrite (appender_ap_string fl d v)) d
  | |- context [ap_bytes ?fl ?d ?v] => append_at ltac:(rewrite (appender_ap_bytes fl d v)) d
  | |- context [ap_nstring ?fl ?d ?s ?b] => append_at ltac:(rewrite (append_ap_nstring fl d s b)) d
  | |- context [ap_nbytes ?fl ?d ?s ?b] => append_at ltac:(rewrite (append_ap_nbytes fl d s b)) d
  | |- context [ap_tagged ?fl ?d] => append_at ltac:(rewrite (append_ap_tagged fl d)) d
  | |- context [appendInt32Array ?fl ?d ?v] =>
      append_at ltac:(rewrite (appender_appendInt32Array fl d v)) d
  | |- context [ap_array ?fl ?f ?d ?v] =>
      append_at ltac:(rewrite (append_app (f := ap_array fl f) d v)) d
  | |- context [if ?c then (?d ++ _) ++ _ else ?d] => rewrite <- (app_assoc d); rewrite append_if
  | |- context [if _ then ?d ++ _ else ?d] => rewrite append_if
  | |- context [if _ then ?d ++ _ else ?d ++ _] => rewrite append_if_else
  end.

(** Write an appender's output as the destination followed by its fields. *)
Ltac append_norm := cbv zeta; repeat append_step; rewrite <- ?app_assoc.

(** Prove [Appender f] after unfolding [f]. *)
Ltac solve_appender := intros dst r; append_norm; reflexivity.

Lemma decodes_rd_when {A} (cond : bool) (d : Dec A) zero P bs a :
  when_ok cond P zero a -> (P a -> decodes d bs a) ->
  decodes (rd_when cond d zero) (if cond then bs else []) a.
Proof. intros H Hd. destruct cond; simpl in *; [auto|subst; apply decodes_ret]. Qed.

#[export] Hint Resolve decodes_ReadInt8 decodes_ReadInt16 decodes_ReadInt32 decodes_ReadInt64
  decodes_ReadUvarint decodes_rd_string decodes_rd_nstring decodes_rd_bytes decodes_rd_nbytes
  decodes_rd_tagged decodes_decodeInt32Array decodes_rd_when
  decodes_ReadString decodes_ReadNullableString decodes_ReadBytes decodes_ReadNullableBytes
  decodes_ReadCompactString decodes_ReadCompactNullableString decodes_ReadCompactBytes
  decodes_ReadCompactNullableBytes decodes_SkipTaggedFields : kwire.

(** Run a decoder along the concatenation its encoder produced. *)
Ltac decodes_step :=
  lazymatch goal with
  | |- decodes (ret _) [] _ => apply decodes_ret
  | |- decodes (bind _ _) (_ ++ _) _ => eapply decodes_bind; [solve [eauto 4 with kwire]|]
  | |- decodes (bind _ _) _ _ => eapply decodes_bind_nil; [solve [eauto 4 with kwire]|]
  end; cbn beta.

Ltac destruct_pairs :=
  repeat match goal with p : (_ * _)%type |- _ => destruct p end; simpl fst in *; simpl snd in *.

(** Prove that a decoder yields well-formed values. *)
Ltac solve_yields :=
  repeat (eapply yields_bind; [solve [eauto 6 with kwire]|]; intros ? ?);
  apply yields_ret; destruct_pairs.

(** A conjunction whose conjuncts are all at hand. *)
Ltac solve_wf := repeat (split; [solve [assumption | reflexivity]|]); solve [assumption | reflexivity].
