(* ===== verification/Header.v ===== *)
(** * Request and response headers: internal/kwire/apikey.go, header.go

    The table of flexible versions, the two headers and the peeking helpers of
    the proxy's pumps. *)

From stdpp Require Import base numbers list strings gmap.
From Stdlib Require Import ZArith Lia Strings.Byte.
From S2P Require Import Prelude Primitives Codec.

(** ** API keys *)

Definition APIProduce : Z := 0.
Definition APIFetch : Z := 1.
Definition APIListOffsets : Z := 2.
Definition APIMetadata : Z := 3.
Definition APIOffsetCommit : Z := 8.
Definition APIOffsetFetch : Z := 9.
Definition APIFindCoordinator : Z := 10.
Definition APIJoinGroup : Z := 11.
Definition APIHeartbeat : Z := 12.
Definition APILeaveGroup : Z := 13.
Definition APISyncGroup : Z := 14.
Definition APIDescribeGroups : Z := 15.
Definition APIListGroups : Z := 16.
Definition APISaslHandshake : Z := 17.
Definition APIApiVersions : Z := 18.
Definition APISaslAuthenticate : Z := 36.

Definition flexAtRequest : gmap Z Z := list_to_map [
  (APIProduce, 9); (APIFetch, 12); (APIListOffsets, 6); (APIMetadata, 9);
  (APIOffsetCommit, 8); (APIOffsetFetch, 6); (APIFindCoordinator, 3);
  (APIJoinGroup, 6); (APIHeartbeat, 4); (APILeaveGroup, 4); (APISyncGroup, 4);
  (APIDescribeGroups, 5); (APIListGroups, 3); (APISaslHandshake, -1);
  (APIApiVersions, 3); (APISaslAuthenticate, 2)].

Definition flexAtResponse : gmap Z Z := list_to_map [
  (APIProduce, 9); (APIFetch, 12); (APIListOffsets, 6); (APIMetadata, 9);
  (APIOffsetCommit, 8); (APIOffsetFetch, 6); (APIFindCoordinator, 3);
  (APIJoinGroup, 6); (APIHeartbeat, 4); (APILeaveGroup, 4); (APISyncGroup, 4);
  (APIDescribeGroups, 5); (APIListGroups, 3); (APISaslHandshake, -1);
  (APIApiVersions, -1); (APISaslAuthenticate, 2)].

(** [if minVer, ok := m[apiKey]; ok && minVer >= 0 { return version >= minVer }]. *)
Definition IsFlexibleRequest (apiKey version : Z) : bool :=
  match flexAtRequest !! apiKey with
  | Some minVer => if 0 <=? minVer then minVer <=? version else false
  | None => false
  end.

Definition IsFlexibleResponse (apiKey version : Z) : bool :=
  match flexAtResponse !! apiKey with
  | Some minVer => if 0 <=? minVer then minVer <=? version else false
  | None => false
  end.

(** ** Headers *)

Record RequestHeader := mkRequestHeader {
  RH_APIKey : Z;
  RH_APIVersion : Z;
  RH_CorrelID : Z;
  RH_ClientID : string;
  RH_ClientNull : bool;
  RH_HeaderSize : Z;
}.

(** The reads of [DecodeRequestHeader], [HeaderSize] still unset. *)
Definition request_fields : Dec RequestHeader :=
  apiKey <- ReadInt16 ;;
  apiVersion <- ReadInt16 ;;
  correlID <- ReadInt32 ;;
  s <- ReadNullableString ;;
  rd_tagged (IsFlexibleRequest apiKey apiVersion) ;;
  ret (mkRequestHeader apiKey apiVersion correlID (fst s) (snd s) 0).

(** [h.HeaderSize = size]. *)
Definition set_HeaderSize (h : RequestHeader) (size : Z) : RequestHeader :=
  mkRequestHeader (RH_APIKey h) (RH_APIVersion h) (RH_CorrelID h)
    (RH_ClientID h) (RH_ClientNull h) size.

Definition requestHeader : Dec RequestHeader :=
  h <- request_fields ;; fun c => (Ok (set_HeaderSize h (Offset c)), c).

Definition DecodeRequestHeader (body : list byte) : outcome kerr RequestHeader :=
  run_dec requestHeader body.

Definition AppendRequestHeader (dst : list byte) (h : RequestHeader) : list byte :=
  let dst := AppendInt16 dst (RH_APIKey h) in
  let dst := AppendInt16 dst (RH_APIVersion h) in
  let dst := AppendInt32 dst (RH_CorrelID h) in
  let dst := AppendNullableString dst (RH_ClientID h) (RH_ClientNull h) in
  ap_tagged (IsFlexibleRequest (RH_APIKey h) (RH_APIVersion h)) dst.

Record ResponseHeader := mkResponseHeader {
  SH_CorrelID : Z;
  SH_HeaderSize : Z;
}.

Definition response_fields (apiKey apiVersion : Z) : Dec Z :=
  correlID <- ReadInt32 ;;
  rd_tagged (IsFlexibleResponse apiKey apiVersion) ;;
  ret correlID.

Definition responseHeader (apiKey apiVersion : Z) : Dec ResponseHeader :=
  correlID <- response_fields apiKey apiVersion ;;
  fun c => (Ok (mkResponseHeader correlID (Offset c)), c).

Definition DecodeResponseHeader (body : list byte) (apiKey apiVersion : Z)
    : outcome kerr ResponseHeader :=
  run_dec (responseHeader apiKey apiVersion) body.

Definition AppendResponseHeader (dst : list byte) (apiKey apiVersion correlID : Z) : list byte :=
  let dst := AppendInt32 dst correlID in
  ap_tagged (IsFlexibleResponse apiKey apiVersion) dst.

Definition PeekResponseCorrelID (body : list byte) : outcome kerr Z := run_dec ReadInt32 body.

Definition PeekRequestKeyVersion (body : list byte) : outcome kerr (Z * Z) :=
  run_dec (apiKey <- ReadInt16 ;; apiVersion <- ReadInt16 ;; ret (apiKey, apiVersion)) body.

(** The tables are only evaluated on concrete keys. *)
#[global] Opaque IsFlexibleRequest IsFlexibleResponse.

(** ** Facts *)

#[global] Instance safe_offset {A} (f : Z -> A) : Safe (fun c => (Ok (f (Offset c)), c)).
Proof. intros c [??]. solve_safe. Qed.

#[global] Instance safe_requestHeader : Safe requestHeader.
Proof. unfold requestHeader, request_fields. apply _. Qed.
#[global] Instance safe_responseHeader k v : Safe (responseHeader k v).
Proof. unfold responseHeader, response_fields. apply _. Qed.

#[global] Instance appender_request_header : Appender AppendRequestHeader.
Proof. unfold AppendRequestHeader. solve_appender. Qed.

Lemma append_response_header dst k v id :
  AppendResponseHeader dst k v id = dst ++ AppendResponseHeader [] k v id.
Proof. unfold AppendResponseHeader. append_norm. reflexivity. Qed.

(** A header the encoder can write: the fields in their widths, a client id
    that fits an [int16] length, null only with the empty id. *)
Definition wf_header (h : RequestHeader) : Prop :=
  int16 (RH_APIKey h) /\ int16 (RH_APIVersion h) /\ int32 (RH_CorrelID h) /\
  nullable ""%string str16 (RH_ClientID h, RH_ClientNull h).

(** A decoder followed by [c.Offset()]: the offset is the number of bytes read. *)
Lemma run_dec_offset {A B} (m : Dec A) (f : A -> Z -> B) bs rest a :
  decodes m bs a ->
  run_dec (x <- m ;; fun c => (Ok (f x (Offset c)), c)) (bs ++ rest) = Ok (f a (len bs)).
Proof.
  intros Hm. specialize (Hm [] rest). cbn [app] in Hm. unfold run_dec, bind, NewCursor.
  change 0 with (len (@nil byte)). by rewrite Hm.
Qed.

Lemma decodes_request_fields h :
  wf_header h -> RH_HeaderSize h = 0 ->
  decodes request_fields (AppendRequestHeader [] h) h.
Proof.
  destruct h as [k v id s null sz]. unfold wf_header; cbn. intros (Hk & Hv & Hid & Hs) ->.
  unfold request_fields, AppendRequestHeader; cbn. append_norm. repeat decodes_step.
Qed.

Lemma decode_append_request_header h payload :
  wf_header h ->
  DecodeRequestHeader (AppendRequestHeader [] h ++ payload) =
  Ok (set_HeaderSize h (len (AppendRequestHeader [] h))).
Proof.
  intros Hh. unfold DecodeRequestHeader, requestHeader.
  change (AppendRequestHeader [] h) with (AppendRequestHeader [] (set_HeaderSize h 0)).
  rewrite (run_dec_offset _ set_HeaderSize _ _ (set_HeaderSize h 0)); [done|].
  by apply decodes_request_fields.
Qed.

Lemma decodes_response_fields k v id :
  int32 id -> decodes (response_fields k v) (AppendResponseHeader [] k v id) id.
Proof.
  intros. unfold response_fields, AppendResponseHeader. append_norm. repeat decodes_step.
Qed.

Lemma decode_append_response_header k v id payload :
  int32 id ->
  DecodeResponseHeader (AppendResponseHeader [] k v id ++ payload) k v =
  Ok (mkResponseHeader id (len (AppendResponseHeader [] k v id))).
Proof.
  intros. unfold DecodeResponseHeader, responseHeader.
  by rewrite (run_dec_offset _ mkResponseHeader _ _ id) by by apply decodes_response_fields.
Qed.

(** The correlation id is the first four bytes of the response in every header
    version: peeking it agrees with decoding the header. *)
Lemma peek_decode_response k v body h :
  DecodeResponseHeader body k v = Ok h -> PeekResponseCorrelID body = Ok (SH_CorrelID h).
Proof.
  unfold DecodeResponseHeader, PeekResponseCorrelID, run_dec, responseHeader, response_fields.
  unfold bind at 1 2. destruct (ReadInt32 (NewCursor body)) as [[id| |] c]; [|done..].
  unfold bind, ret. destruct (rd_tagged _ c) as [[[]| |] c']; [|done..]. by intros [= <-].
Qed.

(** The payload starts inside the frame. *)
Lemma header_size_range body h :
  DecodeRequestHeader body = Ok h -> 0 <= RH_HeaderSize h <= len body.
Proof.
  unfold DecodeRequestHeader, run_dec, requestHeader, bind.
  assert (Safe request_fields) as Hs by (unfold request_fields; apply _).
  destruct (Hs (NewCursor body) (wf_NewCursor body)) as (o & c & -> & _ & Hb & Hoff).
  destruct o as [h'| |]; simpl in *; [|done..]. intros [= <-]. unfold Offset. simpl. lia.
Qed.

Lemma response_header_size_range body k v h :
  DecodeResponseHeader body k v = Ok h -> 0 <= SH_HeaderSize h <= len body.
Proof.
  unfold DecodeResponseHeader, run_dec, responseHeader, bind.
  assert (Safe (response_fields k v)) as Hs by (unfold response_fields; apply _).
  destruct (Hs (NewCursor body) (wf_NewCursor body)) as (o & c & -> & _ & Hb & Hoff).
  destruct o as [id| |]; simpl in *; [|done..]. intros [= <-]. unfold Offset. simpl. lia.
Qed.
