(* ===== verification/MetadataCodec.v ===== *)
(** * Metadata responses, versions 0 to 12: internal/kwire/metadata.go

    The broker, partition, topic and response records with their version
    dependent decoders and encoders, and the [WireCodec] instances. *)

From stdpp Require Import base numbers list strings gmap.
From Stdlib Require Import ZArith Lia Strings.Byte.
From S2P Require Import Prelude Primitives Codec Header.

(** ** Data *)

Record MetadataBroker := mkMetadataBroker {
  MB_NodeID : Z;
  MB_Host : string;
  MB_Port : Z;
  MB_Rack : string;
  MB_RackNull : bool;
}.

Record MetadataPartition := mkMetadataPartition {
  MP_ErrorCode : Z;
  MP_PartitionIndex : Z;
  MP_LeaderID : Z;
  MP_LeaderEpoch : Z;
  MP_ReplicaNodes : list Z;
  MP_IsrNodes : list Z;
  MP_OfflineReplicas : list Z;
}.

Record MetadataTopic := mkMetadataTopic {
  MT_ErrorCode : Z;
  MT_Name : string;
  MT_NameNull : bool;
  MT_TopicID : list byte;
  MT_IsInternal : bool;
  MT_Partitions : list MetadataPartition;
  MT_AuthorizedOperations : Z;
}.

Record MetadataResponse := mkMetadataResponse {
  MR_Version : Z;
  MR_ThrottleTimeMs : Z;
  MR_Brokers : list MetadataBroker;
  MR_ClusterID : string;
  MR_ClusterIDNull : bool;
  MR_ControllerID : Z;
  MR_Topics : list MetadataTopic;
  MR_ClusterAuthorizedOperations : Z;
}.

(** The zero [[16]byte]. *)
Definition zero_uuid : list byte := replicate 16 Byte.x00.

#[global] Arguments zero_uuid : simpl never.

(** ** Brokers *)

Definition decodeMetadataBroker (version : Z) (flex : bool) : Dec MetadataBroker :=
  id <- ReadInt32 ;;
  host <- rd_string flex ;;
  port <- ReadInt32 ;;
  rack <- rd_when (1 <=? version) (rd_nstring flex) (""%string, false) ;;
  rd_tagged flex ;;
  ret (mkMetadataBroker id host port (fst rack) (snd rack)).

Definition appendMetadataBroker (version : Z) (flex : bool)
    (dst : list byte) (b : MetadataBroker) : list byte :=
  let dst := AppendInt32 dst (MB_NodeID b) in
  let dst := ap_string flex dst (MB_Host b) in
  let dst := AppendInt32 dst (MB_Port b) in
  let dst := if 1 <=? version then ap_nstring flex dst (MB_Rack b) (MB_RackNull b) else dst in
  ap_tagged flex dst.

(** ** Partitions *)

Definition decodeMetadataPartition (version : Z) (flex : bool) : Dec MetadataPartition :=
  ec <- ReadInt16 ;;
  idx <- ReadInt32 ;;
  leader <- ReadInt32 ;;
  epoch <- rd_when (7 <=? version) ReadInt32 (-1) ;;
  replicas <- decodeInt32Array flex ;;
  isr <- decodeInt32Array flex ;;
  offline <- rd_when (5 <=? version) (decodeInt32Array flex) [] ;;
  rd_tagged flex ;;
  ret (mkMetadataPartition ec idx leader epoch replicas isr offline).

Definition appendMetadataPartition (version : Z) (flex : bool)
    (dst : list byte) (p : MetadataPartition) : list byte :=
  let dst := AppendInt16 dst (MP_ErrorCode p) in
  let dst := AppendInt32 dst (MP_PartitionIndex p) in
  let dst := AppendInt32 dst (MP_LeaderID p) in
  let dst := if 7 <=? version then AppendInt32 dst (MP_LeaderEpoch p) else dst in
  let dst := appendInt32Array flex dst (MP_ReplicaNodes p) in
  let dst := appendInt32Array flex dst (MP_IsrNodes p) in
  let dst := if 5 <=? version then appendInt32Array flex dst (MP_OfflineReplicas p) else dst in
  ap_tagged flex dst.

(** ** Topics *)

(** [if c.Remaining() < 16 { return ErrTruncated }; raw := c.Bytes()[c.Offset():c.Offset()+16];
    copy(t.TopicID[:], raw); c.Skip(16)]. *)
Definition readTopicID : Dec (list byte) := fun c =>
  if Remaining c <? 16 then (Fail ErrTruncated, c) else
  match go_slice (Bytes c) (Offset c) (Offset c + 16) with
  | None => (Panic, c)
  | Some raw => (Skip 16 ;; ret raw) c
  end.

Definition decodeMetadataTopic (version : Z) (flex : bool) : Dec MetadataTopic :=
  ec <- ReadInt16 ;;
  name <- (if 12 <=? version then rd_nstring flex
           else s <- rd_string flex ;; ret (s, false)) ;;
  id <- rd_when (10 <=? version) readTopicID zero_uuid ;;
  internal <- rd_when (1 <=? version) (b <- ReadInt8 ;; ret (negb (b =? 0))) false ;;
  parts <- rd_array flex (decodeMetadataPartition version flex) ;;
  ops <- rd_when (8 <=? version) ReadInt32 0 ;;
  rd_tagged flex ;;
  ret (mkMetadataTopic ec (fst name) (snd name) id internal parts ops).

Definition appendMetadataTopic (version : Z) (flex : bool)
    (dst : list byte) (t : MetadataTopic) : list byte :=
  let dst := AppendInt16 dst (MT_ErrorCode t) in
  let dst := if 12 <=? version then ap_nstring flex dst (MT_Name t) (MT_NameNull t)
             else ap_string flex dst (MT_Name t) in
  let dst := if 10 <=? version then dst ++ MT_TopicID t else dst in
  let dst := if 1 <=? version then AppendInt8 dst (if MT_IsInternal t then 1 else 0) else dst in
  let dst := ap_array flex (appendMetadataPartition version flex) dst (MT_Partitions t) in
  let dst := if 8 <=? version then AppendInt32 dst (MT_AuthorizedOperations t) else dst in
  ap_tagged flex dst.

(** ** Responses *)

Definition metadataResponse (version : Z) : Dec MetadataResponse :=
  let flex := IsFlexibleResponse APIMetadata version in
  throttle <- rd_when (3 <=? version) ReadInt32 0 ;;
  brokers <- rd_array flex (decodeMetadataBroker version flex) ;;
  cluster <- rd_when (2 <=? version) (rd_nstring flex) (""%string, false) ;;
  ctrl <- rd_when (1 <=? version) ReadInt32 (-1) ;;
  topics <- rd_array flex (decodeMetadataTopic version flex) ;;
  ops <- rd_when ((8 <=? version) && (version <=? 10)) ReadInt32 0 ;;
  rd_tagged flex ;;
  ret (mkMetadataResponse version throttle brokers (fst cluster) (snd cluster) ctrl topics ops).

(** On an error the source also returns the fields read so far, which no
    caller looks at. *)
Definition DecodeMetadataResponse (body : list byte) (version : Z)
    : outcome kerr MetadataResponse :=
  run_dec (metadataResponse version) body.

Definition AppendMetadataResponse (dst : list byte) (r : MetadataResponse) : list byte :=
  let version := MR_Version r in
  let flex := IsFlexibleResponse APIMetadata version in
  let dst := if 3 <=? version then AppendInt32 dst (MR_ThrottleTimeMs r) else dst in
  let dst := ap_array flex (appendMetadataBroker version flex) dst (MR_Brokers r) in
  let dst := if 2 <=? version then ap_nstring flex dst (MR_ClusterID r) (MR_ClusterIDNull r)
             else dst in
  let dst := if 1 <=? version then AppendInt32 dst (MR_ControllerID r) else dst in
  let dst := ap_array flex (appendMetadataTopic version flex) dst (MR_Topics r) in
  let dst := if (8 <=? version) && (version <=? 10)
             then AppendInt32 dst (MR_ClusterAuthorizedOperations r) else dst in
  ap_tagged flex dst.

(** ** Well-formed values: the fields in range, absent fields at their zero *)

Definition wf_broker (version : Z) (flex : bool) (b : MetadataBroker) : Prop :=
  int32 (MB_NodeID b) /\ str_ok flex (MB_Host b) /\ int32 (MB_Port b) /\
  when_ok (1 <=? version) (nstr_ok flex) (""%string, false) (MB_Rack b, MB_RackNull b).

Definition wf_partition (version : Z) (flex : bool) (p : MetadataPartition) : Prop :=
  int16 (MP_ErrorCode p) /\ int32 (MP_PartitionIndex p) /\ int32 (MP_LeaderID p) /\
  when_ok (7 <=? version) int32 (-1) (MP_LeaderEpoch p) /\
  arr_ok flex int32 (MP_ReplicaNodes p) /\ arr_ok flex int32 (MP_IsrNodes p) /\
  when_ok (5 <=? version) (arr_ok flex int32) [] (MP_OfflineReplicas p).

Definition wf_topic (version : Z) (flex : bool) (t : MetadataTopic) : Prop :=
  int16 (MT_ErrorCode t) /\
  (if 12 <=? version then nstr_ok flex (MT_Name t, MT_NameNull t)
   else str_ok flex (MT_Name t) /\ MT_NameNull t = false) /\
  when_ok (10 <=? version) (fun u => len u = 16) zero_uuid (MT_TopicID t) /\
  when_ok (1 <=? version) (fun _ => True) false (MT_IsInternal t) /\
  arr_ok flex (wf_partition version flex) (MT_Partitions t) /\
  when_ok (8 <=? version) int32 0 (MT_AuthorizedOperations t).

Definition wf_metadata (version : Z) (r : MetadataResponse) : Prop :=
  let flex := IsFlexibleResponse APIMetadata version in
  MR_Version r = version /\
  when_ok (3 <=? version) int32 0 (MR_ThrottleTimeMs r) /\
  arr_ok flex (wf_broker version flex) (MR_Brokers r) /\
  when_ok (2 <=? version) (nstr_ok flex) (""%string, false)
    (MR_ClusterID r, MR_ClusterIDNull r) /\
  when_ok (1 <=? version) int32 (-1) (MR_ControllerID r) /\
  arr_ok flex (wf_topic version flex) (MR_Topics r) /\
  when_ok ((8 <=? version) && (version <=? 10)) int32 0 (MR_ClusterAuthorizedOperations r).

(** ** The codecs *)

#[global] Instance appender_broker v flex : Appender (appendMetadataBroker v flex).
Proof. unfold appendMetadataBroker. solve_appender. Qed.

#[global] Instance appender_partition v flex : Appender (appendMetadataPartition v flex).
Proof. unfold appendMetadataPartition. solve_appender. Qed.

#[global] Instance appender_topic v flex : Appender (appendMetadataTopic v flex).
Proof. unfold appendMetadataTopic. solve_appender. Qed.

#[global] Instance appender_metadata : Appender AppendMetadataResponse.
Proof. unfold AppendMetadataResponse. solve_appender. Qed.

#[global] Instance broker_codec v flex :
  WireCodec (wf_broker v flex) (appendMetadataBroker v flex) (decodeMetadataBroker v flex).
Proof.
  split.
  - apply _.
  - unfold decodeMetadataBroker. apply _.
  - unfold decodeMetadataBroker. solve_yields. by unfold wf_broker.
  - intros [id host port rack null] (?&?&?&?). cbn in *.
    unfold decodeMetadataBroker, appendMetadataBroker; cbn. append_norm.
    repeat decodes_step.
Qed.

#[global] Instance partition_codec v flex :
  WireCodec (wf_partition v flex) (appendMetadataPartition v flex) (decodeMetadataPartition v flex).
Proof.
  split.
  - apply _.
  - unfold decodeMetadataPartition. apply _.
  - unfold decodeMetadataPartition. solve_yields. by unfold wf_partition.
  - intros [ec idx leader epoch reps isr offl] (?&?&?&?&?&?&?). cbn in *.
    unfold decodeMetadataPartition, appendMetadataPartition; cbn. append_norm.
    repeat decodes_step.
Qed.

(** *** The pieces of a topic *)

#[global] Instance safe_readTopicID : Safe readTopicID.
Proof.
  intros c Hc. unfold readTopicID. pose proof Hc as [??].
  destruct (Z.ltb_spec (Remaining c) 16); [solve_safe|].
  unfold Remaining, Bytes, Offset in *. rewrite go_slice_some by lia.
  apply (safe_bind (Skip 16) (fun _ => ret _)); [apply _|apply _|done].
Qed.

Lemma yields_readTopicID : yields readTopicID (fun u => len u = 16).
Proof.
  intros c a c' E. unfold readTopicID in E. destruct (_ <? _); [done|].
  destruct (go_slice _ _ _) as [raw|] eqn:F; [|done].
  apply bind_ok in E as (? & c1 & _ & E). injection E as <- <-.
  apply go_slice_len in F. lia.
Qed.

Lemma decodes_readTopicID u : len u = 16 -> decodes readTopicID u u.
Proof.
  intros Hu pre rest. unfold readTopicID, Remaining, Bytes, Offset; cbn [buf off].
  match goal with |- context [ ?a <? 16 ] => destruct (Z.ltb_spec a 16) end; [len_lia|].
  replace (go_slice (pre ++ u ++ rest) (len pre) (len pre + 16)) with (Some u)
    by (rewrite <- Hu; symmetry; apply go_slice_mid).
  unfold bind, Skip; cbn [buf off].
  match goal with |- context [ ?a <? ?b ] => destruct (Z.ltb_spec a b) end; [lia|].
  match goal with |- context [ ?a <? ?b ] => destruct (Z.ltb_spec a b) end; [len_lia|].
  unfold advance, ret; simpl. by rewrite Hu.
Qed.

Lemma yields_topic_name version flex :
  yields (if 12 <=? version then rd_nstring flex else s <- rd_string flex ;; ret (s, false))
    (fun p => if 12 <=? version then nstr_ok flex p
              else str_ok flex (fst p) /\ snd p = false).
Proof.
  destruct (12 <=? version); [apply yields_rd_nstring|].
  eapply yields_bind; [apply yields_rd_string|]. intros s Hs. by apply yields_ret.
Qed.

Lemma decodes_topic_name version flex s b :
  (if 12 <=? version then nstr_ok flex (s, b) else str_ok flex s /\ b = false) ->
  decodes (if 12 <=? version then rd_nstring flex else s <- rd_string flex ;; ret (s, false))
    (if 12 <=? version then ap_nstring flex [] s b else ap_string flex [] s) (s, b).
Proof.
  destruct (12 <=? version); [apply decodes_rd_nstring|]. intros [Hs ->].
  eapply decodes_bind_nil; [by apply decodes_rd_string|apply decodes_ret].
Qed.

Lemma decodes_bool (b : bool) :
  decodes (x <- ReadInt8 ;; ret (negb (x =? 0))) (AppendInt8 [] (if b then 1 else 0)) b.
Proof.
  eapply decodes_bind_nil; [apply decodes_ReadInt8; by destruct b|].
  destruct b; apply decodes_ret.
Qed.

Lemma yields_bool : yields (x <- ReadInt8 ;; ret (negb (x =? 0))) (fun _ => True).
Proof. apply yields_any. Qed.

#[local] Hint Resolve yields_readTopicID yields_topic_name decodes_readTopicID
  decodes_topic_name decodes_bool yields_bool : kwire.

Lemma partition_nonempty v flex p : appendMetadataPartition v flex [] p <> [].
Proof. unfold appendMetadataPartition. append_norm. discriminate. Qed.

Lemma decodes_partitions v flex ps :
  arr_ok flex (wf_partition v flex) ps ->
  decodes (rd_array flex (decodeMetadataPartition v flex))
    (ap_array flex (appendMetadataPartition v flex) [] ps) ps.
Proof.
  apply (decodes_rd_array _ _ _ (wf_partition v flex)).
  intros p Hp. split; [by apply codec_decodes|apply partition_nonempty].
Qed.

#[global] Instance topic_codec v flex :
  WireCodec (wf_topic v flex) (appendMetadataTopic v flex) (decodeMetadataTopic v flex).
Proof.
  split.
  - apply _.
  - unfold decodeMetadataTopic. apply _.
  - unfold decodeMetadataTopic.
    assert (yields (decodeMetadataPartition v flex) (wf_partition v flex))
      by apply codec_yields.
    solve_yields. unfold wf_topic; cbn. solve_wf.
  - intros [ec name null id internal parts ops] (?&?&?&?&?&?). cbn in *.
    pose proof (decodes_partitions v flex parts).
    unfold decodeMetadataTopic, appendMetadataTopic; cbn. append_norm.
    repeat decodes_step.
Qed.

Lemma broker_nonempty v flex b : appendMetadataBroker v flex [] b <> [].
Proof. unfold appendMetadataBroker. append_norm. discriminate. Qed.

Lemma topic_nonempty v flex t : appendMetadataTopic v flex [] t <> [].
Proof. unfold appendMetadataTopic. append_norm. discriminate. Qed.

#[global] Instance metadata_codec version :
  WireCodec (wf_metadata version) AppendMetadataResponse (metadataResponse version).
Proof.
  split.
  - apply _.
  - unfold metadataResponse. apply _.
  - unfold metadataResponse. set (flex := IsFlexibleResponse _ _).
    pose proof (codec_yields (dec := decodeMetadataBroker version flex)).
    pose proof (codec_yields (dec := decodeMetadataTopic version flex)).
    solve_yields. unfold wf_metadata; cbn. solve_wf.
  - intros [v thr brokers cid cnull ctrl topics ops] (Hv&?&Hb&?&?&Ht&?). cbn in *. subst v.
    unfold metadataResponse, AppendMetadataResponse; cbn.
    set (flex := IsFlexibleResponse _ _) in *.
    pose proof (decodes_rd_array flex (decodeMetadataBroker version flex) _ _ brokers
      (fun b Hb => conj (codec_decodes b Hb) (broker_nonempty version flex b)) Hb).
    pose proof (decodes_rd_array flex (decodeMetadataTopic version flex) _ _ topics
      (fun t Ht => conj (codec_decodes t Ht) (topic_nonempty version flex t)) Ht).
    append_norm. repeat decodes_step.
Qed.
