(* ===== verification/FindCoord.v ===== *)
(** * FindCoordinator responses, versions 0 to 6: internal/kwire/findcoord.go

    One record for the single-coordinator shape (up to version 3) and the
    multi-coordinator shape (from version 4 on), as in the source. *)

From stdpp Require Import base numbers list strings gmap.
From Stdlib Require Import ZArith Lia Strings.Byte.
From S2P Require Import Prelude Primitives Codec Header.

Record FindCoordinatorEntry := mkFindCoordinatorEntry {
  FE_Key : string;
  FE_NodeID : Z;
  FE_Host : string;
  FE_Port : Z;
  FE_ErrorCode : Z;
  FE_ErrorMessage : string;
  FE_ErrorMessageNull : bool;
}.

Record FindCoordinatorResponse := mkFindCoordinatorResponse {
  FC_Version : Z;
  FC_ThrottleTimeMs : Z;
  FC_ErrorCode : Z;
  FC_ErrorMessage : string;
  FC_ErrorMessageNull : bool;
  FC_NodeID : Z;
  FC_Host : string;
  FC_Port : Z;
  FC_Coordinators : list FindCoordinatorEntry;
}.

Definition decodeFindCoordEntry (flex : bool) : Dec FindCoordinatorEntry :=
  key <- rd_string flex ;;
  id <- ReadInt32 ;;
  host <- rd_string flex ;;
  port <- ReadInt32 ;;
  ec <- ReadInt16 ;;
  msg <- rd_nstring flex ;;
  rd_tagged flex ;;
  ret (mkFindCoordinatorEntry key id host port ec (fst msg) (snd msg)).

Definition appendFindCoordEntry (flex : bool) (dst : list byte)
    (e : FindCoordinatorEntry) : list byte :=
  let dst := ap_string flex dst (FE_Key e) in
  let dst := AppendInt32 dst (FE_NodeID e) in
  let dst := ap_string flex dst (FE_Host e) in
  let dst := AppendInt32 dst (FE_Port e) in
  let dst := AppendInt16 dst (FE_ErrorCode e) in
  if flex
  then AppendEmptyTaggedFields
         (AppendCompactNullableString dst (FE_ErrorMessage e) (FE_ErrorMessageNull e))
  else AppendNullableString dst (FE_ErrorMessage e) (FE_ErrorMessageNull e).

(** The fields of the [version <= 3] branch. *)
Definition findCoordSingle (version : Z) (flex : bool)
    : Dec (Z * (string * bool) * Z * string * Z) :=
  ec <- ReadInt16 ;;
  msg <- rd_when (1 <=? version) (rd_nstring flex) (""%string, false) ;;
  id <- ReadInt32 ;;
  host <- rd_string flex ;;
  port <- ReadInt32 ;;
  ret (ec, msg, id, host, port).

Definition findCoordinatorResponse (version : Z) : Dec FindCoordinatorResponse :=
  let flex := IsFlexibleResponse APIFindCoordinator version in
  throttle <- rd_when (1 <=? version) ReadInt32 0 ;;
  single <- rd_when (version <=? 3) (findCoordSingle version flex)
              (0, (""%string, false), 0, ""%string, 0) ;;
  coords <- rd_when (negb (version <=? 3)) (rd_array flex (decodeFindCoordEntry flex)) [] ;;
  rd_tagged flex ;;
  let '(ec, msg, id, host, port) := single in
  ret (mkFindCoordinatorResponse version throttle ec (fst msg) (snd msg) id host port coords).

Definition DecodeFindCoordinatorResponse (body : list byte) (version : Z)
    : outcome kerr FindCoordinatorResponse :=
  run_dec (findCoordinatorResponse version) body.

Definition AppendFindCoordinatorResponse (dst : list byte) (r : FindCoordinatorResponse)
    : list byte :=
  let version := FC_Version r in
  let flex := IsFlexibleResponse APIFindCoordinator version in
  let dst := if 1 <=? version then AppendInt32 dst (FC_ThrottleTimeMs r) else dst in
  let dst :=
    if version <=? 3 then
      let dst := AppendInt16 dst (FC_ErrorCode r) in
      let dst := if 1 <=? version
                 then ap_nstring flex dst (FC_ErrorMessage r) (FC_ErrorMessageNull r)
                 else dst in
      let dst := AppendInt32 dst (FC_NodeID r) in
      let dst := ap_string flex dst (FC_Host r) in
      AppendInt32 dst (FC_Port r)
    else ap_array flex (appendFindCoordEntry flex) dst (FC_Coordinators r) in
  ap_tagged flex dst.

(** ** Well-formed values *)

Definition wf_entry (flex : bool) (e : FindCoordinatorEntry) : Prop :=
  str_ok flex (FE_Key e) /\ int32 (FE_NodeID e) /\ str_ok flex (FE_Host e) /\
  int32 (FE_Port e) /\ int16 (FE_ErrorCode e) /\
  nstr_ok flex (FE_ErrorMessage e, FE_ErrorMessageNull e).

Definition wf_single (version : Z) (flex : bool)
    (s : Z * (string * bool) * Z * string * Z) : Prop :=
  let '(ec, msg, id, host, port) := s in
  int16 ec /\ when_ok (1 <=? version) (nstr_ok flex) (""%string, false) msg /\
  int32 id /\ str_ok flex host /\ int32 port.

Definition single_of (r : FindCoordinatorResponse) : Z * (string * bool) * Z * string * Z :=
  (FC_ErrorCode r, (FC_ErrorMessage r, FC_ErrorMessageNull r), FC_NodeID r, FC_Host r, FC_Port r).

Definition wf_findcoord (version : Z) (r : FindCoordinatorResponse) : Prop :=
  let flex := IsFlexibleResponse APIFindCoordinator version in
  FC_Version r = version /\
  when_ok (1 <=? version) int32 0 (FC_ThrottleTimeMs r) /\
  when_ok (version <=? 3) (wf_single version flex)
    (0, (""%string, false), 0, ""%string, 0) (single_of r) /\
  when_ok (negb (version <=? 3)) (arr_ok flex (wf_entry flex)) [] (FC_Coordinators r).

(** ** The codecs *)

(** The encoder writes the tagged fields inside the branch on [flex]. *)
Lemma append_entry_tail (flex : bool) (dst : list byte) s b :
  (if flex then AppendEmptyTaggedFields (AppendCompactNullableString dst s b)
   else AppendNullableString dst s b) = ap_tagged flex (ap_nstring flex dst s b).
Proof. by destruct flex. Qed.

#[global] Instance appender_entry flex : Appender (appendFindCoordEntry flex).
Proof.
  unfold appendFindCoordEntry. intros dst e. cbv zeta. rewrite !append_entry_tail.
  append_norm. reflexivity.
Qed.

Lemma entry_nonempty flex e : appendFindCoordEntry flex [] e <> [].
Proof.
  unfold appendFindCoordEntry. cbv zeta. rewrite append_entry_tail. append_norm.
  intros H%(f_equal len). len_lia.
Qed.

#[global] Instance entry_codec flex :
  WireCodec (wf_entry flex) (appendFindCoordEntry flex) (decodeFindCoordEntry flex).
Proof.
  split.
  - apply _.
  - unfold decodeFindCoordEntry. apply _.
  - unfold decodeFindCoordEntry. solve_yields. by unfold wf_entry.
  - intros [key id host port ec msg null] (?&?&?&?&?&?). cbn in *.
    unfold decodeFindCoordEntry, appendFindCoordEntry; cbn.
    rewrite append_entry_tail. append_norm. repeat decodes_step.
Qed.

Lemma yields_single v flex : yields (findCoordSingle v flex) (wf_single v flex).
Proof. unfold findCoordSingle. solve_yields. unfold wf_single. solve_wf. Qed.

Lemma decodes_single v flex ec msg null id host port :
  wf_single v flex (ec, (msg, null), id, host, port) ->
  decodes (findCoordSingle v flex)
    (AppendInt16 [] ec ++ (if 1 <=? v then ap_nstring flex [] msg null else []) ++
     AppendInt32 [] id ++ ap_string flex [] host ++ AppendInt32 [] port)
    (ec, (msg, null), id, host, port).
Proof. intros (?&?&?&?&?). unfold findCoordSingle. repeat decodes_step. Qed.

Lemma append_findcoord dst r :
  let version := FC_Version r in
  let flex := IsFlexibleResponse APIFindCoordinator version in
  AppendFindCoordinatorResponse dst r =
  dst ++ (if 1 <=? version then AppendInt32 [] (FC_ThrottleTimeMs r) else []) ++
  (if version <=? 3 then
     AppendInt16 [] (FC_ErrorCode r) ++
     (if 1 <=? version then ap_nstring flex [] (FC_ErrorMessage r) (FC_ErrorMessageNull r) else []) ++
     AppendInt32 [] (FC_NodeID r) ++ ap_string flex [] (FC_Host r) ++ AppendInt32 [] (FC_Port r)
   else []) ++
  (if negb (version <=? 3) then ap_array flex (appendFindCoordEntry flex) [] (FC_Coordinators r)
   else []) ++ ap_tagged flex [].
Proof.
  cbv zeta. unfold AppendFindCoordinatorResponse. cbv zeta.
  destruct (FC_Version r <=? 3); simpl negb; cbv iota; append_norm; reflexivity.
Qed.

#[global] Instance appender_findcoord : Appender AppendFindCoordinatorResponse.
Proof. intros dst r. by rewrite append_findcoord, (append_findcoord []). Qed.

#[local] Hint Resolve yields_single decodes_single : kwire.

#[global] Instance findcoord_codec version :
  WireCodec (wf_findcoord version) AppendFindCoordinatorResponse (findCoordinatorResponse version).
Proof.
  split.
  - apply _.
  - unfold findCoordinatorResponse. repeat (apply safe_bind; [apply _|intros ?]).
    destruct_pairs. apply _.
  - unfold findCoordinatorResponse. set (flex := IsFlexibleResponse _ _).
    pose proof (codec_yields (dec := decodeFindCoordEntry flex)).
    repeat (eapply yields_bind; [solve [eauto 6 with kwire]|]; intros ? ?).
    destruct_pairs. apply yields_ret. unfold wf_findcoord; cbn. solve_wf.
  - intros [v thr ec msg null id host port cs] (Hv&?&Hs&Hc). cbn in *. subst v.
    rewrite append_findcoord. unfold findCoordinatorResponse; cbn.
    set (flex := IsFlexibleResponse _ _) in *.
    pose proof (decodes_rd_array flex (decodeFindCoordEntry flex) _ _ cs
      (fun e He => conj (codec_decodes e He) (entry_nonempty flex e))).
    unfold single_of in Hs; cbn in Hs. repeat decodes_step.
Qed.
