(* ===== verification/ConsumerProtocol.v ===== *)
(** * The consumer protocol blobs: internal/kwire/consumer_protocol.go

    Subscriptions and assignments, the application-level payloads of JoinGroup
    and SyncGroup.  Later versions add trailing fields that a decoder accepts
    as missing; re-encoding writes them (a missing generation as -1), so the
    round trip is up to [normalize_subscription] and [normalize_assignment]. *)

From stdpp Require Import base numbers list strings gmap.
From Stdlib Require Import ZArith Lia Strings.Byte.
From S2P Require Import Prelude Primitives Codec.

Record TopicPartitions := mkTopicPartitions {
  TP_Topic : string;
  TP_Partitions : list Z;
}.

#[global] Instance TopicPartitions_eq_dec : EqDecision TopicPartitions.
Proof. solve_decision. Defined.

Record Subscription := mkSubscription {
  SUB_Version : Z;
  SUB_Topics : list string;
  SUB_UserData : list byte;
  SUB_UserDataNull : bool;
  SUB_OwnedPartitions : list TopicPartitions;
  SUB_GenerationID : Z;
  SUB_GenerationPresent : bool;
  SUB_RackID : string;
  SUB_RackIDNull : bool;
  SUB_RackIDPresent : bool;
}.

Record Assignment := mkAssignment {
  ASG_Version : Z;
  ASG_Partitions : list TopicPartitions;
  ASG_UserData : list byte;
  ASG_UserDataNull : bool;
  ASG_RackID : string;
  ASG_RackIDNull : bool;
  ASG_RackIDPresent : bool;
}.

(** ** Topic partitions *)

Definition topicPartitions : Dec TopicPartitions :=
  topic <- ReadString ;;
  parts <- rd_array false ReadInt32 ;;
  ret (mkTopicPartitions topic parts).

Definition decodeTopicPartitions : Dec (list TopicPartitions) := rd_array false topicPartitions.

(** One iteration of the loop of [appendTopicPartitions]. *)
Definition append_tp (dst : list byte) (tp : TopicPartitions) : list byte :=
  let dst := AppendString dst (TP_Topic tp) in
  ap_array false AppendInt32 dst (TP_Partitions tp).

Definition appendTopicPartitions (dst : list byte) (tps : list TopicPartitions) : list byte :=
  ap_array false append_tp dst tps.

(** ** Subscriptions *)

(** [if cond && c.Remaining() > 0 { ... }]. *)
Definition rd_if_more {A} (cond : bool) (d : Dec A) (zero : A) : Dec A := fun c =>
  if cond && (0 <? Remaining c) then d c else (Ok zero, c).

Definition subscription : Dec Subscription :=
  v <- ReadInt16 ;;
  topics <- rd_array false ReadString ;;
  ud <- ReadNullableBytes ;;
  owned <- rd_if_more (1 <=? v) decodeTopicPartitions [] ;;
  gen <- rd_if_more (2 <=? v) (g <- ReadInt32 ;; ret (g, true)) (0, false) ;;
  rack <- rd_if_more (3 <=? v) (r <- ReadNullableString ;; ret (r, true)) ((""%string, false), false) ;;
  ret (mkSubscription v topics (fst ud) (snd ud) owned (fst gen) (snd gen)
         (fst (fst rack)) (snd (fst rack)) (snd rack)).

Definition DecodeSubscription (blob : list byte) : outcome kerr Subscription :=
  run_dec subscription blob.

Definition AppendSubscription (dst : list byte) (s : Subscription) : list byte :=
  let v := SUB_Version s in
  let dst := AppendInt16 dst v in
  let dst := ap_array false AppendString dst (SUB_Topics s) in
  let dst := AppendNullableBytes dst (SUB_UserData s) (SUB_UserDataNull s) in
  let dst := if 1 <=? v then appendTopicPartitions dst (SUB_OwnedPartitions s) else dst in
  let dst := if 2 <=? v
             then AppendInt32 dst (if SUB_GenerationPresent s then SUB_GenerationID s else -1)
             else dst in
  if 3 <=? v then AppendNullableString dst (SUB_RackID s) (SUB_RackIDNull s) else dst.

(** ** Assignments *)

Definition assignment : Dec Assignment :=
  v <- ReadInt16 ;;
  parts <- decodeTopicPartitions ;;
  ud <- ReadNullableBytes ;;
  rack <- rd_if_more (3 <=? v) (r <- ReadNullableString ;; ret (r, true)) ((""%string, false), false) ;;
  ret (mkAssignment v parts (fst ud) (snd ud) (fst (fst rack)) (snd (fst rack)) (snd rack)).

Definition DecodeAssignment (blob : list byte) : outcome kerr Assignment :=
  run_dec assignment blob.

Definition AppendAssignment (dst : list byte) (a : Assignment) : list byte :=
  let dst := AppendInt16 dst (ASG_Version a) in
  let dst := appendTopicPartitions dst (ASG_Partitions a) in
  let dst := AppendNullableBytes dst (ASG_UserData a) (ASG_UserDataNull a) in
  if 3 <=? ASG_Version a then AppendNullableString dst (ASG_RackID a) (ASG_RackIDNull a) else dst.

(** ** Well-formed values *)

Definition wf_tp (tp : TopicPartitions) : Prop :=
  str16 (TP_Topic tp) /\ arr_ok false int32 (TP_Partitions tp).

Definition wf_rack (v : Z) (rack : (string * bool) * bool) : Prop :=
  when_ok (3 <=? v) (fun p => nullable ""%string str16 (fst p)) ((""%string, false), false) rack.

Definition wf_subscription (s : Subscription) : Prop :=
  let v := SUB_Version s in
  int16 v /\ arr_ok false str16 (SUB_Topics s) /\
  nullable [] bytes32 (SUB_UserData s, SUB_UserDataNull s) /\
  when_ok (1 <=? v) (arr_ok false wf_tp) [] (SUB_OwnedPartitions s) /\
  when_ok (2 <=? v) (fun p => int32 (fst p)) (0, false)
    (SUB_GenerationID s, SUB_GenerationPresent s) /\
  wf_rack v ((SUB_RackID s, SUB_RackIDNull s), SUB_RackIDPresent s).

Definition wf_assignment (a : Assignment) : Prop :=
  int16 (ASG_Version a) /\ arr_ok false wf_tp (ASG_Partitions a) /\
  nullable [] bytes32 (ASG_UserData a, ASG_UserDataNull a) /\
  wf_rack (ASG_Version a) ((ASG_RackID a, ASG_RackIDNull a), ASG_RackIDPresent a).

(** What re-encoding makes of the optional trailing fields: from its version on
    a field is present, and a generation that was missing is -1 (not the 0 a
    decoder leaves there), which is what the encoder writes for it. *)
Definition normalize_subscription (s : Subscription) : Subscription :=
  let v := SUB_Version s in
  mkSubscription v (SUB_Topics s) (SUB_UserData s) (SUB_UserDataNull s) (SUB_OwnedPartitions s)
    (if 2 <=? v then if SUB_GenerationPresent s then SUB_GenerationID s else -1 else 0)
    (2 <=? v) (SUB_RackID s) (SUB_RackIDNull s) (3 <=? v).

Definition normalize_assignment (a : Assignment) : Assignment :=
  mkAssignment (ASG_Version a) (ASG_Partitions a) (ASG_UserData a) (ASG_UserDataNull a)
    (ASG_RackID a) (ASG_RackIDNull a) (3 <=? ASG_Version a).

#[global] Arguments rd_if_more : simpl never.
#[global] Arguments decodeTopicPartitions : simpl never.
#[global] Arguments appendTopicPartitions : simpl never.

(** ** Facts *)

#[global] Instance safe_rd_if_more {A} cond (d : Dec A) zero : Safe d -> Safe (rd_if_more cond d zero).
Proof.
  intros Hd c Hc. unfold rd_if_more. destruct (_ && _); [by apply Hd|].
  destruct Hc. solve_safe.
Qed.

Lemma yields_rd_if_more {A} cond (d : Dec A) P zero :
  yields d P -> (cond = true -> P zero) -> yields (rd_if_more cond d zero) (when_ok cond P zero).
Proof.
  intros Hd Hz c a c'. unfold rd_if_more, when_ok. destruct cond; simpl.
  - destruct (0 <? Remaining c); [apply Hd|]. intros [= <- <-]. auto.
  - by intros [= <- <-].
Qed.

Lemma decodes_rd_if_more {A} (cond : bool) (d : Dec A) zero bs a :
  (cond = true -> decodes d bs a /\ bs <> []) -> (cond = false -> a = zero) ->
  decodes (rd_if_more cond d zero) (if cond then bs else []) a.
Proof.
  intros Hd Hz. destruct cond.
  - destruct (Hd eq_refl) as [Hdec Hne]. intros pre rest. unfold rd_if_more, Remaining; simpl.
    destruct (Z.ltb_spec 0 (len (pre ++ bs ++ rest) - len pre)); [apply Hdec|].
    destruct bs; [done|]. len_lia.
  - rewrite (Hz eq_refl). apply decodes_ret.
Qed.

#[global] Instance appender_tp : Appender append_tp.
Proof. unfold append_tp. solve_appender. Qed.
#[global] Instance appender_topic_partitions : Appender appendTopicPartitions.
Proof. unfold appendTopicPartitions. apply _. Qed.

Lemma tp_nonempty tp : append_tp [] tp <> [].
Proof. by unfold append_tp, AppendString; append_norm. Qed.

Lemma string_nonempty s : AppendString [] s <> [].
Proof. done. Qed.

#[global] Instance tp_codec : WireCodec wf_tp append_tp topicPartitions.
Proof.
  split.
  - apply _.
  - unfold topicPartitions. apply _.
  - unfold topicPartitions. solve_yields. by unfold wf_tp.
  - intros [topic parts] [??]; cbn in *. unfold topicPartitions, append_tp; cbn.
    pose proof (decodes_decodeInt32Array false parts). append_norm.
    eapply decodes_bind; [eauto with kwire|]. eapply decodes_bind_nil; [eauto|apply decodes_ret].
Qed.

#[global] Instance safe_decodeTopicPartitions : Safe decodeTopicPartitions.
Proof. unfold decodeTopicPartitions. apply _. Qed.

Lemma yields_decodeTopicPartitions : yields decodeTopicPartitions (arr_ok false wf_tp).
Proof. apply yields_rd_array, codec_yields. Qed.

Lemma decodes_decodeTopicPartitions tps :
  arr_ok false wf_tp tps -> decodes decodeTopicPartitions (appendTopicPartitions [] tps) tps.
Proof.
  apply (decodes_rd_array false topicPartitions append_tp wf_tp). intros tp Htp. split; [by apply codec_decodes|apply tp_nonempty].
Qed.

Lemma topic_partitions_nonempty tps : appendTopicPartitions [] tps <> [].
Proof.
  unfold appendTopicPartitions, ap_array. rewrite (append_fold append_tp).
  intros [H _]%app_nil. done.
Qed.

Lemma decodes_strings ts :
  arr_ok false str16 ts -> decodes (rd_array false ReadString) (ap_array false AppendString [] ts) ts.
Proof.
  apply (decodes_rd_array false ReadString AppendString str16). intros s Hs. split; [by apply decodes_ReadString|apply string_nonempty].
Qed.

Lemma yields_rack v :
  yields (rd_if_more (3 <=? v) (r <- ReadNullableString ;; ret (r, true)) ((""%string, false), false))
    (wf_rack v).
Proof.
  apply yields_rd_if_more; [|by intros _; unfold nullable, str16].
  eapply yields_bind; [apply yields_ReadNullableString|]. intros r Hr. by apply yields_ret.
Qed.

Lemma decodes_rack v s null pres :
  wf_rack v ((s, null), pres) ->
  decodes (rd_if_more (3 <=? v) (r <- ReadNullableString ;; ret (r, true)) ((""%string, false), false))
    (if 3 <=? v then AppendNullableString [] s null else []) ((s, null), 3 <=? v).
Proof.
  unfold wf_rack, when_ok. intros H. apply decodes_rd_if_more; intros E; rewrite E in *.
  - split; [|by destruct null]. eapply decodes_bind_nil; [|apply decodes_ret].
    by apply decodes_ReadNullableString.
  - by injection H as -> -> ->.
Qed.

Lemma yields_generation v :
  yields (rd_if_more (2 <=? v) (g <- ReadInt32 ;; ret (g, true)) (0, false))
    (when_ok (2 <=? v) (fun p => int32 (fst p)) (0, false)).
Proof.
  apply yields_rd_if_more; [|by intros _].
  eapply yields_bind; [apply yields_ReadInt32|]. intros g Hg. by apply yields_ret.
Qed.

Lemma yields_owned v :
  yields (rd_if_more (1 <=? v) decodeTopicPartitions []) (when_ok (1 <=? v) (arr_ok false wf_tp) []).
Proof.
  apply yields_rd_if_more; [apply yields_decodeTopicPartitions|]. by intros _; split; [constructor|].
Qed.

#[local] Hint Resolve yields_rack yields_generation yields_owned decodes_rack decodes_strings
  yields_decodeTopicPartitions decodes_decodeTopicPartitions : kwire.

#[global] Instance safe_subscription : Safe subscription.
Proof. unfold subscription. apply _. Qed.
#[global] Instance safe_assignment : Safe assignment.
Proof. unfold assignment. apply _. Qed.

Lemma yields_subscription : yields subscription wf_subscription.
Proof. unfold subscription. solve_yields. unfold wf_subscription; cbn. solve_wf. Qed.

Lemma yields_assignment : yields assignment wf_assignment.
Proof. unfold assignment. solve_yields. unfold wf_assignment; cbn. solve_wf. Qed.

Lemma decodes_generation v gen pres :
  when_ok (2 <=? v) (fun p => int32 (fst p)) (0, false) (gen, pres) ->
  decodes (rd_if_more (2 <=? v) (g <- ReadInt32 ;; ret (g, true)) (0, false))
    (if 2 <=? v then AppendInt32 [] (if pres then gen else -1) else [])
    (if 2 <=? v then if pres then gen else -1 else 0, 2 <=? v).
Proof.
  unfold when_ok. intros H. apply decodes_rd_if_more; intros E; rewrite E in *; [|done].
  split; [|done]. eapply decodes_bind_nil; [|apply decodes_ret].
  apply decodes_ReadInt32. destruct pres; [done|]. unfold in_int; simpl; lia.
Qed.

Lemma decodes_owned v tps :
  when_ok (1 <=? v) (arr_ok false wf_tp) [] tps ->
  decodes (rd_if_more (1 <=? v) decodeTopicPartitions [])
    (if 1 <=? v then appendTopicPartitions [] tps else []) tps.
Proof.
  unfold when_ok. intros H. apply decodes_rd_if_more; intros E; rewrite E in *; [|done].
  split; [by apply decodes_decodeTopicPartitions|apply topic_partitions_nonempty].
Qed.

#[local] Hint Resolve decodes_generation decodes_owned : kwire.

(** The encodings as concatenations of their fields. *)
Lemma append_subscription dst s :
  let v := SUB_Version s in
  AppendSubscription dst s =
  dst ++ AppendInt16 [] v ++ ap_array false AppendString [] (SUB_Topics s) ++
  AppendNullableBytes [] (SUB_UserData s) (SUB_UserDataNull s) ++
  (if 1 <=? v then appendTopicPartitions [] (SUB_OwnedPartitions s) else []) ++
  (if 2 <=? v then AppendInt32 [] (if SUB_GenerationPresent s then SUB_GenerationID s else -1)
   else []) ++
  (if 3 <=? v then AppendNullableString [] (SUB_RackID s) (SUB_RackIDNull s) else []).
Proof.
  cbv zeta. unfold AppendSubscription. cbv zeta.
  rewrite (append_app (f := appendTopicPartitions) (AppendNullableBytes _ _ _)).
  append_norm. reflexivity.
Qed.

Lemma append_assignment dst a :
  AppendAssignment dst a =
  dst ++ AppendInt16 [] (ASG_Version a) ++ appendTopicPartitions [] (ASG_Partitions a) ++
  AppendNullableBytes [] (ASG_UserData a) (ASG_UserDataNull a) ++
  (if 3 <=? ASG_Version a then AppendNullableString [] (ASG_RackID a) (ASG_RackIDNull a) else []).
Proof.
  unfold AppendAssignment. cbv zeta.
  rewrite (append_app (f := appendTopicPartitions) (AppendInt16 _ _)).
  append_norm. reflexivity.
Qed.

#[global] Instance appender_subscription : Appender AppendSubscription.
Proof. intros dst s. by rewrite append_subscription, (append_subscription []). Qed.
#[global] Instance appender_assignment : Appender AppendAssignment.
Proof. intros dst a. by rewrite append_assignment, (append_assignment []). Qed.

Lemma decodes_subscription s :
  wf_subscription s -> decodes subscription (AppendSubscription [] s) (normalize_subscription s).
Proof.
  destruct s as [v topics ud udn owned gen genp rack rackn rackp].
  intros (?&?&?&?&?&?). cbn in *. rewrite append_subscription. cbn.
  unfold subscription, normalize_subscription; cbn. repeat decodes_step.
Qed.

Lemma decodes_assignment a :
  wf_assignment a -> decodes assignment (AppendAssignment [] a) (normalize_assignment a).
Proof.
  destruct a as [v parts ud udn rack rackn rackp].
  intros (?&?&?&?). cbn in *. rewrite append_assignment. cbn.
  unfold assignment, normalize_assignment; cbn. repeat decodes_step.
Qed.
