(* ===== verification/JoinGroup.v ===== *)
(** * JoinGroup requests, versions 0 to 9: internal/kwire/joingroup.go *)

From stdpp Require Import base numbers list strings gmap.
From Stdlib Require Import ZArith Lia Strings.Byte.
From S2P Require Import Prelude Primitives Codec Header.

Record JoinGroupProtocol := mkJoinGroupProtocol {
  JP_Name : string;
  JP_Metadata : list byte;
}.

Record JoinGroupRequest := mkJoinGroupRequest {
  JG_Version : Z;
  JG_Group : string;
  JG_SessionTimeoutMs : Z;
  JG_RebalanceTimeoutMs : Z;
  JG_MemberID : string;
  JG_GroupInstanceID : string;
  JG_GIIDPresent : bool;
  JG_GIIDNull : bool;
  JG_ProtocolType : string;
  JG_Protocols : list JoinGroupProtocol;
  JG_Reason : string;
  JG_ReasonPresent : bool;
  JG_ReasonNull : bool;
}.

(** One iteration of the protocols loop. *)
Definition joinGroupProtocol (flex : bool) : Dec JoinGroupProtocol :=
  name <- rd_string flex ;;
  md <- rd_bytes flex ;;
  rd_tagged flex ;;
  ret (mkJoinGroupProtocol name md).

Definition joinGroupRequest (version : Z) : Dec JoinGroupRequest :=
  let flex := IsFlexibleRequest APIJoinGroup version in
  group <- rd_string flex ;;
  session <- ReadInt32 ;;
  rebalance <- rd_when (1 <=? version) ReadInt32 (-1) ;;
  member <- rd_string flex ;;
  giid <- rd_when (5 <=? version) (rd_nstring flex) (""%string, false) ;;
  ptype <- rd_string flex ;;
  protos <- rd_array flex (joinGroupProtocol flex) ;;
  reason <- rd_when (9 <=? version) (rd_nstring flex) (""%string, false) ;;
  rd_tagged flex ;;
  ret (mkJoinGroupRequest version group session rebalance member
         (fst giid) (5 <=? version) (snd giid) ptype protos
         (fst reason) (9 <=? version) (snd reason)).

Definition DecodeJoinGroupRequest (body : list byte) (version : Z)
    : outcome kerr JoinGroupRequest :=
  run_dec (joinGroupRequest version) body.

Definition append_protocol (flex : bool) (dst : list byte) (p : JoinGroupProtocol) : list byte :=
  let dst := ap_string flex dst (JP_Name p) in
  let dst := ap_bytes flex dst (JP_Metadata p) in
  ap_tagged flex dst.

Definition AppendJoinGroupRequest (dst : list byte) (r : JoinGroupRequest) : list byte :=
  let version := JG_Version r in
  let flex := IsFlexibleRequest APIJoinGroup version in
  let dst := ap_string flex dst (JG_Group r) in
  let dst := AppendInt32 dst (JG_SessionTimeoutMs r) in
  let dst := if 1 <=? version then AppendInt32 dst (JG_RebalanceTimeoutMs r) else dst in
  let dst := ap_string flex dst (JG_MemberID r) in
  let dst := if 5 <=? version then ap_nstring flex dst (JG_GroupInstanceID r) (JG_GIIDNull r)
             else dst in
  let dst := ap_string flex dst (JG_ProtocolType r) in
  let dst := ap_array flex (append_protocol flex) dst (JG_Protocols r) in
  let dst := if 9 <=? version then ap_nstring flex dst (JG_Reason r) (JG_ReasonNull r) else dst in
  ap_tagged flex dst.

(** ** Well-formed values *)

Definition wf_protocol (flex : bool) (p : JoinGroupProtocol) : Prop :=
  str_ok flex (JP_Name p) /\ bytes_ok flex (JP_Metadata p).

Definition wf_joingroup (version : Z) (r : JoinGroupRequest) : Prop :=
  let flex := IsFlexibleRequest APIJoinGroup version in
  JG_Version r = version /\ str_ok flex (JG_Group r) /\ int32 (JG_SessionTimeoutMs r) /\
  when_ok (1 <=? version) int32 (-1) (JG_RebalanceTimeoutMs r) /\
  str_ok flex (JG_MemberID r) /\
  when_ok (5 <=? version) (nstr_ok flex) (""%string, false) (JG_GroupInstanceID r, JG_GIIDNull r) /\
  str_ok flex (JG_ProtocolType r) /\
  arr_ok flex (wf_protocol flex) (JG_Protocols r) /\
  when_ok (9 <=? version) (nstr_ok flex) (""%string, false) (JG_Reason r, JG_ReasonNull r) /\
  JG_GIIDPresent r = (5 <=? version) /\ JG_ReasonPresent r = (9 <=? version).

(** ** The codecs *)

#[global] Instance appender_protocol flex : Appender (append_protocol flex).
Proof. unfold append_protocol. solve_appender. Qed.
#[global] Instance appender_joingroup : Appender AppendJoinGroupRequest.
Proof. unfold AppendJoinGroupRequest. solve_appender. Qed.

Lemma protocol_nonempty flex p : append_protocol flex [] p <> [].
Proof.
  unfold append_protocol. append_norm. intros H%(f_equal len).
  rewrite !len_app in H. pose proof (ap_string_pos flex (JP_Name p)). len_lia.
Qed.

#[global] Instance protocol_codec flex :
  WireCodec (wf_protocol flex) (append_protocol flex) (joinGroupProtocol flex).
Proof.
  split.
  - apply _.
  - unfold joinGroupProtocol. apply _.
  - unfold joinGroupProtocol. solve_yields. by unfold wf_protocol.
  - intros [name md] [??]; cbn in *. unfold joinGroupProtocol, append_protocol; cbn.
    append_norm. repeat decodes_step.
Qed.

#[global] Instance joingroup_codec version :
  WireCodec (wf_joingroup version) AppendJoinGroupRequest (joinGroupRequest version).
Proof.
  split.
  - apply _.
  - unfold joinGroupRequest. apply _.
  - unfold joinGroupRequest. set (flex := IsFlexibleRequest _ _).
    pose proof (codec_yields (dec := joinGroupProtocol flex)).
    solve_yields. unfold wf_joingroup; cbn. solve_wf.
  - intros [v group ses reb member gi gip gin pt ps reason rp rn]
      (Hv&?&?&?&?&?&?&Hps&?&Hgip&Hrp). cbn in *. subst v gip rp.
    unfold joinGroupRequest, AppendJoinGroupRequest; cbn.
    set (flex := IsFlexibleRequest _ _) in *.
    pose proof (decodes_rd_array flex (joinGroupProtocol flex) _ _ ps
      (fun p Hp => conj (codec_decodes p Hp) (protocol_nonempty flex p)) Hps).
    append_norm. repeat decodes_step.
Qed.
