(* ===== verification/SyncGroup.v ===== *)
(** * SyncGroup requests and responses, versions 0 to 5: internal/kwire/syncgroup.go *)

From stdpp Require Import base numbers list strings gmap.
From Stdlib Require Import ZArith Lia Strings.Byte.
From S2P Require Import Prelude Primitives Codec Header.

Record SyncGroupAssignment := mkSyncGroupAssignment {
  SA_MemberID : string;
  SA_MemberAssignment : list byte;
  SA_MAIsNull : bool;
}.

Record SyncGroupRequest := mkSyncGroupRequest {
  SG_Version : Z;
  SG_Group : string;
  SG_Generation : Z;
  SG_MemberID : string;
  SG_InstanceID : string;
  SG_InstancePres : bool;
  SG_InstanceNull : bool;
  SG_ProtocolType : string;
  SG_ProtoTypePres : bool;
  SG_ProtoTypeNull : bool;
  SG_ProtocolName : string;
  SG_ProtoNamePres : bool;
  SG_ProtoNameNull : bool;
  SG_Assignments : list SyncGroupAssignment;
}.

Record SyncGroupResponse := mkSyncGroupResponse {
  SR_Version : Z;
  SR_ThrottleTimeMs : Z;
  SR_ErrorCode : Z;
  SR_ProtocolType : string;
  SR_ProtoTypeNull : bool;
  SR_ProtocolName : string;
  SR_ProtoNameNull : bool;
  SR_MemberAssignment : list byte;
  SR_MAIsNull : bool;
}.

(** ** Requests *)

(** One iteration of the assignments loop. *)
Definition syncGroupAssignment (flex : bool) : Dec SyncGroupAssignment :=
  member <- rd_string flex ;;
  ma <- rd_nbytes flex ;;
  rd_tagged flex ;;
  ret (mkSyncGroupAssignment member (fst ma) (snd ma)).

(** The two protocol fields of version 5. *)
Definition protocol_fields (version : Z) (flex : bool) : Dec ((string * bool) * (string * bool)) :=
  rd_when (5 <=? version)
    (pt <- rd_nstring flex ;; pn <- rd_nstring flex ;; ret (pt, pn))
    ((""%string, false), (""%string, false)).

Definition syncGroupRequest (version : Z) : Dec SyncGroupRequest :=
  let flex := IsFlexibleRequest APISyncGroup version in
  group <- rd_string flex ;;
  gen <- ReadInt32 ;;
  member <- rd_string flex ;;
  inst <- rd_when (3 <=? version) (rd_nstring flex) (""%string, false) ;;
  pr <- protocol_fields version flex ;;
  asgs <- rd_array flex (syncGroupAssignment flex) ;;
  rd_tagged flex ;;
  ret (mkSyncGroupRequest version group gen member
         (fst inst) (3 <=? version) (snd inst)
         (fst (fst pr)) (5 <=? version) (snd (fst pr))
         (fst (snd pr)) (5 <=? version) (snd (snd pr)) asgs).

Definition DecodeSyncGroupRequest (body : list byte) (version : Z)
    : outcome kerr SyncGroupRequest :=
  run_dec (syncGroupRequest version) body.

Definition append_sg_assignment (flex : bool) (dst : list byte) (a : SyncGroupAssignment)
    : list byte :=
  let dst := ap_string flex dst (SA_MemberID a) in
  let dst := ap_nbytes flex dst (SA_MemberAssignment a) (SA_MAIsNull a) in
  ap_tagged flex dst.

Definition AppendSyncGroupRequest (dst : list byte) (r : SyncGroupRequest) : list byte :=
  let version := SG_Version r in
  let flex := IsFlexibleRequest APISyncGroup version in
  let dst := ap_string flex dst (SG_Group r) in
  let dst := AppendInt32 dst (SG_Generation r) in
  let dst := ap_string flex dst (SG_MemberID r) in
  let dst := if 3 <=? version then ap_nstring flex dst (SG_InstanceID r) (SG_InstanceNull r)
             else dst in
  let dst := if 5 <=? version
             then ap_nstring flex (ap_nstring flex dst (SG_ProtocolType r) (SG_ProtoTypeNull r))
                    (SG_ProtocolName r) (SG_ProtoNameNull r)
             else dst in
  let dst := ap_array flex (append_sg_assignment flex) dst (SG_Assignments r) in
  ap_tagged flex dst.

(** ** Responses *)

Definition syncGroupResponse (version : Z) : Dec SyncGroupResponse :=
  let flex := IsFlexibleResponse APISyncGroup version in
  throttle <- rd_when (1 <=? version) ReadInt32 0 ;;
  ec <- ReadInt16 ;;
  pr <- protocol_fields version flex ;;
  ma <- rd_nbytes flex ;;
  rd_tagged flex ;;
  ret (mkSyncGroupResponse version throttle ec
         (fst (fst pr)) (snd (fst pr)) (fst (snd pr)) (snd (snd pr)) (fst ma) (snd ma)).

Definition DecodeSyncGroupResponse (body : list byte) (version : Z)
    : outcome kerr SyncGroupResponse :=
  run_dec (syncGroupResponse version) body.

Definition AppendSyncGroupResponse (dst : list byte) (r : SyncGroupResponse) : list byte :=
  let version := SR_Version r in
  let flex := IsFlexibleResponse APISyncGroup version in
  let dst := if 1 <=? version then AppendInt32 dst (SR_ThrottleTimeMs r) else dst in
  let dst := AppendInt16 dst (SR_ErrorCode r) in
  let dst := if 5 <=? version
             then ap_nstring flex (ap_nstring flex dst (SR_ProtocolType r) (SR_ProtoTypeNull r))
                    (SR_ProtocolName r) (SR_ProtoNameNull r)
             else dst in
  let dst := ap_nbytes flex dst (SR_MemberAssignment r) (SR_MAIsNull r) in
  ap_tagged flex dst.

(** ** Well-formed values *)

Definition wf_sg_assignment (flex : bool) (a : SyncGroupAssignment) : Prop :=
  str_ok flex (SA_MemberID a) /\ nbytes_ok flex (SA_MemberAssignment a, SA_MAIsNull a).

Definition wf_protocol_fields (version : Z) (flex : bool)
    (p : (string * bool) * (string * bool)) : Prop :=
  when_ok (5 <=? version) (fun p => nstr_ok flex (fst p) /\ nstr_ok flex (snd p))
    ((""%string, false), (""%string, false)) p.

Definition wf_syncgroup (version : Z) (r : SyncGroupRequest) : Prop :=
  let flex := IsFlexibleRequest APISyncGroup version in
  SG_Version r = version /\ str_ok flex (SG_Group r) /\ int32 (SG_Generation r) /\
  str_ok flex (SG_MemberID r) /\
  when_ok (3 <=? version) (nstr_ok flex) (""%string, false) (SG_InstanceID r, SG_InstanceNull r) /\
  wf_protocol_fields version flex
    ((SG_ProtocolType r, SG_ProtoTypeNull r), (SG_ProtocolName r, SG_ProtoNameNull r)) /\
  arr_ok flex (wf_sg_assignment flex) (SG_Assignments r) /\
  SG_InstancePres r = (3 <=? version) /\ SG_ProtoTypePres r = (5 <=? version) /\
  SG_ProtoNamePres r = (5 <=? version).

Definition wf_syncresponse (version : Z) (r : SyncGroupResponse) : Prop :=
  let flex := IsFlexibleResponse APISyncGroup version in
  SR_Version r = version /\ when_ok (1 <=? version) int32 0 (SR_ThrottleTimeMs r) /\
  int16 (SR_ErrorCode r) /\
  wf_protocol_fields version flex
    ((SR_ProtocolType r, SR_ProtoTypeNull r), (SR_ProtocolName r, SR_ProtoNameNull r)) /\
  nbytes_ok flex (SR_MemberAssignment r, SR_MAIsNull r).

(** ** The codecs *)

#[global] Instance safe_protocol_fields v flex : Safe (protocol_fields v flex).
Proof. unfold protocol_fields. apply _. Qed.

Lemma yields_protocol_fields v flex : yields (protocol_fields v flex) (wf_protocol_fields v flex).
Proof. unfold protocol_fields. apply yields_rd_when. solve_yields. done. Qed.

Lemma decodes_protocol_fields v flex pt ptn pn pnn :
  wf_protocol_fields v flex ((pt, ptn), (pn, pnn)) ->
  decodes (protocol_fields v flex)
    (if 5 <=? v then ap_nstring flex [] pt ptn ++ ap_nstring flex [] pn pnn else [])
    ((pt, ptn), (pn, pnn)).
Proof.
  intros H. eapply decodes_rd_when; [exact H|]. simpl. intros [??]. repeat decodes_step.
Qed.

#[local] Hint Resolve yields_protocol_fields decodes_protocol_fields : kwire.

#[global] Instance appender_sg_assignment flex : Appender (append_sg_assignment flex).
Proof. unfold append_sg_assignment. solve_appender. Qed.
#[global] Instance appender_syncgroup : Appender AppendSyncGroupRequest.
Proof. unfold AppendSyncGroupRequest. solve_appender. Qed.
#[global] Instance appender_syncresponse : Appender AppendSyncGroupResponse.
Proof. unfold AppendSyncGroupResponse. solve_appender. Qed.

Lemma sg_assignment_nonempty flex a : append_sg_assignment flex [] a <> [].
Proof.
  unfold append_sg_assignment. append_norm. intros H%(f_equal len).
  rewrite !len_app in H. pose proof (ap_string_pos flex (SA_MemberID a)). len_lia.
Qed.

#[global] Instance sg_assignment_codec flex :
  WireCodec (wf_sg_assignment flex) (append_sg_assignment flex) (syncGroupAssignment flex).
Proof.
  split.
  - apply _.
  - unfold syncGroupAssignment. apply _.
  - unfold syncGroupAssignment. solve_yields. by unfold wf_sg_assignment.
  - intros [member ma null] [??]; cbn in *. unfold syncGroupAssignment, append_sg_assignment; cbn.
    append_norm. repeat decodes_step.
Qed.

#[global] Instance syncgroup_codec version :
  WireCodec (wf_syncgroup version) AppendSyncGroupRequest (syncGroupRequest version).
Proof.
  split.
  - apply _.
  - unfold syncGroupRequest. apply _.
  - unfold syncGroupRequest. set (flex := IsFlexibleRequest _ _).
    pose proof (codec_yields (dec := syncGroupAssignment flex)).
    solve_yields. unfold wf_syncgroup; cbn. solve_wf.
  - intros [v group gen member inst instp instn pt ptp ptn pn pnp pnn asgs]
      (Hv&?&?&?&?&?&Ha&Hi&Hpt&Hpn). cbn in *. subst v instp ptp pnp.
    unfold syncGroupRequest, AppendSyncGroupRequest; cbn.
    set (flex := IsFlexibleRequest _ _) in *.
    pose proof (decodes_rd_array flex (syncGroupAssignment flex) _ _ asgs
      (fun a Ha => conj (codec_decodes a Ha) (sg_assignment_nonempty flex a)) Ha).
    append_norm. repeat decodes_step.
Qed.

#[global] Instance syncresponse_codec version :
  WireCodec (wf_syncresponse version) AppendSyncGroupResponse (syncGroupResponse version).
Proof.
  split.
  - apply _.
  - unfold syncGroupResponse. apply _.
  - unfold syncGroupResponse. solve_yields. unfold wf_syncresponse; cbn. solve_wf.
  - intros [v thr ec pt ptn pn pnn ma man] (Hv&?&?&?&?). cbn in *. subst v.
    unfold syncGroupResponse, AppendSyncGroupResponse; cbn. append_norm. repeat decodes_step.
Qed.
