(* ===== verification/ClientCodecs.v ===== *)
(** * The proxy's own requests: internal/kwire/offsetfetch.go, listoffsets.go, describegroups.go

    For telemetry the proxy is a Kafka client: it encodes OffsetFetch (v8),
    ListOffsets (v6) and DescribeGroups (v5) requests and decodes their
    responses.  All three versions are flexible, so [rd_string true] is
    [ReadCompactString] and so on.

    The code has one half of each codec.  The other half, what a broker reads
    and writes at these versions, is given as a reference ([broker_...]) from
    Kafka's message schemas; the theorems say that the two halves agree. *)

From stdpp Require Import base numbers list strings gmap.
From Stdlib Require Import ZArith Lia Strings.Byte.
From S2P Require Import Prelude Primitives Codec.

Definition OffsetFetchVersion : Z := 8.
Definition ListOffsetsVersion : Z := 6.
Definition DescribeGroupsVersion : Z := 5.
Definition OffsetLatest : Z := -1.
Definition IsolationReadUncommitted : Z := 0.

(** [if b { dst = append(dst, 1) } else { dst = append(dst, 0) }] *)
Definition append_bool (dst : list byte) (b : bool) : list byte :=
  if b then dst ++ [Byte.x01] else dst ++ [Byte.x00].

(** ** Data *)

Record OffsetFetchTopicReq := mkOffsetFetchTopicReq {
  OT_Name : string;
  OT_PartitionIndexes : list Z;
}.

Record OffsetFetchGroup := mkOffsetFetchGroup {
  OG_GroupID : string;
  OG_Topics : list OffsetFetchTopicReq;
  OG_TopicsNull : bool;
}.

Record OffsetFetchRequest := mkOffsetFetchRequest {
  OQ_Groups : list OffsetFetchGroup;
  OQ_RequireStable : bool;
}.

Record OffsetFetchPartitionResp := mkOffsetFetchPartitionResp {
  OP_PartitionIndex : Z;
  OP_CommittedOffset : Z;
  OP_CommittedLeaderEpoch : Z;
  OP_Metadata : string;
  OP_MetadataNull : bool;
  OP_ErrorCode : Z;
}.

Record OffsetFetchTopicResp := mkOffsetFetchTopicResp {
  OTR_Name : string;
  OTR_Partitions : list OffsetFetchPartitionResp;
}.

Record OffsetFetchGroupResp := mkOffsetFetchGroupResp {
  OGR_GroupID : string;
  OGR_Topics : list OffsetFetchTopicResp;
  OGR_ErrorCode : Z;
}.

Record OffsetFetchResponse := mkOffsetFetchResponse {
  OR_ThrottleTimeMs : Z;
  OR_Groups : list OffsetFetchGroupResp;
}.

Record ListOffsetsPartition := mkListOffsetsPartition {
  LP_PartitionIndex : Z;
  LP_CurrentLeaderEpoch : Z;
  LP_Timestamp : Z;
}.

Record ListOffsetsTopic := mkListOffsetsTopic {
  LT_Name : string;
  LT_Partitions : list ListOffsetsPartition;
}.

Record ListOffsetsRequest := mkListOffsetsRequest {
  LQ_ReplicaID : Z;
  LQ_IsolationLevel : Z;
  LQ_Topics : list ListOffsetsTopic;
}.

Record ListOffsetsPartitionResp := mkListOffsetsPartitionResp {
  LR_PartitionIndex : Z;
  LR_ErrorCode : Z;
  LR_Timestamp : Z;
  LR_Offset : Z;
  LR_LeaderEpoch : Z;
}.

Record ListOffsetsTopicResp := mkListOffsetsTopicResp {
  LTR_Name : string;
  LTR_Partitions : list ListOffsetsPartitionResp;
}.

Record ListOffsetsResponse := mkListOffsetsResponse {
  LS_ThrottleTimeMs : Z;
  LS_Topics : list ListOffsetsTopicResp;
}.

Record DescribeGroupsRequest := mkDescribeGroupsRequest {
  DQ_Groups : list string;
  DQ_IncludeAuthorizedOperations : bool;
}.

Record DescribedGroupMember := mkDescribedGroupMember {
  DM_MemberID : string;
  DM_GroupInstanceID : string;
  DM_GroupInstanceIDNull : bool;
  DM_ClientID : string;
  DM_ClientHost : string;
  DM_MemberMetadata : list byte;
  DM_MemberAssignment : list byte;
}.

Record DescribedGroup := mkDescribedGroup {
  DG_ErrorCode : Z;
  DG_GroupID : string;
  DG_GroupState : string;
  DG_ProtocolType : string;
  DG_ProtocolData : string;
  DG_Members : list DescribedGroupMember;
  DG_AuthorizedOperations : Z;
}.

Record DescribeGroupsResponse := mkDescribeGroupsResponse {
  DR_ThrottleTimeMs : Z;
  DR_Groups : list DescribedGroup;
}.

(** ** The code's halves: request encoders *)

Definition append_of_topic (dst : list byte) (t : OffsetFetchTopicReq) : list byte :=
  let dst := ap_string true dst (OT_Name t) in
  let dst := appendInt32Array true dst (OT_PartitionIndexes t) in
  AppendEmptyTaggedFields dst.

Definition append_of_group (dst : list byte) (g : OffsetFetchGroup) : list byte :=
  let dst := ap_string true dst (OG_GroupID g) in
  let dst :=
    if OG_TopicsNull g then AppendUvarint dst 0
    else fold_left append_of_topic (OG_Topics g)
           (AppendUvarint dst (uwrap 32 (len (OG_Topics g) + 1))) in
  AppendEmptyTaggedFields dst.

Definition AppendOffsetFetchRequest (dst : list byte) (r : OffsetFetchRequest) : list byte :=
  let dst := ap_array true append_of_group dst (OQ_Groups r) in
  let dst := append_bool dst (OQ_RequireStable r) in
  AppendEmptyTaggedFields dst.

Definition append_lo_partition (dst : list byte) (p : ListOffsetsPartition) : list byte :=
  let dst := AppendInt32 dst (LP_PartitionIndex p) in
  let dst := AppendInt32 dst (LP_CurrentLeaderEpoch p) in
  let dst := AppendInt64 dst (LP_Timestamp p) in
  AppendEmptyTaggedFields dst.

Definition append_lo_topic (dst : list byte) (t : ListOffsetsTopic) : list byte :=
  let dst := ap_string true dst (LT_Name t) in
  let dst := ap_array true append_lo_partition dst (LT_Partitions t) in
  AppendEmptyTaggedFields dst.

Definition AppendListOffsetsRequest (dst : list byte) (r : ListOffsetsRequest) : list byte :=
  let dst := AppendInt32 dst (LQ_ReplicaID r) in
  let dst := AppendInt8 dst (LQ_IsolationLevel r) in
  let dst := ap_array true append_lo_topic dst (LQ_Topics r) in
  AppendEmptyTaggedFields dst.

Definition AppendDescribeGroupsRequest (dst : list byte) (r : DescribeGroupsRequest) : list byte :=
  let dst := ap_array true (ap_string true) dst (DQ_Groups r) in
  let dst := append_bool dst (DQ_IncludeAuthorizedOperations r) in
  AppendEmptyTaggedFields dst.

(** ** The code's halves: response decoders *)

Definition of_partition : Dec OffsetFetchPartitionResp :=
  idx <- ReadInt32 ;;
  committed <- ReadInt64 ;;
  epoch <- ReadInt32 ;;
  md <- rd_nstring true ;;
  ec <- ReadInt16 ;;
  rd_tagged true ;;
  ret (mkOffsetFetchPartitionResp idx committed epoch (fst md) (snd md) ec).

Definition of_topic : Dec OffsetFetchTopicResp :=
  name <- rd_string true ;;
  ps <- rd_array true of_partition ;;
  rd_tagged true ;;
  ret (mkOffsetFetchTopicResp name ps).

Definition of_group : Dec OffsetFetchGroupResp :=
  gid <- rd_string true ;;
  ts <- rd_array true of_topic ;;
  ec <- ReadInt16 ;;
  rd_tagged true ;;
  ret (mkOffsetFetchGroupResp gid ts ec).

Definition offsetFetchResponse : Dec OffsetFetchResponse :=
  throttle <- ReadInt32 ;;
  gs <- rd_array true of_group ;;
  rd_tagged true ;;
  ret (mkOffsetFetchResponse throttle gs).

Definition DecodeOffsetFetchResponse (body : list byte) : outcome kerr OffsetFetchResponse :=
  run_dec offsetFetchResponse body.

Definition lo_partition : Dec ListOffsetsPartitionResp :=
  idx <- ReadInt32 ;;
  ec <- ReadInt16 ;;
  ts <- ReadInt64 ;;
  o <- ReadInt64 ;;
  epoch <- ReadInt32 ;;
  rd_tagged true ;;
  ret (mkListOffsetsPartitionResp idx ec ts o epoch).

Definition lo_topic : Dec ListOffsetsTopicResp :=
  name <- rd_string true ;;
  ps <- rd_array true lo_partition ;;
  rd_tagged true ;;
  ret (mkListOffsetsTopicResp name ps).

Definition listOffsetsResponse : Dec ListOffsetsResponse :=
  throttle <- ReadInt32 ;;
  ts <- rd_array true lo_topic ;;
  rd_tagged true ;;
  ret (mkListOffsetsResponse throttle ts).

Definition DecodeListOffsetsResponse (body : list byte) : outcome kerr ListOffsetsResponse :=
  run_dec listOffsetsResponse body.

Definition dg_member : Dec DescribedGroupMember :=
  mid <- rd_string true ;;
  inst <- rd_nstring true ;;
  cid <- rd_string true ;;
  host <- rd_string true ;;
  md <- rd_bytes true ;;
  asg <- rd_bytes true ;;
  rd_tagged true ;;
  ret (mkDescribedGroupMember mid (fst inst) (snd inst) cid host md asg).

Definition dg_group : Dec DescribedGroup :=
  ec <- ReadInt16 ;;
  gid <- rd_string true ;;
  st <- rd_string true ;;
  pt <- rd_string true ;;
  pd <- rd_string true ;;
  ms <- rd_array true dg_member ;;
  ops <- ReadInt32 ;;
  rd_tagged true ;;
  ret (mkDescribedGroup ec gid st pt pd ms ops).

Definition describeGroupsResponse : Dec DescribeGroupsResponse :=
  throttle <- ReadInt32 ;;
  gs <- rd_array true dg_group ;;
  rd_tagged true ;;
  ret (mkDescribeGroupsResponse throttle gs).

Definition DecodeDescribeGroupsResponse (body : list byte)
    : outcome kerr DescribeGroupsResponse :=
  run_dec describeGroupsResponse body.

(** ** The broker's halves: request decoders *)

Definition broker_bool : Dec bool := b <- ReadInt8 ;; ret (negb (b =? 0)).

Definition broker_of_topic : Dec OffsetFetchTopicReq :=
  name <- rd_string true ;;
  ps <- decodeInt32Array true ;;
  rd_tagged true ;;
  ret (mkOffsetFetchTopicReq name ps).

(** A nullable array: the elements and whether it was null. *)
Definition broker_nullable_array {A} (d : Dec A) : Dec (list A * bool) :=
  p <- ReadCompactArrayLen ;;
  xs <- replicateM (Z.to_nat (fst p)) d ;;
  ret (xs, snd p).

Definition broker_of_group : Dec OffsetFetchGroup :=
  gid <- rd_string true ;;
  ts <- broker_nullable_array broker_of_topic ;;
  rd_tagged true ;;
  ret (mkOffsetFetchGroup gid (fst ts) (snd ts)).

Definition broker_of_request : Dec OffsetFetchRequest :=
  gs <- rd_array true broker_of_group ;;
  stable <- broker_bool ;;
  rd_tagged true ;;
  ret (mkOffsetFetchRequest gs stable).

Definition broker_lo_partition : Dec ListOffsetsPartition :=
  idx <- ReadInt32 ;;
  epoch <- ReadInt32 ;;
  ts <- ReadInt64 ;;
  rd_tagged true ;;
  ret (mkListOffsetsPartition idx epoch ts).

Definition broker_lo_topic : Dec ListOffsetsTopic :=
  name <- rd_string true ;;
  ps <- rd_array true broker_lo_partition ;;
  rd_tagged true ;;
  ret (mkListOffsetsTopic name ps).

Definition broker_lo_request : Dec ListOffsetsRequest :=
  rid <- ReadInt32 ;;
  iso <- ReadInt8 ;;
  ts <- rd_array true broker_lo_topic ;;
  rd_tagged true ;;
  ret (mkListOffsetsRequest rid iso ts).

Definition broker_dg_request : Dec DescribeGroupsRequest :=
  gs <- rd_array true (rd_string true) ;;
  ops <- broker_bool ;;
  rd_tagged true ;;
  ret (mkDescribeGroupsRequest gs ops).

(** ** The broker's halves: response encoders *)

Definition broker_append_of_partition (dst : list byte) (p : OffsetFetchPartitionResp) : list byte :=
  let dst := AppendInt32 dst (OP_PartitionIndex p) in
  let dst := AppendInt64 dst (OP_CommittedOffset p) in
  let dst := AppendInt32 dst (OP_CommittedLeaderEpoch p) in
  let dst := ap_nstring true dst (OP_Metadata p) (OP_MetadataNull p) in
  let dst := AppendInt16 dst (OP_ErrorCode p) in
  ap_tagged true dst.

Definition broker_append_of_topic (dst : list byte) (t : OffsetFetchTopicResp) : list byte :=
  let dst := ap_string true dst (OTR_Name t) in
  let dst := ap_array true broker_append_of_partition dst (OTR_Partitions t) in
  ap_tagged true dst.

Definition broker_append_of_group (dst : list byte) (g : OffsetFetchGroupResp) : list byte :=
  let dst := ap_string true dst (OGR_GroupID g) in
  let dst := ap_array true broker_append_of_topic dst (OGR_Topics g) in
  let dst := AppendInt16 dst (OGR_ErrorCode g) in
  ap_tagged true dst.

Definition broker_append_of_response (dst : list byte) (r : OffsetFetchResponse) : list byte :=
  let dst := AppendInt32 dst (OR_ThrottleTimeMs r) in
  let dst := ap_array true broker_append_of_group dst (OR_Groups r) in
  ap_tagged true dst.

Definition broker_append_lo_partition (dst : list byte) (p : ListOffsetsPartitionResp) : list byte :=
  let dst := AppendInt32 dst (LR_PartitionIndex p) in
  let dst := AppendInt16 dst (LR_ErrorCode p) in
  let dst := AppendInt64 dst (LR_Timestamp p) in
  let dst := AppendInt64 dst (LR_Offset p) in
  let dst := AppendInt32 dst (LR_LeaderEpoch p) in
  ap_tagged true dst.

Definition broker_append_lo_topic (dst : list byte) (t : ListOffsetsTopicResp) : list byte :=
  let dst := ap_string true dst (LTR_Name t) in
  let dst := ap_array true broker_append_lo_partition dst (LTR_Partitions t) in
  ap_tagged true dst.

Definition broker_append_lo_response (dst : list byte) (r : ListOffsetsResponse) : list byte :=
  let dst := AppendInt32 dst (LS_ThrottleTimeMs r) in
  let dst := ap_array true broker_append_lo_topic dst (LS_Topics r) in
  ap_tagged true dst.

Definition broker_append_dg_member (dst : list byte) (m : DescribedGroupMember) : list byte :=
  let dst := ap_string true dst (DM_MemberID m) in
  let dst := ap_nstring true dst (DM_GroupInstanceID m) (DM_GroupInstanceIDNull m) in
  let dst := ap_string true dst (DM_ClientID m) in
  let dst := ap_string true dst (DM_ClientHost m) in
  let dst := ap_bytes true dst (DM_MemberMetadata m) in
  let dst := ap_bytes true dst (DM_MemberAssignment m) in
  ap_tagged true dst.

Definition broker_append_dg_group (dst : list byte) (g : DescribedGroup) : list byte :=
  let dst := AppendInt16 dst (DG_ErrorCode g) in
  let dst := ap_string true dst (DG_GroupID g) in
  let dst := ap_string true dst (DG_GroupState g) in
  let dst := ap_string true dst (DG_ProtocolType g) in
  let dst := ap_string true dst (DG_ProtocolData g) in
  let dst := ap_array true broker_append_dg_member dst (DG_Members g) in
  let dst := AppendInt32 dst (DG_AuthorizedOperations g) in
  ap_tagged true dst.

Definition broker_append_dg_response (dst : list byte) (r : DescribeGroupsResponse) : list byte :=
  let dst := AppendInt32 dst (DR_ThrottleTimeMs r) in
  let dst := ap_array true broker_append_dg_group dst (DR_Groups r) in
  ap_tagged true dst.

(** ** Well-formed values *)

Definition wf_of_topic (t : OffsetFetchTopicReq) : Prop :=
  str_ok true (OT_Name t) /\ arr_ok true int32 (OT_PartitionIndexes t).

Definition wf_of_group (g : OffsetFetchGroup) : Prop :=
  str_ok true (OG_GroupID g) /\ nullable [] (arr_ok true wf_of_topic) (OG_Topics g, OG_TopicsNull g).

Definition wf_of_request (r : OffsetFetchRequest) : Prop := arr_ok true wf_of_group (OQ_Groups r).

Definition wf_lo_partition (p : ListOffsetsPartition) : Prop :=
  int32 (LP_PartitionIndex p) /\ int32 (LP_CurrentLeaderEpoch p) /\ int64 (LP_Timestamp p).

Definition wf_lo_topic (t : ListOffsetsTopic) : Prop :=
  str_ok true (LT_Name t) /\ arr_ok true wf_lo_partition (LT_Partitions t).

Definition wf_lo_request (r : ListOffsetsRequest) : Prop :=
  int32 (LQ_ReplicaID r) /\ int8 (LQ_IsolationLevel r) /\ arr_ok true wf_lo_topic (LQ_Topics r).

Definition wf_dg_request (r : DescribeGroupsRequest) : Prop :=
  arr_ok true (str_ok true) (DQ_Groups r).

Definition wf_of_partition_resp (p : OffsetFetchPartitionResp) : Prop :=
  int32 (OP_PartitionIndex p) /\ int64 (OP_CommittedOffset p) /\
  int32 (OP_CommittedLeaderEpoch p) /\ nstr_ok true (OP_Metadata p, OP_MetadataNull p) /\
  int16 (OP_ErrorCode p).

Definition wf_of_topic_resp (t : OffsetFetchTopicResp) : Prop :=
  str_ok true (OTR_Name t) /\ arr_ok true wf_of_partition_resp (OTR_Partitions t).

Definition wf_of_group_resp (g : OffsetFetchGroupResp) : Prop :=
  str_ok true (OGR_GroupID g) /\ arr_ok true wf_of_topic_resp (OGR_Topics g) /\
  int16 (OGR_ErrorCode g).

Definition wf_of_response (r : OffsetFetchResponse) : Prop :=
  int32 (OR_ThrottleTimeMs r) /\ arr_ok true wf_of_group_resp (OR_Groups r).

Definition wf_lo_partition_resp (p : ListOffsetsPartitionResp) : Prop :=
  int32 (LR_PartitionIndex p) /\ int16 (LR_ErrorCode p) /\ int64 (LR_Timestamp p) /\
  int64 (LR_Offset p) /\ int32 (LR_LeaderEpoch p).

Definition wf_lo_topic_resp (t : ListOffsetsTopicResp) : Prop :=
  str_ok true (LTR_Name t) /\ arr_ok true wf_lo_partition_resp (LTR_Partitions t).

Definition wf_lo_response (r : ListOffsetsResponse) : Prop :=
  int32 (LS_ThrottleTimeMs r) /\ arr_ok true wf_lo_topic_resp (LS_Topics r).

Definition wf_dg_member (m : DescribedGroupMember) : Prop :=
  str_ok true (DM_MemberID m) /\ nstr_ok true (DM_GroupInstanceID m, DM_GroupInstanceIDNull m) /\
  str_ok true (DM_ClientID m) /\ str_ok true (DM_ClientHost m) /\
  bytes_ok true (DM_MemberMetadata m) /\ bytes_ok true (DM_MemberAssignment m).

Definition wf_dg_group (g : DescribedGroup) : Prop :=
  int16 (DG_ErrorCode g) /\ str_ok true (DG_GroupID g) /\ str_ok true (DG_GroupState g) /\
  str_ok true (DG_ProtocolType g) /\ str_ok true (DG_ProtocolData g) /\
  arr_ok true wf_dg_member (DG_Members g) /\ int32 (DG_AuthorizedOperations g).

Definition wf_dg_response (r : DescribeGroupsResponse) : Prop :=
  int32 (DR_ThrottleTimeMs r) /\ arr_ok true wf_dg_group (DR_Groups r).

(** ** The codecs of the responses *)

(** An element whose codec is known and whose encoding is not empty can be the
    element of an array. *)
Class ArrayElem {A} (wf : A -> Prop) (enc : list byte -> A -> list byte) (dec : Dec A) : Prop := {
  elem_codec :: WireCodec wf enc dec;
  elem_nonempty : forall a, enc [] a <> [];
}.

Lemma elem_array {A} (wf : A -> Prop) enc dec `{!ArrayElem wf enc dec} xs :
  arr_ok true wf xs -> decodes (rd_array true dec) (ap_array true enc [] xs) xs.
Proof.
  intros. apply (decodes_rd_array _ _ _ wf); [|done].
  intros x Hx. split; [by apply codec_decodes|apply elem_nonempty].
Qed.

Lemma elem_array_yields {A} (wf : A -> Prop) enc dec `{!ArrayElem wf enc dec} :
  yields (rd_array true dec) (arr_ok true wf).
Proof. apply yields_rd_array, (codec_yields (dec := dec)). Qed.

Lemma app_tagged_nonempty (l : list byte) : l ++ AppendEmptyTaggedFields [] <> [].
Proof. by destruct l. Qed.

#[local] Arguments rd_string : simpl never.
#[local] Arguments rd_nstring : simpl never.
#[local] Arguments rd_bytes : simpl never.
#[local] Arguments str_ok : simpl never.
#[local] Arguments nstr_ok : simpl never.
#[local] Arguments bytes_ok : simpl never.
#[local] Arguments arr_ok : simpl never.

(** The codec of a flexible struct: its fields in order, then the tags. *)
Ltac solve_codec dec enc wf :=
  split;
  [ unfold enc; solve_appender
  | unfold dec; apply _
  | unfold dec; solve_yields; unfold wf; cbn; solve_wf
  | intros [] H; unfold wf in H; cbn in H; destruct_and? H; unfold dec, enc; cbn; append_norm;
    repeat decodes_step ].

Ltac solve_nonempty enc :=
  intros a; unfold enc; rewrite append_ap_tagged; apply app_tagged_nonempty.

#[global] Instance of_partition_elem :
  ArrayElem wf_of_partition_resp broker_append_of_partition of_partition.
Proof.
  split; [|solve_nonempty broker_append_of_partition].
  solve_codec of_partition broker_append_of_partition wf_of_partition_resp.
Qed.

#[local] Hint Extern 1 (decodes (rd_array true _) _ _) => eapply elem_array; [apply _|] : kwire.
#[local] Hint Extern 1 (yields (rd_array true _) _) => eapply elem_array_yields; apply _ : kwire.

#[global] Instance of_topic_elem : ArrayElem wf_of_topic_resp broker_append_of_topic of_topic.
Proof.
  split; [|solve_nonempty broker_append_of_topic].
  solve_codec of_topic broker_append_of_topic wf_of_topic_resp.
Qed.

#[global] Instance of_group_elem : ArrayElem wf_of_group_resp broker_append_of_group of_group.
Proof.
  split; [|solve_nonempty broker_append_of_group].
  solve_codec of_group broker_append_of_group wf_of_group_resp.
Qed.

#[global] Instance of_response_codec :
  WireCodec wf_of_response broker_append_of_response offsetFetchResponse.
Proof. solve_codec offsetFetchResponse broker_append_of_response wf_of_response. Qed.

#[global] Instance lo_partition_elem :
  ArrayElem wf_lo_partition_resp broker_append_lo_partition lo_partition.
Proof.
  split; [|solve_nonempty broker_append_lo_partition].
  solve_codec lo_partition broker_append_lo_partition wf_lo_partition_resp.
Qed.

#[global] Instance lo_topic_elem : ArrayElem wf_lo_topic_resp broker_append_lo_topic lo_topic.
Proof.
  split; [|solve_nonempty broker_append_lo_topic].
  solve_codec lo_topic broker_append_lo_topic wf_lo_topic_resp.
Qed.

#[global] Instance lo_response_codec :
  WireCodec wf_lo_response broker_append_lo_response listOffsetsResponse.
Proof. solve_codec listOffsetsResponse broker_append_lo_response wf_lo_response. Qed.

#[global] Instance dg_member_elem : ArrayElem wf_dg_member broker_append_dg_member dg_member.
Proof.
  split; [|solve_nonempty broker_append_dg_member].
  solve_codec dg_member broker_append_dg_member wf_dg_member.
Qed.

#[global] Instance dg_group_elem : ArrayElem wf_dg_group broker_append_dg_group dg_group.
Proof.
  split; [|solve_nonempty broker_append_dg_group].
  solve_codec dg_group broker_append_dg_group wf_dg_group.
Qed.

#[global] Instance dg_response_codec :
  WireCodec wf_dg_response broker_append_dg_response describeGroupsResponse.
Proof. solve_codec describeGroupsResponse broker_append_dg_response wf_dg_response. Qed.

(** ** The codecs of the requests *)

Lemma decodes_tagged : decodes (rd_tagged true) [Byte.x00] tt.
Proof. apply decodes_SkipTaggedFields. Qed.

Lemma append_append_bool dst b : append_bool dst b = dst ++ append_bool [] b.
Proof. by destruct b. Qed.

Lemma decodes_broker_bool b : decodes broker_bool (append_bool [] b) b.
Proof.
  eapply decodes_bind_nil with (a := if b then 1 else 0); [|destruct b; apply decodes_ret].
  destruct b; [apply (decodes_ReadInt8 1)|apply (decodes_ReadInt8 0)]; by vm_compute.
Qed.

#[local] Hint Resolve decodes_tagged decodes_broker_bool : kwire.

#[global] Instance safe_broker_bool : Safe broker_bool.
Proof. unfold broker_bool. apply _. Qed.

#[global] Instance safe_nullable_array {A} (d : Dec A) : Safe d -> Safe (broker_nullable_array d).
Proof. unfold broker_nullable_array. apply _. Qed.

Lemma ap_string_nonempty flex s : ap_string flex [] s <> [].
Proof. intros E%(f_equal len). pose proof (ap_string_pos flex s). rewrite E in *. done. Qed.

#[global] Instance string_elem : ArrayElem (str_ok true) (ap_string true) (rd_string true).
Proof.
  split; [split; [apply _..|apply yields_rd_string|apply decodes_rd_string]|].
  apply ap_string_nonempty.
Qed.

(** Requests end in the literal empty tag section. *)
Ltac solve_nonempty_req enc :=
  intros a; unfold enc; rewrite append_tagged; apply app_tagged_nonempty.

#[global] Instance of_topic_req_elem : ArrayElem wf_of_topic append_of_topic broker_of_topic.
Proof.
  split; [|solve_nonempty_req append_of_topic].
  solve_codec broker_of_topic append_of_topic wf_of_topic.
Qed.

(** A nullable array is decoded with its null flag. *)
Lemma decodes_nullable_array {A} (wf : A -> Prop) enc dec `{!ArrayElem wf enc dec} xs null :
  nullable [] (arr_ok true wf) (xs, null) ->
  decodes (broker_nullable_array dec)
    (if null then AppendUvarint [] 0
     else fold_left enc xs (AppendUvarint [] (uwrap 32 (len xs + 1)))) (xs, null).
Proof.
  unfold nullable, broker_nullable_array. destruct null; simpl.
  - intros ->. eapply decodes_bind_nil with (a := (0, true)); [|apply decodes_ret].
    eapply decodes_bind_nil; [apply (decodes_ReadUvarint 0); unfold in_uint; lia|apply decodes_ret].
  - intros [Hxs Hlen] pre rest. rewrite (append_fold enc). set (els := concat _).
    assert (len xs <= len els) as Hge.
    { apply len_concat_ge, Forall_forall. intros x _. apply elem_nonempty. }
    assert (decodes (replicateM (length xs) dec) els xs) as Hels.
    { apply (decodes_replicateM dec (enc [])). eapply Forall_impl; [done|]. apply codec_decodes. }
    set (hd := AppendUvarint _ _) in *.
    pose proof (read_compact_array_len pre (len xs) (els ++ rest) (len_nonneg _) Hlen ltac:(len_lia)) as Hrd.
    change (AppendCompactArrayLen [] (len xs) false) with hd in Hrd.
    unfold bind. rewrite <- app_assoc, Hrd. simpl fst. rewrite len_to_nat.
    specialize (Hels (pre ++ hd) rest). rewrite <- app_assoc, len_app in Hels.
    rewrite Hels. unfold ret. simpl. do 2 f_equal. len_lia.
Qed.

Lemma compact_array_null :
  yields ReadCompactArrayLen
    (fun p => (0 <= fst p /\ fst p + 1 < 2 ^ 32) /\ (snd p = true -> fst p = 0)).
Proof.
  intros c p c' E. split; [by eapply yields_ReadCompactArrayLen|].
  revert E. intros (v & c1 & _ & E)%bind_ok.
  destruct (v =? 0); [by injection E as <- <-|]. cbv zeta in E. destruct (_ || _); [done|]. by injection E as <- <-.
Qed.

Lemma yields_nullable_array {A} (wf : A -> Prop) enc dec `{!ArrayElem wf enc dec} :
  yields (broker_nullable_array dec) (nullable [] (arr_ok true wf)).
Proof.
  eapply yields_bind; [apply compact_array_null|]. intros [n null] [Hn Hnull].
  eapply yields_bind; [apply yields_replicateM, (codec_yields (dec := dec))|].
  intros xs [Hxs Hl]. apply yields_ret. unfold nullable. simpl in *. destruct null.
  - rewrite Hnull in Hl by done. by destruct xs.
  - split; [done|]. unfold len. rewrite Hl, Z2Nat.id; lia.
Qed.

Lemma append_nullable_array {A} (enc : list byte -> A -> list byte) `{!Appender enc} dst xs (null : bool) :
  (if null then AppendUvarint dst 0
   else fold_left enc xs (AppendUvarint dst (uwrap 32 (len xs + 1)))) =
  dst ++ (if null then AppendUvarint [] 0
          else fold_left enc xs (AppendUvarint [] (uwrap 32 (len xs + 1)))).
Proof.
  destruct null; [apply appender_uvarint|].
  rewrite !(append_fold enc), (appender_uvarint dst). by rewrite <- app_assoc.
Qed.

#[global] Instance of_group_req_elem : ArrayElem wf_of_group append_of_group broker_of_group.
Proof.
  split; [|solve_nonempty_req append_of_group]. split.
  - intros dst g. unfold append_of_group. cbv zeta. 
    rewrite (append_nullable_array append_of_topic (ap_string true dst _)),
      (append_nullable_array append_of_topic (ap_string true [] _)).
    append_norm. reflexivity.
  - unfold broker_of_group. apply _.
  - unfold broker_of_group. pose proof (yields_nullable_array _ _ broker_of_topic).
    solve_yields. by split.
  - intros [gid ts null] [? Hts]; cbn in *. unfold broker_of_group, append_of_group; cbn.
    pose proof (decodes_nullable_array _ _ broker_of_topic ts null Hts).
    rewrite (append_nullable_array append_of_topic). append_norm. repeat decodes_step.
Qed.

#[global] Instance of_request_codec :
  WireCodec wf_of_request AppendOffsetFetchRequest broker_of_request.
Proof.
  split.
  - intros dst r. unfold AppendOffsetFetchRequest. cbv zeta. 
    rewrite (append_append_bool (ap_array _ _ dst _)), (append_append_bool (ap_array _ _ [] _)).
    append_norm. reflexivity.
  - unfold broker_of_request. apply _.
  - unfold broker_of_request. pose proof (yields_any broker_bool). solve_yields. done.
  - intros [gs st] H; cbn in *. unfold broker_of_request, AppendOffsetFetchRequest; cbn.
    unfold wf_of_request in H; cbn in H. rewrite append_append_bool. append_norm.
    repeat decodes_step.
Qed.

#[global] Instance lo_partition_req_elem :
  ArrayElem wf_lo_partition append_lo_partition broker_lo_partition.
Proof.
  split; [|solve_nonempty_req append_lo_partition].
  solve_codec broker_lo_partition append_lo_partition wf_lo_partition.
Qed.

#[global] Instance lo_topic_req_elem : ArrayElem wf_lo_topic append_lo_topic broker_lo_topic.
Proof.
  split; [|solve_nonempty_req append_lo_topic].
  solve_codec broker_lo_topic append_lo_topic wf_lo_topic.
Qed.

#[global] Instance lo_request_codec :
  WireCodec wf_lo_request AppendListOffsetsRequest broker_lo_request.
Proof. solve_codec broker_lo_request AppendListOffsetsRequest wf_lo_request. Qed.

#[global] Instance dg_request_codec :
  WireCodec wf_dg_request AppendDescribeGroupsRequest broker_dg_request.
Proof.
  split.
  - intros dst r. unfold AppendDescribeGroupsRequest. cbv zeta.
    rewrite (append_append_bool (ap_array _ _ dst _)), (append_append_bool (ap_array _ _ [] _)).
    append_norm. reflexivity.
  - unfold broker_dg_request. apply _.
  - unfold broker_dg_request. pose proof (yields_any broker_bool). solve_yields. done.
  - intros [gs st] H; cbn in *. unfold broker_dg_request, AppendDescribeGroupsRequest; cbn.
    unfold wf_dg_request in H; cbn in H. rewrite append_append_bool. append_norm.
    repeat decodes_step.
Qed.

(** ** Properties *)

(** The bytes of the three requests the proxy sends are what a broker reads
    back as the same request: no field is lost, reordered or cut, the null
    topics of OffsetFetch included. *)
Theorem client_requests_understood q1 q2 q3 :
  wf_of_request q1 -> wf_lo_request q2 -> wf_dg_request q3 ->
  run_dec broker_of_request (AppendOffsetFetchRequest [] q1) = Ok q1 /\
  run_dec broker_lo_request (AppendListOffsetsRequest [] q2) = Ok q2 /\
  run_dec broker_dg_request (AppendDescribeGroupsRequest [] q3) = Ok q3.
Proof. intros. split_and!; by apply codec_roundtrip. Qed.

Definition sample_of_request : OffsetFetchRequest :=
  mkOffsetFetchRequest [mkOffsetFetchGroup "g" [] true;
                        mkOffsetFetchGroup "h" [mkOffsetFetchTopicReq "t" [0; 7]] false] true.
Definition sample_lo_request : ListOffsetsRequest :=
  mkListOffsetsRequest (-1) IsolationReadUncommitted
    [mkListOffsetsTopic "t" [mkListOffsetsPartition 3 (-1) OffsetLatest]].
Definition sample_dg_request : DescribeGroupsRequest := mkDescribeGroupsRequest ["g"; "h"]%string false.

Lemma client_requests_understood_witness :
  run_dec broker_of_request (AppendOffsetFetchRequest [] sample_of_request) = Ok sample_of_request /\
  run_dec broker_lo_request (AppendListOffsetsRequest [] sample_lo_request) = Ok sample_lo_request /\
  run_dec broker_dg_request (AppendDescribeGroupsRequest [] sample_dg_request) = Ok sample_dg_request.
Proof.
  apply (client_requests_understood sample_of_request sample_lo_request sample_dg_request);
    repeat first [split | constructor | lia | by vm_compute].
Defined.

(** The proxy decodes the three responses to exactly what the broker
    encoded, and on any other bytes it reports an error or a value, never a
    panic. *)
Theorem client_responses_decoded :
  (forall r, wf_of_response r ->
     DecodeOffsetFetchResponse (broker_append_of_response [] r) = Ok r) /\
  (forall r, wf_lo_response r ->
     DecodeListOffsetsResponse (broker_append_lo_response [] r) = Ok r) /\
  (forall r, wf_dg_response r ->
     DecodeDescribeGroupsResponse (broker_append_dg_response [] r) = Ok r) /\
  (forall b, DecodeOffsetFetchResponse b <> Panic /\ DecodeListOffsetsResponse b <> Panic /\
             DecodeDescribeGroupsResponse b <> Panic).
Proof.
  split_and!; [intros; by apply codec_roundtrip..|].
  intros b. split_and!; apply codec_no_panic.
Qed.
