(* ===== verification/Kwire.v ===== *)
(** * What package internal/kwire promises

    The theorems about the codecs of the preceding files: no input makes a
    decoder panic, what is decoded can be encoded again without loss, headers
    delimit the payload, and the length prefixes are bounded by the input. *)

From stdpp Require Import base numbers list strings gmap.
From Stdlib Require Import ZArith Lia Strings.Byte.
From S2P Require Import Prelude Primitives Codec Header MetadataCodec FindCoord.
From S2P Require Import ConsumerProtocol JoinGroup SyncGroup.

(** C20: no byte sequence, however malformed or truncated, makes a decoder of
    the messages the pumps and the interceptor handle panic (headers,
    Metadata, FindCoordinator, JoinGroup, SyncGroup, subscriptions,
    assignments): every slice expression is in range, at every version. The
    decoders of the proxy's own client are in ClientCodecs.v. *)
Theorem decoders_never_panic (b : list byte) (version apiKey : Z) :
  DecodeRequestHeader b <> Panic /\ DecodeResponseHeader b apiKey version <> Panic /\
  PeekResponseCorrelID b <> Panic /\ PeekRequestKeyVersion b <> Panic /\
  DecodeMetadataResponse b version <> Panic /\ DecodeFindCoordinatorResponse b version <> Panic /\
  DecodeJoinGroupRequest b version <> Panic /\ DecodeSyncGroupRequest b version <> Panic /\
  DecodeSyncGroupResponse b version <> Panic /\
  DecodeSubscription b <> Panic /\ DecodeAssignment b <> Panic.
Proof. split_and!; apply safe_run, _. Qed.

(** C21: a Metadata response the proxy decodes survives its re-encoding: the
    decoder reads the appended bytes back to the same message, whatever was
    already in the buffer's tail; and every well-formed message is decoded
    from its own encoding. *)
Theorem metadata_lossless version :
  (forall b r, DecodeMetadataResponse b version = Ok r ->
     DecodeMetadataResponse (AppendMetadataResponse [] r) version = Ok r) /\
  (forall r rest, wf_metadata version r ->
     DecodeMetadataResponse (AppendMetadataResponse [] r ++ rest) version = Ok r).
Proof.
  split; [intros; by eapply codec_reencode|].
  intros r rest Hr. by apply decodes_run, codec_decodes.
Qed.

Definition sample_metadata : MetadataResponse :=
  mkMetadataResponse 9 0 [mkMetadataBroker 1 "b1" 9092 "r" false] "c" false 1 [] 0.

Lemma metadata_lossless_witness :
  DecodeMetadataResponse (AppendMetadataResponse [] sample_metadata ++ [Byte.xff]) 9 = Ok sample_metadata /\
  DecodeMetadataResponse (AppendMetadataResponse [] sample_metadata) 9 = Ok sample_metadata.
Proof.
  split.
  - apply (proj2 (metadata_lossless 9)). repeat first [split | constructor | lia | by vm_compute].
  - apply (proj1 (metadata_lossless 9) (AppendMetadataResponse [] sample_metadata)).
    vm_compute. reflexivity.
Defined.

(** The same for FindCoordinator responses, in the single and in the
    batched shape. *)
Theorem findcoord_lossless version :
  (forall b r, DecodeFindCoordinatorResponse b version = Ok r ->
     DecodeFindCoordinatorResponse (AppendFindCoordinatorResponse [] r) version = Ok r) /\
  (forall r rest, wf_findcoord version r ->
     DecodeFindCoordinatorResponse (AppendFindCoordinatorResponse [] r ++ rest) version = Ok r).
Proof.
  split; [intros; by eapply codec_reencode|].
  intros r rest Hr. by apply decodes_run, codec_decodes.
Qed.

Definition sample_coordinators : FindCoordinatorResponse :=
  mkFindCoordinatorResponse 4 0 0 "" false 0 "" 0
    [mkFindCoordinatorEntry "g" 1 "b1" 9092 0 "" false; mkFindCoordinatorEntry "h" (-1) "" (-1) 15 "" true].

Lemma findcoord_lossless_witness :
  DecodeFindCoordinatorResponse (AppendFindCoordinatorResponse [] sample_coordinators) 4 =
    Ok sample_coordinators.
Proof.
  apply (proj1 (findcoord_lossless 4) (AppendFindCoordinatorResponse [] sample_coordinators)).
  vm_compute. reflexivity.
Defined.

(** C22: the same for the group requests the proxy inspects: a decoded JoinGroup
    or SyncGroup request (with the assignments the leader sends), and a
    SyncGroup response, is re-encoded to bytes that mean the same. *)
Theorem group_requests_lossless version b :
  (forall r, DecodeJoinGroupRequest b version = Ok r ->
     DecodeJoinGroupRequest (AppendJoinGroupRequest [] r) version = Ok r) /\
  (forall r, DecodeSyncGroupRequest b version = Ok r ->
     DecodeSyncGroupRequest (AppendSyncGroupRequest [] r) version = Ok r) /\
  (forall r, DecodeSyncGroupResponse b version = Ok r ->
     DecodeSyncGroupResponse (AppendSyncGroupResponse [] r) version = Ok r).
Proof. split_and!; intros; by eapply codec_reencode. Qed.

Definition sample_sync_request : SyncGroupRequest :=
  mkSyncGroupRequest 5 "g" 3 "m1" "" true true "consumer" true false "range" true false
    [mkSyncGroupAssignment "m1" [Byte.x00; Byte.x01] false].

Lemma group_requests_lossless_witness :
  DecodeSyncGroupRequest (AppendSyncGroupRequest [] sample_sync_request) 5 = Ok sample_sync_request.
Proof.
  apply (proj1 (proj2 (group_requests_lossless 5 (AppendSyncGroupRequest [] sample_sync_request)))).
  vm_compute. reflexivity.
Defined.

(** C23: an assignment or a subscription that is decoded, or built within the
    widths of the wire, is read back from its encoding as the same value up to
    [normalize_...]: version, topics, partitions, user data and rack are
    equal; the presence flags of the optional trailing fields become what the
    version implies; and a subscription of version 2 or later in which the
    generation was absent comes back with generation -1, the value the encoder
    writes for it. *)
Theorem consumer_protocol_roundtrip :
  (forall a, wf_assignment a ->
     DecodeAssignment (AppendAssignment [] a) = Ok (normalize_assignment a)) /\
  (forall s, wf_subscription s ->
     DecodeSubscription (AppendSubscription [] s) = Ok (normalize_subscription s)) /\
  (forall b a, DecodeAssignment b = Ok a ->
     DecodeAssignment (AppendAssignment [] a) = Ok (normalize_assignment a)) /\
  (forall b s, DecodeSubscription b = Ok s ->
     DecodeSubscription (AppendSubscription [] s) = Ok (normalize_subscription s)).
Proof.
  assert (forall a, wf_assignment a ->
     DecodeAssignment (AppendAssignment [] a) = Ok (normalize_assignment a)) as Ha
    by (intros; by apply decodes_run_nil, decodes_assignment).
  assert (forall s, wf_subscription s ->
     DecodeSubscription (AppendSubscription [] s) = Ok (normalize_subscription s)) as Hs
    by (intros; by apply decodes_run_nil, decodes_subscription).
  split_and!; [done..| |].
  - intros b a E. apply Ha. unfold DecodeAssignment, run_dec in E.
    destruct (assignment (NewCursor b)) as [o c] eqn:E'. simpl in E. subst.
    by eapply yields_assignment.
  - intros b s E. apply Hs. unfold DecodeSubscription, run_dec in E.
    destruct (subscription (NewCursor b)) as [o c] eqn:E'. simpl in E. subst.
    by eapply yields_subscription.
Qed.

Definition sample_assignment : Assignment :=
  mkAssignment 0 [mkTopicPartitions "t" [0; 2]] [] true "" false false.

Lemma consumer_protocol_roundtrip_witness :
  DecodeAssignment (AppendAssignment [] sample_assignment) =
    Ok (normalize_assignment sample_assignment).
Proof.
  apply (proj1 consumer_protocol_roundtrip sample_assignment).
  repeat first [split | constructor | lia | by vm_compute].
Defined.

(** The header of an encoded request is read back as it was, and its
    [HeaderSize] is where the payload starts: slicing the frame there gives
    exactly the payload. *)
Theorem request_header_delimits h payload :
  wf_header h ->
  let frame := AppendRequestHeader [] h ++ payload in
  exists size, DecodeRequestHeader frame = Ok (set_HeaderSize h size) /\
    go_slice frame size (len frame) = Some payload.
Proof.
  intros Hh. cbv zeta. eexists. split; [by apply decode_append_request_header|].
  apply go_slice_tail.
Qed.

Definition sample_header : RequestHeader :=
  mkRequestHeader APIMetadata 9 (-7) "client" false 0.

Lemma request_header_delimits_witness :
  exists size,
    DecodeRequestHeader (AppendRequestHeader [] sample_header ++ [Byte.xff]) =
      Ok (set_HeaderSize sample_header size) /\
    go_slice (AppendRequestHeader [] sample_header ++ [Byte.xff]) size
      (len (AppendRequestHeader [] sample_header ++ [Byte.xff])) = Some [Byte.xff].
Proof. apply (request_header_delimits sample_header [Byte.xff]). by vm_compute. Defined.

(** The same for responses, whose header version depends on the api key and
    version of the request; and peeking the correlation id without knowing
    them agrees with every header decoding. *)
Theorem response_header_delimits k v id payload :
  int32 id ->
  let frame := AppendResponseHeader [] k v id ++ payload in
  exists size, DecodeResponseHeader frame k v = Ok (mkResponseHeader id size) /\
    go_slice frame size (len frame) = Some payload /\
    PeekResponseCorrelID frame = Ok id.
Proof.
  intros Hid. cbv zeta. pose proof (decode_append_response_header k v id payload Hid) as E.
  eexists. split_and!; [exact E| |by apply (peek_decode_response _ _ _ _ E)].
  apply go_slice_tail.
Qed.

Lemma response_header_delimits_witness :
  exists size,
    DecodeResponseHeader (AppendResponseHeader [] APIMetadata 9 77 ++ [Byte.xff]) APIMetadata 9 =
      Ok (mkResponseHeader 77 size) /\
    go_slice (AppendResponseHeader [] APIMetadata 9 77 ++ [Byte.xff]) size
      (len (AppendResponseHeader [] APIMetadata 9 77 ++ [Byte.xff])) = Some [Byte.xff] /\
    PeekResponseCorrelID (AppendResponseHeader [] APIMetadata 9 77 ++ [Byte.xff]) = Ok 77.
Proof. apply (response_header_delimits APIMetadata 9 77 [Byte.xff]). by vm_compute. Defined.

(** An array length that a reader accepts is at most the number of bytes
    left, so that the slice made for it is never larger than the input,
    whatever the length prefix claims. *)
Theorem array_length_bounded c n null c' :
  (ReadArrayLen c = (Ok (n, null), c') \/ ReadCompactArrayLen c = (Ok (n, null), c')) ->
  n = 0 \/ 0 < n <= Remaining c'.
Proof.
  intros [E|E]; pose proof E as Hn.
  - apply yields_ReadArrayLen in Hn. apply bind_ok in E as (v & c1 & _ & E).
    destruct (v <? 0); [injection E as <- <- <-; by left|].
    destruct (Z.ltb_spec (Remaining c1) v); [done|]. injection E as <- <- <-. simpl in *. lia.
  - apply yields_ReadCompactArrayLen in Hn. apply bind_ok in E as (v & c1 & _ & E).
    destruct (v =? 0); [injection E as <- <- <-; by left|]. cbv zeta in E.
    destruct (v - 1 <? 0); [done|]. simpl in E.
    destruct (Z.ltb_spec (Remaining c1) (v - 1)); [done|].
    injection E as <- <- <-. simpl in *. lia.
Qed.

Lemma array_length_bounded_witness :
  2 = 0 \/ 0 < 2 <= Remaining {| buf := [Byte.x03; Byte.x00; Byte.x00]; off := 1 |}.
Proof.
  apply (array_length_bounded (NewCursor [Byte.x03; Byte.x00; Byte.x00]) 2 false).
  right. vm_compute. reflexivity.
Defined.

Lemma append_uvarint_len f v : len (append_uvarint f [] v) <= Z.of_nat f + 1.
Proof.
  revert v. induction f as [|f IH]; intros v; cbn [append_uvarint]; [done|].
  destruct (128 <=? v); [|len_lia].
  rewrite (appender_uvarint_loop f). specialize (IH (Z.shiftr v 7)). len_lia.
Qed.

(** An unsigned varint of 32 bits is written in at most five bytes, leaves
    the loop by its own condition (more fuel changes nothing), and is read
    back exactly, with the cursor behind its last byte. *)
Theorem uvarint_roundtrip v pre rest :
  uint32 v ->
  let bs := AppendUvarint [] v in
  1 <= len bs <= 5 /\ (forall fuel, (5 <= fuel)%nat -> append_uvarint fuel [] v = bs) /\
  ReadUvarint {| buf := pre ++ bs ++ rest; off := len pre |} =
    (Ok v, {| buf := pre ++ bs ++ rest; off := len pre + len bs |}).
Proof.
  intros Hv. cbv zeta. split_and!.
  - pose proof (uvarint_pos v). lia.
  - unfold AppendUvarint. unfold in_uint in Hv. rewrite (append_uvarint_fuel 4 5) by (simpl; lia).
    apply (append_uvarint_len 4).
  - intros fuel Hf. unfold in_uint in Hv. apply append_uvarint_fuel; [done|simpl; lia].
  - by apply decodes_ReadUvarint.
Qed.

Lemma uvarint_roundtrip_witness :
  let bs := AppendUvarint [] 4294967295 in
  1 <= len bs <= 5 /\ (forall fuel, (5 <= fuel)%nat -> append_uvarint fuel [] 4294967295 = bs) /\
  ReadUvarint {| buf := [] ++ bs ++ []; off := 0 |} =
    (Ok 4294967295, {| buf := [] ++ bs ++ []; off := 0 + len bs |}).
Proof. apply (uvarint_roundtrip 4294967295 [] []). by vm_compute. Defined.
