(* ===== verification/Locality.v ===== *)
(** * Readers look only at what they consume

    A successful read depends on the bytes between the cursor's position before
    and after it and on nothing else: it [decodes] them, in any context.  This
    is what lets the proxy keep a request header and replace the payload behind
    it. *)

From stdpp Require Import base numbers list strings gmap.
From Stdlib Require Import ZArith Lia Strings.Byte.
From S2P Require Import Prelude Primitives Codec Header.

(** The bytes between two positions. *)
Definition between (b : list byte) (lo hi : Z) : list byte :=
  take (Z.to_nat (hi - lo)) (drop (Z.to_nat lo) b).

Class Local {A} (d : Dec A) : Prop := {
  local_safe :: Safe d;
  local : forall c a c', wf_cursor c -> d c = (Ok a, c') ->
    decodes d (between (buf c) (off c) (off c')) a;
}.

Lemma between_app b lo mid hi :
  0 <= lo -> lo <= mid -> mid <= hi ->
  between b lo hi = between b lo mid ++ between b mid hi.
Proof.
  intros. unfold between.
  replace (Z.to_nat (hi - lo)) with (Z.to_nat (mid - lo) + Z.to_nat (hi - mid))%nat by lia.
  rewrite <- take_take_drop, drop_drop. do 3 f_equal. lia.
Qed.

Lemma len_between b lo hi : 0 <= lo -> lo <= hi -> hi <= len b -> len (between b lo hi) = hi - lo.
Proof. intros. unfold between, len in *. rewrite length_take, length_drop. lia. Qed.

Lemma between_slice b lo hi :
  0 <= lo -> lo <= hi -> hi <= len b -> go_slice b lo hi = Some (between b lo hi).
Proof. intros. by rewrite go_slice_some by lia. Qed.

Lemma between_refl b lo : between b lo lo = [].
Proof. unfold between. by rewrite Z.sub_diag. Qed.

#[global] Instance local_ret {A} (a : A) : Local (ret a).
Proof.
  split; [apply _|]. intros c a' c' _ [= <- <-]. rewrite between_refl. apply decodes_ret.
Qed.

#[global] Instance local_fail {A} e : Local (@fail A e).
Proof. split; [apply _|]. by intros. Qed.

#[global] Instance local_bind {A B} (m : Dec A) (k : A -> Dec B) :
  Local m -> (forall a, Local (k a)) -> Local (bind m k).
Proof.
  intros Hm Hk. split; [apply _|]. intros c b c' Hc E.
  apply bind_ok in E as (a & c1 & E1 & E2).
  destruct (safe (d := m) c Hc) as (o & c1' & E1' & _ & Hb1 & Ho1).
  rewrite E1 in E1'. injection E1' as <- <-.
  assert (wf_cursor c1) as Hc1 by (unfold wf_cursor in *; rewrite Hb1; lia).
  destruct (safe (d := k a) c1 Hc1) as (o & c2 & E2' & _ & Hb2 & Ho2).
  rewrite E2 in E2'. injection E2' as <- <-.
  rewrite (between_app _ _ (off c1)) by (unfold wf_cursor in *; lia).
  eapply decodes_bind; [by eapply local|]. rewrite <- Hb1. by eapply local.
Qed.

#[global] Instance local_if {A} (b : bool) (d1 d2 : Dec A) :
  Local d1 -> Local d2 -> Local (if b then d1 else d2).
Proof. by destruct b. Qed.

#[global] Instance local_for_range n d : Local d -> Local (for_range n d).
Proof.
  intros Hd. destruct n as [|p|p]; simpl; [apply _| |apply _].
  induction p as [q IH|q IH|]; simpl; apply _.
Qed.

(** *** The readers of the headers *)

Lemma decodes_Skip bs : decodes (Skip (len bs)) bs tt.
Proof.
  intros pre rest. unfold Skip; simpl. pose proof (len_nonneg bs).
  destruct (Z.ltb_spec (len bs) 0); [lia|]. simpl.
  match goal with |- context [?a <? ?b] => destruct (Z.ltb_spec a b) end; [len_lia|done].
Qed.

#[global] Instance local_Skip n : Local (Skip n).
Proof.
  split; [apply _|]. intros c [] c' [Hc1 Hc2] E. unfold Skip in E.
  destruct (Z.ltb_spec n 0); [done|]. destruct (Z.ltb_spec (len (buf c)) (off c + n)); [done|].
  injection E as <-. simpl.
  set (bs := between _ _ _). replace n with (len bs) by (subst bs; rewrite len_between; lia).
  apply decodes_Skip.
Qed.

Lemma local_read_n n : 0 <= n -> Local (read_n n).
Proof.
  intros Hn. split; [by apply safe_read_n|]. intros c a c' [Hc1 Hc2] E. unfold read_n in E.
  destruct (Z.ltb_spec (len (buf c)) (off c + n)); [done|].
  rewrite between_slice in E by lia. injection E as <- <-. simpl.
  set (bs := between _ _ _). replace n with (len bs) by (subst bs; rewrite len_between; lia).
  apply decodes_read_n.
Qed.

(** A fixed-width read sees its bytes only. *)
Lemma decodes_read_be_bytes k bs :
  len bs = Z.of_nat k -> decodes (read_be k) bs (swrap (8 * Z.of_nat k) (be_val bs)).
Proof.
  intros Hl pre rest. unfold read_be, be_uint; simpl.
  destruct (Z.ltb_spec (len (pre ++ bs ++ rest)) (len pre + Z.of_nat k)); [len_lia|].
  rewrite go_slice_some by len_lia. rewrite len_to_nat, drop_app_length.
  replace (len (pre ++ bs ++ rest) - len pre) with (len (bs ++ rest)) by len_lia.
  rewrite len_to_nat, firstn_all.
  destruct (Z.ltb_spec (len (bs ++ rest)) (Z.of_nat k)); [len_lia|].
  rewrite take_app_length' by (unfold len in Hl; lia).
  unfold advance; simpl. by rewrite Hl.
Qed.

#[global] Instance local_read_be k : Local (read_be k).
Proof.
  split; [apply _|]. intros c a c' [Hc1 Hc2] E. unfold read_be in E.
  destruct (Z.ltb_spec (len (buf c)) (off c + Z.of_nat k)); [done|].
  rewrite go_slice_some in E by lia. unfold be_uint in E.
  destruct (len (take _ _) <? _); [done|]. injection E as <- <-. simpl.
  replace (take k (take (Z.to_nat (len (buf c) - off c)) (drop (Z.to_nat (off c)) (buf c))))
    with (between (buf c) (off c) (off c + Z.of_nat k)).
  - apply decodes_read_be_bytes. rewrite len_between; lia.
  - unfold between. rewrite take_take. f_equal. unfold len in *. lia.
Qed.

#[global] Instance local_ReadInt16 : Local ReadInt16 := local_read_be 2.
#[global] Instance local_ReadInt32 : Local ReadInt32 := local_read_be 4.

#[global] Instance local_ReadNullableString : Local ReadNullableString.
Proof.
  split; [apply _|]. unfold ReadNullableString. intros c p c' Hc E.
  assert (Local (n <- ReadInt16 ;; if n <? 0 then ret (""%string, true)
                 else b <- read_n (Z.max 0 n) ;; ret (string_of_bytes b, false))) as HL.
  { apply local_bind; [apply _|]. intros n. apply local_if; [apply _|].
    apply local_bind; [apply local_read_n; lia|apply _]. }
  eapply decodes_ext; [|eapply HL; [exact Hc|]].
  - apply bind_proper; [done|]. intros n. destruct (Z.ltb_spec n 0); [done|].
    by rewrite Z.max_r by lia.
  - revert E. unfold bind. destruct (ReadInt16 c) as [[n| |] c1]; [|done..].
    destruct (Z.ltb_spec n 0); [done|]. by rewrite Z.max_r by lia.
Qed.

Lemma local_uvarint_loop k v shift : Local (uvarint_loop k v shift).
Proof.
  split; [apply safe_uvarint_loop|]. revert v shift.
  induction k as [|k IH]; intros v shift c a c' [Hc1 Hc2] E; [done|].
  cbn [uvarint_loop] in E. destruct (Z.leb_spec (len (buf c)) (off c)); [done|].
  destruct (go_slice_1 (buf c) (off c)) as [x Hx]; [lia..|]. rewrite Hx in E.
  rewrite between_slice in Hx by lia. injection Hx as Hx.
  assert (forall bs r, (if Z.land (byte_val x) 128 =? 0 then bs = [] /\
       r = Z.lor v (uwrap 32 (Z.shiftl (Z.land (byte_val x) 127) shift))
     else decodes (uvarint_loop k (Z.lor v (uwrap 32 (Z.shiftl (Z.land (byte_val x) 127) shift)))
            (shift + 7)) bs r) -> decodes (uvarint_loop (S k) v shift) (x :: bs) r) as Hstep.
  { intros bs r Hr pre rest. cbn [uvarint_loop buf off].
    destruct (Z.leb_spec (len (pre ++ (x :: bs) ++ rest)) (len pre)); [len_lia|].
    cbn [app]. rewrite go_slice_mid_1. destruct (_ =? 0).
    - destruct Hr as [-> ->]. done.
    - specialize (Hr (pre ++ [x]) rest). rewrite <- app_assoc in Hr. cbn [app] in Hr.
      unfold advance; cbn [buf off].
      replace (len pre + 1) with (len (pre ++ [x])) by len_lia. rewrite Hr. do 2 f_equal. len_lia. }
  assert (off c <= off (advance c 1)) as Hadv by (simpl; lia).
  destruct (Z.land (byte_val x) 128 =? 0) eqn:Hbit.
  - injection E as <- <-. simpl. rewrite Hx. by apply Hstep.
  - destruct (safe_uvarint_loop k (Z.lor v (uwrap 32 (Z.shiftl (Z.land (byte_val x) 127) shift)))
      (shift + 7) (advance c 1)) as (o & c2 & E2 & _ & Hb2 & Ho2).
    { unfold wf_cursor; simpl; lia. }
    rewrite E in E2. injection E2 as <- <-. simpl in Hb2, Ho2.
    rewrite (between_app _ _ (off c + 1)) by lia. rewrite Hx. cbn [app]. apply Hstep.
    apply (IH _ _ (advance c 1)); [unfold wf_cursor; simpl; lia|done].
Qed.

#[global] Instance local_ReadUvarint : Local ReadUvarint := local_uvarint_loop 5 0 0.

#[global] Instance local_SkipTaggedFields : Local SkipTaggedFields.
Proof. unfold SkipTaggedFields. apply _. Qed.

#[global] Instance local_rd_tagged flex : Local (rd_tagged flex).
Proof. destruct flex; apply _. Qed.

(** ** Headers *)

#[global] Instance local_request_fields : Local request_fields.
Proof. unfold request_fields. apply _. Qed.

(** A decoded request header is decoded again from its own bytes, whatever
    payload follows them. *)
Lemma header_respliced body h payload :
  DecodeRequestHeader body = Ok h ->
  DecodeRequestHeader (take (Z.to_nat (RH_HeaderSize h)) body ++ payload) = Ok h.
Proof.
  intros E. pose proof (header_size_range body h E) as Hsz.
  assert (exists h0 c, request_fields (NewCursor body) = (Ok h0, c) /\ h = set_HeaderSize h0 (off c))
    as (h0 & c & E0 & ->).
  { revert E. unfold DecodeRequestHeader, requestHeader, run_dec, bind at 1.
    destruct (request_fields (NewCursor body)) as [[h0| |] c]; [|done..].
    intros [= <-]. by exists h0, c. }
  pose proof (local (NewCursor body) h0 c (wf_NewCursor body) E0) as Hd.
  unfold between in Hd. cbn [buf off NewCursor] in Hd. rewrite Z.sub_0_r in Hd.
  change (Z.to_nat 0) with O in Hd. rewrite drop_0 in Hd. simpl in *.
  unfold DecodeRequestHeader, requestHeader. rewrite (run_dec_offset _ set_HeaderSize _ _ _ Hd).
  do 2 f_equal. unfold len in *. rewrite length_take. lia.
Qed.
