(* ===== verification/Frame.v ===== *)
(** * Framing: internal/frame/reader.go, writer.go, pool.go

    Length-prefixed frames over a byte stream, the reusable [Buffer] with its
    backing array, and the pool of buffers.

    A stream is what an [io.Reader] will deliver: the bytes to come and the
    error that every read returns after them.  A sink is an [io.Writer]: what
    has been written, and, if it is going to fail, after how many more bytes
    and with what error. *)

From stdpp Require Import base numbers list strings gmap.
From Stdlib Require Import ZArith Lia Strings.Byte.
From S2P Require Import Prelude Primitives.

(** ** Streams and sinks *)

Inductive io_err := EOF | UnexpectedEOF | NetClosed | OtherErr.

#[global] Instance io_err_eq_dec : EqDecision io_err.
Proof. solve_decision. Defined.

Record Stream := mkStream { data : list byte; fin : io_err }.

(** [io.ReadFull(r, b)] with [len(b) = n]: the bytes stored at the front of [b],
    the error if fewer than [n], and what is left.  An [EOF] after some but not
    all bytes becomes [ErrUnexpectedEOF]. *)
Definition ReadFull (s : Stream) (n : Z) : list byte * option io_err * Stream :=
  if n <=? len (data s)
  then (take (Z.to_nat n) (data s), None, mkStream (drop (Z.to_nat n) (data s)) (fin s))
  else
    let err := if bool_decide (data s <> []) && bool_decide (fin s = EOF)
               then UnexpectedEOF else fin s in
    (data s, Some err, mkStream [] (fin s)).

Record Sink := mkSink { written : list byte; room : option (nat * io_err) }.

(** A write of [b]: all of it, or up to the point of failure. *)
Definition sink_write (w : Sink) (b : list byte) : option io_err * Sink :=
  match room w with
  | None => (None, mkSink (written w ++ b) None)
  | Some (k, e) =>
      if (length b <=? k)%nat
      then (None, mkSink (written w ++ b) (Some ((k - length b)%nat, e)))
      else (Some e, mkSink (written w ++ take k b) (Some (O, e)))
  end.

(** ** Buffers *)

(** A slice [b.b]: the backing array and the length in use; [cap] is the length
    of the array. *)
Record Buffer := mkBuffer { arr : list byte; blen : nat }.

Definition BufBytes (b : Buffer) : list byte := take (blen b) (arr b).
Definition BufLen (b : Buffer) : Z := len (BufBytes b).
Definition BufCap (b : Buffer) : Z := len (arr b).
Definition BufReset (b : Buffer) : Buffer := mkBuffer (arr b) 0.

Definition grow (b : Buffer) (n : Z) : Buffer :=
  if n <=? BufCap b then mkBuffer (arr b) (Z.to_nat n)
  else mkBuffer (replicate (Z.to_nat n) Byte.x00) (Z.to_nat n).

(** The bytes [got] stored at the front of [b.b]. *)
Definition store_front (b : Buffer) (got : list byte) : Buffer :=
  mkBuffer (got ++ drop (length got) (arr b)) (blen b).

(** ** Reading and writing frames *)

Inductive frame_err := ErrFrameTooLarge | ErrNegativeFrame | IoErr (e : io_err).

Definition MaxFrameSize : Z := 16 * 2 ^ 20.

(** [NewReader]: the cap in force. *)
Definition NewReader (maxSize : Z) : Z := if maxSize <=? 0 then MaxFrameSize else maxSize.

Definition ReadFrame (maxSize : Z) (b : Buffer) (s : Stream)
    : (frame_err + list byte) * Buffer * Stream :=
  match ReadFull s 4 with
  | (_, Some e, s) => (inl (IoErr e), b, s)
  | (hdr, None, s) =>
      let size := swrap 32 (be_val hdr) in
      if size <? 0 then (inl ErrNegativeFrame, b, s) else
      if maxSize <? size then (inl ErrFrameTooLarge, b, s) else
      let b := grow b size in
      match ReadFull s (Z.of_nat (blen b)) with
      | (got, Some e, s) => (inl (IoErr e), store_front b got, s)
      | (got, None, s) => let b := store_front b got in (inr (BufBytes b), b, s)
      end
  end.

Definition WriteFrame (w : Sink) (body : list byte) : option frame_err * Sink :=
  let n := len body in
  if (n <? 0) || (2 ^ 32 - 1 <? n) then (Some ErrFrameTooLarge, w) else
  let '(err, w) := sink_write w (be_bytes 4 (uwrap 32 n) ++ body) in
  (IoErr <$> err, w).

(** ** The pool *)

Definition maxCap : Z := 2 ^ 20.

(** [sync.Pool] hands out any pooled buffer or a new one, as it likes; [pick]
    is its choice. *)
Definition PoolGet (pool : list Buffer) (pick : option nat) : Buffer * list Buffer :=
  match pick with
  | Some i =>
      match pool !! i with
      | Some b => (BufReset b, delete i pool)
      | None => (mkBuffer (replicate (Z.to_nat (8 * 2 ^ 10)) Byte.x00) 0, pool)
      end
  | None => (mkBuffer (replicate (Z.to_nat (8 * 2 ^ 10)) Byte.x00) 0, pool)
  end.

(** [Release]; a nil buffer is [None]. *)
Definition Release (pool : list Buffer) (b : option Buffer) : list Buffer :=
  match b with
  | None => pool
  | Some b => if maxCap <? BufCap b then pool else BufReset b :: pool
  end.

(** ** Facts *)

(** The length in use is within the array. *)
Definition buffer_ok (b : Buffer) : Prop := Z.of_nat (blen b) <= BufCap b.

Lemma grow_ok b n : 0 <= n -> buffer_ok (grow b n) /\ Z.of_nat (blen (grow b n)) = n.
Proof.
  intros Hn. unfold grow, buffer_ok, BufCap. destruct (Z.leb_spec n (len (arr b))); simpl.
  - lia.
  - unfold len. rewrite length_replicate. lia.
Qed.

Lemma grow_cap b n : 0 <= n -> BufCap (grow b n) = Z.max (BufCap b) n.
Proof.
  intros Hn. unfold grow. destruct (Z.leb_spec n (BufCap b)); unfold BufCap in *; simpl; [lia|].
  unfold len in *. rewrite length_replicate. lia.
Qed.

Lemma ReadFull_app s b rest f :
  s = mkStream (b ++ rest) f -> ReadFull s (len b) = (b, None, mkStream rest f).
Proof.
  intros ->. unfold ReadFull. simpl. destruct (Z.leb_spec (len b) (len (b ++ rest))); [|len_lia].
  by rewrite len_to_nat, take_app_length, drop_app_length.
Qed.

Lemma ReadFull_len s n got err s' :
  ReadFull s n = (got, err, s') -> 0 <= n -> len got <= n /\ (err = None -> len got = n).
Proof.
  unfold ReadFull. destruct (Z.leb_spec n (len (data s))); intros [= <- <- <-] Hn.
  - unfold len in *. rewrite length_take. lia.
  - split; [lia|done].
Qed.

Lemma store_front_cap b got :
  len got <= Z.of_nat (blen b) -> buffer_ok b -> BufCap (store_front b got) = BufCap b.
Proof.
  unfold buffer_ok, BufCap, store_front. simpl. intros H Hb.
  unfold len in *. rewrite length_app, length_drop. lia.
Qed.

Lemma store_front_bytes b got :
  len got = Z.of_nat (blen b) -> BufBytes (store_front b got) = got.
Proof.
  intros H. unfold BufBytes, store_front. simpl. apply take_app_length'. unfold len in H. lia.
Qed.

(** The length prefix of a frame is read back as the length of its body. *)
Lemma header_value n : 0 <= n < 2 ^ 31 -> swrap 32 (be_val (be_bytes 4 (uwrap 32 n))) = n.
Proof.
  intros Hn. rewrite (be_val_bytes_uwrap 4 32) by lia.
  apply swrap_uwrap_id; [lia|]. unfold in_int. simpl. lia.
Qed.

(** Reading a frame that is entirely in the stream. *)
Lemma read_frame maxSize b body rest f :
  len body <= maxSize -> len body < 2 ^ 31 ->
  exists b', ReadFrame maxSize b (mkStream (be_bytes 4 (uwrap 32 (len body)) ++ body ++ rest) f) =
    (inr body, b', mkStream rest f) /\ BufBytes b' = body /\ BufCap b' = Z.max (BufCap b) (len body).
Proof.
  intros Hm H31. pose proof (len_nonneg body). unfold ReadFrame.
  rewrite (ReadFull_app _ (be_bytes 4 (uwrap 32 (len body))) (body ++ rest) f) by done.
  rewrite header_value by lia.
  destruct (Z.ltb_spec (len body) 0); [lia|]. destruct (Z.ltb_spec maxSize (len body)); [lia|].
  destruct (grow_ok b (len body)) as [Hok Hlen]; [lia|]. cbv zeta. rewrite Hlen.
  rewrite (ReadFull_app _ body rest f) by done.
  rewrite store_front_bytes by lia. eexists. split; [done|]. split; [by apply store_front_bytes|].
  rewrite store_front_cap by (done || lia). by apply grow_cap.
Qed.

(** A frame on the wire. *)
Definition frame_bytes (body : list byte) : list byte := be_bytes 4 (uwrap 32 (len body)) ++ body.

Lemma write_frame w body :
  len body < 2 ^ 32 -> room w = None ->
  WriteFrame w body = (None, mkSink (written w ++ frame_bytes body) None).
Proof.
  intros H Hr. pose proof (len_nonneg body). unfold WriteFrame.
  destruct (Z.ltb_spec (len body) 0); [lia|]. destruct (Z.ltb_spec (2 ^ 32 - 1) (len body)); [lia|].
  simpl. unfold sink_write. by rewrite Hr.
Qed.

(** Read frames until the first error, with a bound on their number. *)
Fixpoint read_all (n : nat) (maxSize : Z) (b : Buffer) (s : Stream)
    : list (list byte) * option frame_err :=
  match n with
  | O => ([], None)
  | S n =>
      match ReadFrame maxSize b s with
      | (inl e, _, _) => ([], Some e)
      | (inr body, b', s') => let '(bs, e) := read_all n maxSize b' s' in (body :: bs, e)
      end
  end.

Lemma read_all_S n maxSize b s :
  read_all (S n) maxSize b s =
  match ReadFrame maxSize b s with
  | (inl e, _, _) => ([], Some e)
  | (inr body, b', s') => let '(bs, e) := read_all n maxSize b' s' in (body :: bs, e)
  end.
Proof. reflexivity. Qed.

(** Write frames one after the other. *)
Definition write_all (w : Sink) (bodies : list (list byte)) : Sink :=
  fold_left (fun w body => snd (WriteFrame w body)) bodies w.

(** ** Properties *)

(** C29: frames written to a stream are read back one by one, unchanged and in
    order, whatever the reused buffer held before, and the end of the stream
    after the last frame is reported as a clean [EOF]. *)
Theorem frames_roundtrip maxSize b bodies :
  Forall (fun body => len body <= maxSize /\ len body < 2 ^ 31) bodies ->
  read_all (S (length bodies)) maxSize b
    (mkStream (written (write_all (mkSink [] None) bodies)) EOF) = (bodies, Some (IoErr EOF)).
Proof.
  intros Hb.
  assert (forall acc, write_all (mkSink acc None) bodies =
                      mkSink (acc ++ concat (map frame_bytes bodies)) None) as Hw.
  { induction Hb as [|body bodies [_ H31] _ IH]; intros acc; simpl; [by rewrite app_nil_r|].
    unfold write_all in *. cbn [fold_left]. rewrite write_frame by (simpl; (lia || done)).
    cbn [snd written]. rewrite IH. by rewrite <- app_assoc. }
  rewrite Hw. simpl app. clear Hw. revert b.
  induction Hb as [|body bodies [Hm H31] _ IH]; intros b; [done|].
  cbn [length map concat written] in *. unfold frame_bytes at 1. rewrite <- app_assoc.
  set (rest := concat _) in *. rewrite read_all_S.
  destruct (read_frame maxSize b body rest EOF Hm H31) as (b' & -> & _).
  by rewrite (IH b').
Qed.

Lemma frames_roundtrip_witness :
  read_all 3 16 (mkBuffer [Byte.xff; Byte.xff] 1)
    (mkStream (written (write_all (mkSink [] None) [[Byte.x01; Byte.x02; Byte.x03]; []])) EOF) =
  ([[Byte.x01; Byte.x02; Byte.x03]; []], Some (IoErr EOF)).
Proof.
  apply (frames_roundtrip 16 (mkBuffer [Byte.xff; Byte.xff] 1) [[Byte.x01; Byte.x02; Byte.x03]; []]).
  repeat constructor; vm_compute; congruence.
Defined.

(** C30: memory per connection is bounded by the frame cap: whatever a peer
    announces, after [ReadFrame] the buffer's capacity is at most the cap or
    what it was before, and a negative or oversized length is refused before
    the buffer is grown or a byte of the body is read. *)
Theorem read_frame_bounded maxSize b s r b' s' :
  0 <= maxSize -> buffer_ok b -> ReadFrame maxSize b s = (r, b', s') ->
  BufCap b' <= Z.max (BufCap b) maxSize /\ buffer_ok b' /\
  ((r = inl ErrNegativeFrame \/ r = inl ErrFrameTooLarge) ->
     b' = b /\ data s' = drop 4 (data s)) /\
  (forall body, r = inr body -> len body <= maxSize /\ BufBytes b' = body).
Proof.
  intros Hmax Hok. unfold ReadFrame.
  assert (forall hdr s1, ReadFull s 4 = (hdr, None, s1) -> data s1 = drop 4 (data s)) as Hdrop.
  { intros hdr s1. unfold ReadFull. destruct (4 <=? _); [|done]. by intros [= _ <-]. }
  destruct (ReadFull s 4) as [[hdr [e|]] s1].
  { intros [= <- <- <-]. split_and!; [lia|done| |done]. by intros [?|?]. }
  specialize (Hdrop hdr s1 eq_refl).
  destruct (Z.ltb_spec (swrap 32 (be_val hdr)) 0).
  { intros [= <- <- <-]. split_and!; [lia|done|done|done]. }
  destruct (Z.ltb_spec maxSize (swrap 32 (be_val hdr))).
  { intros [= <- <- <-]. split_and!; [lia|done|done|done]. }
  cbv zeta. set (n := swrap 32 (be_val hdr)) in *.
  destruct (grow_ok b n) as [Hgok Hglen]; [lia|]. pose proof (grow_cap b n ltac:(lia)) as Hgcap.
  destruct (ReadFull s1 (Z.of_nat (blen (grow b n)))) as [[got err] s2] eqn:E.
  destruct (ReadFull_len _ _ _ _ _ E) as [Hle Heq]; [lia|].
  pose proof (store_front_cap (grow b n) got Hle Hgok) as Hcap.
  assert (buffer_ok (store_front (grow b n) got)) as Hsok.
  { unfold buffer_ok. rewrite Hcap. done. }
  destruct err as [e|]; intros [= <- <- <-]; split_and!; try done; try lia; try (by intros [?|?]).
  specialize (Heq eq_refl). intros body [= <-]. rewrite store_front_bytes by lia. split; [lia|done].
Qed.

Lemma read_frame_bounded_witness :
  let s := mkStream [Byte.x7f; Byte.xff; Byte.xff; Byte.xff; Byte.x00] EOF in
  BufCap (mkBuffer [] 0) <= Z.max (BufCap (mkBuffer [] 0)) MaxFrameSize /\
  buffer_ok (mkBuffer [] 0) /\
  ((@inl _ (list byte) ErrFrameTooLarge = inl ErrNegativeFrame \/
    @inl _ (list byte) ErrFrameTooLarge = inl ErrFrameTooLarge) ->
     mkBuffer [] 0 = mkBuffer [] 0 /\ [Byte.x00] = drop 4 (data s)) /\
  (forall body, inl ErrFrameTooLarge = inr body ->
     len body <= MaxFrameSize /\ BufBytes (mkBuffer [] 0) = body).
Proof.
  apply (read_frame_bounded MaxFrameSize (mkBuffer [] 0)
    (mkStream [Byte.x7f; Byte.xff; Byte.xff; Byte.xff; Byte.x00] EOF)
    (inl ErrFrameTooLarge) (mkBuffer [] 0) (mkStream [Byte.x00] EOF)).
  - vm_compute. discriminate.
  - vm_compute. discriminate.
  - vm_compute. reflexivity.
Defined.

(** A stream that ends inside a frame is an [UnexpectedEOF], with one exception:
    when it ends right behind the length prefix of a non-empty frame, the error
    is the plain [EOF] of a clean shutdown. *)
Lemma truncated_frame maxSize b body k :
  len body <= maxSize -> len body < 2 ^ 31 -> 0 < k < 4 + len body ->
  fst (fst (ReadFrame maxSize b (mkStream (take (Z.to_nat k) (frame_bytes body)) EOF))) =
  inl (IoErr (if k =? 4 then EOF else UnexpectedEOF)).
Proof.
  intros Hm H31 Hk. unfold frame_bytes. set (hdr := be_bytes 4 _).
  assert (length hdr = 4%nat) as Hh by apply length_be_bytes.
  unfold ReadFrame. destruct (Z.ltb_spec k 4).
  - assert (length (take (Z.to_nat k) (hdr ++ body)) = Z.to_nat k) as Hl.
    { rewrite length_take, length_app, Hh. lia. }
    unfold ReadFull at 1. cbn [data fin].
    destruct (Z.leb_spec 4 (len (take (Z.to_nat k) (hdr ++ body)))); [unfold len in *; lia|].
    rewrite (bool_decide_eq_true_2 (EOF = EOF)) by done.
    rewrite bool_decide_eq_true_2.
    + simpl. destruct (Z.eqb_spec k 4); [lia|done].
    + intros E. rewrite E in Hl. simpl in Hl. lia.
  - rewrite take_app_ge by lia. rewrite Hh.
    set (part := take _ body).
    assert (len part = k - 4) as Hp.
    { unfold part, len in *. rewrite length_take. lia. }
    rewrite (ReadFull_app _ hdr part EOF) by done.
    replace (swrap 32 (be_val hdr)) with (len body) by (symmetry; apply header_value; len_lia).
    pose proof (len_nonneg body).
    destruct (Z.ltb_spec (len body) 0); [lia|]. destruct (Z.ltb_spec maxSize (len body)); [lia|].
    cbv zeta. destruct (grow_ok b (len body)) as [_ ->]; [lia|].
    unfold ReadFull. cbn [data fin]. destruct (Z.leb_spec (len body) (len part)); [lia|].
    rewrite (bool_decide_eq_true_2 (EOF = EOF)) by done. rewrite andb_true_r. simpl.
    destruct (Z.eqb_spec k 4).
    + destruct part; [|len_lia]. done.
    + rewrite bool_decide_eq_true_2; [done|]. intros E. rewrite E, (@len_nil byte) in Hp. lia.
Qed.

(** A use of the pool: a buffer is taken, used in any way that keeps it a
    slice, and released. *)
Inductive pool_step : list Buffer * list Buffer -> list Buffer * list Buffer -> Prop :=
| pool_get pool held pick :
    pool_step (pool, held) (snd (PoolGet pool pick), fst (PoolGet pool pick) :: held)
| pool_use pool held1 b b' held2 :
    buffer_ok b' -> pool_step (pool, held1 ++ b :: held2) (pool, held1 ++ b' :: held2)
| pool_release pool held1 b held2 :
    pool_step (pool, held1 ++ b :: held2) (Release pool (Some b), held1 ++ held2).

Definition pooled_ok (b : Buffer) : Prop := blen b = O /\ BufCap b <= maxCap.

Lemma PoolGet_ok pool pick :
  Forall pooled_ok pool -> Forall pooled_ok (snd (PoolGet pool pick)) /\
                           BufBytes (fst (PoolGet pool pick)) = [].
Proof.
  intros H. unfold PoolGet. destruct pick as [i|]; [|done].
  destruct (pool !! i) as [b|] eqn:E; [|done]. simpl. split; [|done]. by apply Forall_delete.
Qed.

(** The pool never retains a large buffer: in every state reachable by
    getting, using and releasing buffers, each pooled buffer is empty and has
    a capacity of at most 1 MiB, and the next buffer handed out is empty. *)
Theorem pool_bounded pool held pick :
  rtc pool_step ([], []) (pool, held) ->
  Forall pooled_ok pool /\ BufBytes (fst (PoolGet pool pick)) = [].
Proof.
  intros Hr. assert (Forall pooled_ok pool) as H; [|split; [done|by apply PoolGet_ok]].
  change pool with (fst (pool, held)). revert Hr. generalize (pool, held) as st. clear pool held.
  apply (rtc_ind_r (fun st : list Buffer * list Buffer => Forall pooled_ok (fst st))); [constructor|].
  intros st1 st2 _ Hs IH. destruct Hs as [pool held pk|pool held1 b b' held2 Hok|pool held1 b held2]; simpl in *.
  - by apply PoolGet_ok.
  - done.
  - destruct (Z.ltb_spec maxCap (BufCap b)); [done|]. constructor; [|done]. split; [done|]. simpl.
    unfold BufCap in *. simpl. lia.
Qed.

Lemma pool_bounded_witness :
  Forall pooled_ok [mkBuffer [Byte.x00] 0] /\
  BufBytes (fst (PoolGet [mkBuffer [Byte.x00] 0] (Some O))) = [].
Proof.
  apply (pool_bounded [mkBuffer [Byte.x00] 0] [] (Some O)).
  eapply rtc_l; [apply (pool_get [] [] None)|].
  eapply rtc_l; [apply (pool_use [] [] _ (mkBuffer [Byte.x00] 1) []); vm_compute; discriminate|].
  eapply rtc_l; [apply (pool_release [] [] (mkBuffer [Byte.x00] 1) [])|]. apply rtc_refl.
Defined.

(** ** Facts for the connection *)

(** A frame that was read was on the stream, length prefix included. *)
Lemma read_frame_inv maxSize b s body b' s' :
  ReadFrame maxSize b s = (inr body, b', s') ->
  data s = frame_bytes body ++ data s' /\ fin s' = fin s.
Proof.
  unfold ReadFrame.
  destruct (ReadFull s 4) as [[hdr [e|]] s1] eqn:E1; [done|].
  assert (length hdr = 4%nat /\ data s = hdr ++ data s1 /\ fin s1 = fin s) as (Hh & Hd & Hf).
  { unfold ReadFull in E1. destruct (Z.leb_spec 4 (len (data s))); [|done].
    injection E1 as <- <-. simpl. unfold len in *. rewrite length_take, take_drop.
    split_and!; [lia|done..]. }
  destruct (Z.ltb_spec (swrap 32 (be_val hdr)) 0); [done|].
  destruct (Z.ltb_spec maxSize (swrap 32 (be_val hdr))); [done|].
  cbv zeta. set (n := swrap 32 (be_val hdr)) in *.
  destruct (grow_ok b n) as [_ Hlen]; [lia|].
  destruct (ReadFull s1 (Z.of_nat (blen (grow b n)))) as [[got [e|]] s2] eqn:E2; [done|].
  destruct (ReadFull_len _ _ _ _ _ E2) as [_ Heq]; [lia|]. specialize (Heq eq_refl).
  assert (data s1 = got ++ data s2 /\ fin s2 = fin s1) as [Hd2 Hf2].
  { unfold ReadFull in E2. destruct (_ <=? _); [|done]. injection E2 as <- <-. simpl.
    by rewrite take_drop. }
  rewrite store_front_bytes by lia. intros [= <- _ <-].
  rewrite Hf2, Hf, Hd, Hd2. split; [|done]. unfold frame_bytes. rewrite <- app_assoc. f_equal.
  rewrite Heq, Hlen. pose proof (be_val_range hdr) as Hr. unfold len in Hr. rewrite Hh in Hr.
  replace (uwrap 32 n) with (be_val hdr).
  - rewrite <- Hh. by rewrite be_bytes_of_val.
  - subst n. unfold uwrap, swrap. rewrite Zminus_mod, Z.mod_mod, <- Zminus_mod by done.
    replace (be_val hdr + 2 ^ (32 - 1) - 2 ^ (32 - 1)) with (be_val hdr) by lia.
    symmetry. by apply Z.mod_small.
Qed.

(** What a successful write added. *)
Lemma write_frame_inv w body w' :
  WriteFrame w body = (None, w') -> written w' = written w ++ frame_bytes body.
Proof.
  unfold WriteFrame. destruct (_ || _); [done|]. unfold sink_write.
  destruct (room w) as [[k e]|].
  - destruct (_ <=? _)%nat; [|done]. by intros [= <-].
  - by intros [= <-].
Qed.

#[global] Arguments frame_bytes : simpl never.
