(* ===== verification/Tracker.v ===== *)
(** * Correlation tracking: internal/proxy/correlation.go

    The table of requests in flight.  Each method runs under the mutex, so it
    is one atomic step here; the time it reads is an argument, in nanoseconds. *)

From stdpp Require Import base numbers list strings gmap relations.
From Stdlib Require Import ZArith Lia Strings.Byte.
From S2P Require Import Prelude.

(** [Pending]; [R] is the type of response rewriters ([RewriteFunc] values). *)
Record Pending (R : Type) := mkPending {
  P_APIKey : Z;
  P_APIVersion : Z;
  P_CorrelID : Z;
  P_Sent : Z;
  P_Rewrite : option R;
  P_RewriteRequest : option (list byte);
}.
Arguments mkPending {R}.
Arguments P_APIKey {R}.
Arguments P_APIVersion {R}.
Arguments P_CorrelID {R}.
Arguments P_Sent {R}.
Arguments P_Rewrite {R}.
Arguments P_RewriteRequest {R}.

Definition Second : Z := 1000000000.
Definition Minute : Z := 60 * Second.
Definition Microsecond : Z := 1000.

Section tracker.
Context {R : Type}.

Record Tracker := mkTracker {
  entries : gmap Z (Pending R);
  maxSize : Z;
  maxAge : Z;
  sweepEvery : Z;
  lastSweepNS : Z;
}.

(** [NewTracker]; Go's [maxAge/4] truncates, and is only taken of a positive
    duration. *)
Definition NewTracker (size age : Z) : Tracker :=
  let size := if size <=? 0 then 4096 else size in
  let age := if age <=? 0 then 5 * Minute else age in
  let sweep := Z.min (age / 4) Second in
  let sweep := if sweep <=? 0 then Microsecond else sweep in
  mkTracker ∅ size age sweep 0.

Definition TrackerLen (t : Tracker) : Z := Z.of_nat (size (entries t)).

Definition expired (t : Tracker) (now : Z) (p : Pending R) : bool := maxAge t <? now - P_Sent p.

Definition evictExpiredLocked (t : Tracker) (now : Z) : Tracker :=
  mkTracker (filter (fun kv => expired t now kv.2 = false) (entries t))
    (maxSize t) (maxAge t) (sweepEvery t) (lastSweepNS t).

Definition sweep_due (t : Tracker) (now : Z) : bool :=
  (maxSize t <=? TrackerLen t) || (sweepEvery t <=? now - lastSweepNS t).

Definition Register (t : Tracker) (now : Z) (p : Pending R) : bool * Tracker :=
  let t :=
    if sweep_due t now then
      let t := evictExpiredLocked t now in
      mkTracker (entries t) (maxSize t) (maxAge t) (sweepEvery t) now
    else t in
  if maxSize t <=? TrackerLen t then (false, t) else
  match entries t !! P_CorrelID p with
  | Some _ => (false, t)
  | None => (true, mkTracker (<[P_CorrelID p := p]> (entries t))
                     (maxSize t) (maxAge t) (sweepEvery t) (lastSweepNS t))
  end.

Definition Take (t : Tracker) (correlID : Z) : option (Pending R) * Tracker :=
  match entries t !! correlID with
  | None => (None, t)
  | Some p => (Some p, mkTracker (delete correlID (entries t))
                         (maxSize t) (maxAge t) (sweepEvery t) (lastSweepNS t))
  end.

(** ** The tracker as a transition system *)

Inductive tracker_op :=
| OpRegister (now : Z) (p : Pending R)
| OpTake (correlID : Z).

Definition run_op (t : Tracker) (op : tracker_op) : Tracker :=
  match op with
  | OpRegister now p => snd (Register t now p)
  | OpTake id => snd (Take t id)
  end.

Definition run_ops (t : Tracker) (ops : list tracker_op) : Tracker := fold_left run_op ops t.

(** An operation that may remove the entry [p]: it takes its id, or it sweeps
    when [p] is too old. *)
Definition spares (age : Z) (p : Pending R) (op : tracker_op) : Prop :=
  match op with
  | OpRegister now _ => now - P_Sent p <= age
  | OpTake id => id <> P_CorrelID p
  end.

(** The table respects its bound, and each entry sits under its own id. *)
Definition tracker_ok (t : Tracker) : Prop :=
  0 < maxSize t /\ TrackerLen t <= maxSize t /\
  map_Forall (fun id p => P_CorrelID p = id) (entries t).

(** ** Facts *)

Lemma evict_lookup t now id p :
  entries (evictExpiredLocked t now) !! id = Some p <->
  entries t !! id = Some p /\ expired t now p = false.
Proof. simpl. by rewrite map_lookup_filter_Some. Qed.

Lemma evict_len t now : TrackerLen (evictExpiredLocked t now) <= TrackerLen t.
Proof.
  unfold TrackerLen. simpl. apply Nat2Z.inj_le, map_subseteq_size, map_filter_subseteq.
Qed.

(** The table after the sweep of [Register]. *)
Definition swept (t : Tracker) (now : Z) : Tracker :=
  if sweep_due t now then
    let t := evictExpiredLocked t now in
    mkTracker (entries t) (maxSize t) (maxAge t) (sweepEvery t) now
  else t.

Lemma Register_spec t now p :
  Register t now p =
  let t := swept t now in
  if maxSize t <=? TrackerLen t then (false, t) else
  match entries t !! P_CorrelID p with
  | Some _ => (false, t)
  | None => (true, mkTracker (<[P_CorrelID p := p]> (entries t))
                     (maxSize t) (maxAge t) (sweepEvery t) (lastSweepNS t))
  end.
Proof. reflexivity. Qed.

Lemma swept_params t now :
  maxSize (swept t now) = maxSize t /\ maxAge (swept t now) = maxAge t.
Proof. unfold swept. by destruct (sweep_due t now). Qed.

Lemma swept_ok t now : tracker_ok t -> tracker_ok (swept t now).
Proof.
  intros (H1 & H2 & H3). unfold swept. destruct (sweep_due t now); [|done].
  pose proof (evict_len t now). split_and!; simpl; [done|unfold TrackerLen in *; simpl in *; lia|].
  intros id p Hp. apply (H3 id p). by apply (evict_lookup t now) in Hp as [? _].
Qed.

Lemma swept_keeps t now id p :
  entries t !! id = Some p -> now - P_Sent p <= maxAge t -> entries (swept t now) !! id = Some p.
Proof.
  intros Hp Hage. unfold swept. destruct (sweep_due t now); [|done]. cbn [entries].
  apply evict_lookup. split; [done|]. unfold expired. destruct (Z.ltb_spec (maxAge t) (now - P_Sent p)); [lia|done].
Qed.

Lemma run_op_params t op : maxSize (run_op t op) = maxSize t /\ maxAge (run_op t op) = maxAge t.
Proof.
  destruct op as [now p|id]; simpl.
  - rewrite Register_spec. cbv zeta. pose proof (swept_params t now) as [??].
    destruct (_ <=? _); [done|]. by destruct (_ !! _).
  - unfold Take. by destruct (_ !! _).
Qed.

Lemma run_op_ok t op : tracker_ok t -> tracker_ok (run_op t op).
Proof.
  intros Hok. destruct op as [now p|id]; simpl.
  - rewrite Register_spec. cbv zeta. destruct (swept_ok t now Hok) as (H1 & H2 & H3).
    destruct (Z.leb_spec (maxSize (swept t now)) (TrackerLen (swept t now))); [done|].
    destruct (entries (swept t now) !! P_CorrelID p) eqn:E; [done|]. simpl.
    split_and!; simpl; [done| |].
    + unfold TrackerLen in *. simpl. rewrite map_size_insert_None by done. lia.
    + by apply map_Forall_insert_2.
  - unfold Take. destruct (entries t !! id) as [p|] eqn:E; [|done]. simpl.
    destruct Hok as (H1 & H2 & H3). split_and!; simpl; [done| |by apply map_Forall_delete].
    unfold TrackerLen in *. simpl. rewrite map_size_delete, E. lia.
Qed.

Lemma run_op_keeps t op p :
  spares (maxAge t) p op -> entries t !! P_CorrelID p = Some p ->
  entries (run_op t op) !! P_CorrelID p = Some p.
Proof.
  destruct op as [now q|id]; simpl; intros Hs Hp.
  - rewrite Register_spec. cbv zeta. pose proof (swept_keeps t now _ _ Hp Hs) as Hp'.
    destruct (_ <=? _); [done|].
    destruct (entries (swept t now) !! P_CorrelID q) eqn:E; [done|]. simpl.
    rewrite lookup_insert_ne; [done|]. congruence.
  - unfold Take. destruct (entries t !! id); [|done]. simpl. by rewrite lookup_delete_ne.
Qed.

Lemma NewTracker_ok size age :
  tracker_ok (NewTracker size age) /\
  maxSize (NewTracker size age) = (if size <=? 0 then 4096 else size).
Proof.
  unfold NewTracker. simpl. split; [|done]. unfold tracker_ok, TrackerLen; simpl.
  rewrite map_size_empty. destruct (Z.leb_spec size 0);
    (split_and!; [lia..|apply map_Forall_empty]).
Qed.

Lemma Take_found t id p : entries t !! id = Some p -> fst (Take t id) = Some p.
Proof. unfold Take. by intros ->. Qed.

End tracker.
Arguments Tracker : clear implicits.
Arguments tracker_op : clear implicits.

(** ** Properties *)

(** In every state reachable from [NewTracker] the number of requests in
    flight is within the configured bound (4096 if none is given), and every
    entry is filed under its own correlation id, so that [Take] returns the
    request the response answers. *)
Theorem tracker_invariant {R} size age (ops : list (tracker_op R)) id p :
  let t := run_ops (NewTracker size age) ops in
  TrackerLen t <= (if size <=? 0 then 4096 else size) /\
  (fst (Take t id) = Some p -> P_CorrelID p = id).
Proof.
  cbv zeta. unfold run_ops.
  set (P := fun t : Tracker R => tracker_ok t /\ maxSize t = if size <=? 0 then 4096 else size).
  assert (P (fold_left run_op ops (NewTracker size age))) as [[H1 [H2 H3]] H4].
  { assert (forall t, P t -> P (fold_left run_op ops t)) as H.
    { induction ops as [|op ops IH]; simpl; [done|]. intros t [Hok Hm]. apply IH.
      split; [by apply run_op_ok|]. by destruct (run_op_params t op) as [-> _]. }
    apply H, NewTracker_ok. }
  split; [by rewrite <- H4|]. unfold Take.
  destruct (_ !! id) as [q|] eqn:E; [|done]. simpl. intros [= <-]. by apply H3 in E.
Qed.

Lemma tracker_invariant_witness :
  let p := mkPending 3 9 7 100 (Some tt) None in
  let t := run_ops (NewTracker 2 1000) [OpRegister 100 p] in
  TrackerLen t <= 2 /\ P_CorrelID p = 7.
Proof.
  destruct (tracker_invariant 2 1000 [OpRegister 100 (mkPending 3 9 7 100 (Some tt) None)]
    7 (mkPending 3 9 7 100 (Some tt) None)) as [H1 H2].
  split; [exact H1|]. apply H2. vm_compute. reflexivity.
Defined.

(** C12: a registered request is not lost: after any sequence of operations none
    of which takes its id or registers a request more than [maxAge] after it
    was sent, [Take] with its correlation id returns exactly it, and a second
    [Take] returns nothing. *)
Theorem registered_is_taken {R} (t t1 : Tracker R) now p ops :
  Register t now p = (true, t1) -> Forall (spares (maxAge t) p) ops ->
  exists t2, Take (run_ops t1 ops) (P_CorrelID p) = (Some p, t2) /\
             fst (Take t2 (P_CorrelID p)) = None.
Proof.
  intros Hr Hops.
  assert (entries t1 !! P_CorrelID p = Some p /\ maxAge t1 = maxAge t) as [Hp Hage].
  { rewrite Register_spec in Hr. cbv zeta in Hr. destruct (_ <=? _); [done|].
    destruct (_ !! _); [done|]. injection Hr as <-. simpl. rewrite lookup_insert_eq.
    split; [done|]. apply swept_params. }
  rewrite <- Hage in Hops. clear Hr Hage t now. revert t1 Hp Hops.
  induction ops as [|op ops IH]; intros t1 Hp Hops.
  - simpl. unfold Take. rewrite Hp. eexists. split; [done|]. simpl. by rewrite lookup_delete_eq.
  - apply Forall_cons in Hops as [Hop Hops]. apply (IH (run_op t1 op)).
    + by apply run_op_keeps.
    + by destruct (run_op_params t1 op) as [_ ->].
Qed.

Definition sample_pending (id sent : Z) (rw : option unit) : Pending unit :=
  mkPending 3 9 id sent rw None.

Lemma registered_is_taken_witness :
  exists t2,
    Take (run_ops (snd (Register (NewTracker 2 100) 50 (sample_pending 7 50 (Some tt))))
            [OpTake 8; OpRegister 150 (sample_pending 9 150 None)]) 7 =
      (Some (sample_pending 7 50 (Some tt)), t2) /\ fst (Take t2 7) = None.
Proof.
  apply (registered_is_taken (NewTracker 2 100)
    (snd (Register (NewTracker 2 100) 50 (sample_pending 7 50 (Some tt)))) 50
    (sample_pending 7 50 (Some tt))
    [OpTake 8; OpRegister 150 (sample_pending 9 150 None)]).
  - vm_compute. reflexivity.
  - repeat constructor; vm_compute; congruence.
Defined.

(** [Register] refuses a request only for a reason: there are [maxSize]
    entries in flight none of which has expired, or its correlation id is
    already in the table; so requests that a broker never answers do not block
    new ones beyond [maxAge]. *)
Theorem register_refusal {R} (t t' : Tracker R) now p :
  tracker_ok t -> Register t now p = (false, t') ->
  (maxSize t <= TrackerLen t' /\ map_Forall (fun _ q => now - P_Sent q <= maxAge t) (entries t')) \/
  is_Some (entries t !! P_CorrelID p).
Proof.
  intros (Hpos & Hlen & _) Hr. rewrite Register_spec in Hr. cbv zeta in Hr.
  destruct (swept_params t now) as [Hs Ha].
  destruct (Z.leb_spec (maxSize (swept t now)) (TrackerLen (swept t now))) as [Hfull|Hroom].
  - injection Hr as <-. left. split; [lia|]. intros id q Hq. revert Hq Hfull. unfold swept, sweep_due.
    destruct (Z.leb_spec (maxSize t) (TrackerLen t)); simpl.
    + intros [_ He]%(evict_lookup t now) _. unfold expired in He. lia.
    + destruct (sweepEvery t <=? now - lastSweepNS t); simpl.
      * intros [_ He]%(evict_lookup t now) _. unfold expired in He. lia.
      * intros _ Hfull. lia.
  - right. destruct (entries (swept t now) !! P_CorrelID p) as [q|] eqn:E; [|done].
    exists q. revert E. unfold swept. destruct (sweep_due t now); [|done].
    by intros [? _]%(evict_lookup t now).
Qed.

Lemma register_refusal_witness :
  let t := snd (Register (NewTracker 1 100) 50 (sample_pending 7 50 None)) in
  let t' := snd (Register t 60 (sample_pending 8 60 None)) in
  (maxSize t <= TrackerLen t' /\ map_Forall (fun _ q => 60 - P_Sent q <= maxAge t) (entries t')) \/
  is_Some (entries t !! P_CorrelID (sample_pending 8 60 None)).
Proof.
  apply (register_refusal (snd (Register (NewTracker 1 100) 50 (sample_pending 7 50 None)))
    _ 60 (sample_pending 8 60 None)).
  - apply (run_op_ok _ (OpRegister 50 (sample_pending 7 50 None))), NewTracker_ok.
  - vm_compute. reflexivity.
Defined.
