(* ===== verification/Conn.v ===== *)
(** * A proxied connection: internal/proxy/conn.go, intercept.go

    The two pumps of a connection, one loop iteration each, and the runs of the
    connection as interleavings of iterations.  The interceptor is an interface
    ([Interceptor]): the connection's theorems hold for every implementation,
    and Interceptor.v provides the production one.

    An iteration reads a frame, works on it and writes at most one frame; the
    only state the two pumps share is the tracker and the interceptor, whose
    operations are atomic.  What the environment decides is an argument: the
    clock and whether setting a read deadline fails.

    A rewriter is handed an empty scratch slice.  The code hands it the front of
    the slice its last result was in, for the capacity; that is the same for a
    rewriter that appends to it, as those of Interceptor.v do.  One that returned
    a slice of its input would make the next response be written over the read
    buffer; such aliasing is outside the model. *)

From stdpp Require Import base numbers list strings gmap relations.
From Stdlib Require Import ZArith Lia Strings.Byte.
From S2P Require Import Prelude Primitives Codec Header Locality Frame Tracker.

(** ** The interceptor interface *)

(** [IS] is the interceptor's state, [R] the response rewriters it hands out. *)
Class Interceptor (IS R : Type) := {
  OnRequest : IS -> RequestHeader -> list byte -> option (Pending R) * IS;
  (** [RewriteFunc]: scratch slice, response body, the pending request. *)
  Rewrite : R -> IS -> list byte -> list byte -> Pending R -> outcome kerr (list byte) * IS;
}.

(** What the connection relies on: a rewriter does not panic. *)
Class InterceptorOk (IS R : Type) `{Interceptor IS R} : Prop := {
  rewrite_no_panic r st dst body p : fst (Rewrite r st dst body p) <> Panic;
}.

#[global] Instance NoopInterceptor : Interceptor unit Empty_set := {|
  OnRequest st _ _ := (None, st);
  Rewrite (r : Empty_set) _ _ _ _ := match r with end;
|}.

#[global] Instance NoopInterceptor_ok : InterceptorOk unit Empty_set.
Proof. split. by intros []. Qed.

(** ** The connection *)

Record Config := mkConfig {
  MaxFrame : Z;
  IdleTimeout : Z;
  MaxInflight : Z;
  PendingMaxAge : Z;
}.

(** The [FrameCounter] sink. *)
Record Counters := mkCounters { ClientToBroker : Z; BrokerToClient : Z; TrackerDropped : Z }.

Definition IncClientToBroker (k : Counters) : Counters :=
  mkCounters (ClientToBroker k + 1) (BrokerToClient k) (TrackerDropped k).
Definition IncBrokerToClient (k : Counters) : Counters :=
  mkCounters (ClientToBroker k) (BrokerToClient k + 1) (TrackerDropped k).
Definition IncTrackerDropped (k : Counters) : Counters :=
  mkCounters (ClientToBroker k) (BrokerToClient k) (TrackerDropped k + 1).

(** Why a pump returned. *)
Inductive conn_err :=
| DeadlineFailed (e : io_err)
| Framing (e : frame_err)
| BadHeader (e : kerr)
| TrackerFull (apiKey : Z)
| RewriteFailed (e : kerr)
| Crash.

(** What the environment decides about an iteration: the time, and the error of
    [SetReadDeadline] if it fails. *)
Record Env := mkEnv { now : Z; deadline : option io_err }.

Section conn.
Context {IS R : Type} `{Interceptor IS R}.

Record Conn := mkConn {
  clientR : Stream;
  clientW : Sink;
  brokerR : Stream;
  brokerW : Sink;
  upBuf : Buffer;
  downBuf : Buffer;
  tracker : Tracker R;
  frames : Counters;
  icept : IS;
}.

(** [New], on freshly accepted sockets and pooled buffers. *)
Definition NewConn (cfg : Config) (client broker : Stream) (toClient toBroker : Sink)
    (b1 b2 : Buffer) (st : IS) : Conn :=
  mkConn client toClient broker toBroker b1 b2
    (NewTracker (MaxInflight cfg) (PendingMaxAge cfg)) (mkCounters 0 0 0) st.

(** [maxSize] of both readers. *)
Definition frame_cap (cfg : Config) : Z :=
  NewReader (if MaxFrame cfg <=? 0 then MaxFrameSize else MaxFrame cfg).

(** The read deadline at the head of each iteration. *)
Definition deadline_err (cfg : Config) (env : Env) : option io_err :=
  if 0 <? IdleTimeout cfg then deadline env else None.

(** *** The upstream pump *)

(** [c.brokerW.WriteFrame(out)] and the counter, the end of the iteration. *)
Definition forward_up (c : Conn) (out : list byte) : option conn_err * Conn :=
  let '(err, w) := WriteFrame (brokerW c) out in
  match err with
  | Some e => (Some (Framing e), mkConn (clientR c) (clientW c) (brokerR c) w (upBuf c) (downBuf c)
                                   (tracker c) (frames c) (icept c))
  | None => (None, mkConn (clientR c) (clientW c) (brokerR c) w (upBuf c) (downBuf c)
                     (tracker c) (IncClientToBroker (frames c)) (icept c))
  end.

(** The registration of [p] and the bytes to forward. *)
Definition intercept_up (env : Env) (c : Conn) (h : RequestHeader) (body : list byte)
    (p : Pending R) : option conn_err * Conn :=
  let p := mkPending (RH_APIKey h) (RH_APIVersion h) (RH_CorrelID h) (now env)
             (P_Rewrite p) (P_RewriteRequest p) in
  match (match P_RewriteRequest p with
         | Some new =>
             match go_slice body 0 (RH_HeaderSize h) with
             | Some hdr => Some (hdr ++ new)
             | None => None
             end
         | None => Some body
         end) with
  | None => (Some Crash, c)
  | Some out =>
      let '(ok, t) := Register (tracker c) (now env) p in
      let c := mkConn (clientR c) (clientW c) (brokerR c) (brokerW c) (upBuf c) (downBuf c)
                 t (frames c) (icept c) in
      if ok then forward_up c out else
      let c := mkConn (clientR c) (clientW c) (brokerR c) (brokerW c) (upBuf c) (downBuf c)
                 (tracker c) (IncTrackerDropped (frames c)) (icept c) in
      match P_Rewrite p with
      | Some _ => (Some (TrackerFull (RH_APIKey h)), c)
      | None => forward_up c out
      end
  end.

Definition upstream_iter (cfg : Config) (env : Env) (c : Conn) : option conn_err * Conn :=
  match deadline_err cfg env with
  | Some e => (Some (DeadlineFailed e), c)
  | None =>
      let '(r, b, s) := ReadFrame (frame_cap cfg) (upBuf c) (clientR c) in
      let c := mkConn s (clientW c) (brokerR c) (brokerW c) b (downBuf c)
                 (tracker c) (frames c) (icept c) in
      match r with
      | inl e => (Some (Framing e), c)
      | inr body =>
          match DecodeRequestHeader body with
          | Panic => (Some Crash, c)
          | Fail e => (Some (BadHeader e), c)
          | Ok h =>
              match go_slice body (RH_HeaderSize h) (len body) with
              | None => (Some Crash, c)
              | Some payload =>
                  let '(p, st) := OnRequest (icept c) h payload in
                  let c := mkConn (clientR c) (clientW c) (brokerR c) (brokerW c) (upBuf c)
                             (downBuf c) (tracker c) (frames c) st in
                  match p with
                  | None => forward_up c body
                  | Some p => intercept_up env c h body p
                  end
              end
          end
      end
  end.

(** *** The downstream pump *)

Definition forward_down (c : Conn) (out : list byte) : option conn_err * Conn :=
  let '(err, w) := WriteFrame (clientW c) out in
  match err with
  | Some e => (Some (Framing e), mkConn (clientR c) w (brokerR c) (brokerW c) (upBuf c) (downBuf c)
                                   (tracker c) (frames c) (icept c))
  | None => (None, mkConn (clientR c) w (brokerR c) (brokerW c) (upBuf c) (downBuf c)
                     (tracker c) (IncBrokerToClient (frames c)) (icept c))
  end.

Definition rewrite_down (c : Conn) (body : list byte) (p : Pending R) (rw : R)
    : option conn_err * Conn :=
  match DecodeResponseHeader body (P_APIKey p) (P_APIVersion p) with
  | Panic => (Some Crash, c)
  | Fail e => (Some (BadHeader e), c)
  | Ok rh =>
      match go_slice body (SH_HeaderSize rh) (len body) with
      | None => (Some Crash, c)
      | Some payload =>
          let '(r, st) := Rewrite rw (icept c) [] payload p in
          let c := mkConn (clientR c) (clientW c) (brokerR c) (brokerW c) (upBuf c) (downBuf c)
                     (tracker c) (frames c) st in
          match r with
          | Panic => (Some Crash, c)
          | Fail e => (Some (RewriteFailed e), c)
          | Ok newPayload =>
              forward_down c
                (AppendResponseHeader [] (P_APIKey p) (P_APIVersion p) (P_CorrelID p) ++ newPayload)
          end
      end
  end.

Definition downstream_iter (cfg : Config) (env : Env) (c : Conn) : option conn_err * Conn :=
  match deadline_err cfg env with
  | Some e => (Some (DeadlineFailed e), c)
  | None =>
      let '(r, b, s) := ReadFrame (frame_cap cfg) (downBuf c) (brokerR c) in
      let c := mkConn (clientR c) (clientW c) s (brokerW c) (upBuf c) b
                 (tracker c) (frames c) (icept c) in
      match r with
      | inl e => (Some (Framing e), c)
      | inr body =>
          match PeekResponseCorrelID body with
          | Panic => (Some Crash, c)
          | Fail e => (Some (BadHeader e), c)
          | Ok correlID =>
              let '(p, t) := Take (tracker c) correlID in
              let c := mkConn (clientR c) (clientW c) (brokerR c) (brokerW c) (upBuf c) (downBuf c)
                         t (frames c) (icept c) in
              match p with
              | None => forward_down c body
              | Some p =>
                  match P_Rewrite p with
                  | None => forward_down c body
                  | Some rw => rewrite_down c body p rw
                  end
              end
          end
      end
  end.

(** *** Runs *)

(** [isExpectedShutdownErr] *)
Definition isExpectedShutdownErr (e : conn_err) : bool :=
  match e with
  | Framing (IoErr EOF) | Framing (IoErr NetClosed)
  | DeadlineFailed EOF | DeadlineFailed NetClosed => true
  | _ => false
  end.

(** [closeBoth]: what [Run] returns. *)
Definition closeErr (e : option conn_err) : option conn_err :=
  match e with
  | Some e => if isExpectedShutdownErr e then None else Some e
  | None => None
  end.

Inductive run_state :=
| Running (c : Conn)
| Closed (err : option conn_err) (c : Conn).

Definition after (r : option conn_err * Conn) : run_state :=
  match r with
  | (None, c) => Running c
  | (Some e, c) => Closed (closeErr (Some e)) c
  end.

(** One iteration of either pump, or the cancellation of the context. *)
Inductive run_step (cfg : Config) : run_state -> run_state -> Prop :=
| step_up env c : run_step cfg (Running c) (after (upstream_iter cfg env c))
| step_down env c : run_step cfg (Running c) (after (downstream_iter cfg env c))
| step_cancel c : run_step cfg (Running c) (Closed (closeErr None) c).

Definition conn_of (s : run_state) : Conn :=
  match s with Running c | Closed _ c => c end.

End conn.
Arguments Conn : clear implicits.
Arguments run_state : clear implicits.
