(* ===== verification/ConnTheorems.v ===== *)
(** * What a proxied connection promises

    The theorems about the pumps of Conn.v, for every interceptor: no panic,
    transparency without interception, header-preserving request rewriting,
    no intercepted response without its rewriting; and the one way round it
    that the eviction of old entries opens. *)

From stdpp Require Import base numbers list strings gmap relations.
From Stdlib Require Import ZArith Lia Strings.Byte.
From S2P Require Import Prelude Primitives Codec Header Locality Frame Tracker Conn.

(** ** Facts about the iterations *)

Lemma write_frame_prefix w body e w' :
  WriteFrame w body = (e, w') -> written w' `prefix_of` written w ++ frame_bytes body.
Proof.
  unfold WriteFrame. destruct (_ || _).
  { intros [= <- <-]. by apply prefix_app_r. }
  unfold sink_write. fold (frame_bytes body). destruct (room w) as [[k x]|].
  - destruct (_ <=? _)%nat; intros [= <- <-]; simpl; [done|].
    apply prefix_app, prefix_take.
  - by intros [= <- <-].
Qed.

Section facts.
Context {IS R : Type} `{Interceptor IS R}.
Implicit Types c : Conn IS R.

(** The end of an upstream iteration touches the broker's sink and the counter. *)
Lemma forward_up_spec c out err c' :
  forward_up c out = (err, c') ->
  clientR c' = clientR c /\ clientW c' = clientW c /\ brokerR c' = brokerR c /\
  tracker c' = tracker c /\ icept c' = icept c /\ err <> Some Crash /\
  written (brokerW c') `prefix_of` written (brokerW c) ++ frame_bytes out /\
  (err = None -> written (brokerW c') = written (brokerW c) ++ frame_bytes out).
Proof.
  unfold forward_up. destruct (WriteFrame (brokerW c) out) as [e w] eqn:E.
  pose proof (write_frame_prefix _ _ _ _ E) as Hp.
  destruct e as [e|]; intros [= <- <-]; simpl; split_and!; try done.
  intros _. by apply write_frame_inv.
Qed.

Lemma forward_down_spec c out err c' :
  forward_down c out = (err, c') ->
  clientR c' = clientR c /\ brokerR c' = brokerR c /\ brokerW c' = brokerW c /\
  tracker c' = tracker c /\ err <> Some Crash /\
  written (clientW c') `prefix_of` written (clientW c) ++ frame_bytes out /\
  (err = None -> written (clientW c') = written (clientW c) ++ frame_bytes out).
Proof.
  unfold forward_down. destruct (WriteFrame (clientW c) out) as [e w] eqn:E.
  pose proof (write_frame_prefix _ _ _ _ E) as Hp.
  destruct e as [e|]; intros [= <- <-]; simpl; split_and!; try done.
  intros _. by apply write_frame_inv.
Qed.

Lemma forward_up_no_crash c out : fst (forward_up c out) <> Some Crash.
Proof. destruct (forward_up c out) eqn:E. by apply forward_up_spec in E as (?&?&?&?&?&?&?). Qed.

Lemma forward_down_no_crash c out : fst (forward_down c out) <> Some Crash.
Proof. destruct (forward_down c out) eqn:E. by apply forward_down_spec in E as (?&?&?&?&?&?). Qed.

Lemma slice_from_ok {A} (b : list A) lo : 0 <= lo <= len b -> exists l, go_slice b lo (len b) = Some l.
Proof. intros. rewrite go_slice_some by lia. eauto. Qed.

Lemma slice_to_ok {A} (b : list A) hi :
  0 <= hi <= len b -> go_slice b 0 hi = Some (take (Z.to_nat hi) b).
Proof. intros. rewrite go_slice_some by lia. by rewrite Z.sub_0_r. Qed.

Lemma intercept_up_no_crash env c h body p :
  DecodeRequestHeader body = Ok h -> fst (intercept_up env c h body p) <> Some Crash.
Proof.
  intros Hh%header_size_range. unfold intercept_up. cbn [P_RewriteRequest P_Rewrite].
  rewrite slice_to_ok by done.
  destruct (P_RewriteRequest p); destruct (Register _ _ _) as [[] t]; try apply forward_up_no_crash;
    destruct (P_Rewrite p); (done || apply forward_up_no_crash).
Qed.

Lemma forward_down_icept c out err c' : forward_down c out = (err, c') -> icept c' = icept c.
Proof. unfold forward_down. destruct (WriteFrame _ _) as [[e|] w]; by intros [= <- <-]. Qed.

(** What an upstream iteration can do to the state the two pumps share. *)
Lemma upstream_effect cfg env c err c' :
  upstream_iter cfg env c = (err, c') ->
  (tracker c' = tracker c \/ exists p, tracker c' = snd (Register (tracker c) (now env) p)) /\
  (icept c' = icept c \/ exists h payload, icept c' = snd (OnRequest (icept c) h payload)).
Proof.
  unfold upstream_iter. destruct (deadline_err cfg env); [intros [= <- <-]; eauto|].
  destruct (ReadFrame _ _ _) as [[[e|body] b] s]; [intros [= <- <-]; simpl; eauto|].
  destruct (DecodeRequestHeader body) as [h| |]; [|intros [= <- <-]; simpl; eauto..].
  destruct (go_slice body _ _) as [payload|]; [|intros [= <- <-]; simpl; eauto].
  cbn [icept]. destruct (OnRequest (icept c) h payload) as [[p|] st] eqn:Eo.
  2:{ intros (_ & _ & _ & Ht & Hi & _)%forward_up_spec. cbn in Ht, Hi. rewrite Ht, Hi.
      split; [by left|]. right. exists h, payload. by rewrite Eo. }
  unfold intercept_up. destruct (match P_RewriteRequest _ with Some _ => _ | None => _ end) as [out|].
  2:{ intros [= <- <-]. simpl. split; [by left|]. right. exists h, payload. by rewrite Eo. }
  cbn [tracker]. set (q := mkPending _ _ _ _ _ _).
  destruct (Register (tracker c) (now env) q) as [ok t] eqn:Er.
  assert (t = snd (Register (tracker c) (now env) q)) as Ht by by rewrite Er.
  assert (st = snd (OnRequest (icept c) h payload)) as Hst by by rewrite Eo.
  assert ((t = tracker c \/ exists p, t = snd (Register (tracker c) (now env) p)) /\
          (st = icept c \/ exists h payload, st = snd (OnRequest (icept c) h payload))) as Hall
    by (split; right; eauto).
  destruct ok; [|destruct (P_Rewrite q)].
  - intros (_ & _ & _ & E1 & E2 & _)%forward_up_spec. cbn in E1, E2. by rewrite E1, E2.
  - intros [= <- <-]. done.
  - intros (_ & _ & _ & E1 & E2 & _)%forward_up_spec. cbn in E1, E2. by rewrite E1, E2.
Qed.

(** What a downstream iteration can do to it. *)
Lemma downstream_effect cfg env c err c' :
  downstream_iter cfg env c = (err, c') ->
  (tracker c' = tracker c \/ exists body b s id,
     ReadFrame (frame_cap cfg) (downBuf c) (brokerR c) = (inr body, b, s) /\
     PeekResponseCorrelID body = Ok id /\ tracker c' = snd (Take (tracker c) id)) /\
  (icept c' = icept c \/ exists rw payload p, icept c' = snd (Rewrite rw (icept c) [] payload p)).
Proof.
  unfold downstream_iter. destruct (deadline_err cfg env); [intros [= <- <-]; eauto|].
  destruct (ReadFrame _ _ _) as [[[e|body] b] s] eqn:Er; [intros [= <- <-]; simpl; eauto|].
  destruct (PeekResponseCorrelID body) as [id| |] eqn:Ep; [|intros [= <- <-]; simpl; eauto..].
  cbn [tracker]. destruct (Take (tracker c) id) as [p t] eqn:Et.
  assert (t = snd (Take (tracker c) id)) as Ht by by rewrite Et.
  assert (forall out err c', forward_down (mkConn (clientR c) (clientW c) s (brokerW c) (upBuf c) b t
    (frames c) (icept c)) out = (err, c') -> tracker c' = t /\ icept c' = icept c) as Hfw.
  { intros out e1 c1 E. pose proof (forward_down_icept _ _ _ _ E).
    apply forward_down_spec in E as (_ & _ & _ & E & _). done. }
  destruct p as [p|]; [|intros [-> ->]%Hfw; naive_solver].
  destruct (P_Rewrite p) as [rw|]; [|intros [-> ->]%Hfw; naive_solver].
  unfold rewrite_down.
  destruct (DecodeResponseHeader _ _ _) as [rh| |]; [|intros [= <- <-]; simpl; naive_solver..].
  destruct (go_slice body _ _) as [payload|]; [|intros [= <- <-]; simpl; naive_solver].
  cbn [icept]. destruct (Rewrite rw (icept c) [] payload p) as [r st] eqn:Ew.
  assert (st = snd (Rewrite rw (icept c) [] payload p)) as Hst by by rewrite Ew.
  destruct r as [out| |]; [|intros [= <- <-]; simpl; naive_solver..].
  intros E. pose proof (forward_down_icept _ _ _ _ E) as Hi.
  apply forward_down_spec in E as (_ & _ & _ & E & _). cbn in E, Hi. naive_solver.
Qed.

(** The request the upstream pump is about to handle. *)
Definition incoming (cfg : Config) (env : Env) (c : Conn IS R) (h : RequestHeader)
    (body payload : list byte) : Prop :=
  deadline_err cfg env = None /\
  (exists b s, ReadFrame (frame_cap cfg) (upBuf c) (clientR c) = (inr body, b, s)) /\
  DecodeRequestHeader body = Ok h /\ go_slice body (RH_HeaderSize h) (len body) = Some payload.

(** The iteration on such a request. *)
Lemma upstream_incoming cfg env c h body payload p st :
  incoming cfg env c h body payload -> OnRequest (icept c) h payload = (p, st) ->
  exists c1, clientW c1 = clientW c /\ brokerW c1 = brokerW c /\ brokerR c1 = brokerR c /\
    tracker c1 = tracker c /\ icept c1 = st /\ data (clientR c) = frame_bytes body ++ data (clientR c1) /\
    upstream_iter cfg env c =
      match p with None => forward_up c1 body | Some p => intercept_up env c1 h body p end.
Proof.
  intros (Hd & (b & s & Hr) & Hh & Hs) Ho. unfold upstream_iter. rewrite Hd, Hr, Hh, Hs. simpl.
  rewrite Ho. eexists. split_and!; last reflexivity; try done. simpl.
  by apply read_frame_inv in Hr as [? _].
Qed.

End facts.

(** ** Properties *)

(** C10: neither pump ever panics, for an interceptor whose rewriters do not:
    whatever bytes the client, the broker or the interceptor produce, every
    slice of a frame is within its bounds. *)
Theorem pumps_never_crash {IS R} `{InterceptorOk IS R} cfg env (c : Conn IS R) :
  fst (upstream_iter cfg env c) <> Some Crash /\ fst (downstream_iter cfg env c) <> Some Crash.
Proof.
  split.
  - unfold upstream_iter. destruct (deadline_err cfg env); [done|].
    destruct (ReadFrame _ _ _) as [[[e|body] b] s]; [done|].
    destruct (DecodeRequestHeader body) as [h| |] eqn:Hh; [|done|].
    + destruct (slice_from_ok body (RH_HeaderSize h)) as [payload ->]; [by apply header_size_range|].
      destruct (OnRequest _ _ _) as [[p|] st]; [by apply intercept_up_no_crash|apply forward_up_no_crash].
    + exfalso. by apply (safe_run requestHeader body _) in Hh.
  - unfold downstream_iter. destruct (deadline_err cfg env); [done|].
    destruct (ReadFrame _ _ _) as [[[e|body] b] s]; [done|].
    destruct (PeekResponseCorrelID body) as [id| |] eqn:Hp; [|done|].
    2:{ exfalso. by apply (safe_run ReadInt32 body _) in Hp. }
    destruct (Take _ _) as [[p|] t]; [|apply forward_down_no_crash].
    destruct (P_Rewrite p) as [rw|]; [|apply forward_down_no_crash].
    unfold rewrite_down. destruct (DecodeResponseHeader _ _ _) as [rh| |] eqn:Hh; [|done|].
    2:{ exfalso. by apply (safe_run (responseHeader (P_APIKey p) (P_APIVersion p)) body _) in Hh. }
    destruct (slice_from_ok body (SH_HeaderSize rh)) as [payload ->];
      [by eapply response_header_size_range|].
    simpl. pose proof (rewrite_no_panic rw (icept c) [] payload p) as Hnp.
    destruct (Rewrite _ _ _ _ _) as [[out| |] st]; [apply forward_down_no_crash|done|done].
Qed.

Definition quiet_conn (fromClient fromBroker : list byte) : Conn unit Empty_set :=
  NewConn (mkConfig 0 0 0 0) (mkStream fromClient EOF) (mkStream fromBroker EOF)
    (mkSink [] None) (mkSink [] None) (mkBuffer [] 0) (mkBuffer [] 0) tt.

(** A request (Produce, version 7, correlation id 5, no client id) and its
    response, which both pumps handle. *)
Definition one_exchange : Conn unit Empty_set :=
  quiet_conn (frame_bytes (AppendInt16 (AppendInt32 (AppendInt16 (AppendInt16 [] 0) 7) 5) (-1)))
    (frame_bytes (AppendInt32 [] 5)).

Lemma pumps_never_crash_witness :
  (fst (upstream_iter (mkConfig 0 0 0 0) (mkEnv 0 None) one_exchange) = None /\
   fst (downstream_iter (mkConfig 0 0 0 0) (mkEnv 0 None) one_exchange) = None) /\
  fst (upstream_iter (mkConfig 0 0 0 0) (mkEnv 0 None) one_exchange) <> Some Crash /\
  fst (downstream_iter (mkConfig 0 0 0 0) (mkEnv 0 None) one_exchange) <> Some Crash.
Proof.
  split; [split; vm_compute; reflexivity|].
  apply (pumps_never_crash (mkConfig 0 0 0 0) (mkEnv 0 None) one_exchange).
Defined.

(** One iteration of a connection without interception. *)
Lemma noop_up cfg env (c : Conn unit Empty_set) err c' :
  upstream_iter cfg env c = (err, c') ->
  brokerR c' = brokerR c /\ clientW c' = clientW c /\
  written (brokerW c') `prefix_of` written (brokerW c) ++ data (clientR c) /\
  (err = None -> written (brokerW c') ++ data (clientR c') = written (brokerW c) ++ data (clientR c)).
Proof.
  unfold upstream_iter. destruct (deadline_err cfg env).
  { intros [= <- <-]. split_and!; try done. by apply prefix_app_r. }
  destruct (ReadFrame _ _ _) as [[[e|body] b] s] eqn:Hr.
  { intros [= <- <-]. simpl. split_and!; try done. by apply prefix_app_r. }
  apply read_frame_inv in Hr as [Hd _].
  destruct (DecodeRequestHeader body) as [h| |]; simpl.
  2,3: intros [= <- <-]; simpl; split_and!; try done; by apply prefix_app_r.
  destruct (go_slice _ _ _); simpl.
  2: intros [= <- <-]; simpl; split_and!; try done; by apply prefix_app_r.
  intros (H1 & H2 & H3 & _ & _ & _ & Hp & Hw)%forward_up_spec.
  cbn [clientR clientW brokerR brokerW] in *. split_and!; try done.
  - etrans; [exact Hp|]. apply prefix_app. rewrite Hd. by apply prefix_app_r.
  - intros He. rewrite (Hw He), H1, Hd. by rewrite <- app_assoc.
Qed.

Lemma noop_down cfg env (c : Conn unit Empty_set) err c' :
  downstream_iter cfg env c = (err, c') ->
  clientR c' = clientR c /\ brokerW c' = brokerW c /\
  written (clientW c') `prefix_of` written (clientW c) ++ data (brokerR c) /\
  (err = None -> written (clientW c') ++ data (brokerR c') = written (clientW c) ++ data (brokerR c)).
Proof.
  unfold downstream_iter. destruct (deadline_err cfg env).
  { intros [= <- <-]. split_and!; try done. by apply prefix_app_r. }
  destruct (ReadFrame _ _ _) as [[[e|body] b] s] eqn:Hr.
  { intros [= <- <-]. simpl. split_and!; try done. by apply prefix_app_r. }
  apply read_frame_inv in Hr as [Hd _].
  destruct (PeekResponseCorrelID body) as [id| |]; simpl.
  2,3: intros [= <- <-]; simpl; split_and!; try done; by apply prefix_app_r.
  destruct (Take _ _) as [p t].
  assert (forall c1 : Conn unit Empty_set, clientR c1 = clientR c -> brokerW c1 = brokerW c ->
    clientW c1 = clientW c -> brokerR c1 = s -> forward_down c1 body = (err, c') ->
    clientR c' = clientR c /\ brokerW c' = brokerW c /\
    written (clientW c') `prefix_of` written (clientW c) ++ data (brokerR c) /\
    (err = None -> written (clientW c') ++ data (brokerR c') = written (clientW c) ++ data (brokerR c)))
    as Hfwd.
  { intros c1 E1 E2 E3 E4 (H1 & H2 & H3 & _ & _ & Hp & Hw)%forward_down_spec.
    rewrite E3 in *. rewrite Hd. split_and!; [by rewrite H1|by rewrite H3| |].
    - etrans; [exact Hp|]. apply prefix_app. by apply prefix_app_r.
    - intros He. rewrite (Hw He), H2, E4. by rewrite <- app_assoc. }
  destruct p as [p|]; [|by apply Hfwd]. destruct (P_Rewrite p) as [[]|]. by apply Hfwd.
Qed.

(** Without interception the proxy is transparent: at every point of every
    interleaving of the pumps, what the broker has received is a prefix of
    what the client sent, and vice versa, byte for byte; and while the
    connection runs the bytes not yet forwarded are exactly those still to be
    read. *)
Theorem noop_is_transparent cfg (c0 : Conn unit Empty_set) s :
  rtc (run_step cfg) (Running c0) s ->
  written (brokerW (conn_of s)) `prefix_of` written (brokerW c0) ++ data (clientR c0) /\
  written (clientW (conn_of s)) `prefix_of` written (clientW c0) ++ data (brokerR c0) /\
  (forall c, s = Running c ->
     written (brokerW c) ++ data (clientR c) = written (brokerW c0) ++ data (clientR c0) /\
     written (clientW c) ++ data (brokerR c) = written (clientW c0) ++ data (brokerR c0)).
Proof.
  intros Hr. revert s Hr.
  apply (rtc_ind_r (fun s =>
    written (brokerW (conn_of s)) `prefix_of` written (brokerW c0) ++ data (clientR c0) /\
    written (clientW (conn_of s)) `prefix_of` written (clientW c0) ++ data (brokerR c0) /\
    (forall c, s = Running c ->
       written (brokerW c) ++ data (clientR c) = written (brokerW c0) ++ data (clientR c0) /\
       written (clientW c) ++ data (brokerR c) = written (clientW c0) ++ data (brokerR c0)))).
  { simpl. split_and!; [by apply prefix_app_r..|]. by intros c [= <-]. }
  intros s1 s2 _ Hs (IH1 & IH2 & IH3). destruct Hs as [env c|env c|c].
  - destruct (IH3 c eq_refl) as [E1 E2].
    destruct (upstream_iter cfg env c) as [err c'] eqn:E.
    apply noop_up in E as (HA & HB & HC & HD). rewrite <- E1, <- E2. simpl in *.
    destruct err as [e|]; simpl; rewrite ?HA, ?HB; split_and!; try done; try by apply prefix_app_r.
    intros c'' [= <-]. rewrite HA, HB. by rewrite HD.
  - destruct (IH3 c eq_refl) as [E1 E2].
    destruct (downstream_iter cfg env c) as [err c'] eqn:E.
    apply noop_down in E as (HA & HB & HC & HD). rewrite <- E1, <- E2. simpl in *.
    destruct err as [e|]; simpl; rewrite ?HA, ?HB; split_and!; try done; try by apply prefix_app_r.
    intros c'' [= <-]. rewrite HA, HB. by rewrite HD.
  - simpl in *. split_and!; done.
Qed.

(** A concrete interceptor for runs: every Metadata request gets a one-byte
    payload and its response a two-byte payload. *)
Definition stub_interceptor : Interceptor unit unit := {|
  OnRequest st h _ :=
    (if RH_APIKey h =? APIMetadata
     then Some (mkPending 0 0 0 0 (Some tt) (Some [Byte.x2a])) else None, st);
  Rewrite _ st dst _ _ := (Ok (dst ++ [Byte.x2b; Byte.x2c]), st);
|}.

Definition metadata_request (id : Z) : list byte :=
  AppendRequestHeader [] (mkRequestHeader APIMetadata 1 id "c" false 0) ++ [Byte.xff; Byte.xfe].

Definition stub_conn (fromClient fromBroker : list byte) (t : Tracker unit) : Conn unit unit :=
  mkConn (mkStream fromClient EOF) (mkSink [] None) (mkStream fromBroker EOF) (mkSink [] None)
    (mkBuffer [] 0) (mkBuffer [] 0) t (mkCounters 0 0 0) tt.

Definition default_config : Config := mkConfig 0 0 0 0.

Lemma noop_is_transparent_witness :
  let c0 := quiet_conn (frame_bytes (metadata_request 5)) [] in
  let s := after (upstream_iter default_config (mkEnv 0 None) c0) in
  written (brokerW (conn_of s)) `prefix_of` written (brokerW c0) ++ data (clientR c0) /\
  written (clientW (conn_of s)) `prefix_of` written (clientW c0) ++ data (brokerR c0) /\
  (forall c, s = Running c ->
     written (brokerW c) ++ data (clientR c) = written (brokerW c0) ++ data (clientR c0) /\
     written (clientW c) ++ data (brokerR c) = written (clientW c0) ++ data (brokerR c0)).
Proof.
  apply (noop_is_transparent default_config (quiet_conn (frame_bytes (metadata_request 5)) [])).
  apply rtc_once, step_up.
Defined.

Lemma respliced_request {IS R} `{Interceptor IS R} cfg env (c c' : Conn IS R)
    h body payload p st new :
  incoming cfg env c h body payload -> OnRequest (icept c) h payload = (Some p, st) ->
  P_RewriteRequest p = Some new -> upstream_iter cfg env c = (None, c') ->
  exists out, written (brokerW c') = written (brokerW c) ++ frame_bytes out /\
    DecodeRequestHeader out = Ok h /\ go_slice out (RH_HeaderSize h) (len out) = Some new.
Proof.
  intros Hin Ho Hnew Hup. pose proof Hin as (_ & _ & Hh & _).
  destruct (upstream_incoming cfg env c h body payload _ st Hin Ho)
    as (c1 & _ & Hw & _ & _ & _ & _ & Eup).
  rewrite Eup in Hup. unfold intercept_up in Hup. cbn [P_RewriteRequest P_Rewrite] in Hup.
  pose proof (header_size_range body h Hh) as Hsz.
  rewrite Hnew, slice_to_ok in Hup by done.
  exists (take (Z.to_nat (RH_HeaderSize h)) body ++ new).
  assert (len (take (Z.to_nat (RH_HeaderSize h)) body) = RH_HeaderSize h) as Hlen.
  { unfold len in *. rewrite length_take. lia. }
  split_and!.
  - destruct (Register _ _ _) as [[] t].
    + apply forward_up_spec in Hup as (_ & _ & _ & _ & _ & _ & _ & E). cbn [brokerW] in E.
      rewrite <- Hw. by apply E.
    + destruct (P_Rewrite p); [done|].
      apply forward_up_spec in Hup as (_ & _ & _ & _ & _ & _ & _ & E). cbn [brokerW] in E.
      rewrite <- Hw. by apply E.
  - by apply header_respliced.
  - pose proof (go_slice_tail (take (Z.to_nat (RH_HeaderSize h)) body) new) as Hs.
    by rewrite Hlen in Hs.
Qed.

(** A rewritten request keeps its header: when the interceptor replaces the
    payload and the iteration succeeds, the broker receives one frame from
    which the very header the client sent is decoded, with the new payload
    behind it. *)
Theorem rewritten_request_keeps_header {IS R} `{Interceptor IS R} cfg env (c c' : Conn IS R)
    h body payload p st new :
  incoming cfg env c h body payload -> OnRequest (icept c) h payload = (Some p, st) ->
  P_RewriteRequest p = Some new -> upstream_iter cfg env c = (None, c') ->
  exists out, written (brokerW c') = written (brokerW c) ++ frame_bytes out /\
    DecodeRequestHeader out = Ok h /\ go_slice out (RH_HeaderSize h) (len out) = Some new.
Proof. apply respliced_request. Qed.

Lemma rewritten_request_keeps_header_witness :
  let c := stub_conn (frame_bytes (metadata_request 5)) [] (NewTracker 0 0) in
  let h := mkRequestHeader APIMetadata 1 5 "c" false 11 in
  let c' := snd (@upstream_iter _ _ stub_interceptor default_config (mkEnv 0 None) c) in
  exists out, written (brokerW c') = written (brokerW c) ++ frame_bytes out /\
    DecodeRequestHeader out = Ok h /\ go_slice out (RH_HeaderSize h) (len out) = Some [Byte.x2a].
Proof.
  apply (@rewritten_request_keeps_header _ _ stub_interceptor default_config (mkEnv 0 None)
    (stub_conn (frame_bytes (metadata_request 5)) [] (NewTracker 0 0)) _
    (mkRequestHeader APIMetadata 1 5 "c" false 11) (metadata_request 5) [Byte.xff; Byte.xfe]
    (mkPending 0 0 0 0 (Some tt) (Some [Byte.x2a])) tt [Byte.x2a]).
  - split; [reflexivity|]. split; [|split; vm_compute; reflexivity].
    eexists _, _. vm_compute. reflexivity.
  - vm_compute. reflexivity.
  - reflexivity.
  - vm_compute. reflexivity.
Defined.

(** Registration comes before forwarding. *)
Lemma tracked_before_forward {IS R} `{Interceptor IS R} cfg env (c c' : Conn IS R)
    h body payload p st rw err :
  incoming cfg env c h body payload -> OnRequest (icept c) h payload = (Some p, st) ->
  P_Rewrite p = Some rw -> upstream_iter cfg env c = (err, c') ->
  (brokerW c' = brokerW c /\ err <> None) \/
  entries (tracker c') !! RH_CorrelID h =
    Some (mkPending (RH_APIKey h) (RH_APIVersion h) (RH_CorrelID h) (now env) (Some rw)
            (P_RewriteRequest p)).
Proof.
  intros Hin Ho Hrw Hup.
  destruct (upstream_incoming cfg env c h body payload _ st Hin Ho)
    as (c1 & _ & Hw & _ & Ht & _ & _ & Eup).
  rewrite Eup in Hup. unfold intercept_up in Hup. cbn [P_RewriteRequest P_Rewrite] in Hup.
  rewrite Hrw in Hup.
  destruct (match P_RewriteRequest p with Some _ => _ | None => _ end) as [out|].
  2:{ injection Hup as <- <-. left. by split. }
  destruct (Register _ _ _) as [[] t] eqn:Er.
  - right. apply forward_up_spec in Hup as (_ & _ & _ & Htr & _). rewrite Htr. cbn [tracker].
    rewrite Register_spec in Er. cbv zeta in Er. destruct (_ <=? _); [done|].
    destruct (_ !! _); [done|]. injection Er as <-. simpl. by rewrite lookup_insert_eq.
  - left. injection Hup as <- <-. by split.
Qed.

(** C6: not a byte of a request whose response must be rewritten reaches the
    broker unless the request is in the tracker, with the rewriter, under its
    correlation id and with the api key and version of its header: when there
    is no room the connection ends before forwarding. *)
Theorem forwarded_only_if_tracked {IS R} `{Interceptor IS R} cfg env (c c' : Conn IS R)
    h body payload p st rw err :
  incoming cfg env c h body payload -> OnRequest (icept c) h payload = (Some p, st) ->
  P_Rewrite p = Some rw -> upstream_iter cfg env c = (err, c') ->
  (brokerW c' = brokerW c /\ err <> None) \/
  entries (tracker c') !! RH_CorrelID h =
    Some (mkPending (RH_APIKey h) (RH_APIVersion h) (RH_CorrelID h) (now env) (Some rw)
            (P_RewriteRequest p)).
Proof. apply tracked_before_forward. Qed.

Lemma forwarded_only_if_tracked_witness :
  let c := stub_conn (frame_bytes (metadata_request 5)) [] (NewTracker 0 0) in
  let c' := snd (@upstream_iter _ _ stub_interceptor default_config (mkEnv 9 None) c) in
  (brokerW c' = brokerW c /\ @None conn_err <> None) \/
  entries (tracker c') !! 5 = Some (mkPending APIMetadata 1 5 9 (Some tt) (Some [Byte.x2a])).
Proof.
  apply (@forwarded_only_if_tracked _ _ stub_interceptor default_config (mkEnv 9 None)
    (stub_conn (frame_bytes (metadata_request 5)) [] (NewTracker 0 0)) _
    (mkRequestHeader APIMetadata 1 5 "c" false 11) (metadata_request 5) [Byte.xff; Byte.xfe]
    (mkPending 0 0 0 0 (Some tt) (Some [Byte.x2a])) tt tt None).
  - split; [reflexivity|]. split; [|split; vm_compute; reflexivity].
    eexists _, _. vm_compute. reflexivity.
  - vm_compute. reflexivity.
  - reflexivity.
  - vm_compute. reflexivity.
Defined.

(** The response the downstream pump is about to handle, and its request. *)
Definition answered {IS R} `{Interceptor IS R} (cfg : Config) (env : Env) (c : Conn IS R)
    (body : list byte) (id : Z) (p : Pending R) : Prop :=
  deadline_err cfg env = None /\
  (exists b s, ReadFrame (frame_cap cfg) (downBuf c) (brokerR c) = (inr body, b, s)) /\
  PeekResponseCorrelID body = Ok id /\ entries (tracker c) !! id = Some p.

Lemma tracked_response {IS R} `{Interceptor IS R} cfg env (c c' : Conn IS R)
    body id p rw err :
  answered cfg env c body id p -> P_Rewrite p = Some rw ->
  downstream_iter cfg env c = (err, c') ->
  entries (tracker c') = delete id (entries (tracker c)) /\
  ((clientW c' = clientW c /\ err <> None) \/
   exists rh payload newPayload st,
     DecodeResponseHeader body (P_APIKey p) (P_APIVersion p) = Ok rh /\
     go_slice body (SH_HeaderSize rh) (len body) = Some payload /\
     Rewrite rw (icept c) [] payload p = (Ok newPayload, st) /\
     let out := AppendResponseHeader [] (P_APIKey p) (P_APIVersion p) (P_CorrelID p) ++ newPayload in
     written (clientW c') `prefix_of` written (clientW c) ++ frame_bytes out /\
     (err = None -> written (clientW c') = written (clientW c) ++ frame_bytes out)).
Proof.
  intros (Hd & (b & s & Hr) & Hp & He) Hrw. unfold downstream_iter. rewrite Hd, Hr, Hp.
  unfold Take. cbn [tracker]. rewrite He, Hrw. unfold rewrite_down.
  destruct (DecodeResponseHeader _ _ _) as [rh| |] eqn:Eh;
    [|intros [= <- <-]; by split; [|left]..].
  destruct (go_slice body _ _) as [payload|] eqn:Es; [|intros [= <- <-]; by split; [|left]].
  cbn [icept]. destruct (Rewrite rw (icept c) [] payload p) as [[new| |] st] eqn:Er;
    [|intros [= <- <-]; by split; [|left]..].
  intros (_ & _ & _ & Ht & _ & Hpre & Hw)%forward_down_spec. cbn [clientW tracker] in *.
  split; [by rewrite Ht|]. right. exists rh, payload, new, st. by split_and!.
Qed.

(** C7: the response to a tracked request with a rewriter is transformed or not
    delivered: what the client receives of it is (a prefix of, if the write
    breaks) one frame made of a response header with the request's correlation
    id and of what the rewriter returned for the broker's payload; if the
    header is bad or the rewriter fails, nothing is sent and the connection
    ends.  Either way the entry is consumed. *)
Theorem response_rewritten_or_dropped {IS R} `{Interceptor IS R} cfg env (c c' : Conn IS R)
    body id p rw err :
  answered cfg env c body id p -> P_Rewrite p = Some rw ->
  downstream_iter cfg env c = (err, c') ->
  entries (tracker c') = delete id (entries (tracker c)) /\
  ((clientW c' = clientW c /\ err <> None) \/
   exists rh payload newPayload st,
     DecodeResponseHeader body (P_APIKey p) (P_APIVersion p) = Ok rh /\
     go_slice body (SH_HeaderSize rh) (len body) = Some payload /\
     Rewrite rw (icept c) [] payload p = (Ok newPayload, st) /\
     let out := AppendResponseHeader [] (P_APIKey p) (P_APIVersion p) (P_CorrelID p) ++ newPayload in
     written (clientW c') `prefix_of` written (clientW c) ++ frame_bytes out /\
     (err = None -> written (clientW c') = written (clientW c) ++ frame_bytes out)).
Proof. apply tracked_response. Qed.

Definition metadata_response (id : Z) : list byte :=
  AppendResponseHeader [] APIMetadata 1 id ++ [Byte.x07].

Definition tracked_conn : Conn unit unit :=
  stub_conn [] (frame_bytes (metadata_response 5))
    (snd (Register (NewTracker 0 0) 9 (mkPending APIMetadata 1 5 9 (Some tt) None))).

Lemma response_rewritten_or_dropped_witness :
  let p := mkPending APIMetadata 1 5 9 (Some tt) None in
  let c' := snd (@downstream_iter _ _ stub_interceptor default_config (mkEnv 10 None) tracked_conn) in
  entries (tracker c') = delete 5 (entries (tracker tracked_conn)) /\
  ((clientW c' = clientW tracked_conn /\ @None conn_err <> None) \/
   exists rh payload newPayload st,
     DecodeResponseHeader (metadata_response 5) (P_APIKey p) (P_APIVersion p) = Ok rh /\
     go_slice (metadata_response 5) (SH_HeaderSize rh) (len (metadata_response 5)) = Some payload /\
     @Rewrite _ _ stub_interceptor tt (icept tracked_conn) [] payload p = (Ok newPayload, st) /\
     let out := AppendResponseHeader [] (P_APIKey p) (P_APIVersion p) (P_CorrelID p) ++ newPayload in
     written (clientW c') `prefix_of` written (clientW tracked_conn) ++ frame_bytes out /\
     (@None conn_err = None -> written (clientW c') = written (clientW tracked_conn) ++ frame_bytes out)).
Proof.
  apply (@response_rewritten_or_dropped _ _ stub_interceptor default_config (mkEnv 10 None)
    tracked_conn _ (metadata_response 5) 5 (mkPending APIMetadata 1 5 9 (Some tt) None) tt None).
  - split; [reflexivity|]. split; [eexists _, _; vm_compute; reflexivity|].
    split; vm_compute; reflexivity.
  - reflexivity.
  - vm_compute. reflexivity.
Defined.

(** ** The way round *)

(** The stub's second request comes [maxAge] after the first. *)
Definition slow_broker_run (age : Z) : Conn unit unit :=
  let cfg := mkConfig 0 0 0 age in
  let c := stub_conn (frame_bytes (metadata_request 5) ++ frame_bytes (metadata_request 6))
             (frame_bytes (metadata_response 5)) (NewTracker 0 age) in
  let c := snd (@upstream_iter _ _ stub_interceptor cfg (mkEnv 1 None) c) in
  let c := snd (@upstream_iter _ _ stub_interceptor cfg (mkEnv (2 + age) None) c) in
  snd (@downstream_iter _ _ stub_interceptor cfg (mkEnv (3 + age) None) c).

(** The tracker's eviction opens a bypass: the response to a request that
    was registered with a rewriter is delivered to the client exactly as the
    broker sent it when the broker answers more than [PendingMaxAge] after the
    request and another request arrived meanwhile. *)
Theorem late_response_not_rewritten :
  written (clientW (slow_broker_run 1000)) = frame_bytes (metadata_response 5).
Proof. vm_compute. reflexivity. Qed.

(** What [Run] returns: a connection whose pump ended because a peer closed
    it, or whose context was cancelled, reports no error; every other end
    reports the error of the pump that ended first. *)
Theorem shutdown_reporting {IS R} `{Interceptor IS R} cfg (c : Conn IS R) s :
  run_step cfg (Running c) s ->
  match s with
  | Running _ => True
  | Closed None _ => s = Closed None c \/
      exists env e c', (upstream_iter cfg env c = (Some e, c') \/
                        downstream_iter cfg env c = (Some e, c')) /\
        e ∈ [Framing (IoErr EOF); Framing (IoErr NetClosed); DeadlineFailed EOF; DeadlineFailed NetClosed]
  | Closed (Some e) _ =>
      exists env c', (upstream_iter cfg env c = (Some e, c') \/ downstream_iter cfg env c = (Some e, c'))
  end.
Proof.
  intros Hs.
  assert (forall r : option conn_err * Conn IS R,
    match after r with
    | Running _ => True
    | Closed None _ => exists e c', r = (Some e, c') /\
        e ∈ [Framing (IoErr EOF); Framing (IoErr NetClosed); DeadlineFailed EOF; DeadlineFailed NetClosed]
    | Closed (Some e) _ => exists c', r = (Some e, c')
    end) as Hafter.
  { intros [[e|] c']; [|done]. simpl. destruct e as [[]|[| |[]]| | | |]; simpl; eauto.
    all: eexists _, _; split; [done|]; set_solver. }
  inversion Hs as [env c1 E1 E2|env c1 E1 E2|c1 E1 E2]; subst.
  - specialize (Hafter (upstream_iter cfg env c)).
    destruct (after _) as [|[e|] c1]; [done| |]; naive_solver.
  - specialize (Hafter (downstream_iter cfg env c)).
    destruct (after _) as [|[e|] c1]; [done| |]; naive_solver.
  - by left.
Qed.

Definition cut_stream : list byte := take 4 (frame_bytes (metadata_request 5)).

Lemma shutdown_reporting_witness :
  let c := stub_conn cut_stream [] (NewTracker 0 0) in
  let s := after (@upstream_iter _ _ stub_interceptor default_config (mkEnv 1 None) c) in
  match s with
  | Running _ => True
  | Closed None _ => s = Closed None c \/
      exists env e c', (@upstream_iter _ _ stub_interceptor default_config env c = (Some e, c') \/
                        @downstream_iter _ _ stub_interceptor default_config env c = (Some e, c')) /\
        e ∈ [Framing (IoErr EOF); Framing (IoErr NetClosed); DeadlineFailed EOF; DeadlineFailed NetClosed]
  | Closed (Some e) _ =>
      exists env c', (@upstream_iter _ _ stub_interceptor default_config env c = (Some e, c') \/
                      @downstream_iter _ _ stub_interceptor default_config env c = (Some e, c'))
  end.
Proof.
  apply (@shutdown_reporting _ _ stub_interceptor default_config (stub_conn cut_stream [] (NewTracker 0 0))).
  apply step_up.
Defined.

(** A client that disconnects in the middle of a request, right behind the
    length prefix of a non-empty frame, is reported as a clean shutdown: [Run]
    returns nil, as it does at a frame boundary, while a disconnection one
    byte earlier or later is reported as an error. *)
Theorem cut_behind_length_prefix_is_clean {IS R} `{Interceptor IS R} cfg env (c : Conn IS R) body k :
  0 < len body <= frame_cap cfg -> len body < 2 ^ 31 -> 0 < k < 4 + len body ->
  clientR c = mkStream (take (Z.to_nat k) (frame_bytes body)) EOF ->
  deadline_err cfg env = None ->
  exists c', after (upstream_iter cfg env c) =
    Closed (if k =? 4 then None else Some (Framing (IoErr UnexpectedEOF))) c'.
Proof.
  intros Hb H31 Hk Hc Hd. unfold upstream_iter. rewrite Hd, Hc.
  pose proof (truncated_frame (frame_cap cfg) (upBuf c) body k ltac:(lia) H31 Hk) as Ht.
  destruct (ReadFrame _ _ _) as [[r b] s']. simpl in Ht. subst r.
  destruct (k =? 4); simpl; eauto.
Qed.

Lemma cut_behind_length_prefix_is_clean_witness :
  exists c', after (@upstream_iter _ _ stub_interceptor default_config (mkEnv 1 None)
    (stub_conn cut_stream [] (NewTracker 0 0))) =
    Closed (if 4 =? 4 then None else Some (Framing (IoErr UnexpectedEOF))) c'.
Proof.
  apply (@cut_behind_length_prefix_is_clean _ _ stub_interceptor default_config (mkEnv 1 None)
    (stub_conn cut_stream [] (NewTracker 0 0)) (metadata_request 5) 4).
  - vm_compute. split; congruence.
  - vm_compute. reflexivity.
  - vm_compute. split; congruence.
  - reflexivity.
  - reflexivity.
Defined.
