(* ===== verification/ConnRun.v ===== *)
(** * Running a connection: internal/proxy/conn.go, [Run]

    Conn.v treats an iteration of a pump as one step.  Here the pumps are
    programs with a program counter that stop between any two operations on
    shared state, next to the two other goroutines of [Run]: the one that waits
    for the context and the one that collects the pumps' errors.  [closeBoth]
    runs under its [sync.Once], socket by socket, and its effect on the pumps
    is modelled: operations on a closed socket fail with [net.ErrClosed], and a
    write may be cut short.

    A peer may also do nothing: a read from a peer that [hangs] blocks at the
    end of what it sent, a write to a peer that [stalls] blocks where the sink
    would fail.  Blocking operations have no step until the socket is closed or
    the read deadline passes. *)

From stdpp Require Import base numbers list strings gmap relations.
From Stdlib Require Import ZArith Lia Strings.Byte.
From S2P Require Import Prelude Primitives Codec Header Locality Frame Tracker Conn ConnTheorems.

(** ** Socket operations *)

Record Peer := mkPeer { hangs : bool; stalls : bool }.

(** An error of the transport, which a silent peer never causes. *)
Definition transport (e : frame_err) : bool :=
  match e with IoErr _ => true | _ => false end.

(** [ReadFrame] on a socket: what the stream gives, [net.ErrClosed] if the
    socket is closed, a timeout if a deadline is set. *)
Inductive reads (cfg : Config) (peer : Peer) (closed : bool) (b : Buffer) (s : Stream)
    : frame_err + list byte -> Buffer -> Stream -> Prop :=
| reads_open r b' s' :
    closed = false -> ReadFrame (frame_cap cfg) b s = (r, b', s') ->
    (hangs peer = true -> forall e, r = inl e -> transport e = false) ->
    reads cfg peer closed b s r b' s'
| reads_closed : closed = true -> reads cfg peer closed b s (inl (IoErr NetClosed)) b s
| reads_timeout :
    closed = false -> 0 < IdleTimeout cfg -> reads cfg peer closed b s (inl (IoErr OtherErr)) b s.

(** [WriteFrame] on a socket; closing it may cut a write short. *)
Inductive writes (peer : Peer) (closed : bool) (w : Sink) (body : list byte)
    : option frame_err -> Sink -> Prop :=
| writes_open err w' :
    WriteFrame w body = (err, w') -> (closed = true -> err = Some ErrFrameTooLarge) ->
    (stalls peer = true -> forall e, err = Some e -> transport e = false) ->
    writes peer closed w body err w'
| writes_closed k :
    closed = true -> fst (WriteFrame w body) <> Some ErrFrameTooLarge ->
    (k < length (frame_bytes body))%nat ->
    writes peer closed w body (Some (IoErr NetClosed))
      (mkSink (written w ++ take k (frame_bytes body)) (room w)).

(** [SetReadDeadline] at the head of an iteration. *)
Definition set_deadline (cfg : Config) (closed : bool) (result : option io_err) : option io_err :=
  if 0 <? IdleTimeout cfg then (if closed then Some NetClosed else result) else None.

(** ** The pumps *)

Section pumps.
Context {IS R : Type} `{Interceptor IS R}.

(** Where the upstream pump is: before the deadline, the read, [OnRequest],
    [Register], the write; returning an error; gone, the error sent. *)
Inductive up_pc :=
| UTop
| URead
| UIntercept (h : RequestHeader) (body payload : list byte)
| URegister (p : Pending R) (out : list byte)
| UWrite (out : list byte)
| UReturn (e : conn_err)
| UExit (e : conn_err).

Definition up_deadline (r : option io_err) : up_pc :=
  match r with Some e => UReturn (DeadlineFailed e) | None => URead end.

Definition up_decode (r : frame_err + list byte) : up_pc :=
  match r with
  | inl e => UReturn (Framing e)
  | inr body =>
      match DecodeRequestHeader body with
      | Panic => UReturn Crash
      | Fail e => UReturn (BadHeader e)
      | Ok h =>
          match go_slice body (RH_HeaderSize h) (len body) with
          | None => UReturn Crash
          | Some payload => UIntercept h body payload
          end
      end
  end.

(** After [OnRequest]: the pending request is filled in and the outgoing frame
    assembled. *)
Definition up_intercept (now : Z) (p : option (Pending R)) (h : RequestHeader) (body : list byte)
    : up_pc :=
  match p with
  | None => UWrite body
  | Some p =>
      let p := mkPending (RH_APIKey h) (RH_APIVersion h) (RH_CorrelID h) now
                 (P_Rewrite p) (P_RewriteRequest p) in
      match P_RewriteRequest p with
      | None => URegister p body
      | Some new =>
          match go_slice body 0 (RH_HeaderSize h) with
          | Some hdr => URegister p (hdr ++ new)
          | None => UReturn Crash
          end
      end
  end.

Definition up_register (ok : bool) (p : Pending R) (out : list byte) : up_pc :=
  if ok then UWrite out else
  match P_Rewrite p with
  | Some _ => UReturn (TrackerFull (P_APIKey p))
  | None => UWrite out
  end.

(** Where a pump goes after its write. *)
Definition up_written (err : option frame_err) : up_pc :=
  match err with Some e => UReturn (Framing e) | None => UTop end.

(** One step of the upstream pump.  [cc] and [bc] say whether the client's and
    the broker's sockets are closed. *)
Inductive up_step (cfg : Config) (client broker : Peer) (cc bc : bool)
    : up_pc * Conn IS R -> up_pc * Conn IS R -> Prop :=
| up_step_deadline c r :
    up_step cfg client broker cc bc (UTop, c) (up_deadline (set_deadline cfg cc r), c)
| up_step_read c r b s :
    reads cfg client cc (upBuf c) (clientR c) r b s ->
    up_step cfg client broker cc bc (URead, c)
      (up_decode r, mkConn s (clientW c) (brokerR c) (brokerW c) b (downBuf c)
                      (tracker c) (frames c) (icept c))
| up_step_intercept c h body payload p st now :
    OnRequest (icept c) h payload = (p, st) ->
    up_step cfg client broker cc bc (UIntercept h body payload, c)
      (up_intercept now p h body, mkConn (clientR c) (clientW c) (brokerR c) (brokerW c) (upBuf c)
                                    (downBuf c) (tracker c) (frames c) st)
| up_step_register c p out ok t now :
    Register (tracker c) now p = (ok, t) ->
    up_step cfg client broker cc bc (URegister p out, c)
      (up_register ok p out,
       mkConn (clientR c) (clientW c) (brokerR c) (brokerW c) (upBuf c) (downBuf c) t
         (if ok then frames c else IncTrackerDropped (frames c)) (icept c))
| up_step_write c out err w :
    writes broker bc (brokerW c) out err w ->
    up_step cfg client broker cc bc (UWrite out, c)
      (up_written err,
       mkConn (clientR c) (clientW c) (brokerR c) w (upBuf c) (downBuf c) (tracker c)
         (match err with None => IncClientToBroker (frames c) | Some _ => frames c end) (icept c)).

(** Where the downstream pump is: before the deadline, the read, [Take], the
    rewriting, the write; returning; gone. *)
Inductive down_pc :=
| DTop
| DRead
| DTake (id : Z) (body : list byte)
| DRewrite (p : Pending R) (rw : R) (payload : list byte)
| DWrite (out : list byte)
| DReturn (e : conn_err)
| DExit (e : conn_err).

Definition down_deadline (r : option io_err) : down_pc :=
  match r with Some e => DReturn (DeadlineFailed e) | None => DRead end.

Definition down_decode (r : frame_err + list byte) : down_pc :=
  match r with
  | inl e => DReturn (Framing e)
  | inr body =>
      match PeekResponseCorrelID body with
      | Panic => DReturn Crash
      | Fail e => DReturn (BadHeader e)
      | Ok id => DTake id body
      end
  end.

(** After [Take]: forward untouched, or decode the header for the rewriter. *)
Definition down_taken (p : option (Pending R)) (body : list byte) : down_pc :=
  match p with
  | None => DWrite body
  | Some p =>
      match P_Rewrite p with
      | None => DWrite body
      | Some rw =>
          match DecodeResponseHeader body (P_APIKey p) (P_APIVersion p) with
          | Panic => DReturn Crash
          | Fail e => DReturn (BadHeader e)
          | Ok rh =>
              match go_slice body (SH_HeaderSize rh) (len body) with
              | None => DReturn Crash
              | Some payload => DRewrite p rw payload
              end
          end
      end
  end.

Definition down_rewritten (p : Pending R) (r : outcome kerr (list byte)) : down_pc :=
  match r with
  | Panic => DReturn Crash
  | Fail e => DReturn (RewriteFailed e)
  | Ok newPayload =>
      DWrite (AppendResponseHeader [] (P_APIKey p) (P_APIVersion p) (P_CorrelID p) ++ newPayload)
  end.

Definition down_written (err : option frame_err) : down_pc :=
  match err with Some e => DReturn (Framing e) | None => DTop end.

Inductive down_step (cfg : Config) (client broker : Peer) (cc bc : bool)
    : down_pc * Conn IS R -> down_pc * Conn IS R -> Prop :=
| down_step_deadline c r :
    down_step cfg client broker cc bc (DTop, c) (down_deadline (set_deadline cfg bc r), c)
| down_step_read c r b s :
    reads cfg broker bc (downBuf c) (brokerR c) r b s ->
    down_step cfg client broker cc bc (DRead, c)
      (down_decode r, mkConn (clientR c) (clientW c) s (brokerW c) (upBuf c) b
                        (tracker c) (frames c) (icept c))
| down_step_take c id body p t :
    Take (tracker c) id = (p, t) ->
    down_step cfg client broker cc bc (DTake id body, c)
      (down_taken p body, mkConn (clientR c) (clientW c) (brokerR c) (brokerW c) (upBuf c)
                            (downBuf c) t (frames c) (icept c))
| down_step_rewrite c p rw payload r st :
    Rewrite rw (icept c) [] payload p = (r, st) ->
    down_step cfg client broker cc bc (DRewrite p rw payload, c)
      (down_rewritten p r, mkConn (clientR c) (clientW c) (brokerR c) (brokerW c) (upBuf c)
                             (downBuf c) (tracker c) (frames c) st)
| down_step_write c out err w :
    writes client cc (clientW c) out err w ->
    down_step cfg client broker cc bc (DWrite out, c)
      (down_written err,
       mkConn (clientR c) w (brokerR c) (brokerW c) (upBuf c) (downBuf c) (tracker c)
         (match err with None => IncBrokerToClient (frames c) | Some _ => frames c end) (icept c)).

(** ** [Run] *)

(** The [closeOnce] of the connection: untouched, entered, the client's socket
    closed, both closed and [Do] returned. *)
Inductive Once := Fresh | Entered | ClientClosed | OnceDone.

(** The goroutine that waits for [ctx.Done] or [doneCh]. *)
Inductive watcher_pc := WSelect | WDo | WExit.

(** The body of [Run] after the goroutines are started: receiving the first
    error, inside [closeBoth(first)], receiving the second, returned. *)
Inductive main_pc :=
| MFirst
| MDo (first : conn_err)
| MSecond (first : conn_err)
| MReturned (first : conn_err) (result : option conn_err).

Record RunState := mkRun {
  rconn : Conn IS R;
  up : up_pc;
  down : down_pc;
  errCh : list conn_err;
  once : Once;
  rcloseErr : option conn_err;
  watcher : watcher_pc;
  mainpc : main_pc;
  ctxDone : bool;
}.

Definition start (c : Conn IS R) : RunState :=
  mkRun c UTop DTop [] Fresh None WSelect MFirst false.

Definition client_closed (s : RunState) : bool :=
  match once s with ClientClosed | OnceDone => true | _ => false end.
Definition broker_closed (s : RunState) : bool :=
  match once s with OnceDone => true | _ => false end.

(** A step of one of the goroutines of [Run]. *)
Inductive go_step (cfg : Config) (client broker : Peer) : RunState -> RunState -> Prop :=
| go_up s pc c :
    up_step cfg client broker (client_closed s) (broker_closed s) (up s, rconn s) (pc, c) ->
    go_step cfg client broker s
      (mkRun c pc (down s) (errCh s) (once s) (rcloseErr s) (watcher s) (mainpc s) (ctxDone s))
| go_up_send s e :
    up s = UReturn e ->
    go_step cfg client broker s
      (mkRun (rconn s) (UExit e) (down s) (errCh s ++ [e]) (once s) (rcloseErr s) (watcher s)
         (mainpc s) (ctxDone s))
| go_down s pc c :
    down_step cfg client broker (client_closed s) (broker_closed s) (down s, rconn s) (pc, c) ->
    go_step cfg client broker s
      (mkRun c (up s) pc (errCh s) (once s) (rcloseErr s) (watcher s) (mainpc s) (ctxDone s))
| go_down_send s e :
    down s = DReturn e ->
    go_step cfg client broker s
      (mkRun (rconn s) (up s) (DExit e) (errCh s ++ [e]) (once s) (rcloseErr s) (watcher s)
         (mainpc s) (ctxDone s))
| go_watcher_cancelled s :
    watcher s = WSelect -> ctxDone s = true ->
    go_step cfg client broker s
      (mkRun (rconn s) (up s) (down s) (errCh s) (once s) (rcloseErr s) WDo (mainpc s) (ctxDone s))
| go_watcher_done s first r :
    watcher s = WSelect -> mainpc s = MReturned first r ->
    go_step cfg client broker s
      (mkRun (rconn s) (up s) (down s) (errCh s) (once s) (rcloseErr s) WExit (mainpc s) (ctxDone s))
| go_watcher_enter s :
    watcher s = WDo -> once s = Fresh ->
    go_step cfg client broker s
      (mkRun (rconn s) (up s) (down s) (errCh s) Entered (closeErr None) WDo (mainpc s) (ctxDone s))
| go_watcher_leave s :
    watcher s = WDo -> once s = OnceDone ->
    go_step cfg client broker s
      (mkRun (rconn s) (up s) (down s) (errCh s) OnceDone (rcloseErr s) WExit (mainpc s) (ctxDone s))
| go_close_client s :
    once s = Entered ->
    go_step cfg client broker s
      (mkRun (rconn s) (up s) (down s) (errCh s) ClientClosed (rcloseErr s) (watcher s) (mainpc s)
         (ctxDone s))
| go_close_broker s :
    once s = ClientClosed ->
    go_step cfg client broker s
      (mkRun (rconn s) (up s) (down s) (errCh s) OnceDone (rcloseErr s) (watcher s) (mainpc s)
         (ctxDone s))
| go_first s e rest :
    mainpc s = MFirst -> errCh s = e :: rest ->
    go_step cfg client broker s
      (mkRun (rconn s) (up s) (down s) rest (once s) (rcloseErr s) (watcher s) (MDo e) (ctxDone s))
| go_main_enter s e :
    mainpc s = MDo e -> once s = Fresh ->
    go_step cfg client broker s
      (mkRun (rconn s) (up s) (down s) (errCh s) Entered (closeErr (Some e)) (watcher s) (MDo e)
         (ctxDone s))
| go_main_leave s e :
    mainpc s = MDo e -> once s = OnceDone ->
    go_step cfg client broker s
      (mkRun (rconn s) (up s) (down s) (errCh s) OnceDone (rcloseErr s) (watcher s) (MSecond e)
         (ctxDone s))
| go_second s first e rest :
    mainpc s = MSecond first -> errCh s = e :: rest ->
    go_step cfg client broker s
      (mkRun (rconn s) (up s) (down s) rest (once s) (rcloseErr s) (watcher s)
         (MReturned first (rcloseErr s)) (ctxDone s)).

(** The cancellation of the context. *)
Definition cancel (s : RunState) : RunState :=
  mkRun (rconn s) (up s) (down s) (errCh s) (once s) (rcloseErr s) (watcher s) (mainpc s) true.

Inductive sys_step (cfg : Config) (client broker : Peer) : RunState -> RunState -> Prop :=
| sys_go s s' : go_step cfg client broker s s' -> sys_step cfg client broker s s'
| sys_cancel s : ctxDone s = false -> sys_step cfg client broker s (cancel s).

End pumps.
Arguments up_pc : clear implicits.
Arguments down_pc : clear implicits.
Arguments RunState : clear implicits.

(** ** Every run is finite *)

Lemma ReadFull_shrinks s n : (length (data (snd (ReadFull s n))) <= length (data s))%nat.
Proof.
  unfold ReadFull. destruct (_ <=? _); simpl; [|lia]. rewrite length_drop. lia.
Qed.

Lemma ReadFrame_shrinks cap b s r b' s' :
  ReadFrame cap b s = (r, b', s') -> (length (data s') <= length (data s))%nat.
Proof.
  unfold ReadFrame. pose proof (ReadFull_shrinks s 4) as H1.
  destruct (ReadFull s 4) as [[hdr [e|]] s1]; simpl in H1; [by intros [= _ _ <-]|].
  destruct (_ <? _); [by intros [= _ _ <-]|]. destruct (_ <? _); [by intros [= _ _ <-]|].
  cbv zeta. pose proof (ReadFull_shrinks s1 (Z.of_nat (blen (grow b (swrap 32 (be_val hdr)))))) as H2.
  destruct (ReadFull s1 _) as [[got [e|]] s2]; simpl in H2; intros [= _ _ <-]; lia.
Qed.

(** A read consumes the length prefix of the frame it returns, at least. *)
Lemma reads_consume cfg peer closed b s r b' s' :
  reads cfg peer closed b s r b' s' ->
  (length (data s') + (if r is inr _ then 4 else 0) <= length (data s))%nat.
Proof.
  intros [r1 b1 s1 _ Hr _|_|_ _]; [|lia..]. destruct r1 as [e|body].
  - apply ReadFrame_shrinks in Hr. lia.
  - apply read_frame_inv in Hr as [-> _]. unfold frame_bytes.
    rewrite !length_app, length_be_bytes. lia.
Qed.

Section termination.
Context {IS R : Type} `{Interceptor IS R}.

(** What is left to do: the bytes still to come, weighted by the steps of an
    iteration, and the position of every goroutine. *)
Definition up_rank (pc : up_pc R) : nat :=
  match pc with
  | UTop => 3 | URead => 2 | UIntercept _ _ _ => 6 | URegister _ _ => 5 | UWrite _ => 4
  | UReturn _ => 1 | UExit _ => 0
  end.

Definition down_rank (pc : down_pc R) : nat :=
  match pc with
  | DTop => 3 | DRead => 2 | DTake _ _ => 6 | DRewrite _ _ _ => 5 | DWrite _ => 4
  | DReturn _ => 1 | DExit _ => 0
  end.

Definition once_rank (o : Once) : nat :=
  match o with Fresh => 3 | Entered => 2 | ClientClosed => 1 | OnceDone => 0 end.
Definition watcher_rank (w : watcher_pc) : nat := match w with WSelect => 2 | WDo => 1 | WExit => 0 end.
Definition main_rank (m : main_pc) : nat :=
  match m with MFirst => 3 | MDo _ => 2 | MSecond _ => 1 | MReturned _ _ => 0 end.

Definition work (c : Conn IS R) : nat := length (data (clientR c)) + length (data (brokerR c)).

Definition steps_left (s : RunState IS R) : nat :=
  2 * work (rconn s) + up_rank (up s) + down_rank (down s) + once_rank (once s) +
  watcher_rank (watcher s) + main_rank (mainpc s) + (if ctxDone s then 0 else 1).

Lemma up_step_rank cfg client broker cc bc pc c pc' c' :
  up_step cfg client broker cc bc (pc, c) (pc', c') ->
  (2 * work c' + up_rank pc' < 2 * work c + up_rank pc)%nat.
Proof.
  intros Hs; inversion Hs; subst; unfold work; cbn [clientR brokerR].
  - unfold up_deadline. case_match; simpl; lia.
  - match goal with Hr : reads _ _ _ _ _ _ _ _ |- _ => apply reads_consume in Hr as Hc end.
    destruct r; simpl in *; repeat case_match; simpl in *; lia.
  - unfold up_intercept. repeat case_match; simpl; lia.
  - unfold up_register. repeat case_match; simpl; lia.
  - unfold up_written. repeat case_match; simpl; lia.
Qed.

Lemma down_step_rank cfg client broker cc bc pc c pc' c' :
  down_step cfg client broker cc bc (pc, c) (pc', c') ->
  (2 * work c' + down_rank pc' < 2 * work c + down_rank pc)%nat.
Proof.
  intros Hs; inversion Hs; subst; unfold work; cbn [clientR brokerR].
  - unfold down_deadline. case_match; simpl; lia.
  - match goal with Hr : reads _ _ _ _ _ _ _ _ |- _ => apply reads_consume in Hr as Hc end.
    destruct r; simpl in *; repeat case_match; simpl in *; lia.
  - unfold down_taken. repeat case_match; simpl; lia.
  - unfold down_rewritten. repeat case_match; simpl; lia.
  - unfold down_written. repeat case_match; simpl; lia.
Qed.

Lemma sys_step_decreases cfg client broker s s' :
  sys_step cfg client broker s s' -> (steps_left s' < steps_left s)%nat.
Proof.
  intros [s1 s2 Hg|s1 Hc]; unfold steps_left.
  - destruct Hg; cbn [rconn up down once watcher mainpc ctxDone cancel];
      try match goal with Hu : up_step _ _ _ _ _ _ _ |- _ => apply up_step_rank in Hu; lia end;
      try match goal with Hd : down_step _ _ _ _ _ _ _ |- _ => apply down_step_rank in Hd; lia end;
      repeat match goal with E : up _ = _ |- _ => rewrite E; clear E
                        | E : down _ = _ |- _ => rewrite E; clear E
                        | E : once _ = _ |- _ => rewrite E; clear E
                        | E : watcher _ = _ |- _ => rewrite E; clear E
                        | E : mainpc _ = _ |- _ => rewrite E; clear E end; simpl; lia.
  - simpl. rewrite Hc. lia.
Qed.

Lemma sys_step_sn cfg client broker s : sn (sys_step cfg client broker) s.
Proof.
  induction s as [s IH] using (induction_ltof1 _ steps_left). constructor. intros s' Hs.
  apply IH. by eapply sys_step_decreases.
Qed.

(** ** Where a run can stop *)

Definition sent_up (pc : up_pc R) : nat := match pc with UExit _ => 1 | _ => 0 end.
Definition sent_down (pc : down_pc R) : nat := match pc with DExit _ => 1 | _ => 0 end.
Definition received (m : main_pc) : nat :=
  match m with MFirst => 0 | MDo _ | MSecond _ => 1 | MReturned _ _ => 2 end.

(** The errors on their way: every pump that is gone has sent its error, which
    is in the channel or was received. *)
Definition exits (s : RunState IS R) : list conn_err :=
  match up s with UExit e => [e] | _ => [] end ++ match down s with DExit e => [e] | _ => [] end.

Definition first_of (m : main_pc) : option conn_err :=
  match m with MFirst => None | MDo e | MSecond e | MReturned e _ => Some e end.

Record run_inv (s : RunState IS R) : Prop := {
  inv_count : (length (errCh s) + received (mainpc s) = sent_up (up s) + sent_down (down s))%nat;
  inv_chan e : e ∈ errCh s -> e ∈ exits s;
  inv_first e : first_of (mainpc s) = Some e -> e ∈ exits s;
  inv_main : match mainpc s with MSecond _ | MReturned _ _ => once s = OnceDone | _ => True end;
  inv_fresh : once s = Fresh -> rcloseErr s = None;
  inv_watcher : match watcher s with
                | WSelect => True
                | WDo => ctxDone s = true
                | WExit => once s = OnceDone
                end;
  inv_closer : once s <> Fresh ->
    (rcloseErr s = None /\ ctxDone s = true) \/
    (exists e, first_of (mainpc s) = Some e /\ rcloseErr s = closeErr (Some e));
  inv_result e r : mainpc s = MReturned e r -> r = rcloseErr s;
}.

Lemma start_inv c : run_inv (start c).
Proof. by constructor; simpl; try done; intros; set_solver. Qed.

(** A pump that moves on is not gone, before or after. *)
Lemma up_step_live cfg client broker cc bc pc c pc' c' :
  up_step cfg client broker cc bc (pc, c) (pc', c') ->
  (forall e, pc <> UExit e) /\ (forall e, pc' <> UExit e).
Proof.
  intros Hs; inversion Hs; subst; split; try done; intros x.
  all: unfold up_deadline, up_decode, up_intercept, up_register, up_written; by repeat case_match.
Qed.

Lemma down_step_live cfg client broker cc bc pc c pc' c' :
  down_step cfg client broker cc bc (pc, c) (pc', c') ->
  (forall e, pc <> DExit e) /\ (forall e, pc' <> DExit e).
Proof.
  intros Hs; inversion Hs; subst; split; try done; intros x.
  all: unfold down_deadline, down_decode, down_taken, down_rewritten, down_written; by repeat case_match.
Qed.

(** Replacing the position of a pump that is not gone by another such. *)
Lemma run_inv_up s c pc :
  (forall e, up s <> UExit e) -> (forall e, pc <> UExit e) -> run_inv s ->
  run_inv (mkRun c pc (down s) (errCh s) (once s) (rcloseErr s) (watcher s) (mainpc s) (ctxDone s)).
Proof.
  intros H1 H2 [Hc Hch Hf Hm Hfr Hw Hcl Hr].
  assert (sent_up pc = sent_up (up s)) as E1.
  { destruct pc; destruct (up s); simpl; try done; exfalso; naive_solver. }
  assert (match pc with UExit e => [e] | _ => [] end = match up s with UExit e => [e] | _ => [] end) as E2.
  { destruct pc; destruct (up s); try done; exfalso; naive_solver. }
  unfold exits in *. constructor; cbn [rconn up down errCh once rcloseErr watcher mainpc ctxDone];
    unfold exits; cbn [up down]; try rewrite E1; try rewrite E2; done.
Qed.

Lemma run_inv_down s c pc :
  (forall e, down s <> DExit e) -> (forall e, pc <> DExit e) -> run_inv s ->
  run_inv (mkRun c (up s) pc (errCh s) (once s) (rcloseErr s) (watcher s) (mainpc s) (ctxDone s)).
Proof.
  intros H1 H2 [Hc Hch Hf Hm Hfr Hw Hcl Hr].
  assert (sent_down pc = sent_down (down s)) as E1.
  { destruct pc; destruct (down s); simpl; try done; exfalso; naive_solver. }
  assert (match pc with DExit e => [e] | _ => [] end = match down s with DExit e => [e] | _ => [] end) as E2.
  { destruct pc; destruct (down s); try done; exfalso; naive_solver. }
  unfold exits in *. constructor; cbn [rconn up down errCh once rcloseErr watcher mainpc ctxDone];
    unfold exits; cbn [up down]; try rewrite E1; try rewrite E2; done.
Qed.

Lemma go_step_inv cfg client broker s s' :
  go_step cfg client broker s s' -> run_inv s -> run_inv s'.
Proof.
  intros Hg Hi. destruct Hg as [s pc c Hu|s e Hu|s pc c Hd|s e Hd|s|s|s|s|s|s|s|s|s|s].
  { apply up_step_live in Hu as [? ?]. by apply run_inv_up. }
  { destruct Hi as [Hc Hch Hf Hm Hfr Hw Hcl Hr]. unfold exits in *. rewrite Hu in *.
    constructor; simpl; try done; unfold exits; simpl.
    + rewrite length_app. simpl in *. lia.
    + intros e1. rewrite elem_of_app. set_solver.
    + intros e1 He. apply Hf in He. set_solver. }
  { apply down_step_live in Hd as [? ?]. by apply run_inv_down. }
  { destruct Hi as [Hc Hch Hf Hm Hfr Hw Hcl Hr]. unfold exits in *. rewrite Hd in *.
    constructor; simpl; try done; unfold exits; simpl.
    + rewrite length_app. simpl in *. lia.
    + intros e1. rewrite elem_of_app. set_solver.
    + intros e1 He. apply Hf in He. set_solver. }
  all: destruct Hi as [Hc Hch Hf Hm Hfr Hw Hcl Hr]; constructor; unfold exits in *; simpl in *.
  all: repeat match goal with
    | E : errCh _ = _ |- _ => rewrite E in *; clear E
    | E : once _ = _ |- _ => rewrite E in *; clear E
    | E : watcher _ = _ |- _ => rewrite E in *; clear E
    | E : mainpc _ = _ |- _ => rewrite E in *; clear E end; simpl in *; try done; try lia.
  all: match type of Hch with context [?a ++ ?b] => set (X := a ++ b) in *; clearbody X end.
  all: clear Hc; try (clear Hch Hf Hr; naive_solver).
  all: try (clear -Hch Hf; set_solver).
  all: try (clear Hcl Hch Hf Hr; by repeat case_match).
  all: naive_solver.
Qed.

Lemma sys_step_inv cfg client broker s s' :
  sys_step cfg client broker s s' -> run_inv s -> run_inv s'.
Proof.
  intros [s1 s2 Hg|s1 Hc] Hi; [by eapply go_step_inv|].
  destruct Hi as [H1 H2 H3 H4 H5 H6 H7 H8]. unfold exits in *. constructor; unfold exits; simpl; try done.
  - by destruct (watcher s1).
  - intros Hn. destruct (H7 Hn) as [[? _]|?]; eauto.
Qed.

Lemma reachable_inv cfg client broker c s :
  rtc (sys_step cfg client broker) (start c) s -> run_inv s.
Proof.
  revert s. apply (rtc_ind_r run_inv); [apply start_inv|].
  intros s1 s2 _ Hs Hi. by eapply sys_step_inv.
Qed.

(** A read or write has a step when the socket is closed or the peer responds. *)
Lemma reads_enabled cfg peer closed b s :
  closed = true \/ hangs peer = false -> exists r b' s', reads cfg peer closed b s r b' s'.
Proof.
  intros Hp. destruct closed.
  { eexists _, _, _. by apply reads_closed. }
  destruct (ReadFrame (frame_cap cfg) b s) as [[r b'] s'] eqn:E.
  eexists _, _, _. eapply reads_open; [done|exact E|]. destruct Hp; congruence.
Qed.

Lemma writes_enabled peer closed w body :
  closed = true \/ stalls peer = false -> exists err w', writes peer closed w body err w'.
Proof.
  intros Hp. destruct (WriteFrame w body) as [err w'] eqn:E.
  assert (err = Some ErrFrameTooLarge \/ err <> Some ErrFrameTooLarge) as [->|Hne]
    by (destruct err as [[]|]; auto).
  { eexists _, _. eapply writes_open; [exact E|done|]. by intros _ e [= <-]. }
  destruct closed.
  - eexists _, _. apply (writes_closed _ _ _ _ 0); [done|by rewrite E|].
    unfold frame_bytes. rewrite length_app, length_be_bytes. lia.
  - eexists _, _. eapply writes_open; [exact E|done|]. destruct Hp; congruence.
Qed.

Lemma up_progress cfg client broker cc bc pc c :
  cc = true \/ hangs client = false -> bc = true \/ stalls broker = false ->
  (exists e, pc = UReturn e \/ pc = UExit e) \/
  exists pc' c', up_step cfg client broker cc bc (pc, c) (pc', c').
Proof.
  intros Hr Hw. destruct pc as [| |h body payload|p out|out|e|e]; [right..|left; eauto|left; eauto].
  - eexists _, _. apply (up_step_deadline _ _ _ _ _ _ None).
  - destruct (reads_enabled cfg client cc (upBuf c) (clientR c) Hr) as (r & b & s & H1).
    eexists _, _. by econstructor.
  - destruct (OnRequest (icept c) h payload) as [p st] eqn:E.
    eexists _, _. by apply (up_step_intercept _ _ _ _ _ _ _ _ _ _ _ 0 E).
  - destruct (Register (tracker c) 0 p) as [ok t] eqn:E. eexists _, _. by econstructor.
  - destruct (writes_enabled broker bc (brokerW c) out Hw) as (err & w & H1).
    eexists _, _. by econstructor.
Qed.

Lemma down_progress cfg client broker cc bc pc c :
  bc = true \/ hangs broker = false -> cc = true \/ stalls client = false ->
  (exists e, pc = DReturn e \/ pc = DExit e) \/
  exists pc' c', down_step cfg client broker cc bc (pc, c) (pc', c').
Proof.
  intros Hr Hw. destruct pc as [| |id body|p rw payload|out|e|e]; [right..|left; eauto|left; eauto].
  - eexists _, _. apply (down_step_deadline _ _ _ _ _ _ None).
  - destruct (reads_enabled cfg broker bc (downBuf c) (brokerR c) Hr) as (r & b & s & H1).
    eexists _, _. by econstructor.
  - destruct (Take (tracker c) id) as [p t] eqn:E. eexists _, _. by econstructor.
  - destruct (Rewrite rw (icept c) [] payload p) as [r st] eqn:E. eexists _, _. by econstructor.
  - destruct (writes_enabled client cc (clientW c) out Hw) as (err & w & H1).
    eexists _, _. by econstructor.
Qed.

Definition responsive (p : Peer) : Prop := hangs p = false /\ stalls p = false.

(** A state from which no goroutine can move: both pumps are gone if the sockets
    are closed or the peers respond. *)
Lemma stuck_pumps_gone cfg client broker s :
  nf (go_step cfg client broker) s ->
  (client_closed s = true /\ broker_closed s = true) \/ (responsive client /\ responsive broker) ->
  exists e1 e2, up s = UExit e1 /\ down s = DExit e2.
Proof.
  intros Hnf Hd.
  assert (exists e, up s = UExit e) as [e1 ?].
  { destruct (up_progress cfg client broker (client_closed s) (broker_closed s) (up s) (rconn s))
      as [[e [E|E]]|(pc & c & Hu)]; [firstorder..| | |]; [|eauto|].
    - destruct Hnf. eexists. by eapply go_up_send.
    - destruct Hnf. eexists. by eapply go_up. }
  assert (exists e, down s = DExit e) as [e2 ?].
  { destruct (down_progress cfg client broker (client_closed s) (broker_closed s) (down s) (rconn s))
      as [[e [E|E]]|(pc & c & Hu)]; [firstorder..| | |]; [|eauto|].
    - destruct Hnf. eexists. by eapply go_down_send.
    - destruct Hnf. eexists. by eapply go_down. }
  eauto.
Qed.

(** Once both sockets are closed, or both pumps are gone, the rest follows. *)
Lemma stuck_returned cfg client broker s :
  run_inv s -> nf (go_step cfg client broker) s ->
  ctxDone s = true \/ (responsive client /\ responsive broker) ->
  once s = OnceDone /\ watcher s = WExit /\ exists first r, mainpc s = MReturned first r.
Proof.
  intros Hi Hnf Hd. pose proof (inv_count s Hi) as Hc. pose proof (inv_main s Hi) as Hm.
  pose proof (inv_watcher s Hi) as Hw.
  assert (once s = Fresh \/ once s = OnceDone) as Ho.
  { destruct (once s) eqn:E; [by left| | |by right]; destruct Hnf; eexists;
      [by apply go_close_client|by apply go_close_broker]. }
  assert (once s = OnceDone) as Hdone.
  { destruct Ho as [Ho|]; [|done]. exfalso.
    assert (mainpc s = MFirst) as Hmain.
    { destruct (mainpc s) eqn:E; [done| |congruence..]. destruct Hnf. eexists. by eapply go_main_enter. }
    destruct Hd as [Hd|Hd].
    - destruct (watcher s) eqn:E.
      + destruct Hnf. eexists. by apply go_watcher_cancelled.
      + destruct Hnf. eexists. by apply go_watcher_enter.
      + congruence.
    - destruct (stuck_pumps_gone cfg client broker s Hnf) as (e1 & e2 & E1 & E2); [by right|].
      rewrite Hmain, E1, E2 in Hc. destruct (errCh s) eqn:Ec; simpl in Hc; [lia|].
      destruct Hnf. eexists. by eapply go_first. }
  destruct (stuck_pumps_gone cfg client broker s Hnf) as (e1 & e2 & E1 & E2).
  { left. unfold client_closed, broker_closed. by rewrite Hdone. }
  rewrite E1, E2 in Hc. simpl in Hc.
  assert (exists first r, mainpc s = MReturned first r) as (first & r & Hret).
  { destruct (mainpc s) eqn:E; [| | |eauto]; exfalso; apply Hnf; simpl in Hc.
    - destruct (errCh s) eqn:Ec; simpl in Hc; [lia|]. eexists. by eapply go_first.
    - eexists. by eapply go_main_leave.
    - destruct (errCh s) eqn:Ec; simpl in Hc; [lia|]. eexists. by eapply go_second. }
  split_and!; [done| |eauto]. destruct (watcher s) eqn:E; [| |done]; destruct Hnf; eexists.
  - by eapply go_watcher_done.
  - by eapply go_watcher_leave.
Qed.

End termination.

(** ** Properties *)

(** C13: [Run] terminates.  Whatever the peers send and however the goroutines
    are scheduled, every run of the connection is finite; and no run gets
    stuck: when no goroutine can move any more and the context was cancelled
    (or both peers respond, by data or by closing), [Run] has returned, both
    pumps and the watcher are gone and both sockets are closed.  This
    includes peers that stay silent for ever. *)
Theorem run_terminates {IS R} `{Interceptor IS R} cfg client broker (c : Conn IS R) :
  sn (sys_step cfg client broker) (start c) /\
  (forall s, rtc (sys_step cfg client broker) (start c) s -> nf (go_step cfg client broker) s ->
     ctxDone s = true \/ (responsive client /\ responsive broker) ->
     watcher s = WExit /\ client_closed s = true /\ broker_closed s = true /\
     (exists first r, mainpc s = MReturned first r) /\
     (exists e1 e2, up s = UExit e1 /\ down s = DExit e2)).
Proof.
  split; [apply sys_step_sn|]. intros s Hr Hnf Hd.
  destruct (stuck_returned cfg client broker s) as (Ho & Hw & Hm); [by eapply reachable_inv|done..|].
  assert (client_closed s = true /\ broker_closed s = true) as Hcl
    by (unfold client_closed, broker_closed; by rewrite Ho).
  destruct Hcl as [Hc Hb]. split_and!; [done..|]. eapply stuck_pumps_gone; [done|by left].
Qed.

(** *** The order in which the pumps end *)

Section order.
Context {IS R : Type} `{Interceptor IS R}.
Implicit Types s : RunState IS R.

(** The error a step sends on [errCh]. *)
Definition pump_sent s s' : option conn_err :=
  match up s, up s' with
  | UReturn e, UExit _ => Some e
  | _, _ => match down s, down s' with DReturn e, DExit _ => Some e | _, _ => None end
  end.

(** A run, with the errors of the pumps in the order in which they ended. *)
Inductive ending_run (cfg : Config) (client broker : Peer) (s0 : RunState IS R) : list conn_err -> RunState IS R -> Prop :=
| ending_start : ending_run cfg client broker s0 [] s0
| ending_step l s s' :
    ending_run cfg client broker s0 l s -> sys_step cfg client broker s s' ->
    ending_run cfg client broker s0 (l ++ option_list (pump_sent s s')) s'.

Lemma rtc_ending cfg client broker s0 s :
  rtc (sys_step cfg client broker) s0 s <-> exists l, ending_run cfg client broker s0 l s.
Proof.
  split.
  - apply (rtc_ind_r (fun s => exists l, ending_run cfg client broker s0 l s)); [exists []; constructor|].
    intros s1 s2 _ Hs [l Hl]. eexists. by eapply ending_step.
  - intros [l Hl]. induction Hl as [|l s1 s2 _ IH Hs]; [done|]. by eapply rtc_r.
Qed.

(** What has been received, then what waits in the channel, is what was sent. *)
Definition ending_inv (l : list conn_err) s : Prop :=
  l ≡ₚ exits s /\
  match mainpc s with
  | MFirst => l = errCh s
  | MDo e | MSecond e => l = e :: errCh s
  | MReturned e _ => exists e', l = e :: e' :: errCh s
  end.

Lemma exits_up s s' e : up s = UReturn e -> up s' = UExit e -> down s' = down s -> exits s' ≡ₚ exits s ++ [e].
Proof.
  unfold exits. intros -> -> ->. cbn [app]. by rewrite Permutation_app_comm.
Qed.

Lemma exits_down s s' e : down s = DReturn e -> down s' = DExit e -> up s' = up s -> exits s' ≡ₚ exits s ++ [e].
Proof. unfold exits. intros -> -> ->. by rewrite app_nil_r. Qed.

(** The sending of an error extends the channel and leaves [Run] where it was. *)
Lemma ending_sent l s s' e :
  errCh s' = errCh s ++ [e] -> mainpc s' = mainpc s -> exits s' ≡ₚ exits s ++ [e] ->
  ending_inv l s -> ending_inv (l ++ [e]) s'.
Proof.
  intros Hc Hm He [Hp Hl]. split; [by rewrite Hp, He|]. rewrite Hm, Hc. destruct (mainpc s); subst; try done.
  destruct Hl as [e' ->]. by exists e'.
Qed.

(** A pump that is under way sends nothing. *)
Lemma live_up_sends_nothing s s' :
  (forall e, up s <> UExit e) -> (forall e, up s' <> UExit e) -> down s' = down s ->
  pump_sent s s' = None /\ exits s' = exits s.
Proof.
  intros H1 H2 Hd. unfold pump_sent, exits. rewrite Hd. split.
  - destruct (up s) eqn:E1; destruct (up s') eqn:E2; try (by destruct (down s)). exfalso; naive_solver.
  - f_equal. destruct (up s) eqn:E1; destruct (up s') eqn:E2; try done; exfalso; naive_solver.
Qed.

Lemma live_down_sends_nothing s s' :
  (forall e, down s <> DExit e) -> (forall e, down s' <> DExit e) -> up s' = up s ->
  pump_sent s s' = None /\ exits s' = exits s.
Proof.
  intros H1 H2 Hu. unfold pump_sent, exits. rewrite Hu.
  assert (match down s, down s' with DReturn e, DExit _ => Some e | _, _ => None end = None) as Hd.
  { destruct (down s) eqn:E1; destruct (down s') eqn:E2; try done. exfalso; naive_solver. }
  split; [rewrite Hd; by destruct (up s)|]. f_equal.
  destruct (down s) eqn:E1; destruct (down s') eqn:E2; try done; exfalso; naive_solver.
Qed.

Lemma idle_sends_nothing s s' : up s' = up s -> down s' = down s -> pump_sent s s' = None /\ exits s' = exits s.
Proof. unfold pump_sent, exits. intros -> ->. split; [|done]. destruct (up s); destruct (down s); done. Qed.

Lemma ending_quiet l s s' :
  pump_sent s s' = None /\ exits s' = exits s -> mainpc s' = mainpc s -> errCh s' = errCh s ->
  ending_inv l s -> ending_inv (l ++ option_list (pump_sent s s')) s'.
Proof. intros [-> He] Hm Hc [Hp Hl]. unfold ending_inv. rewrite app_nil_r, He, Hm, Hc. by split. Qed.

Lemma ending_step_inv cfg client broker l r r' :
  sys_step cfg client broker r r' -> ending_inv l r -> ending_inv (l ++ option_list (pump_sent r r')) r'.
Proof.
  intros [s1 s2 Hg|s1 _] Hi; [|by apply ending_quiet; [apply idle_sends_nothing|..]].
  destruct Hg as [s pc c Hu|s e Hu|s pc c Hd|s e Hd|s|s|s|s|s|s|s e rest Hm Hc|s e Hm|s e Hm|s first e rest Hm Hc];
    try (by apply ending_quiet; [apply idle_sends_nothing|..]).
  - apply up_step_live in Hu as [? ?]. by apply ending_quiet; [apply live_up_sends_nothing|..].
  - replace (pump_sent _ _) with (Some e) by (unfold pump_sent; cbn [up]; by rewrite Hu).
    eapply ending_sent; [done..|by eapply exits_up|done].
  - apply down_step_live in Hd as [? ?]. by apply ending_quiet; [apply live_down_sends_nothing|..].
  - replace (pump_sent _ _) with (Some e) by (unfold pump_sent; cbn [up down]; rewrite Hd; by destruct (up s)).
    eapply ending_sent; [done..|by eapply exits_down|done].
  - destruct (idle_sends_nothing s (mkRun (rconn s) (up s) (down s) rest (once s) (rcloseErr s) (watcher s) (MDo e) (ctxDone s)))
      as [-> _]; [done..|]. destruct Hi as [Hp Hl]. rewrite Hm, Hc in Hl. by rewrite app_nil_r.
  - destruct (idle_sends_nothing s (mkRun (rconn s) (up s) (down s) (errCh s) OnceDone (rcloseErr s) (watcher s) (MSecond e) (ctxDone s)))
      as [-> _]; [done..|]. destruct Hi as [Hp Hl]. rewrite Hm in Hl. by rewrite app_nil_r.
  - destruct (idle_sends_nothing s (mkRun (rconn s) (up s) (down s) rest (once s) (rcloseErr s) (watcher s)
      (MReturned first (rcloseErr s)) (ctxDone s))) as [-> _]; [done..|].
    destruct Hi as [Hp Hl]. rewrite Hm, Hc in Hl. rewrite app_nil_r. split; [done|]. by exists e.
Qed.

Lemma ending_reachable cfg client broker c l s : ending_run cfg client broker (start c) l s -> ending_inv l s.
Proof.
  intros Hl. remember (start c) as s0 eqn:E. induction Hl as [|l s1 s2 _ IH Hs].
  - by rewrite E.
  - by eapply ending_step_inv, IH.
Qed.

(** When [Run] has returned both pumps have ended, in the order of the list. *)
Lemma ended_in_order l s first r :
  ending_inv l s -> mainpc s = MReturned first r ->
  exists second, l = [first; second] /\
    ((up s = UExit first /\ down s = DExit second) \/ (down s = DExit first /\ up s = UExit second)).
Proof.
  intros [Hp Hl] Hm. rewrite Hm in Hl. destruct Hl as [e' ->]. exists e'. unfold exits in Hp.
  pose proof (Permutation_length Hp) as Hlen. rewrite length_app in Hlen. cbn [length] in Hlen.
  destruct (up s) as [| | | | | |e1]; destruct (down s) as [| | | | | |e2]; cbn [length app] in *; try lia.
  destruct (errCh s); [|simpl in Hlen; lia]. split; [done|].
  apply Permutation_length_2 in Hp as [[-> ->]|[-> ->]]; [by left|by right].
Qed.

End order.

(** C14: what [Run] returns.  When it has returned, both pumps have ended, one
    with [first] and after it the other with [second]; without a cancellation
    the result is [first], or nil if [first] is the noise of a shutdown (an end
    of file or a closed socket), whatever [second] was; with one it may also be
    nil. *)
Theorem run_result {IS R} `{Interceptor IS R} cfg client broker (c : Conn IS R) ended s first r :
  ending_run cfg client broker (start c) ended s -> mainpc s = MReturned first r ->
  (exists second, ended = [first; second] /\
     ((up s = UExit first /\ down s = DExit second) \/ (down s = DExit first /\ up s = UExit second))) /\
  (ctxDone s = false -> r = closeErr (Some first)) /\
  (r = None -> ctxDone s = true \/ isExpectedShutdownErr first = true) /\
  (forall e, r = Some e -> e = first /\ isExpectedShutdownErr e = false).
Proof.
  intros Hrun Hm. split; [by eapply ended_in_order; [eapply ending_reachable|]|].
  assert (run_inv s) as Hr by (eapply reachable_inv, rtc_ending; by exists ended).
  pose proof (inv_result s Hr first r Hm) as ->. pose proof (inv_main s Hr) as Ho. rewrite Hm in Ho.
  destruct (inv_closer s Hr) as [[-> ->]|(e & He & ->)]; [by rewrite Ho|naive_solver|].
  rewrite Hm in He. simpl in He. injection He as <-. simpl.
  destruct (isExpectedShutdownErr first) eqn:E; naive_solver.
Qed.

(** A connection whose client hangs up at once: the downstream pump is brought
    down by the closing of the broker's socket. *)
Definition hangup_end : RunState unit Empty_set :=
  mkRun (quiet_conn [] []) (UExit (Framing (IoErr EOF))) (DExit (Framing (IoErr NetClosed))) []
    OnceDone None WExit (MReturned (Framing (IoErr EOF)) None) true.

Definition silent : Peer := mkPeer true true.

Ltac step_tidy :=
  cbn [start cancel rconn up down errCh once rcloseErr watcher mainpc ctxDone app up_deadline
       down_deadline set_deadline up_decode down_decode].

Lemma hangup_run :
  rtc (sys_step default_config (mkPeer false false) silent) (start (quiet_conn [] [])) hangup_end.
Proof.
  apply (rtc_l _ _ (cancel (start (quiet_conn [] [])))); [by apply sys_cancel|]. step_tidy.
  eapply rtc_l; [apply sys_go, go_up, (up_step_deadline _ _ _ _ _ _ None)|]. step_tidy.
  eapply rtc_l; [apply sys_go, go_up, up_step_read, reads_open; [done|vm_compute; reflexivity|done]|]. step_tidy.
  eapply rtc_l; [by apply sys_go, go_up_send|]. step_tidy.
  eapply rtc_l; [by apply sys_go; eapply go_first|]. step_tidy.
  eapply rtc_l; [by apply sys_go; eapply go_main_enter|]. step_tidy.
  eapply rtc_l; [by apply sys_go, go_close_client|]. step_tidy.
  eapply rtc_l; [by apply sys_go, go_close_broker|]. step_tidy.
  eapply rtc_l; [by apply sys_go; eapply go_main_leave|]. step_tidy.
  eapply rtc_l; [apply sys_go, go_down, (down_step_deadline _ _ _ _ _ _ None)|]. step_tidy.
  eapply rtc_l; [by apply sys_go, go_down, down_step_read, reads_closed|]. step_tidy.
  eapply rtc_l; [by apply sys_go, go_down_send|]. step_tidy.
  eapply rtc_l; [by apply sys_go; eapply go_second|]. step_tidy.
  eapply rtc_l; [by apply sys_go; eapply go_watcher_done|]. step_tidy.
  apply rtc_refl.
Qed.

Lemma hangup_end_nf : nf (go_step default_config (mkPeer false false) silent) hangup_end.
Proof.
  intros [s Hs]. inversion Hs; try discriminate; subst;
    match goal with
    | Hu : up_step _ _ _ _ _ _ _ |- _ => inversion Hu
    | Hd : down_step _ _ _ _ _ _ _ |- _ => inversion Hd
    end.
Qed.

Lemma run_terminates_witness :
  sn (sys_step default_config (mkPeer false false) silent) (start (quiet_conn [] [])) /\
  (watcher hangup_end = WExit /\ client_closed hangup_end = true /\ broker_closed hangup_end = true /\
   (exists first r, mainpc hangup_end = MReturned first r) /\
   (exists e1 e2, up hangup_end = UExit e1 /\ down hangup_end = DExit e2)).
Proof.
  split; [apply run_terminates|].
  apply (run_terminates default_config (mkPeer false false) silent (quiet_conn [] []));
    [apply hangup_run|apply hangup_end_nf|by left].
Defined.

Lemma run_result_witness :
  exists ended,
  (exists second, ended = [Framing (IoErr EOF); second] /\
     ((up hangup_end = UExit (Framing (IoErr EOF)) /\ down hangup_end = DExit second) \/
      (down hangup_end = DExit (Framing (IoErr EOF)) /\ up hangup_end = UExit second))) /\
  (ctxDone hangup_end = false -> None = closeErr (Some (Framing (IoErr EOF)))) /\
  (@None conn_err = None -> ctxDone hangup_end = true \/ isExpectedShutdownErr (Framing (IoErr EOF)) = true) /\
  (forall e, None = Some e -> e = Framing (IoErr EOF) /\ isExpectedShutdownErr e = false).
Proof.
  destruct (proj1 (rtc_ending _ _ _ _ _) hangup_run) as [ended Hrun]. exists ended.
  apply (run_result default_config (mkPeer false false) silent (quiet_conn [] []) ended hangup_end); [exact Hrun|done].
Defined.

(** A client that hangs up, and a broker whose next frame has a negative length. *)
Definition garbled : list byte := [Byte.xff; Byte.xff; Byte.xff; Byte.xff].

(** [Run] does not return the first error that is not an end of file: when the
    client's end of file comes first, the broker's malformed frame is seen by
    the other pump and lost. *)
Theorem later_error_is_lost :
  exists s, rtc (sys_step default_config (mkPeer false false) (mkPeer false false)) (start (quiet_conn [] garbled)) s /\
    mainpc s = MReturned (Framing (IoErr EOF)) None /\ down s = DExit (Framing ErrNegativeFrame) /\ ctxDone s = false.
Proof.
  eexists. split.
  - eapply rtc_l; [apply sys_go, go_up, (up_step_deadline _ _ _ _ _ _ None)|]. step_tidy.
    eapply rtc_l; [apply sys_go, go_up, up_step_read, reads_open; [done|vm_compute; reflexivity|done]|]. step_tidy.
    eapply rtc_l; [by apply sys_go, go_up_send|]. step_tidy.
    eapply rtc_l; [apply sys_go, go_down, (down_step_deadline _ _ _ _ _ _ None)|]. step_tidy.
    eapply rtc_l; [apply sys_go, go_down, down_step_read, reads_open; [done|vm_compute; reflexivity|done]|]. step_tidy.
    eapply rtc_l; [by apply sys_go, go_down_send|]. step_tidy.
    eapply rtc_l; [by apply sys_go; eapply go_first|]. step_tidy.
    eapply rtc_l; [by apply sys_go; eapply go_main_enter|]. step_tidy.
    eapply rtc_l; [by apply sys_go, go_close_client|]. step_tidy.
    eapply rtc_l; [by apply sys_go, go_close_broker|]. step_tidy.
    eapply rtc_l; [by apply sys_go; eapply go_main_leave|]. step_tidy.
    eapply rtc_l; [by apply sys_go; eapply go_second|]. step_tidy.
    apply rtc_refl.
  - by split_and!.
Qed.

(** ** Iterations as runs of a pump *)

Section iterations.
Context {IS R : Type} `{Interceptor IS R}.
Implicit Types c : Conn IS R.

Lemma reads_responsive cfg peer b s r b' s' :
  responsive peer -> ReadFrame (frame_cap cfg) b s = (r, b', s') -> reads cfg peer false b s r b' s'.
Proof. intros [Hh _] Hr. apply reads_open; [done|done|congruence]. Qed.

Lemma writes_responsive peer w body err w' :
  responsive peer -> WriteFrame w body = (err, w') -> writes peer false w body err w'.
Proof. intros [_ Hs] Hw. apply writes_open; [done|done|congruence]. Qed.

Definition after_up (err : option conn_err) : up_pc R :=
  match err with None => UTop | Some e => UReturn e end.
Definition after_down (err : option conn_err) : down_pc R :=
  match err with None => DTop | Some e => DReturn e end.

Lemma forward_up_run cfg client broker c out err c' :
  responsive broker -> forward_up c out = (err, c') ->
  rtc (up_step cfg client broker false false) (UWrite out, c) (after_up err, c').
Proof.
  intros Hb. unfold forward_up. destruct (WriteFrame (brokerW c) out) as [e w] eqn:E.
  pose proof (up_step_write cfg client broker false false c out e w (writes_responsive _ _ _ _ _ Hb E)) as Hs.
  destruct e as [e|]; intros [= <- <-]; by apply rtc_once.
Qed.

Lemma intercept_up_run cfg client broker env c h body p err c' :
  responsive broker -> intercept_up env c h body p = (err, c') ->
  rtc (up_step cfg client broker false false) (up_intercept (now env) (Some p) h body, c)
    (after_up err, c').
Proof.
  intros Hb. unfold intercept_up, up_intercept. cbn [P_RewriteRequest P_Rewrite].
  set (q := mkPending _ _ _ _ _ _).
  destruct (match P_RewriteRequest p with Some _ => _ | None => _ end) as [out|] eqn:Eo.
  2:{ intros [= <- <-]. destruct (P_RewriteRequest p); [|done]. by destruct (go_slice _ _ _). }
  assert (match P_RewriteRequest p with
          | Some new => match go_slice body 0 (RH_HeaderSize h) with
                        | Some hdr => URegister q (hdr ++ new) | None => UReturn Crash end
          | None => URegister q body end = URegister q out) as ->.
  { destruct (P_RewriteRequest p); [|congruence]. destruct (go_slice _ _ _); congruence. }
  destruct (Register (tracker c) (now env) q) as [ok t] eqn:Er.
  pose proof (up_step_register cfg client broker false false c q out ok t (now env) Er) as Hs.
  intros Hf. eapply rtc_l; [exact Hs|]. unfold up_register.
  destruct ok; [by apply forward_up_run|]. cbn [P_Rewrite q] in *.
  destruct (P_Rewrite p) as [rw|]; [|by apply forward_up_run].
  injection Hf as <- <-. apply rtc_refl.
Qed.

Lemma upstream_iter_run cfg client broker env c err c' :
  responsive client -> responsive broker -> upstream_iter cfg env c = (err, c') ->
  rtc (up_step cfg client broker false false) (UTop, c) (after_up err, c').
Proof.
  intros Hc Hb. unfold upstream_iter. intros Hit.
  eapply rtc_l; [apply (up_step_deadline _ _ _ _ _ c (deadline env))|].
  change (set_deadline cfg false (deadline env)) with (deadline_err cfg env).
  destruct (deadline_err cfg env) as [e|]; simpl up_deadline.
  { injection Hit as <- <-. apply rtc_refl. }
  destruct (ReadFrame _ _ _) as [[r b] s] eqn:Er.
  eapply rtc_l; [apply up_step_read; by eapply reads_responsive|].
  destruct r as [e|body]; [injection Hit as <- <-; apply rtc_refl|]. cbn [up_decode].
  destruct (DecodeRequestHeader body) as [h|e|]; [|injection Hit as <- <-; apply rtc_refl..].
  destruct (go_slice body _ _) as [payload|]; [|injection Hit as <- <-; apply rtc_refl].
  destruct (OnRequest _ h payload) as [p st] eqn:Eo.
  eapply rtc_l; [by apply (up_step_intercept _ _ _ _ _ _ _ _ _ _ _ (now env) Eo)|].
  destruct p as [p|]; [by apply intercept_up_run|by apply forward_up_run].
Qed.

Lemma forward_down_run cfg client broker c out err c' :
  responsive client -> forward_down c out = (err, c') ->
  rtc (down_step cfg client broker false false) (DWrite out, c) (after_down err, c').
Proof.
  intros Hb. unfold forward_down. destruct (WriteFrame (clientW c) out) as [e w] eqn:E.
  pose proof (down_step_write cfg client broker false false c out e w (writes_responsive _ _ _ _ _ Hb E)) as Hs.
  destruct e as [e|]; intros [= <- <-]; by apply rtc_once.
Qed.

Lemma rewrite_down_run cfg client broker c body p rw err c' :
  responsive client -> P_Rewrite p = Some rw -> rewrite_down c body p rw = (err, c') ->
  rtc (down_step cfg client broker false false) (down_taken (Some p) body, c) (after_down err, c').
Proof.
  intros Hc Hrw. unfold rewrite_down, down_taken. rewrite Hrw.
  destruct (DecodeResponseHeader _ _ _) as [rh|e|]; [|intros [= <- <-]; apply rtc_refl..].
  destruct (go_slice body _ _) as [payload|]; [|intros [= <- <-]; apply rtc_refl].
  destruct (Rewrite rw (icept c) [] payload p) as [r st] eqn:Er. intros Hf.
  eapply rtc_l; [by apply down_step_rewrite, Er|].
  destruct r as [new|e|]; [by apply forward_down_run|injection Hf as <- <-; apply rtc_refl..].
Qed.

Lemma downstream_iter_run cfg client broker env c err c' :
  responsive client -> responsive broker -> downstream_iter cfg env c = (err, c') ->
  rtc (down_step cfg client broker false false) (DTop, c) (after_down err, c').
Proof.
  intros Hc Hb. unfold downstream_iter. intros Hit.
  eapply rtc_l; [apply (down_step_deadline _ _ _ _ _ c (deadline env))|].
  change (set_deadline cfg false (deadline env)) with (deadline_err cfg env).
  destruct (deadline_err cfg env) as [e|]; simpl down_deadline.
  { injection Hit as <- <-. apply rtc_refl. }
  destruct (ReadFrame _ _ _) as [[r b] s] eqn:Er.
  eapply rtc_l; [apply down_step_read; by eapply reads_responsive|].
  destruct r as [e|body]; [injection Hit as <- <-; apply rtc_refl|]. cbn [down_decode].
  destruct (PeekResponseCorrelID body) as [id|e|]; [|injection Hit as <- <-; apply rtc_refl..].
  destruct (Take _ id) as [p t] eqn:Et.
  eapply rtc_l; [by apply down_step_take, Et|].
  destruct p as [p|]; [|by apply forward_down_run].
  destruct (P_Rewrite p) as [rw|] eqn:Ew; [by eapply rewrite_down_run|].
  unfold down_taken. rewrite Ew. by apply forward_down_run.
Qed.

End iterations.

(** The abstraction of Conn.v is sound: each iteration of a pump there, with
    its result and its effect on the connection, is a run of the same pump
    here that nothing interrupts. *)
Theorem iterations_refined {IS R} `{Interceptor IS R} cfg client broker env (c : Conn IS R) :
  responsive client -> responsive broker ->
  (let '(err, c') := upstream_iter cfg env c in
   rtc (up_step cfg client broker false false) (UTop, c) (after_up err, c')) /\
  (let '(err, c') := downstream_iter cfg env c in
   rtc (down_step cfg client broker false false) (DTop, c) (after_down err, c')).
Proof.
  intros Hc Hb. split.
  - destruct (upstream_iter cfg env c) as [err c'] eqn:E. by eapply upstream_iter_run.
  - destruct (downstream_iter cfg env c) as [err c'] eqn:E. by eapply downstream_iter_run.
Qed.

(** ** Transparency *)

(** What a write leaves on the wire. *)
Lemma writes_prefix peer closed w body err w' :
  writes peer closed w body err w' ->
  written w' `prefix_of` written w ++ frame_bytes body /\
  (err = None -> written w' = written w ++ frame_bytes body).
Proof.
  intros [e w1 Hw _ _|k _ _ _].
  - split; [by eapply write_frame_prefix|]. intros ->. by apply write_frame_inv.
  - split; [apply prefix_app, prefix_take|done].
Qed.

Lemma reads_frame cfg peer closed b s body b' s' :
  reads cfg peer closed b s (inr body) b' s' -> data s = frame_bytes body ++ data s'.
Proof. intros Hr. inversion Hr; subst. by eapply read_frame_inv. Qed.

(** The frame a pump without interceptor holds, and the account of the bytes:
    written, held, still to come. *)
Definition up_flow (T : list byte) (pc : up_pc Empty_set) (c : Conn unit Empty_set) : Prop :=
  match pc with
  | UTop | URead => written (brokerW c) ++ data (clientR c) = T
  | UIntercept _ body _ | UWrite body =>
      written (brokerW c) ++ frame_bytes body ++ data (clientR c) = T
  | URegister _ _ => False
  | UReturn _ | UExit _ => written (brokerW c) `prefix_of` T
  end.

Definition down_flow (T : list byte) (pc : down_pc Empty_set) (c : Conn unit Empty_set) : Prop :=
  match pc with
  | DTop | DRead => written (clientW c) ++ data (brokerR c) = T
  | DTake _ body | DWrite body => written (clientW c) ++ frame_bytes body ++ data (brokerR c) = T
  | DRewrite _ _ _ => False
  | DReturn _ | DExit _ => written (clientW c) `prefix_of` T
  end.

Lemma up_step_flow cfg client broker cc bc T pc (c : Conn unit Empty_set) pc' c' :
  up_step cfg client broker cc bc (pc, c) (pc', c') -> up_flow T pc c ->
  up_flow T pc' c' /\ clientW c' = clientW c /\ brokerR c' = brokerR c.
Proof.
  intros Hs; inversion Hs; subst; cbn [up_flow]; intros HT.
  - split; [|done]. unfold up_deadline. case_match; simpl; [|done]. rewrite <- HT. by apply prefix_app_r.
  - split; [|done]. destruct r as [e|body].
    { simpl. rewrite <- HT. by apply prefix_app_r. }
    match goal with Hr : reads _ _ _ _ _ _ _ _ |- _ => apply reads_frame in Hr as Hd end.
    rewrite Hd in HT. unfold up_decode.
    repeat case_match; simpl; try done; rewrite <- HT; by apply prefix_app_r.
  - match goal with Ho : OnRequest _ _ _ = _ |- _ => injection Ho as <- <- end. done.
  - done.
  - match goal with Hw : writes _ _ _ _ _ _ |- _ => apply writes_prefix in Hw as [Hp Hq] end.
    split; [|done]. destruct err as [e|]; simpl.
    + rewrite <- HT. etrans; [exact Hp|]. apply prefix_app. by apply prefix_app_r.
    + by rewrite (Hq eq_refl), <- app_assoc.
Qed.

Lemma down_step_flow cfg client broker cc bc T pc (c : Conn unit Empty_set) pc' c' :
  down_step cfg client broker cc bc (pc, c) (pc', c') -> down_flow T pc c ->
  down_flow T pc' c' /\ brokerW c' = brokerW c /\ clientR c' = clientR c.
Proof.
  intros Hs; inversion Hs; subst; cbn [down_flow]; intros HT.
  - split; [|done]. unfold down_deadline. case_match; simpl; [|done]. rewrite <- HT. by apply prefix_app_r.
  - split; [|done]. destruct r as [e|body].
    { simpl. rewrite <- HT. by apply prefix_app_r. }
    match goal with Hr : reads _ _ _ _ _ _ _ _ |- _ => apply reads_frame in Hr as Hd end.
    rewrite Hd in HT. unfold down_decode.
    repeat case_match; simpl; try done; rewrite <- HT; by apply prefix_app_r.
  - split; [|done]. unfold down_taken. destruct p as [p|]; [|done]. destruct (P_Rewrite p) as [[]|]. done.
  - done.
  - match goal with Hw : writes _ _ _ _ _ _ |- _ => apply writes_prefix in Hw as [Hp Hq] end.
    split; [|done]. destruct err as [e|]; simpl.
    + rewrite <- HT. etrans; [exact Hp|]. apply prefix_app. by apply prefix_app_r.
    + by rewrite (Hq eq_refl), <- app_assoc.
Qed.

Lemma up_flow_frame T pc (c c' : Conn unit Empty_set) :
  brokerW c' = brokerW c -> clientR c' = clientR c -> up_flow T pc c -> up_flow T pc c'.
Proof. intros E1 E2. unfold up_flow. by rewrite E1, E2. Qed.

Lemma down_flow_frame T pc (c c' : Conn unit Empty_set) :
  clientW c' = clientW c -> brokerR c' = brokerR c -> down_flow T pc c -> down_flow T pc c'.
Proof. intros E1 E2. unfold down_flow. by rewrite E1, E2. Qed.

Lemma sys_step_flow cfg client broker TU TD s s' :
  sys_step cfg client broker s s' ->
  up_flow TU (up s) (rconn s) /\ down_flow TD (down s) (rconn s) ->
  up_flow TU (up s') (rconn s') /\ down_flow TD (down s') (rconn s').
Proof.
  intros [s1 s2 Hg|s1 _] [HU HD]; [|done].
  destruct Hg as [s1 pc c Hu|s1 e Hu|s1 pc c Hd|s1 e Hd|s1|s1|s1|s1|s1|s1|s1|s1|s1|s1];
    simpl; try done.
  - destruct (up_step_flow _ _ _ _ _ TU _ _ _ _ Hu HU) as (H1 & H2 & H3). split; [done|].
    by eapply down_flow_frame.
  - split; [|done]. by rewrite Hu in HU.
  - destruct (down_step_flow _ _ _ _ _ TD _ _ _ _ Hd HD) as (H1 & H2 & H3). split; [|done].
    by eapply up_flow_frame.
  - split; [done|]. by rewrite Hd in HD.
Qed.

Lemma up_flow_prefix T pc c : up_flow T pc c -> written (brokerW c) `prefix_of` T.
Proof. destruct pc; simpl; try done; intros <-; by apply prefix_app_r. Qed.

Lemma down_flow_prefix T pc c : down_flow T pc c -> written (clientW c) `prefix_of` T.
Proof. destruct pc; simpl; try done; intros <-; by apply prefix_app_r. Qed.

(** C9: without interception the proxy is transparent: at every moment of
    every interleaving of the goroutines of [Run], the closing of the sockets
    and the cancellation of the context included, what the broker has received
    is a prefix of what the client sent and vice versa, byte for byte; and a
    pump that is between two frames has forwarded exactly what it has read. *)
Theorem noop_run_transparent cfg client broker (c0 : Conn unit Empty_set) s :
  rtc (sys_step cfg client broker) (start c0) s ->
  written (brokerW (rconn s)) `prefix_of` written (brokerW c0) ++ data (clientR c0) /\
  written (clientW (rconn s)) `prefix_of` written (clientW c0) ++ data (brokerR c0) /\
  (up s = UTop -> written (brokerW (rconn s)) ++ data (clientR (rconn s)) =
                  written (brokerW c0) ++ data (clientR c0)) /\
  (down s = DTop -> written (clientW (rconn s)) ++ data (brokerR (rconn s)) =
                    written (clientW c0) ++ data (brokerR c0)).
Proof.
  intros Hr.
  assert (up_flow (written (brokerW c0) ++ data (clientR c0)) (up s) (rconn s) /\
          down_flow (written (clientW c0) ++ data (brokerR c0)) (down s) (rconn s)) as [HU HD].
  { revert s Hr. apply (rtc_ind_r (fun s => up_flow _ (up s) (rconn s) /\ down_flow _ (down s) (rconn s)));
      [done|]. intros s1 s2 _ Hs IH. by eapply sys_step_flow. }
  split_and!; [by eapply up_flow_prefix|by eapply down_flow_prefix| |].
  - intros E. by rewrite E in HU.
  - intros E. by rewrite E in HD.
Qed.

Lemma noop_run_transparent_witness :
  [] `prefix_of` written (brokerW (quiet_conn [] [])) ++ data (clientR (quiet_conn [] [])) /\
  [] `prefix_of` written (clientW (quiet_conn [] [])) ++ data (brokerR (quiet_conn [] [])) /\
  (up hangup_end = UTop -> written (brokerW (rconn hangup_end)) ++ data (clientR (rconn hangup_end)) = []) /\
  (down hangup_end = DTop -> written (clientW (rconn hangup_end)) ++ data (brokerR (rconn hangup_end)) = []).
Proof.
  apply (noop_run_transparent default_config (mkPeer false false) silent (quiet_conn [] []) hangup_end).
  apply hangup_run.
Defined.
