(* ===== verification/ConnTracking.v ===== *)
(** * From the registration of a request to its response

    What the tracker guarantees at the grain of ConnRun.v, over every
    interleaving of the two pumps: an intercepted request is registered before
    its first byte is written, and from then on its entry stays in the table
    until the downstream pump takes it for the rewriter or it expires. *)

From stdpp Require Import base numbers list strings gmap relations.
From Stdlib Require Import ZArith Lia Strings.Byte.
From S2P Require Import Prelude Primitives Codec Header Frame Tracker Conn ConnTheorems ConnRun.

Section tracking.
Context {IS R : Type} `{Interceptor IS R}.
Implicit Types s : RunState IS R.

Definition table s : gmap Z (Pending R) := entries (tracker (rconn s)).

(** The step from [s] to [s'] takes [p] out of the table and gives the response
    to its rewriter, or ends the pump. *)
Definition takes (p : Pending R) (rw : R) s s' : Prop :=
  (exists body, down s = DTake (P_CorrelID p) body) /\
  ((exists payload, down s' = DRewrite p rw payload) \/ exists e, down s' = DReturn e).

(** The step registers another request at a time when [p] has expired. *)
Definition expires (p : Pending R) s s' : Prop :=
  exists q out now, up s = URegister q out /\ expired (tracker (rconn s)) now p = true /\
    tracker (rconn s') = snd (Register (tracker (rconn s)) now q).

(** A frame for the broker is written whole, in part, or not at all, by the step
    that performs the write and by no other. *)
Lemma broker_written cfg client broker s s' :
  sys_step cfg client broker s s' ->
  brokerW (rconn s') = brokerW (rconn s) \/
  exists out, up s = UWrite out /\
    written (brokerW (rconn s')) `prefix_of` written (brokerW (rconn s)) ++ frame_bytes out.
Proof.
  intros [s1 s2 Hg|s1 _]; [|by left]. destruct Hg as [s1 pc c Hu| | s1 pc c Hd | | | | | | | | | | |]; try by left.
  - destruct s1 as [c1 u1 d1 ? ? ? ? ? ?]. simpl in *. inversion Hu; subst; try by left.
    right. eexists. split; [done|]. by eapply writes_prefix.
  - destruct s1 as [c1 u1 d1 ? ? ? ? ? ?]. simpl in *. inversion Hd; subst; by left.
Qed.

(** What one step does to an entry of the table. *)
Lemma table_step cfg client broker s s' p rw :
  P_Rewrite p = Some rw -> table s !! P_CorrelID p = Some p ->
  sys_step cfg client broker s s' ->
  table s' !! P_CorrelID p = Some p \/ takes p rw s s' \/ expires p s s'.
Proof.
  intros Hrw Hp Hs. revert Hp. destruct Hs as [s1 s2 Hg|s1 _]; intros Hp; [|left; exact Hp]. revert Hp.
  destruct Hg as [s1 pc c Hu| | s1 pc c Hd | | | | | | | | | | |]; intros Hp; try (left; exact Hp).
  - unfold table, expires in *. destruct s1 as [c1 u1 d1 ? ? ? ? ? ?]. simpl in *.
    inversion Hu as [| | |? q out ok t now Hreg|]; subst; try (left; exact Hp). cbn [tracker].
    destruct (expired (tracker c1) now p) eqn:Ex.
    + right; right. exists q, out, now. split_and!; [done..|]. simpl. by rewrite Hreg.
    + left. pose proof (run_op_keeps (tracker c1) (OpRegister now q) p) as Hk.
      simpl in Hk. rewrite Hreg in Hk. apply Hk; [|done].
      unfold expired in Ex. destruct (Z.ltb_spec (maxAge (tracker c1)) (now - P_Sent p)); [done|lia].
  - unfold table, takes in *. destruct s1 as [c1 u1 d1 ? ? ? ? ? ?]. simpl in *.
    inversion Hd as [| |? id body q t Ht| |]; subst; try (left; exact Hp). cbn [tracker].
    destruct (decide (id = P_CorrelID p)) as [->|Hne].
    + right; left. split; [eauto|]. unfold Take in Ht. rewrite Hp in Ht. injection Ht as <- <-.
      unfold down_taken. rewrite Hrw. destruct (DecodeResponseHeader _ _ _); [|eauto..].
      destruct (go_slice _ _ _); eauto.
    + left. pose proof (run_op_keeps (tracker c1) (OpTake id) p) as Hk.
      simpl in Hk. rewrite Ht in Hk. by apply Hk.
Qed.

(** Some step on the way from [s0] to [s]. *)
Definition on_the_way cfg client broker (P : RunState IS R -> RunState IS R -> Prop) s0 s : Prop :=
  exists s1 s2, rtc (sys_step cfg client broker) s0 s1 /\ sys_step cfg client broker s1 s2 /\ P s1 s2 /\
    rtc (sys_step cfg client broker) s2 s.

Lemma on_the_way_step cfg client broker P s0 s s' :
  on_the_way cfg client broker P s0 s -> sys_step cfg client broker s s' ->
  on_the_way cfg client broker P s0 s'.
Proof.
  intros (s1 & s2 & H1 & H2 & H3 & H4) Hs. exists s1, s2. split_and!; try done. by eapply rtc_r.
Qed.

Lemma table_until cfg client broker s0 s p rw :
  P_Rewrite p = Some rw -> table s0 !! P_CorrelID p = Some p ->
  rtc (sys_step cfg client broker) s0 s ->
  table s !! P_CorrelID p = Some p \/ on_the_way cfg client broker (takes p rw) s0 s \/
  on_the_way cfg client broker (expires p) s0 s.
Proof.
  intros Hrw Hp Hr. revert s Hr.
  apply (rtc_ind_r (fun s => table s !! P_CorrelID p = Some p \/
    on_the_way cfg client broker (takes p rw) s0 s \/ on_the_way cfg client broker (expires p) s0 s));
    [by left|].
  intros s1 s2 Hr Hs [IH|[IH|IH]].
  - destruct (table_step _ _ _ _ _ _ _ Hrw IH Hs) as [|[|]]; [by left|right; left|right; right];
      exists s1, s2; split_and!; try done; apply rtc_refl.
  - right; left. by eapply on_the_way_step.
  - right; right. by eapply on_the_way_step.
Qed.

(** The step of the upstream pump at its registration. *)
Lemma register_step cfg client broker s s' p rw out :
  up s = URegister p out -> P_Rewrite p = Some rw ->
  sys_step cfg client broker s s' -> up s' <> up s ->
  (up s' = UReturn (TrackerFull (P_APIKey p)) \/
   (up s' = UWrite out /\ table s' !! P_CorrelID p = Some p)) /\
  brokerW (rconn s') = brokerW (rconn s).
Proof.
  intros Hu Hrw Hs Hne. split.
  2:{ destruct (broker_written _ _ _ _ _ Hs) as [|(out' & E & _)]; [done|congruence]. }
  revert Hu Hne. destruct Hs as [s1 s2 Hg|s1 _]; intros Hu Hne; [|by destruct Hne]. revert Hu Hne.
  destruct Hg as [s1 pc c Hup|s1 e Hup|s1 pc c Hd| | | | | | | | | | |]; intros Hu Hne; try by destruct Hne.
  - destruct s1 as [c1 u1 d1 ? ? ? ? ? ?]. simpl in *. subst u1.
    inversion Hup as [| | |? q o ok t now Hreg|]; subst. unfold table. cbn [rconn tracker].
    unfold up_register. rewrite Hrw. destruct ok; [|by left]. right. split; [done|].
    rewrite Register_spec in Hreg. cbv zeta in Hreg. destruct (_ <=? _); [done|].
    destruct (_ !! _); [done|]. injection Hreg as <-. simpl. apply lookup_insert_eq.
  - congruence.
Qed.

End tracking.

(** ** Properties *)

(** An intercepted request is tracked from before its first byte until its
    response.  When the upstream pump registers a request [p] whose response
    must be rewritten, nothing of it has been written; if the table has no
    room the pump ends there and then; else, at every later moment of every
    interleaving, the entry is still in the table, or on the way the downstream
    pump took it with the first response of its correlation id and handed that
    response to the rewriter (or ended the connection), or another request was
    registered after [p] had exceeded its maximal age. *)
Theorem tracked_until_answered {IS R} `{Interceptor IS R} cfg client broker
    (s s' : RunState IS R) p rw out :
  up s = URegister p out -> P_Rewrite p = Some rw ->
  sys_step cfg client broker s s' -> up s' <> up s ->
  brokerW (rconn s') = brokerW (rconn s) /\
  (up s' = UReturn (TrackerFull (P_APIKey p)) \/
   (up s' = UWrite out /\
    forall s'', rtc (sys_step cfg client broker) s' s'' ->
      table s'' !! P_CorrelID p = Some p \/
      on_the_way cfg client broker (takes p rw) s' s'' \/
      on_the_way cfg client broker (expires p) s' s'')).
Proof.
  intros Hu Hrw Hs Hne. destruct (register_step _ _ _ _ _ _ _ _ Hu Hrw Hs Hne) as [[Hf|[Hw Ht]] Hb].
  - split; [done|]. by left.
  - split; [done|]. right. split; [done|]. intros s'' Hr. by eapply table_until.
Qed.

Definition registering : RunState unit unit :=
  mkRun (stub_conn [] [] (NewTracker 0 0)) (URegister (mkPending APIMetadata 1 5 9 (Some tt) None) [])
    DTop [] Fresh None WSelect MFirst false.

Lemma tracked_until_answered_witness :
  let p := mkPending APIMetadata 1 5 9 (Some tt) None in
  let c := rconn registering in
  let s' := mkRun (mkConn (clientR c) (clientW c) (brokerR c) (brokerW c) (upBuf c) (downBuf c)
                     (snd (Register (tracker c) 9 p)) (frames c) (icept c))
              (UWrite []) DTop [] Fresh None WSelect MFirst false in
  brokerW (rconn s') = brokerW (rconn registering) /\
  (up s' = UReturn (TrackerFull (P_APIKey p)) \/
   (up s' = UWrite [] /\
    forall s'', rtc (@sys_step _ _ stub_interceptor default_config (mkPeer false false) (mkPeer false false)) s' s'' ->
      table s'' !! P_CorrelID p = Some p \/
      @on_the_way _ _ stub_interceptor default_config (mkPeer false false) (mkPeer false false) (takes p tt) s' s'' \/
      @on_the_way _ _ stub_interceptor default_config (mkPeer false false) (mkPeer false false) (expires p) s' s'')).
Proof.
  apply (@tracked_until_answered _ _ stub_interceptor default_config (mkPeer false false) (mkPeer false false)
    registering _ (mkPending APIMetadata 1 5 9 (Some tt) None) tt []).
  - reflexivity.
  - reflexivity.
  - apply sys_go.
    apply (go_up default_config (mkPeer false false) (mkPeer false false) registering (UWrite [])).
    apply (up_step_register default_config (mkPeer false false) (mkPeer false false) false false
      (rconn registering) (mkPending APIMetadata 1 5 9 (Some tt) None) [] true _ 9).
    vm_compute. reflexivity.
  - discriminate.
Defined.
