(* ===== verification/Session.v ===== *)
(** * A connection with a broker behind it

    ConnRun.v leaves what the broker sends unconstrained.  Here the broker is a
    Kafka broker as far as the proxy relies on it: it answers a request only
    when the whole frame has reached it, at most once, under the request's
    correlation id; and the client never uses a correlation id twice on the
    connection.  Nothing in conn.go enforces the latter: [Register] refuses an
    id in use, but a request that is not intercepted is not registered, and
    with the id of an intercepted one in flight its response would consume the
    other's entry.  What the proxy owes is stated against this peer: a response that must be rewritten is
    never passed on as it came, whatever the interleaving, unless the request
    had been forgotten because of its age. *)

From stdpp Require Import base numbers list strings gmap relations.
From Stdlib Require Import ZArith Lia Strings.Byte.
From S2P Require Import Prelude Primitives Codec Header Locality Frame Tracker Conn ConnTheorems ConnRun ConnTracking.

(** ** Frames on the wire *)

(** A frame whose length prefix is not ambiguous. *)
Definition small (body : list byte) : Prop := len body < 2 ^ 32.

(** The bytes hold the frame, after a number of whole frames. *)
Definition on_wire (out : list byte) (bytes : list byte) : Prop :=
  exists before after, Forall small (before ++ [out]) /\
    bytes = concat (map frame_bytes before) ++ frame_bytes out ++ after.

Lemma length_frame_bytes b : length (frame_bytes b) = (4 + length b)%nat.
Proof. unfold frame_bytes. by rewrite length_app, length_be_bytes. Qed.

Lemma frame_prefix_len x y s1 s2 :
  small x -> small y -> take 4 (frame_bytes x ++ s1) = take 4 (frame_bytes y ++ s2) -> len x = len y.
Proof.
  unfold small, frame_bytes. intros Hx Hy E. pose proof (len_nonneg x). pose proof (len_nonneg y).
  rewrite <- !app_assoc in E.
  rewrite !take_app_length' in E by by rewrite length_be_bytes. apply (f_equal be_val) in E.
  rewrite !(be_val_bytes_uwrap 4 32) in E by lia. by rewrite !uwrap_id in E by (split; lia).
Qed.

Lemma frame_bytes_inj x y s1 s2 :
  small x -> small y -> frame_bytes x ++ s1 = frame_bytes y ++ s2 -> x = y /\ s1 = s2.
Proof.
  intros Hx Hy E. assert (len x = len y) as Hl by (eapply frame_prefix_len; [done..|by rewrite E]).
  apply app_inj_1 in E as [E ->]; [|rewrite !length_frame_bytes; unfold len in Hl; lia].
  split; [|done]. unfold frame_bytes in E. rewrite Hl in E. by apply app_inv_head in E.
Qed.

(** A frame that is not complete is none. *)
Lemma cut_frame z k y after :
  small z -> small y -> (k < length (frame_bytes z))%nat -> take k (frame_bytes z) <> frame_bytes y ++ after.
Proof.
  intros Hz Hy Hk E. pose proof (f_equal length E) as El.
  rewrite length_take, length_app, !length_frame_bytes in El. rewrite length_frame_bytes in Hk.
  assert (len z = len y) as Hl.
  { apply (frame_prefix_len z y [] after); [done..|]. rewrite app_nil_r, <- E, take_take. f_equal. lia. }
  unfold len in Hl. lia.
Qed.

(** What follows the whole frames: nothing, or the beginning of one. *)
Definition cut_off (part : list byte) : Prop :=
  exists z k, small z /\ (k < length (frame_bytes z))%nat /\ part = take k (frame_bytes z).

Lemma cut_off_nil : cut_off [].
Proof. exists [], 0%nat. split_and!; [done|rewrite length_frame_bytes; lia|done]. Qed.

(** The frames a reader finds are those that were written. *)
Lemma frames_unique sent part out before after :
  Forall small sent -> cut_off part -> Forall small (before ++ [out]) ->
  concat (map frame_bytes sent) ++ part = concat (map frame_bytes before) ++ frame_bytes out ++ after ->
  out ∈ sent.
Proof.
  intros Hs (z & k & Hz & Hk & ->). revert sent Hs.
  induction before as [|b before IH]; intros sent Hs Hb E; cbn [map concat app] in *.
  - assert (small out) as Ho by (by inversion Hb). destruct sent as [|x sent]; cbn [map concat] in E.
    + by destruct (cut_frame z k out after).
    + inversion Hs; subst. rewrite <- app_assoc in E. apply frame_bytes_inj in E as [-> _]; [|done..]. set_solver.
  - inversion Hb; subst. destruct sent as [|x sent]; cbn [map concat] in E; rewrite <- app_assoc in E.
    + by eapply cut_frame in E.
    + inversion Hs; subst. rewrite <- app_assoc in E. apply frame_bytes_inj in E as [-> E]; [|done..].
      apply elem_of_cons. right. by eapply IH.
Qed.

(** *** Reads and writes, as far as frames are concerned *)

Lemma read_frame_small maxSize b s body b' s' :
  ReadFrame maxSize b s = (inr body, b', s') -> small body.
Proof.
  unfold ReadFrame, small. destruct (ReadFull s 4) as [[hdr [e|]] s1]; [done|].
  destruct (Z.ltb_spec (swrap 32 (be_val hdr)) 0); [done|].
  destruct (Z.ltb_spec maxSize (swrap 32 (be_val hdr))); [done|]. cbv zeta.
  pose proof (swrap_range 32 (be_val hdr) ltac:(lia)) as [_ Hr].
  destruct (grow_ok b (swrap 32 (be_val hdr))) as [_ Hg]; [lia|]. rewrite Hg.
  destruct (ReadFull s1 _) as [[got [e|]] s2] eqn:E; [done|].
  destruct (ReadFull_len _ _ _ _ _ E) as [_ Hl]; [lia|]. specialize (Hl eq_refl).
  intros [= <- _ _]. rewrite store_front_bytes by lia. simpl in Hr. lia.
Qed.

Lemma writes_whole peer closed w body w' :
  writes peer closed w body None w' -> small body /\ written w' = written w ++ frame_bytes body.
Proof.
  intros Hw. inversion Hw as [? ? E _ _|]; subst. split; [|by eapply write_frame_inv].
  unfold WriteFrame in E. pose proof (len_nonneg body). unfold small.
  destruct (Z.ltb_spec (len body) 0); [lia|]. destruct (Z.ltb_spec (2 ^ 32 - 1) (len body)); [done|lia].
Qed.

Lemma writes_cut peer closed w body e w' :
  writes peer closed w body (Some e) w' ->
  exists k, (k < length (frame_bytes body))%nat /\ (small body \/ k = 0%nat) /\
    written w' = written w ++ take k (frame_bytes body).
Proof.
  assert (fst (WriteFrame w body) <> Some ErrFrameTooLarge -> small body) as Hsmall.
  { unfold WriteFrame, small. pose proof (len_nonneg body).
    destruct (Z.ltb_spec (len body) 0); [lia|]. destruct (Z.ltb_spec (2 ^ 32 - 1) (len body)); [done|lia]. }
  intros Hw. inversion Hw as [? ? E _ _|k Hc Hne Hk]; subst.
  2:{ exists k. split_and!; [done|left; by apply Hsmall|done]. }
  assert (e = ErrFrameTooLarge \/ e <> ErrFrameTooLarge) as [->|Hne] by (destruct e; auto).
  - exists 0%nat. rewrite length_frame_bytes. split_and!; [lia|by right|]. rewrite take_0, app_nil_r. revert E.
    unfold WriteFrame. destruct (_ || _); [by intros [= <-]|]. destruct (sink_write w _) as [[?|] ?]; done.
  - assert (small body) as Hs by (apply Hsmall; rewrite E; simpl; congruence). revert E. unfold WriteFrame.
    destruct (_ || _); [intros [= <- _]; done|]. unfold sink_write. fold (frame_bytes body).
    destruct (room w) as [[k e']|]; [|done].
    destruct (Nat.leb_spec (length (frame_bytes body)) k); [done|]. intros [= _ <-].
    exists k. split_and!; [done|by left|done].
Qed.

Lemma writes_part peer closed w body e w' :
  writes peer closed w body (Some e) w' -> exists part, cut_off part /\ written w' = written w ++ part.
Proof.
  intros (k & Hk & Hs & Hw)%writes_cut. exists (take k (frame_bytes body)). split; [|done].
  destruct Hs as [Hs| ->]; [by exists body, k|apply cut_off_nil].
Qed.

(** ** Sessions *)

Section session.
Context {IS R : Type} `{Interceptor IS R}.
Implicit Types r : RunState IS R.

(** The proxy's connection, and what has happened on it: the correlation ids the
    client has used; the requests whose response the interceptor wants to
    rewrite; those that the tracker has dropped because of their age; the ids of
    the responses taken up by the downstream pump and the ids the broker has
    answered, in order; the headers of the client's requests and the broker's
    responses. *)
Record Session := mkSession {
  run : RunState IS R;
  seen : gset Z;
  must : gmap Z (Pending R);
  gone : Z -> Prop;
  taken : list Z;
  answered : list Z;
  asked : gmap Z RequestHeader;
  replies : gmap Z (list byte);
}.

Definition session_start (c : Conn IS R) : Session :=
  mkSession (ConnRun.start c) ∅ ∅ (fun _ => False) [] [] ∅ ∅.

(** The id of a request just read. *)
Definition just_read (u u' : up_pc R) : option Z :=
  match u, u' with
  | URead, UIntercept h _ _ => Some (RH_CorrelID h)
  | _, _ => None
  end.

(** The request just intercepted, if its response is to be rewritten. *)
Definition just_intercepted (u u' : up_pc R) : option (Pending R) :=
  match u, u' with
  | UIntercept _ _ _, URegister p _ => match P_Rewrite p with Some _ => Some p | None => None end
  | _, _ => None
  end.

(** The response just looked up. *)
Definition just_taken (d d' : down_pc R) : option Z :=
  match d, d' with
  | DTake id _, DTake _ _ => None
  | DTake id _, _ => Some id
  | _, _ => None
  end.

Definition add_id (o : option Z) (ids : gset Z) : gset Z :=
  match o with Some id => {[id]} ∪ ids | None => ids end.
Definition add_last (o : option Z) (ids : list Z) : list Z :=
  match o with Some id => ids ++ [id] | None => ids end.
Definition add_must (o : option (Pending R)) (m : gmap Z (Pending R)) : gmap Z (Pending R) :=
  match o with Some p => <[P_CorrelID p := p]> m | None => m end.

Definition add_asked (u u' : up_pc R) (m : gmap Z RequestHeader) : gmap Z RequestHeader :=
  match u, u' with
  | URead, UIntercept h _ _ => <[RH_CorrelID h := h]> m
  | _, _ => m
  end.

(** The bytes of a response behind those the broker has sent. *)
Definition deliver r (body : list byte) : RunState IS R :=
  let c := rconn r in
  mkRun (mkConn (clientR c) (clientW c) (mkStream (data (brokerR c) ++ frame_bytes body) (fin (brokerR c)))
           (brokerW c) (upBuf c) (downBuf c) (tracker c) (frames c) (icept c))
    (up r) (down r) (errCh r) (once r) (rcloseErr r) (watcher r) (mainpc r) (ctxDone r).

(** The interceptor's state is shared: other connections and the background
    loops change it between two steps. *)
Definition meanwhile s (st : IS) : Session :=
  let r := run s in let c := rconn r in
  mkSession
    (mkRun (mkConn (clientR c) (clientW c) (brokerR c) (brokerW c) (upBuf c) (downBuf c) (tracker c) (frames c) st)
       (up r) (down r) (errCh r) (once r) (rcloseErr r) (watcher r) (mainpc r) (ctxDone r))
    (seen s) (must s) (gone s) (taken s) (answered s) (asked s) (replies s).

(** [others] is what the rest of the process may do to the interceptor's state. *)
Inductive session_step (others : IS -> IS -> Prop) (cfg : Config) (client broker : Peer) : Session -> Session -> Prop :=
| sess_proxy s r' :
    sys_step cfg client broker (run s) r' ->
    (forall id, just_read (up (run s)) (up r') = Some id -> id ∉ seen s) ->
    session_step others cfg client broker s
      (mkSession r' (add_id (just_read (up (run s)) (up r')) (seen s)) (add_must (just_intercepted (up (run s)) (up r')) (must s))
         (fun id => gone s id \/ exists p, table (run s) !! id = Some p /\ expires p (run s) r')
         (add_last (just_taken (down (run s)) (down r')) (taken s)) (answered s)
         (add_asked (up (run s)) (up r') (asked s)) (replies s))
| sess_answer s out h body :
    on_wire out (written (brokerW (rconn (run s)))) -> DecodeRequestHeader out = Ok h ->
    RH_CorrelID h ∉ answered s -> PeekResponseCorrelID body = Ok (RH_CorrelID h) -> len body < 2 ^ 31 ->
    session_step others cfg client broker s
      (mkSession (deliver (run s) body) (seen s) (must s) (gone s) (taken s)
         (answered s ++ [RH_CorrelID h]) (asked s)
         (<[RH_CorrelID h := body]> (replies s)))
| sess_others s st :
    others (icept (rconn (run s))) st -> session_step others cfg client broker s (meanwhile s st).

(** *** The invariant *)

(** The entry is still there, or has expired, or has been used. *)
Definition safe s id p : Prop := table (run s) !! id = Some p \/ gone s id \/ id ∈ taken s.

(** The upstream half, over the position of the pump, the ids used and the
    requests to be rewritten, [sf] saying that one of these is safe. *)
Section half.
Context (u : up_pc R) (ids : gset Z) (m : gmap Z (Pending R)) (sf : Z -> Pending R -> Prop)
  (sent : list (list byte)).

(** A request on its way: the client sent it, and it is not among those
    written. *)
Definition pending_id id : Prop :=
  id ∈ ids /\ forall out h, out ∈ sent -> DecodeRequestHeader out = Ok h -> RH_CorrelID h <> id.

Definition up_ok : Prop :=
  match u with
  | UIntercept h body _ =>
      DecodeRequestHeader body = Ok h /\ pending_id (RH_CorrelID h) /\ m !! RH_CorrelID h = None
  | URegister p out => exists h, DecodeRequestHeader out = Ok h /\ RH_CorrelID h = P_CorrelID p /\
      pending_id (P_CorrelID p) /\ forall q, m !! P_CorrelID p = Some q -> q = p
  | UWrite out => exists h, DecodeRequestHeader out = Ok h /\ pending_id (RH_CorrelID h) /\
      forall q, m !! RH_CorrelID h = Some q -> sf (RH_CorrelID h) q
  | _ => True
  end.

(** The requests that have reached the broker. *)
Definition sent_ok : Prop :=
  forall out h, out ∈ sent -> DecodeRequestHeader out = Ok h ->
    RH_CorrelID h ∈ ids /\ forall p, m !! RH_CorrelID h = Some p -> sf (RH_CorrelID h) p.

Definition must_ok : Prop :=
  forall id p, m !! id = Some p -> P_CorrelID p = id /\ is_Some (P_Rewrite p) /\ id ∈ ids.

End half.

Definition up_over (u : up_pc R) : Prop := match u with UReturn _ | UExit _ => True | _ => False end.

Definition wire_ok (u : up_pc R) (bytes : list byte) (sent : list (list byte)) : Prop :=
  exists part, bytes = concat (map frame_bytes sent) ++ part /\ Forall small sent /\ cut_off part /\
    (part = [] \/ up_over u).

Definition down_over (d : down_pc R) : Prop := match d with DReturn _ | DExit _ => True | _ => False end.

(** The response at hand, and those on the way. *)
Definition at_hand (d : down_pc R) : list Z := match d with DTake id _ => [id] | _ => [] end.

Definition down_ok (d : down_pc R) (bytes : list byte) (ans tak : list Z) (rep : gmap Z (list byte)) : Prop :=
  down_over d \/
  exists queue ids, bytes = concat (map frame_bytes queue) /\
    Forall small queue /\
    Forall2 (fun b id => PeekResponseCorrelID b = Ok id /\ rep !! id = Some b) queue ids /\
    (forall id body, d = DTake id body -> rep !! id = Some body) /\
    ans = tak ++ at_hand d ++ ids.

Definition session_inv s : Prop := exists sent,
  wire_ok (up (run s)) (written (brokerW (rconn (run s)))) sent /\
  up_ok (up (run s)) (seen s) (must s) (safe s) sent /\
  sent_ok (seen s) (must s) (safe s) sent /\ must_ok (seen s) (must s) /\
  (forall id, id ∈ answered s -> exists out h, out ∈ sent /\ DecodeRequestHeader out = Ok h /\ RH_CorrelID h = id) /\
  taken s `prefix_of` answered s /\ NoDup (answered s) /\
  down_ok (down (run s)) (data (brokerR (rconn (run s)))) (answered s) (taken s) (replies s).

(** *** Preservation *)

(** What the goroutines of a connection can do: a step of one pump, or a step
    that leaves both pumps and the connection as they are, but for the sending
    of a pump's error. *)
Lemma step_cases cfg client broker r r' :
  sys_step cfg client broker r r' ->
  (up_step cfg client broker (client_closed r) (broker_closed r) (up r, rconn r) (up r', rconn r') /\
     down r' = down r) \/
  (down_step cfg client broker (client_closed r) (broker_closed r) (down r, rconn r) (down r', rconn r') /\
     up r' = up r) \/
  (rconn r' = rconn r /\ (up r' = up r \/ (up_over (up r) /\ up_over (up r'))) /\
     (down r' = down r \/ (down_over (down r) /\ down_over (down r')))).
Proof.
  intros [r1 r2 Hg|r1 _]; [|right; right; by split_and!; [|left|left]].
  destruct Hg as [r1 pc c Hu|r1 e Hu|r1 pc c Hd|r1 e Hd| | | | | | | | | |];
    try (right; right; cbn [rconn up down]; by split_and!; [|left|left]).
  - left. by split.
  - right; right. cbn [rconn up down]. split_and!; [done| |by left]. right. unfold up_over. cbn [up]. by rewrite Hu.
  - right; left. by split.
  - right; right. cbn [rconn up down]. split_and!; [done|by left|]. right. unfold down_over. cbn [down]. by rewrite Hd.
Qed.

(** The session after a step of the proxy. *)
Definition stepped s r' : Session :=
  mkSession r' (add_id (just_read (up (run s)) (up r')) (seen s)) (add_must (just_intercepted (up (run s)) (up r')) (must s))
    (fun id => gone s id \/ exists p, table (run s) !! id = Some p /\ expires p (run s) r')
    (add_last (just_taken (down (run s)) (down r')) (taken s)) (answered s)
    (add_asked (up (run s)) (up r') (asked s)) (replies s).

Lemma add_last_mono o ids id : id ∈ ids -> id ∈ add_last o ids.
Proof. destruct o; simpl; set_solver. Qed.

Lemma safe_step cfg client broker s r' id p :
  sys_step cfg client broker (run s) r' -> P_CorrelID p = id -> is_Some (P_Rewrite p) ->
  safe s id p -> safe (stepped s r') id p.
Proof.
  intros Hs <- [rw Hrw] [Ht|[Hg|Hk]]; unfold safe, stepped; cbn [run gone taken].
  - destruct (table_step _ _ _ _ _ _ _ Hrw Ht Hs) as [|[((body & Hd) & Hd')|He]]; [by left| |].
    + right; right. unfold just_taken. rewrite Hd. destruct Hd' as [[pl ->]|[e ->]]; simpl; set_solver.
    + right; left. right. by exists p.
  - right; left. by left.
  - right; right. by apply add_last_mono.
Qed.

(** The upstream half, when the upstream pump does nothing. *)
Lemma up_half_same u u' bytes ids m (sf sf' : Z -> Pending R -> Prop) sent :
  u' = u \/ (up_over u /\ up_over u') -> (forall id p, m !! id = Some p -> sf id p -> sf' id p) ->
  wire_ok u bytes sent -> up_ok u ids m sf sent -> sent_ok ids m sf sent ->
  wire_ok u' bytes sent /\ up_ok u' ids m sf' sent /\ sent_ok ids m sf' sent.
Proof.
  intros Hu Hsafe Hw Hup Hs. split_and!.
  - destruct Hw as (part & ? & ? & ? & Hp). exists part. split_and!; try done.
    destruct Hp as [|Hp]; [by left|right]. by destruct Hu as [->|[_ ?]].
  - destruct Hu as [->|[_ Ho]]; [|by destruct u']. destruct u; try exact Hup.
    destruct Hup as (h & Hd & Hp & Hq). exists h. split; [done|]. split; [done|].
    intros q Hq'. by apply Hsafe, Hq.
  - intros out h Ho Hh. destruct (Hs out h Ho Hh) as [Hin Hp]. split; [done|].
    intros p Hp'. by apply Hsafe, Hp.
Qed.

Lemma just_taken_same d d' : d' = d \/ (down_over d /\ down_over d') -> just_taken d d' = None.
Proof. unfold just_taken, down_over. intros [->|[H1 H2]]; by destruct d. Qed.

Lemma just_read_same u u' : u' = u \/ (up_over u /\ up_over u') -> just_read u u' = None.
Proof. unfold just_read, up_over. intros [->|[H1 H2]]; by destruct u. Qed.

Lemma just_intercepted_same u u' : u' = u \/ (up_over u /\ up_over u') -> just_intercepted u u' = None.
Proof. unfold just_intercepted, up_over. intros [->|[H1 H2]]; by destruct u. Qed.

(** A pump that is not over has cut no frame, and may go anywhere from there. *)
Lemma wire_ok_running u u' bytes sent : ~ up_over u -> wire_ok u bytes sent -> wire_ok u' bytes sent.
Proof.
  intros Hu (part & -> & Hs & _ & [->|?]); [|done]. exists []. split_and!; try done; [apply cut_off_nil|by left].
Qed.

(** The ids of what was written are not new. *)
Lemma sent_ids_old ids m sf sent id :
  sent_ok ids m sf sent -> id ∉ ids -> pending_id ({[id]} ∪ ids) sent id.
Proof.
  intros Hs Hid. split; [set_solver|]. intros out h Ho Hh <-. by destruct (Hs out h Ho Hh).
Qed.

Section up_step.
Context (ids : gset Z) (m : gmap Z (Pending R)) (sf sf' : Z -> Pending R -> Prop) (sent : list (list byte)).
Hypothesis Hsf : forall id p, m !! id = Some p -> sf id p -> sf' id p.
Hypothesis Hs : sent_ok ids m sf sent.
Hypothesis Hm : must_ok ids m.

Lemma sent_same : sent_ok ids m sf' sent.
Proof.
  intros out h Ho Hh. destruct (Hs out h Ho Hh) as [Hin Hp]. split; [done|]. intros p Hp'. by apply Hsf, Hp.
Qed.

(** A new id, with no entry for it. *)
Lemma read_ok h body payload :
  DecodeRequestHeader body = Ok h -> RH_CorrelID h ∉ ids ->
  up_ok (UIntercept h body payload) ({[RH_CorrelID h]} ∪ ids) m sf' sent /\
  sent_ok ({[RH_CorrelID h]} ∪ ids) m sf' sent /\ must_ok ({[RH_CorrelID h]} ∪ ids) m.
Proof.
  intros Hd Hid. split_and!.
  - split; [done|]. split; [by eapply sent_ids_old|].
    destruct (m !! RH_CorrelID h) as [p|] eqn:E; [|done]. by destruct (Hm _ _ E) as (_ & _ & ?).
  - intros out h' Ho Hh. destruct (sent_same out h' Ho Hh). split; [set_solver|done].
  - intros id p Hp. destruct (Hm _ _ Hp) as (? & ? & ?). split_and!; [done..|set_solver].
Qed.

(** The interceptor's decision about the request at hand. *)
Lemma intercept_ok now po h body payload :
  up_ok (UIntercept h body payload) ids m sf sent ->
  let u' := up_intercept now po h body in
  let m' := add_must (just_intercepted (UIntercept h body payload) u') m in
  up_ok u' ids m' sf' sent /\ sent_ok ids m' sf' sent /\ must_ok ids m'.
Proof.
  intros (Hd & Hp & Hno). cbv zeta.
  assert (forall p, P_CorrelID p = RH_CorrelID h -> sent_ok ids (<[P_CorrelID p := p]> m) sf' sent) as Hsent.
  { intros p Hid out h' Ho Hh. destruct (sent_same out h' Ho Hh) as [Hin Hsafe]. split; [done|].
    intros q. rewrite lookup_insert_ne; [apply Hsafe|]. rewrite Hid. apply not_eq_sym. by apply (proj2 Hp out h'). }
  assert (forall p out, P_CorrelID p = RH_CorrelID h -> DecodeRequestHeader out = Ok h ->
    let m' := add_must (just_intercepted (UIntercept h body payload) (URegister p out)) m in
    up_ok (URegister p out) ids m' sf' sent /\ sent_ok ids m' sf' sent /\ must_ok ids m') as Hreg.
  { intros p out Hid Ho. cbn [just_intercepted]. destruct (P_Rewrite p) as [rw|] eqn:Erw; cbn [add_must].
    - split_and!; [|by apply Hsent|].
      + exists h. rewrite Hid at 1 2. do 3 (split; [done|]). intros q. rewrite Hid, lookup_insert_eq. by intros [= <-].
      + intros id q [[<- <-]|[_ Hq]]%lookup_insert_Some; [|by apply Hm]. split_and!; [done|by rewrite Erw|].
        rewrite Hid. apply Hp.
    - split_and!; [|apply sent_same|done]. exists h. rewrite Hid. do 3 (split; [done|]). intros q. by rewrite Hno. }
  unfold up_intercept. destruct po as [p|].
  - cbv zeta. cbn [P_RewriteRequest]. destruct (P_RewriteRequest p) as [new|]; [|by apply Hreg].
    destruct (go_slice body 0 (RH_HeaderSize h)) as [hdr|] eqn:Eh.
    + apply Hreg; [done|]. pose proof (header_size_range _ _ Hd).
      rewrite go_slice_some in Eh by lia. injection Eh as <-. rewrite Z.sub_0_r, drop_0. by apply header_respliced.
    + cbn [just_intercepted add_must]. split_and!; [done|apply sent_same|done].
  - cbn [just_intercepted add_must]. split_and!; [|apply sent_same|done].
    exists h. do 2 (split; [done|]). intros q. by rewrite Hno.
Qed.

(** After [Register]. *)
Lemma register_ok ok p out :
  up_ok (URegister p out) ids m sf sent ->
  (forall rw, P_Rewrite p = Some rw -> up_register ok p out = UWrite out -> sf' (P_CorrelID p) p) ->
  up_ok (up_register ok p out) ids m sf' sent.
Proof.
  intros (h & Hd & Hid & Hp & Hq) Hreg.
  assert (up_register ok p out = UWrite out -> up_ok (UWrite out) ids m sf' sent) as Hw.
  { intros E. exists h. rewrite Hid. do 2 (split; [done|]). intros q Hq'.
    assert (q = p) as -> by by apply Hq. destruct (Hm _ _ Hq') as (_ & [rw Hrw] & _). by eapply Hreg. }
  unfold up_register in *. destruct ok; [by apply Hw|]. destruct (P_Rewrite p); [done|]. by apply Hw.
Qed.

(** After a whole frame was written. *)
Lemma written_ok out : up_ok (UWrite out) ids m sf sent -> sent_ok ids m sf' (sent ++ [out]).
Proof.
  intros (h & Hd & Hp & Hq) out' h' Ho Hh. apply elem_of_app in Ho as [Ho|Ho]; [|apply list_elem_of_singleton in Ho as ->].
  - by apply (sent_same out' h').
  - rewrite Hd in Hh. injection Hh as <-. split; [apply Hp|]. intros p Hp'. by apply Hsf, Hq.
Qed.

End up_step.

(** A step of the upstream pump. *)
Lemma up_step_ok cfg client broker cc bc u c u' c' ids m (sf sf' : Z -> Pending R -> Prop) sent :
  up_step cfg client broker cc bc (u, c) (u', c') ->
  (forall id, just_read u u' = Some id -> id ∉ ids) ->
  (forall id p, m !! id = Some p -> sf id p -> sf' id p) ->
  (forall p out rw, u = URegister p out -> P_Rewrite p = Some rw -> u' = UWrite out -> sf' (P_CorrelID p) p) ->
  wire_ok u (written (brokerW c)) sent -> up_ok u ids m sf sent -> sent_ok ids m sf sent -> must_ok ids m ->
  let ids' := add_id (just_read u u') ids in let m' := add_must (just_intercepted u u') m in
  brokerR c' = brokerR c /\ exists sent', sent ⊆ sent' /\
    wire_ok u' (written (brokerW c')) sent' /\ up_ok u' ids' m' sf' sent' /\ sent_ok ids' m' sf' sent' /\
    must_ok ids' m'.
Proof.
  intros Hstep Hnew Hsf Hreg Hw Hu Hs Hm. cbv zeta. pose proof (sent_same ids m sf sf' sent Hsf Hs) as Hs'.
  inversion Hstep as [? r|? r b st Hr|? h body payload po st now Hi|? p out ok t now Ht|? out err w Hwr]; subst;
    (split; [done|]); cbn [brokerW].
  - exists sent. split; [done|]. split; [refine (wire_ok_running _ _ _ _ _ Hw); intros []|].
    unfold up_deadline in *. by destruct (set_deadline _ _ _).
  - exists sent. split; [done|]. split; [refine (wire_ok_running _ _ _ _ _ Hw); intros []|].
    destruct r as [e|body]; [done|]. unfold up_decode in *.
    destruct (DecodeRequestHeader body) as [h| |] eqn:Hd; [|done..].
    destruct (go_slice body _ _) as [payload|]; [|done]. cbn [just_read just_intercepted add_id add_must] in *.
    apply (read_ok ids m sf sf' sent Hsf Hs Hm h body payload Hd). by apply Hnew.
  - exists sent. split; [done|]. split; [refine (wire_ok_running _ _ _ _ _ Hw); intros []|].
    assert (just_read (UIntercept h body payload) (up_intercept now po h body) = None) as -> by done.
    by apply (intercept_ok ids m sf sf' sent Hsf Hs Hm).
  - exists sent. split; [done|]. split; [refine (wire_ok_running _ _ _ _ _ Hw); intros []|].
    change (just_read (URegister p out) _) with (@None Z). change (just_intercepted (URegister p out) _) with (@None (Pending R)).
    split_and!; [|done..]. apply (register_ok ids m sf sf' sent Hm); [done|]. intros rw Hrw E. by eapply Hreg.
  - change (just_read (UWrite out) _) with (@None Z). change (just_intercepted (UWrite out) _) with (@None (Pending R)).
    destruct Hw as (part & Hw & Hsm & _ & [->|[]]). rewrite app_nil_r in Hw. cbn [add_id add_must].
    destruct err as [e|]; cbn [up_written].
    + apply writes_part in Hwr as (part & Hpart & Hwr). exists sent. split; [done|]. split; [|by split_and!].
      exists part. split_and!; [by rewrite Hwr, Hw|done|done|by right].
    + apply writes_whole in Hwr as [Hout Hwr]. exists (sent ++ [out]). split; [set_solver|]. split.
      { exists []. split_and!; [|by apply Forall_app; split; [|apply Forall_singleton]|apply cut_off_nil|by left].
        rewrite Hwr, Hw, map_app, concat_app. simpl. by rewrite !app_nil_r. }
      split_and!; [done|by eapply written_ok|done].
Qed.

(** A step of the downstream pump. *)
Lemma down_step_ok cfg client broker cc bc d c d' c' ans tak rep :
  down_step cfg client broker cc bc (d, c) (d', c') -> tak `prefix_of` ans -> down_ok d (data (brokerR c)) ans tak rep ->
  brokerW c' = brokerW c /\ add_last (just_taken d d') tak `prefix_of` ans /\
  down_ok d' (data (brokerR c')) ans (add_last (just_taken d d') tak) rep.
Proof.
  intros Hs Ht Hd. inversion Hs as [? r|? r b st Hr|? id body p t|? p rw pl r st|? out err w]; subst;
    (split; [done|]); (destruct Hd as [Hd|(queue & ids & Hq & Hsm & Hids & Hrep & Hin)]; [done|]);
    cbn [at_hand app] in *; cbn [brokerR].
  - unfold down_deadline. destruct (set_deadline _ _ _); simpl; (split; [done|]); [by left|]. right. by exists queue, ids.
  - assert (forall e, down_ok (down_decode (inl e)) (data st) ans tak rep) as Herr by (intros e; by left).
    destruct Hr as [r b' s' _ Hr _|_|_ _]; [|split; [done|apply Herr]..].
    destruct r as [e|body]; [split; [done|apply Herr]|].
    pose proof (read_frame_small _ _ _ _ _ _ Hr) as Hb. apply read_frame_inv in Hr as [Hr _].
    rewrite Hq in Hr. destruct Hids as [|q id queue ids Hqid Hids]; cbn [map concat] in Hr.
    { apply (f_equal length) in Hr. rewrite length_app, length_frame_bytes in Hr. simpl in Hr. lia. }
    inversion Hsm; subst. apply frame_bytes_inj in Hr as [<- Hr]; [|done..]. destruct Hqid as [Hqid Hqrep].
    unfold down_decode. rewrite Hqid. simpl. split; [done|]. right. exists queue, ids. split_and!; try done.
    by intros ? ? [= <- <-].
  - assert (just_taken (DTake id body) (down_taken p body) = Some id) as ->.
    { unfold down_taken. repeat case_match; done. }
    cbn [add_last]. split; [exists ids; by rewrite Hin, <- app_assoc|]. right. exists queue, ids.
    assert (at_hand (down_taken p body) = []) as -> by (unfold down_taken; repeat case_match; done).
    split_and!; try done; [by intros ? ? E; unfold down_taken in E; repeat case_match|]. by rewrite Hin, <- app_assoc.
  - assert (just_taken (DRewrite p rw pl) (down_rewritten p r) = None) as -> by done. split; [done|].
    right. exists queue, ids. by destruct r.
  - assert (just_taken (DWrite out) (down_written err) = None) as -> by done. split; [done|].
    right. exists queue, ids. by destruct err.
Qed.

(** *** Sessions *)

Lemma proxy_inv cfg client broker s r' :
  sys_step cfg client broker (run s) r' ->
  (forall id, just_read (up (run s)) (up r') = Some id -> id ∉ seen s) ->
  session_inv s -> session_inv (stepped s r').
Proof.
  intros Hs Hnew (sent & Hw & Hu & Hsent & Hm & Hans & Htak & Hnd & Hd).
  assert (forall id p, must s !! id = Some p -> safe s id p -> safe (stepped s r') id p) as Hsafe.
  { intros id p Hp. destruct (Hm _ _ Hp) as (Hid & Hrw & _). by eapply safe_step. }
  unfold session_inv. change (run (stepped s r')) with r'. change (answered (stepped s r')) with (answered s).
  change (seen (stepped s r')) with (add_id (just_read (up (run s)) (up r')) (seen s)).
  change (must (stepped s r')) with (add_must (just_intercepted (up (run s)) (up r')) (must s)).
  destruct (step_cases _ _ _ _ _ Hs) as [[Hup Hdown]|[[Hdown Hup]|(Hc & Hup & Hdown)]].
  - destruct (up_step_ok _ _ _ _ _ _ _ _ _ _ _ _ (safe (stepped s r')) sent Hup Hnew Hsafe)
      as (Hr & sent' & Hsub & H1 & H2 & H3 & H4); try done.
    { intros p out rw Eu Hrw Eu'. left. change (run (stepped s r')) with r'.
      destruct (register_step _ _ _ _ _ _ _ _ Eu Hrw Hs) as [[Hf|[_ Ht]] _]; [congruence|congruence|done]. }
    exists sent'. split_and!; try done.
    + intros id Hid. destruct (Hans id Hid) as (out & h & Ho & ? & ?). exists out, h. split_and!; [by apply Hsub|done..].
    + change (taken (stepped s r')) with (add_last (just_taken (down (run s)) (down r')) (taken s)).
      rewrite just_taken_same by (by left). done.
    + change (taken (stepped s r')) with (add_last (just_taken (down (run s)) (down r')) (taken s)).
      rewrite just_taken_same by (by left). by rewrite Hdown, Hr.
  - destruct (down_step_ok _ _ _ _ _ _ _ _ _ _ _ _ Hdown Htak Hd) as (Hbw & Ht' & Hd').
    assert (up r' = up (run s) \/ (up_over (up (run s)) /\ up_over (up r'))) as Hup' by by left.
    rewrite just_read_same, just_intercepted_same by done. cbn [add_id add_must]. exists sent. rewrite Hbw.
    destruct (up_half_same _ _ _ _ _ _ (safe (stepped s r')) _ Hup' Hsafe Hw Hu Hsent) as (? & ? & ?).
    split_and!; done.
  - rewrite just_read_same, just_intercepted_same by done. cbn [add_id add_must]. exists sent. rewrite Hc.
    destruct (up_half_same _ _ _ _ _ _ (safe (stepped s r')) _ Hup Hsafe Hw Hu Hsent) as (? & ? & ?).
    change (taken (stepped s r')) with (add_last (just_taken (down (run s)) (down r')) (taken s)).
    rewrite just_taken_same by done. cbn [add_last]. split_and!; try done.
    destruct Hdown as [->|[_ Ho]]; [done|by left].
Qed.

Lemma answer_inv s out h body :
  on_wire out (written (brokerW (rconn (run s)))) -> DecodeRequestHeader out = Ok h ->
  RH_CorrelID h ∉ answered s -> PeekResponseCorrelID body = Ok (RH_CorrelID h) -> len body < 2 ^ 31 ->
  session_inv s ->
  session_inv (mkSession (deliver (run s) body) (seen s) (must s) (gone s) (taken s)
                 (answered s ++ [RH_CorrelID h]) (asked s)
         (<[RH_CorrelID h := body]> (replies s))).
Proof.
  intros (before & after & Hsm & Hwire) Hh Hnew Hpeek Hlen (sent & Hw & Hu & Hsent & Hm & Hans & Htak & Hnd & Hd).
  exists sent. cbn [run seen must answered taken replies deliver rconn up down brokerW brokerR data].
  split_and!; try done.
  - intros id [Hid|Hid]%elem_of_app; [by apply Hans|]. apply list_elem_of_singleton in Hid as ->. exists out, h. split_and!; try done.
    destruct Hw as (part & Hw & Hsml & Hcut & _). rewrite Hw in Hwire. by eapply frames_unique.
  - by apply prefix_app_r.
  - apply NoDup_app. split_and!; [done| |apply NoDup_singleton]. intros id Hid E%list_elem_of_singleton. by subst.
  - destruct Hd as [Hd|(queue & ids & Hq & Hqs & Hids & Hrep & Hin)]; [by left|]. right.
    exists (queue ++ [body]), (ids ++ [RH_CorrelID h]). rewrite map_app, concat_app, Hq. split_and!.
    + simpl. by rewrite app_nil_r.
    + apply Forall_app. split; [done|]. apply Forall_singleton. unfold small. lia.
    + apply Forall2_app; [|by repeat constructor; rewrite ?lookup_insert_eq].
      apply Forall2_same_length_lookup. split; [by eapply Forall2_length|]. intros i b id Hb Hid.
      destruct (Forall2_lookup_lr _ _ _ _ _ _ Hids Hb Hid) as [Hpk Hrp]. split; [done|].
      rewrite lookup_insert_ne; [done|]. intros <-. apply Hnew. rewrite Hin.
      do 2 (apply elem_of_app; right). by eapply list_elem_of_lookup_2.
    + intros id b E. rewrite lookup_insert_ne; [by apply Hrep|]. intros <-. apply Hnew. rewrite Hin, E. set_solver.
    + by rewrite Hin, <- !app_assoc.
Qed.

(** The response at hand is an answer, and has not been looked up before. *)
Lemma at_hand_new s id body :
  session_inv s -> down (run s) = DTake id body ->
  id ∈ answered s /\ (id ∉ taken s) /\ replies s !! id = Some body.
Proof.
  intros (sent & _ & _ & _ & _ & _ & _ & Hnd & Hd) Ed. rewrite Ed in Hd.
  destruct Hd as [[]|(queue & ids & _ & _ & _ & Hrep & Hin)]. rewrite Hin in Hnd |- *.
  apply NoDup_app in Hnd as (_ & Hnd & _). split_and!; [set_solver|intros Ht|by apply Hrep].
  apply (Hnd id Ht). set_solver.
Qed.

(** *** Schedules *)

(** A session between healthy peers can be run: the two pumps and the broker
    take the steps a schedule gives them.  [ABroker before out body]: the broker,
    after the requests [before], answers [out] by [body]. *)
Inductive action :=
| AUp (now : Z)
| ADown
| ABroker (before : list (list byte)) (out body : list byte).

Definition healthy : Peer := mkPeer false false.

Definition run_up (cfg : Config) (now : Z) (u : up_pc R) (c : Conn IS R) : option (up_pc R * Conn IS R) :=
  let c_ cr bw b t f st := mkConn cr (clientW c) (brokerR c) bw b (downBuf c) t f st in
  match u with
  | UTop => Some (up_deadline (set_deadline cfg false None), c)
  | URead =>
      let '(r, b, st) := ReadFrame (frame_cap cfg) (upBuf c) (clientR c) in
      Some (up_decode r, c_ st (brokerW c) b (tracker c) (frames c) (icept c))
  | UIntercept h body payload =>
      let '(p, st) := OnRequest (icept c) h payload in
      Some (up_intercept now p h body, c_ (clientR c) (brokerW c) (upBuf c) (tracker c) (frames c) st)
  | URegister p out =>
      let '(ok, t) := Register (tracker c) now p in
      Some (up_register ok p out, c_ (clientR c) (brokerW c) (upBuf c) t
              (if ok then frames c else IncTrackerDropped (frames c)) (icept c))
  | UWrite out =>
      let '(err, w) := WriteFrame (brokerW c) out in
      Some (up_written err, c_ (clientR c) w (upBuf c) (tracker c)
              (match err with None => IncClientToBroker (frames c) | Some _ => frames c end) (icept c))
  | UReturn _ | UExit _ => None
  end.

Definition run_down (cfg : Config) (d : down_pc R) (c : Conn IS R) : option (down_pc R * Conn IS R) :=
  let c_ cw br b t f st := mkConn (clientR c) cw br (brokerW c) (upBuf c) b t f st in
  match d with
  | DTop => Some (down_deadline (set_deadline cfg false None), c)
  | DRead =>
      let '(r, b, st) := ReadFrame (frame_cap cfg) (downBuf c) (brokerR c) in
      Some (down_decode r, c_ (clientW c) st b (tracker c) (frames c) (icept c))
  | DTake id body =>
      let '(p, t) := Take (tracker c) id in
      Some (down_taken p body, c_ (clientW c) (brokerR c) (downBuf c) t (frames c) (icept c))
  | DRewrite p rw payload =>
      let '(r, st) := Rewrite rw (icept c) [] payload p in
      Some (down_rewritten p r, c_ (clientW c) (brokerR c) (downBuf c) (tracker c) (frames c) st)
  | DWrite out =>
      let '(err, w) := WriteFrame (clientW c) out in
      Some (down_written err, c_ w (brokerR c) (downBuf c) (tracker c)
              (match err with None => IncBrokerToClient (frames c) | Some _ => frames c end) (icept c))
  | DReturn _ | DExit _ => None
  end.

Definition act (cfg : Config) (a : action) s : option Session :=
  let r := run s in
  match a, once r with
  | AUp now, Fresh =>
      '(u, c) ← run_up cfg now (up r) (rconn r);
      let r' := mkRun c u (down r) (errCh r) Fresh (rcloseErr r) (watcher r) (mainpc r) (ctxDone r) in
      match just_read (up r) u with
      | Some id => if decide (id ∈ seen s) then None else Some (stepped s r')
      | None => Some (stepped s r')
      end
  | ADown, Fresh =>
      '(d, c) ← run_down cfg (down r) (rconn r);
      Some (stepped s (mkRun c (up r) d (errCh r) Fresh (rcloseErr r) (watcher r) (mainpc r) (ctxDone r)))
  | ABroker before out body, _ =>
      match DecodeRequestHeader out, PeekResponseCorrelID body with
      | Ok h, Ok id =>
          if decide (id = RH_CorrelID h /\ (id ∉ answered s) /\ len body < 2 ^ 31 /\
                     concat (map frame_bytes before) ++ frame_bytes out `prefix_of` written (brokerW (rconn r)) /\
                     Forall small (before ++ [out]))
          then Some (mkSession (deliver r body) (seen s) (must s) (gone s) (taken s) (answered s ++ [RH_CorrelID h])
                       (asked s) (<[RH_CorrelID h := body]> (replies s)))
          else None
      | _, _ => None
      end
  | _, _ => None
  end.

Fixpoint acts (cfg : Config) (l : list action) s : option Session :=
  match l with
  | [] => Some s
  | a :: l => match act cfg a s with Some s' => acts cfg l s' | None => None end
  end.

Lemma run_up_sound cfg now u c uc :
  run_up cfg now u c = Some uc -> up_step cfg healthy healthy false false (u, c) uc.
Proof.
  unfold run_up. destruct u; cbv zeta.
  - intros [= <-]. constructor.
  - destruct (ReadFrame _ _ _) as [[r b] st] eqn:E. intros [= <-]. constructor. by constructor.
  - destruct (OnRequest _ _ _) as [p st] eqn:E. intros [= <-]. by constructor.
  - destruct (Register _ _ _) as [ok t] eqn:E. intros [= <-]. by econstructor.
  - destruct (WriteFrame _ _) as [err w] eqn:E. intros [= <-]. constructor. by constructor.
  - done.
  - done.
Qed.

Lemma run_down_sound cfg d c dc :
  run_down cfg d c = Some dc -> down_step cfg healthy healthy false false (d, c) dc.
Proof.
  unfold run_down. destruct d; cbv zeta.
  - intros [= <-]. constructor.
  - destruct (ReadFrame _ _ _) as [[r b] st] eqn:E. intros [= <-]. constructor. by constructor.
  - destruct (Take _ _) as [p t] eqn:E. intros [= <-]. by constructor.
  - destruct (Rewrite _ _ _ _ _) as [r st] eqn:E. intros [= <-]. by constructor.
  - destruct (WriteFrame _ _) as [err w] eqn:E. intros [= <-]. constructor. by constructor.
  - done.
  - done.
Qed.

(** A schedule is a session. *)
Lemma act_sound others cfg a s s' : act cfg a s = Some s' -> session_step others cfg healthy healthy s s'.
Proof.
  unfold act. destruct a as [now| |before out body].
  - destruct (once (run s)) eqn:Eo; try done.
    destruct (run_up _ _ _ _) as [[u c]|] eqn:E; cbn [mbind option_bind]; [|done]. apply run_up_sound in E.
    set (r' := mkRun c u _ _ _ _ _ _ _).
    assert (sys_step cfg healthy healthy (run s) r') as Hs.
    { apply sys_go. unfold r'. rewrite <- Eo. apply go_up. unfold client_closed, broker_closed. by rewrite Eo. }
    destruct (just_read (up (run s)) u) as [id|] eqn:Ej.
    + destruct (decide _) as [|Hn]; [done|]. intros [= <-]. apply sess_proxy; [done|].
      change (up r') with u. rewrite Ej. by intros ? [= <-].
    + intros [= <-]. apply sess_proxy; [done|]. change (up r') with u. by rewrite Ej.
  - destruct (once (run s)) eqn:Eo; try done.
    destruct (run_down _ _ _) as [[d c]|] eqn:E; cbn [mbind option_bind]; [|done]. apply run_down_sound in E.
    intros [= <-]. apply sess_proxy.
    + apply sys_go. rewrite <- Eo. apply go_down. unfold client_closed, broker_closed. by rewrite Eo.
    + cbn [up]. by rewrite just_read_same by (by left).
  - destruct (DecodeRequestHeader out) as [h| |] eqn:Eh; [|done..].
    destruct (PeekResponseCorrelID body) as [id| |] eqn:Ep; [|done..].
    destruct (decide _) as [(-> & Hn & Hl & [after Hw] & Hsm)|]; [|done].
    assert (session_step others cfg healthy healthy s (mkSession (deliver (run s) body) (seen s) (must s) (gone s) (taken s)
      (answered s ++ [RH_CorrelID h]) (asked s) (<[RH_CorrelID h := body]> (replies s)))) as Hs.
    { apply sess_answer with (out := out); try done. exists before, after. by rewrite Hw, <- app_assoc. }
    by intros [= <-].
Qed.

Lemma acts_sound others cfg l s s' : acts cfg l s = Some s' -> rtc (session_step others cfg healthy healthy) s s'.
Proof.
  revert s. induction l as [|a l IH]; intros s; cbn [acts]; [by intros [= <-]|].
  destruct (act cfg a s) as [s1|] eqn:E; [|done]. intros Hl.
  eapply rtc_l; [by eapply act_sound|]. by apply IH.
Qed.

End session.

(** ** Properties *)

(** A connection before its first byte. *)
Definition unused {IS R} (c : Conn IS R) : Prop := written (brokerW c) = [] /\ data (brokerR c) = [].

Lemma session_reachable {IS R} `{Interceptor IS R} others cfg client broker (c : Conn IS R) s :
  unused c -> rtc (session_step others cfg client broker) (session_start c) s -> session_inv s.
Proof.
  intros [Hw Hr] Hs. revert s Hs. apply rtc_ind_r.
  - exists []. unfold session_start. cbn [run seen must answered taken replies ConnRun.start up down rconn]. split_and!; try done.
    + exists []. rewrite Hw. split_and!; try done; [apply cut_off_nil|by left].
    + by intros out h ?%not_elem_of_nil.
    + by intros id ?%not_elem_of_nil.
    + constructor.
    + right. exists [], []. rewrite Hr. by split_and!.
  - intros s1 s2 _ Hs. destruct Hs as [s r' Hs Hnew|s out h body Hwire Hh Hnew Hpeek Hlen|s st _]; [..|done].
    + by apply (proxy_inv cfg client broker).
    + by apply (answer_inv s out h body).
Qed.

(** C8: a response that must be rewritten never bypasses the rewriter. On a
    connection to a broker that answers each request at most once, after the
    whole of it has arrived, and with a client that never uses a correlation
    id twice on the connection (an assumption about the client, which conn.go
    does not check), over every interleaving of pumps, broker and shutdown,
    and whatever the rest of the process does to the interceptor's state
    meanwhile: when the downstream pump looks up the response to a request
    that the interceptor chose to rewrite, the request's entry is in the
    tracker, unless it expired there; and the pump's next step hands the
    payload to that request's rewriter or ends the connection, but never
    forwards the response as it came. *)
Theorem no_response_bypasses {IS R} `{Interceptor IS R} others cfg client broker (c : Conn IS R) s id body p :
  unused c -> rtc (session_step others cfg client broker) (session_start c) s ->
  down (run s) = DTake id body -> must s !! id = Some p -> ~ gone s id ->
  table (run s) !! id = Some p /\
  forall r', sys_step cfg client broker (run s) r' -> down r' <> down (run s) ->
    (exists rw payload, P_Rewrite p = Some rw /\ down r' = DRewrite p rw payload) \/
    (exists e, down r' = DReturn e).
Proof.
  intros Hc Hr Hd Hp Hg. pose proof (session_reachable _ _ _ _ _ _ Hc Hr) as Hinv.
  destruct (at_hand_new _ _ _ Hinv Hd) as (Hid & Hnt & _). destruct Hinv as (sent & _ & _ & Hsent & Hm & Hans & _).
  assert (table (run s) !! id = Some p) as Ht.
  { destruct (Hans id Hid) as (out & h & Ho & Hh & <-).
    destruct (Hsent out h Ho Hh) as [_ Hsafe]. by destruct (Hsafe p Hp) as [|[|]]. }
  split; [done|]. intros r' Hs Hne. destruct (Hm _ _ Hp) as (Hpid & [rw Hrw] & _).
  destruct (step_cases _ _ _ _ _ Hs) as [[_ ?]|[[Hdown _]|(_ & _ & [?|[Ho _]])]]; [done| |done|by rewrite Hd in Ho].
  rewrite Hd in Hdown. inversion Hdown as [| |? ? ? q t Htake E1 E2| |]; subst.
  unfold Take in Htake. unfold table in Ht. rewrite Ht in Htake. injection Htake as <- <-.
  unfold down_taken. rewrite Hrw. destruct (DecodeResponseHeader _ _ _); [|by right; eauto..].
  destruct (go_slice _ _ _); [left; eauto|by right; eauto].
Qed.

(** A session: a Metadata request is read, registered and written, the broker
    answers it, and the response is looked up. *)
Module Run.

Definition no_hang : Peer := mkPeer false false.
Definition request : list byte := Eval vm_compute in metadata_request 5.
Definition header : RequestHeader := mkRequestHeader APIMetadata 1 5 "c" false 11.
Definition out : list byte := Eval vm_compute in take 11 request ++ [Byte.x2a].
Definition reply : list byte := Eval vm_compute in AppendResponseHeader [] APIMetadata 1 5 ++ [Byte.x07].
Definition pend : Pending unit := mkPending APIMetadata 1 5 9 (Some tt) (Some [Byte.x2a]).

Definition c0 : Conn unit unit := stub_conn (frame_bytes request) [] (NewTracker 0 0).
Definition up_buffer : Buffer := Eval vm_compute in snd (fst (ReadFrame MaxFrameSize (mkBuffer [] 0) (clientR c0))).
Definition c2 : Conn unit unit :=
  mkConn (mkStream [] EOF) (clientW c0) (brokerR c0) (brokerW c0) up_buffer (downBuf c0) (tracker c0) (frames c0) tt.
Definition c4 : Conn unit unit :=
  mkConn (clientR c2) (clientW c2) (brokerR c2) (brokerW c2) (upBuf c2) (downBuf c2)
    (snd (Register (tracker c2) 9 pend)) (frames c2) tt.
Definition c5 : Conn unit unit :=
  mkConn (clientR c4) (clientW c4) (brokerR c4) (mkSink (frame_bytes out) None) (upBuf c4) (downBuf c4)
    (tracker c4) (IncClientToBroker (frames c4)) tt.
Definition down_buffer : Buffer :=
  Eval vm_compute in snd (fst (ReadFrame MaxFrameSize (mkBuffer [] 0) (mkStream (frame_bytes reply) EOF))).
Definition c8 : Conn unit unit :=
  mkConn (clientR c5) (clientW c5) (mkStream [] EOF) (brokerW c5) (upBuf c5) down_buffer (tracker c5) (frames c5) tt.

Definition at_ (c : Conn unit unit) (u : up_pc unit) (d : down_pc unit) : RunState unit unit :=
  mkRun c u d [] Fresh None WSelect MFirst false.

Abbreviation step := (@sys_step _ _ stub_interceptor default_config no_hang no_hang).
Abbreviation sess := (@session_step _ _ stub_interceptor (fun _ _ => True) default_config no_hang no_hang).

Definition s0 : Session := session_start c0.
Definition s1 : Session := stepped s0 (at_ c0 URead DTop).
Definition s2 : Session := stepped s1 (at_ c2 (UIntercept header request [Byte.xff; Byte.xfe]) DTop).
Definition s3 : Session := stepped s2 (at_ c2 (URegister pend out) DTop).
Definition s4 : Session := stepped s3 (at_ c4 (UWrite out) DTop).
Definition s5 : Session := stepped s4 (at_ c5 UTop DTop).
Definition s6 : Session :=
  mkSession (deliver (run s5) reply) (seen s5) (must s5) (gone s5) (taken s5) (answered s5 ++ [5]) (asked s5)
    (<[5 := reply]> (replies s5)).
Definition s7 : Session :=
  stepped s6 (mkRun (rconn (run s6)) UTop DRead [] Fresh None WSelect MFirst false).
Definition s8 : Session := stepped s7 (at_ c8 UTop (DTake 5 reply)).

Lemma steps : rtc sess s0 s8.
Proof.
  eapply rtc_l.
  { apply (sess_proxy _ _ _ _ s0 (at_ c0 URead DTop)); [|done].
    apply sys_go. apply (go_up default_config no_hang no_hang (run s0) URead c0).
    apply (up_step_deadline default_config no_hang no_hang false false c0 None). }
  eapply rtc_l.
  { apply (sess_proxy _ _ _ _ s1 (at_ c2 (UIntercept header request [Byte.xff; Byte.xfe]) DTop)).
    - apply sys_go. apply (go_up default_config no_hang no_hang (run s1) (UIntercept header request _) c2).
      apply (up_step_read default_config no_hang no_hang false false c0 (inr request) up_buffer (mkStream [] EOF)).
      apply reads_open; [done|vm_compute; reflexivity|done].
    - intros id [= <-]. set_solver. }
  eapply rtc_l.
  { apply (sess_proxy _ _ _ _ s2 (at_ c2 (URegister pend out) DTop)); [|done].
    apply sys_go. apply (go_up default_config no_hang no_hang (run s2) (URegister pend out) c2).
    apply (up_step_intercept default_config no_hang no_hang false false c2 header request _
      (Some (mkPending 0 0 0 0 (Some tt) (Some [Byte.x2a]))) tt 9). reflexivity. }
  eapply rtc_l.
  { apply (sess_proxy _ _ _ _ s3 (at_ c4 (UWrite out) DTop)); [|done].
    apply sys_go. apply (go_up default_config no_hang no_hang (run s3) (UWrite out) c4).
    apply (up_step_register default_config no_hang no_hang false false c2 pend out true _ 9). vm_compute. reflexivity. }
  eapply rtc_l.
  { apply (sess_proxy _ _ _ _ s4 (at_ c5 UTop DTop)); [|done].
    apply sys_go. apply (go_up default_config no_hang no_hang (run s4) UTop c5).
    apply (up_step_write default_config no_hang no_hang false false c4 out None (mkSink (frame_bytes out) None)).
    apply writes_open; [vm_compute; reflexivity|done|done]. }
  eapply rtc_l.
  { apply (sess_answer _ default_config no_hang no_hang s5 out header reply).
    - exists [], []. split; [by repeat constructor|]. reflexivity.
    - vm_compute. reflexivity.
    - cbn. set_solver.
    - vm_compute. reflexivity.
    - vm_compute. reflexivity. }
  change (mkSession (deliver (run s5) reply) _ _ _ _ _ _ _) with s6.
  eapply rtc_l.
  { apply (sess_proxy _ _ _ _ s6 (mkRun (rconn (run s6)) UTop DRead [] Fresh None WSelect MFirst false)); [|done].
    apply sys_go. apply (go_down default_config no_hang no_hang (run s6) DRead (rconn (run s6))).
    apply (down_step_deadline default_config no_hang no_hang false false (rconn (run s6)) None). }
  apply rtc_once. apply (sess_proxy _ _ _ _ s7 (at_ c8 UTop (DTake 5 reply))); [|done].
  apply sys_go. apply (go_down default_config no_hang no_hang (run s7) (DTake 5 reply) c8).
  apply (down_step_read default_config no_hang no_hang false false (rconn (run s6)) (inr reply) down_buffer
    (mkStream [] EOF)).
  apply reads_open; [done|vm_compute; reflexivity|done].
Qed.

(** Nothing expired on the way. *)
Lemma not_gone : ~ gone s8 5.
Proof.
  assert (forall (s : Session (IS := unit) (R := unit)) r', (forall q o, up (run s) = URegister q o -> table (run s) !! 5 = None) ->
    ~ gone s 5 -> ~ gone (stepped s r') 5) as Hs.
  { intros s r' Hu Hg [?|(p & Hp & q & o & now & E & _)]; [done|]. by rewrite (Hu q o E) in Hp. }
  apply Hs; [done|]. apply Hs; [done|]. change (gone s6) with (gone s5).
  apply Hs; [done|]. apply Hs; [done|]. apply Hs; [done|]. apply Hs; [done|]. apply Hs; [done|].
  by intros [].
Qed.

End Run.

Lemma no_response_bypasses_witness :
  table (run Run.s8) !! 5 = Some Run.pend /\
  forall r', Run.step (run Run.s8) r' -> down r' <> down (run Run.s8) ->
    (exists rw payload, P_Rewrite Run.pend = Some rw /\ down r' = DRewrite Run.pend rw payload) \/
    (exists e, down r' = DReturn e).
Proof.
  apply (@no_response_bypasses _ _ stub_interceptor (fun _ _ => True) default_config Run.no_hang Run.no_hang Run.c0 Run.s8 5 Run.reply
    Run.pend).
  - split; reflexivity.
  - exact Run.steps.
  - reflexivity.
  - reflexivity.
  - exact Run.not_gone.
Defined.
