(* ===== verification/Topology.v ===== *)
(** * Address rewriting: internal/topology/topology.go, rewriter.go

    The mapping from real to advertised broker endpoints, the parser of the
    [-topology] flag, and the rewriting of Metadata and FindCoordinator
    responses.  Two functions of Go's library work on the text of a host and
    are arguments of the model (the class [HostText]): whether the text is an
    IPv6 address ([net.ParseIP]) and its lower case ([strings.ToLower]). *)

From stdpp Require Import base numbers list strings gmap pretty.
From Stdlib Require Import ZArith Lia Strings.Byte Ascii.
From S2P Require Import Prelude Primitives Codec Header MetadataCodec FindCoord.

(** ** Endpoints and mappings *)

Class HostText := {
  (** [ip := net.ParseIP(host); ip != nil && ip.To4() == nil] *)
  is_ip6 : string -> bool;
  (** [strings.ToLower] *)
  ToLower : string -> string;
}.

Record Endpoint := mkEndpoint { EP_Host : string; EP_Port : Z }.

#[global] Instance Endpoint_eq_dec : EqDecision Endpoint.
Proof. solve_decision. Defined.

Record Mapping := mkMapping {
  byNodeID : gmap Z Endpoint;
  byHostPt : gmap string Endpoint;
}.

Definition New : Mapping := mkMapping ∅ ∅.

Inductive add_error :=
| InvalidReal (e : Endpoint)
| InvalidAdvertised (e : Endpoint)
| NodeRemapped (nodeID : Z) (existing : Endpoint)
| RealRemapped (key : string) (existing : Endpoint).

Definition valid_endpoint (e : Endpoint) : bool :=
  negb (bool_decide (EP_Host e = ""%string)) && (0 <? EP_Port e).

(** [existing, ok := m[k]; ok && existing != advertised]: the conflicting entry. *)
Definition conflict `{Countable K} (m : gmap K Endpoint) (k : K) (adv : Endpoint)
    : option Endpoint :=
  match m !! k with
  | Some existing => if decide (existing = adv) then None else Some existing
  | None => None
  end.

Section mapping.
Context {HT : HostText}.

Definition EndpointString (e : Endpoint) : string :=
  if is_ip6 (EP_Host e)
  then ("[" ++ EP_Host e ++ "]:" ++ pretty (EP_Port e))%string
  else (EP_Host e ++ ":" ++ pretty (EP_Port e))%string.

(** [Mapping.Add]: the error it returns, if any, and the mapping it leaves.
    The node id is recorded before the host:port key is checked, so a conflict
    on the latter leaves the former in place. *)
Definition Add (m : Mapping) (nodeID : Z) (realEP advertised : Endpoint)
    : option add_error * Mapping :=
  if negb (valid_endpoint realEP) then (Some (InvalidReal realEP), m) else
  if negb (valid_endpoint advertised) then (Some (InvalidAdvertised advertised), m) else
  let add_host (m : Mapping) :=
    let key := EndpointString realEP in
    match conflict (byHostPt m) key advertised with
    | Some existing => (Some (RealRemapped key existing), m)
    | None => (None, mkMapping (byNodeID m) (<[key := advertised]> (byHostPt m)))
    end in
  if 0 <=? nodeID then
    match conflict (byNodeID m) nodeID advertised with
    | Some existing => (Some (NodeRemapped nodeID existing), m)
    | None => add_host (mkMapping (<[nodeID := advertised]> (byNodeID m)) (byHostPt m))
    end
  else add_host m.

(** [Mapping.Lookup] on a possibly nil receiver. *)
Definition Lookup (m : option Mapping) (nodeID : Z) (host : string) (port : Z)
    : option Endpoint :=
  match m with
  | None => None
  | Some m =>
      match (if 0 <=? nodeID then byNodeID m !! nodeID else None) with
      | Some e => Some e
      | None => byHostPt m !! EndpointString (mkEndpoint (ToLower host) port)
      end
  end.

Definition Len (m : option Mapping) : Z :=
  match m with
  | None => 0
  | Some m => Z.of_nat (size (byNodeID m))
  end.

(** ** Rewriting responses *)

Definition rewrite_broker (m : option Mapping) (b : MetadataBroker) : MetadataBroker * Z :=
  match Lookup m (MB_NodeID b) (MB_Host b) (MB_Port b) with
  | Some e => (mkMetadataBroker (MB_NodeID b) (EP_Host e) (EP_Port e) (MB_Rack b) (MB_RackNull b), 1)
  | None => (b, 0)
  end.

Definition set_brokers (r : MetadataResponse) (bs : list MetadataBroker) : MetadataResponse :=
  mkMetadataResponse (MR_Version r) (MR_ThrottleTimeMs r) bs (MR_ClusterID r)
    (MR_ClusterIDNull r) (MR_ControllerID r) (MR_Topics r) (MR_ClusterAuthorizedOperations r).

(** The count of an [n++] loop. *)
Definition total (ns : list Z) : Z := fold_right Z.add 0 ns.

Definition RewriteMetadataResponse (r : MetadataResponse) (m : option Mapping)
    : MetadataResponse * Z :=
  match m with
  | None => (r, 0)
  | Some _ =>
      let rs := map (rewrite_broker m) (MR_Brokers r) in
      (set_brokers r (map fst rs), total (map snd rs))
  end.

Definition rewrite_entry (m : option Mapping) (c : FindCoordinatorEntry)
    : FindCoordinatorEntry * Z :=
  if bool_decide (FE_Host c = ""%string) || (FE_Port c <=? 0) then (c, 0) else
  match Lookup m (FE_NodeID c) (FE_Host c) (FE_Port c) with
  | Some e => (mkFindCoordinatorEntry (FE_Key c) (FE_NodeID c) (EP_Host e) (EP_Port e)
                 (FE_ErrorCode c) (FE_ErrorMessage c) (FE_ErrorMessageNull c), 1)
  | None => (c, 0)
  end.

Definition set_coordinators (r : FindCoordinatorResponse) (cs : list FindCoordinatorEntry)
    : FindCoordinatorResponse :=
  mkFindCoordinatorResponse (FC_Version r) (FC_ThrottleTimeMs r) (FC_ErrorCode r)
    (FC_ErrorMessage r) (FC_ErrorMessageNull r) (FC_NodeID r) (FC_Host r) (FC_Port r) cs.

Definition set_coordinator (r : FindCoordinatorResponse) (e : Endpoint)
    : FindCoordinatorResponse :=
  mkFindCoordinatorResponse (FC_Version r) (FC_ThrottleTimeMs r) (FC_ErrorCode r)
    (FC_ErrorMessage r) (FC_ErrorMessageNull r) (FC_NodeID r) (EP_Host e) (EP_Port e)
    (FC_Coordinators r).

Definition RewriteFindCoordinatorResponse (r : FindCoordinatorResponse) (m : option Mapping)
    : FindCoordinatorResponse * Z :=
  match m with
  | None => (r, 0)
  | Some _ =>
      if FC_Version r <=? 3 then
        if negb (bool_decide (FC_Host r = ""%string)) && (0 <? FC_Port r) then
          match Lookup m (FC_NodeID r) (FC_Host r) (FC_Port r) with
          | Some e => (set_coordinator r e, 1)
          | None => (r, 0)
          end
        else (r, 0)
      else
        let rs := map (rewrite_entry m) (FC_Coordinators r) in
        (set_coordinators r (map fst rs), total (map snd rs))
  end.

(** ** Parsing the [-topology] flag *)

(** [strings.Split(s, sep)] for a one-byte separator. *)
Fixpoint split_on (sep : ascii) (s : string) : list string :=
  match s with
  | EmptyString => [""%string]
  | String c s =>
      if Ascii.eqb c sep then ""%string :: split_on sep s else
      match split_on sep s with
      | h :: t => String c h :: t
      | [] => [String c ""]
      end
  end.

(** [strings.TrimSpace]: the white space of [unicode.IsSpace], by its encodings
    of one byte, of two (U+0085, U+00A0) and of three (U+1680, U+2000 to U+200A,
    U+2028, U+2029, U+202F, U+205F, U+3000). *)
Definition is_space (c : ascii) : bool :=
  let n := N_of_ascii c in ((9 <=? n) && (n <=? 13))%N || (n =? 32)%N.

Definition is_space2 (c1 c2 : ascii) : bool :=
  let n1 := N_of_ascii c1 in let n2 := N_of_ascii c2 in
  (n1 =? 0xC2)%N && ((n2 =? 0x85)%N || (n2 =? 0xA0)%N).

Definition is_space3 (c1 c2 c3 : ascii) : bool :=
  let n1 := N_of_ascii c1 in let n2 := N_of_ascii c2 in let n3 := N_of_ascii c3 in
  ((n1 =? 0xE1)%N && (n2 =? 0x9A)%N && (n3 =? 0x80)%N) ||
  ((n1 =? 0xE2)%N && (n2 =? 0x80)%N &&
     (((0x80 <=? n3)%N && (n3 <=? 0x8A)%N) || (n3 =? 0xA8)%N || (n3 =? 0xA9)%N || (n3 =? 0xAF)%N)) ||
  ((n1 =? 0xE2)%N && (n2 =? 0x81)%N && (n3 =? 0x9F)%N) ||
  ((n1 =? 0xE3)%N && (n2 =? 0x80)%N && (n3 =? 0x80)%N).

(** White space at the front of a list of bytes dropped, for given encodings. *)
Fixpoint trim (sp2 : ascii -> ascii -> bool) (sp3 : ascii -> ascii -> ascii -> bool) (l : list ascii) : list ascii :=
  match l with
  | [] => []
  | c1 :: l1 =>
      if is_space c1 then trim sp2 sp3 l1 else
      match l1 with
      | [] => l
      | c2 :: l2 =>
          if sp2 c1 c2 then trim sp2 sp3 l2 else
          match l2 with
          | [] => l
          | c3 :: l3 => if sp3 c1 c2 c3 then trim sp2 sp3 l3 else l
          end
      end
  end.

(** At the front, and at the end, where the bytes are met in reverse order. *)
Definition trim_left : list ascii -> list ascii := trim is_space2 is_space3.
Definition trim_right (l : list ascii) : list ascii :=
  reverse (trim (fun c2 c1 => is_space2 c1 c2) (fun c3 c2 c1 => is_space3 c1 c2 c3) (reverse l)).

Definition TrimSpace (s : string) : string :=
  String.string_of_list_ascii (trim_right (trim_left (String.list_ascii_of_string s))).

Definition digit (c : ascii) : option Z :=
  let n := Z.of_N (N_of_ascii c) in
  if (48 <=? n) && (n <=? 57) then Some (n - 48) else None.

(** The digits of a non-empty decimal numeral. *)
Fixpoint digits (l : list ascii) (acc : Z) : option Z :=
  match l with
  | [] => Some acc
  | c :: l => match digit c with Some d => digits l (acc * 10 + d) | None => None end
  end.

(** [strconv.ParseInt(s, 10, 32)]; [None] is an error. *)
Definition ParseInt32 (s : string) : option Z :=
  let '(neg, ds) :=
    match String.list_ascii_of_string s with
    | c :: l => if Ascii.eqb c "-" then (true, l)
                else if Ascii.eqb c "+" then (false, l) else (false, c :: l)
    | [] => (false, [])
    end in
  match ds with
  | [] => None
  | _ =>
      match digits ds 0 with
      | None => None
      | Some n =>
          if neg then if 2 ^ 31 <? n then None else Some (- n)
          else if 2 ^ 31 <=? n then None else Some n
      end
  end.

(** [IndexByte] and [LastIndexByte]. *)
Fixpoint index_byte (c : ascii) (l : list ascii) : option nat :=
  match l with
  | [] => None
  | x :: l => if Ascii.eqb x c then Some O else S <$> index_byte c l
  end.

Definition last_index_byte (c : ascii) (l : list ascii) : option nat :=
  match index_byte c (reverse l) with
  | Some i => Some (length l - 1 - i)%nat
  | None => None
  end.

Definition has_byte (c : ascii) (l : list ascii) : bool :=
  match index_byte c l with Some _ => true | None => false end.

(** [net.SplitHostPort]; [None] is an error. *)
Definition SplitHostPort (hostport : string) : option (string * string) :=
  let l := String.list_ascii_of_string hostport in
  match last_index_byte ":" l with
  | None => None
  | Some i =>
      let res :=
        match l with
        | "["%char :: _ =>
            match index_byte "]" l with
            | None => None
            | Some e => if (S e =? i)%nat then Some (drop 1 (take e l), 1%nat, S e) else None
            end
        | _ => let host := take i l in
               if has_byte ":" host then None else Some (host, 0%nat, 0%nat)
        end in
      match res with
      | None => None
      | Some (host, j, k) =>
          if has_byte "[" (drop j l) || has_byte "]" (drop k l) then None
          else Some (String.string_of_list_ascii host,
                     String.string_of_list_ascii (drop (S i) l))
      end
  end.

Definition parseEndpoint (s : string) : option Endpoint :=
  if bool_decide (s = ""%string) then None else
  match SplitHostPort s with
  | None => None
  | Some (host, portStr) =>
      match ParseInt32 portStr with
      | None => None
      | Some port => if (port <=? 0) || (65535 <? port) then None else Some (mkEndpoint host port)
      end
  end.

(** One iteration of the loop of [ParseFlag]: the mapping with the entry added. *)
Definition parse_entry (m : Mapping) (raw : string) : option Mapping :=
  let part := TrimSpace raw in
  if bool_decide (part = ""%string) then Some m else
  match split_on "=" part with
  | [f0; f1; f2] =>
      match ParseInt32 (TrimSpace f0) with
      | None => None
      | Some nid =>
          match parseEndpoint (TrimSpace f1), parseEndpoint (TrimSpace f2) with
          | Some realEP, Some adv =>
              match Add m nid realEP adv with
              | (None, m') => Some m'
              | (Some _, _) => None
              end
          | _, _ => None
          end
      end
  | _ => None
  end.

(** A loop that stops at the first error. *)
Fixpoint fold_option {A B} (f : A -> B -> option A) (bs : list B) (a : A) : option A :=
  match bs with
  | [] => Some a
  | b :: bs => match f a b with Some a' => fold_option f bs a' | None => None end
  end.

Definition ParseFlag (spec : string) : option Mapping :=
  if bool_decide (TrimSpace spec = ""%string) then Some New
  else fold_option parse_entry (split_on "," spec) New.

(** ** The topology file *)

Record FileEntry := mkFileEntry {
  FI_NodeID : Z;
  FI_Real : string;
  FI_Advertised : string;
}.

Definition load_entry (m : Mapping) (e : FileEntry) : option Mapping :=
  match parseEndpoint (FI_Real e), parseEndpoint (FI_Advertised e) with
  | Some realEP, Some adv =>
      match Add m (FI_NodeID e) realEP adv with
      | (None, m') => Some m'
      | (Some _, _) => None
      end
  | _, _ => None
  end.

(** The loop of [LoadFile] over the entries decoded from the file. *)
Definition LoadEntries (entries : list FileEntry) : option Mapping :=
  fold_option load_entry entries New.

End mapping.

(** A host text for concrete runs: ASCII lower case, and an IPv6 address is a
    text with a colon. *)
Definition ascii_lower (c : ascii) : ascii :=
  let n := N_of_ascii c in
  if ((65 <=? n) && (n <=? 90))%N then ascii_of_N (n + 32) else c.

Definition ascii_host_text : HostText := {|
  is_ip6 := fun s => has_byte ":" (String.list_ascii_of_string s);
  ToLower := fun s =>
    String.string_of_list_ascii (map ascii_lower (String.list_ascii_of_string s));
|}.

(** The parser on the inputs of the repository's tests. *)
Example parse_flag_ok :
  let _ := ascii_host_text in
  match ParseFlag "0=10.0.0.1:9092=proxy.local:9192, 1=10.0.0.2:9092=proxy.local:9193" with
  | Some m =>
      Len (Some m) = 2 /\
      Lookup (Some m) 0 "10.0.0.1" 9092 = Some (mkEndpoint "proxy.local" 9192) /\
      Lookup (Some m) (-1) "10.0.0.2" 9092 = Some (mkEndpoint "proxy.local" 9193) /\
      Lookup (Some m) 99 "nope" 1 = None
  | None => False
  end.
Proof. by vm_compute. Qed.

Example parse_flag_errors :
  let _ := ascii_host_text in
  Forall (fun s => ParseFlag s = None)
    ["0=onlyone"; "abc=10.0.0.1:9092=p:1"; "0=10.0.0.1=p:1"; "0=10.0.0.1:9092=p:0"]%string.
Proof. by repeat constructor; vm_compute. Qed.

(** ** Facts about mappings *)

Definition advertised (m : Mapping) (e : Endpoint) : Prop :=
  (exists k, byNodeID m !! k = Some e) \/ (exists k, byHostPt m !! k = Some e).

Definition wf_mapping (m : Mapping) : Prop := forall e, advertised m e -> valid_endpoint e = true.

(** [m'] has all the entries of [m]. *)
Definition grows (m m' : Mapping) : Prop :=
  byNodeID m ⊆ byNodeID m' /\ byHostPt m ⊆ byHostPt m'.

#[global] Instance grows_preorder : PreOrder grows.
Proof.
  split; [by intros m|]. intros m1 m2 m3 [??] [??]. split; by etrans.
Qed.

Lemma conflict_none `{Countable K} (m : gmap K Endpoint) k adv :
  conflict m k adv = None -> m ⊆ <[k := adv]> m.
Proof.
  unfold conflict. intros E. destruct (m !! k) as [e|] eqn:Hk.
  - case_decide; [|done]. subst. by rewrite insert_id.
  - by apply insert_subseteq.
Qed.

Section mapping_facts.
Context {HT : HostText}.

(** What a successful [Add] did. *)
Lemma Add_ok m n r a m' :
  Add m n r a = (None, m') ->
  valid_endpoint r = true /\ valid_endpoint a = true /\
  m' = mkMapping (if 0 <=? n then <[n := a]> (byNodeID m) else byNodeID m)
                 (<[EndpointString r := a]> (byHostPt m)).
Proof.
  unfold Add. destruct (valid_endpoint r); [|done]. destruct (valid_endpoint a); [|done].
  simpl. destruct (0 <=? n).
  - destruct (conflict (byNodeID m) _ _); [done|]. simpl.
    destruct (conflict (byHostPt m) _ _); [done|]. by intros [= <-].
  - destruct (conflict (byHostPt m) _ _); [done|]. by intros [= <-].
Qed.

(** [Add] never drops or changes an entry, also when it fails. *)
Lemma Add_grows m n r a : grows m (snd (Add m n r a)).
Proof.
  unfold Add. destruct (valid_endpoint r); [|done]. destruct (valid_endpoint a); [|done].
  simpl. destruct (0 <=? n).
  - destruct (conflict (byNodeID m) _ _) eqn:E1; [done|]. apply conflict_none in E1.
    destruct (conflict (byHostPt _) _ _) eqn:E2; [done|]. by apply conflict_none in E2.
  - destruct (conflict (byHostPt m) _ _) eqn:E2; [done|]. by apply conflict_none in E2.
Qed.

Lemma Add_ok_grows m n r a m' : Add m n r a = (None, m') -> grows m m'.
Proof. intros E. pose proof (Add_grows m n r a) as H. by rewrite E in H. Qed.

Lemma Add_wf m n r a m' : wf_mapping m -> Add m n r a = (None, m') -> wf_mapping m'.
Proof.
  intros Hm (Hr & Ha & ->)%Add_ok e [[k Hk]|[k Hk]]; simpl in Hk.
  - destruct (0 <=? n); [|apply Hm; left; eauto].
    rewrite lookup_insert in Hk. case_decide; [by simplify_eq|]. apply Hm. left. eauto.
  - rewrite lookup_insert in Hk. case_decide; [by simplify_eq|]. apply Hm. right. eauto.
Qed.

Lemma lookup_node m n e host port :
  0 <= n -> byNodeID m !! n = Some e -> Lookup (Some m) n host port = Some e.
Proof. intros Hn E. simpl. destruct (Z.leb_spec 0 n); [|lia]. by rewrite E. Qed.

Lemma lookup_host m n e host port :
  n < 0 \/ byNodeID m !! n = None ->
  byHostPt m !! EndpointString (mkEndpoint (ToLower host) port) = Some e ->
  Lookup (Some m) n host port = Some e.
Proof.
  intros Hn E. simpl. destruct (Z.leb_spec 0 n); [|done].
  destruct Hn as [?|Hn]; [lia|]. by rewrite Hn.
Qed.

Lemma lookup_advertised m n host port e :
  Lookup (Some m) n host port = Some e -> advertised m e.
Proof.
  simpl. destruct (0 <=? n); [|right; eauto].
  destruct (byNodeID m !! n) eqn:E; [|right; eauto]. intros [= ->]. left. eauto.
Qed.

(** ** Facts about the loaders *)

Lemma fold_option_inv {A B} (P : A -> Prop) (f : A -> B -> option A) bs a a' :
  P a -> (forall a b a', P a -> f a b = Some a' -> P a') ->
  fold_option f bs a = Some a' -> P a'.
Proof.
  intros Ha Hf. revert a Ha. induction bs as [|b bs IH]; simpl; intros a Ha E.
  - by simplify_eq.
  - destruct (f a b) eqn:F; [|done]. eauto.
Qed.

Lemma fold_option_elem {A B} (R : A -> A -> Prop) `{!PreOrder R}
    (f : A -> B -> option A) bs a a' b :
  (forall a b a', f a b = Some a' -> R a a') ->
  b ∈ bs -> fold_option f bs a = Some a' ->
  exists a1 a2, f a1 b = Some a2 /\ R a2 a'.
Proof.
  intros HR Hb. revert a. induction bs as [|b' bs IH]; intros a E; [by apply elem_of_nil in Hb|].
  simpl in E. destruct (f a b') as [a1|] eqn:F; [|done].
  apply elem_of_cons in Hb as [->|Hb].
  - exists a, a1. split; [done|].
    apply (fold_option_inv (R a1) f bs a1 a'); [done| |done].
    intros x y z Hx Hz. etrans; eauto.
  - eauto.
Qed.

Lemma load_entry_grows m e m' : load_entry m e = Some m' -> grows m m'.
Proof.
  unfold load_entry. destruct (parseEndpoint _); [|done]. destruct (parseEndpoint _); [|done].
  destruct (Add _ _ _ _) as [[?|] m1] eqn:E; [done|]. intros [= <-]. by eapply Add_ok_grows.
Qed.

Lemma parseEndpoint_port s e : parseEndpoint s = Some e -> 1 <= EP_Port e <= 65535.
Proof.
  unfold parseEndpoint. destruct (bool_decide _); [done|].
  destruct (SplitHostPort s) as [[h p]|]; [|done]. destruct (ParseInt32 p) as [n|]; [|done].
  destruct (Z.leb_spec n 0); [done|]. destruct (Z.ltb_spec 65535 n); [done|]. simpl.
  intros [= <-]. simpl. lia.
Qed.

(** The endpoints a loaded mapping can advertise. *)
Definition servable (e : Endpoint) : Prop :=
  EP_Host e <> ""%string /\ 1 <= EP_Port e <= 65535.

Definition servable_mapping (m : Mapping) : Prop := forall e, advertised m e -> servable e.

Lemma valid_servable a s :
  valid_endpoint a = true -> parseEndpoint s = Some a -> servable a.
Proof.
  unfold valid_endpoint. intros [Hh _]%andb_true_iff Hp%parseEndpoint_port.
  apply negb_true_iff, bool_decide_eq_false in Hh. by split.
Qed.

Lemma Add_servable m n r a s m' :
  servable_mapping m -> parseEndpoint s = Some a -> Add m n r a = (None, m') ->
  servable_mapping m'.
Proof.
  intros Hm Hp (Hr & Ha & ->)%Add_ok e He.
  assert (e = a \/ advertised m e) as [->|He']; [|by eapply valid_servable|by apply Hm].
  destruct He as [[k Hk]|[k Hk]]; simpl in Hk.
  - destruct (0 <=? n); [|right; left; eauto].
    rewrite lookup_insert in Hk. case_decide; [by simplify_eq; left|]. right; left. eauto.
  - rewrite lookup_insert in Hk. case_decide; [by simplify_eq; left|]. right; right. eauto.
Qed.

Lemma servable_New : servable_mapping New.
Proof. intros e [[k Hk]|[k Hk]]; simpl in Hk; by rewrite lookup_empty in Hk. Qed.

Lemma parse_entry_servable m raw m' :
  servable_mapping m -> parse_entry m raw = Some m' -> servable_mapping m'.
Proof.
  intros Hm. unfold parse_entry. destruct (bool_decide _); [by intros [= <-]|].
  destruct (split_on _ _) as [|f0 [|f1 [|f2 [|??]]]]; try done.
  destruct (ParseInt32 _); [|done]. destruct (parseEndpoint _); [|done].
  destruct (parseEndpoint (TrimSpace f2)) eqn:Ea; [|done].
  destruct (Add _ _ _ _) as [[?|] m1] eqn:E; [done|]. intros [= <-].
  by eapply Add_servable.
Qed.

Lemma load_entry_servable m e m' :
  servable_mapping m -> load_entry m e = Some m' -> servable_mapping m'.
Proof.
  intros Hm. unfold load_entry. destruct (parseEndpoint _); [|done].
  destruct (parseEndpoint (FI_Advertised e)) eqn:Ea; [|done].
  destruct (Add _ _ _ _) as [[?|] m1] eqn:E; [done|]. intros [= <-].
  by eapply Add_servable.
Qed.

(** ** Facts about the rewriters *)

Lemma rewrite_broker_count m b : 0 <= snd (rewrite_broker m b) <= 1.
Proof. unfold rewrite_broker. destruct (Lookup _ _ _ _); simpl; lia. Qed.

Lemma rewrite_broker_fields m b :
  MB_NodeID (fst (rewrite_broker m b)) = MB_NodeID b /\
  MB_Rack (fst (rewrite_broker m b)) = MB_Rack b /\
  MB_RackNull (fst (rewrite_broker m b)) = MB_RackNull b.
Proof. unfold rewrite_broker. by destruct (Lookup _ _ _ _). Qed.

Lemma rewrite_broker_mapped m b :
  snd (rewrite_broker (Some m) b) = 1 ->
  exists e, advertised m e /\
    MB_Host (fst (rewrite_broker (Some m) b)) = EP_Host e /\
    MB_Port (fst (rewrite_broker (Some m) b)) = EP_Port e.
Proof.
  unfold rewrite_broker. destruct (Lookup _ _ _ _) as [e|] eqn:E; [|done].
  intros _. exists e. split; [by eapply lookup_advertised|done].
Qed.

(** When the sum of 0/1 counts reaches the number of terms, all are 1. *)
Lemma total_all_one ns :
  Forall (fun n => 0 <= n <= 1) ns -> total ns = len ns -> Forall (fun n => n = 1) ns.
Proof.
  intros H. induction H as [|n ns Hn Hns IH]; simpl; [by constructor|].
  assert (forall l, Forall (fun n => 0 <= n <= 1) l -> 0 <= total l <= len l) as Hle.
  { clear. induction 1; simpl; [done|]. rewrite len_cons. lia. }
  specialize (Hle ns Hns). rewrite len_cons. intros E. constructor; [lia|]. apply IH. lia.
Qed.

End mapping_facts.

(** ** Properties *)

(** After an [Add] that returns no error, the node id resolves to the
    advertised endpoint whatever host and port the response carries, and the
    real endpoint resolves to it for every response without a mapped node id
    whose host has the registered spelling in lower case. *)
Theorem add_then_lookup {HT : HostText} m nodeID realEP adv m' :
  Add m nodeID realEP adv = (None, m') ->
  (0 <= nodeID -> forall host port, Lookup (Some m') nodeID host port = Some adv) /\
  (forall n host, (n < 0 \/ byNodeID m' !! n = None) -> ToLower host = EP_Host realEP ->
     Lookup (Some m') n host (EP_Port realEP) = Some adv).
Proof.
  intros (_ & _ & ->)%Add_ok. split.
  - intros Hn host port. apply lookup_node; [done|]. simpl.
    destruct (Z.leb_spec 0 nodeID); [|lia]. apply lookup_insert_eq.
  - intros n host Hn Hh. apply lookup_host; [done|]. simpl. rewrite Hh.
    destruct realEP. apply lookup_insert_eq.
Qed.

Lemma add_then_lookup_witness :
  let _ := ascii_host_text in
  let m' := snd (Add New 3 (mkEndpoint "b3" 9092) (mkEndpoint "p" 9194)) in
  Lookup (Some m') 3 "anything" 1 = Some (mkEndpoint "p" 9194) /\
  Lookup (Some m') (-1) "B3" 9092 = Some (mkEndpoint "p" 9194).
Proof.
  destruct (@add_then_lookup ascii_host_text New 3 (mkEndpoint "b3" 9092) (mkEndpoint "p" 9194)
    (snd (@Add ascii_host_text New 3 (mkEndpoint "b3" 9092) (mkEndpoint "p" 9194)))) as [H1 H2].
  - vm_compute. reflexivity.
  - split; [apply H1; lia|]. apply H2; [left; lia|]. vm_compute. reflexivity.
Defined.

(** An entry of a topology file that loads is recorded under its node id. *)
Lemma loaded_entries_in_force {HT : HostText} entries m e :
  LoadEntries entries = Some m -> e ∈ entries -> 0 <= FI_NodeID e ->
  exists adv, parseEndpoint (FI_Advertised e) = Some adv /\ byNodeID m !! FI_NodeID e = Some adv.
Proof.
  intros Hl He Hn.
  destruct (fold_option_elem grows load_entry entries New m e load_entry_grows He Hl)
    as (m1 & m2 & E & [Hg _]).
  unfold load_entry in E. destruct (parseEndpoint (FI_Real e)); [|done].
  destruct (parseEndpoint (FI_Advertised e)) as [adv|]; [|done].
  destruct (Add _ _ _ _) as [[?|] m3] eqn:EA; [done|]. injection E as ->.
  exists adv. split; [done|]. eapply lookup_weaken; [|exact Hg].
  apply Add_ok in EA as (_ & _ & ->). simpl.
  destruct (Z.leb_spec 0 (FI_NodeID e)); [|lia]. apply lookup_insert_eq.
Qed.

(** Every entry of a topology file that loads is in force: its node id
    resolves to the endpoint the entry advertises, whatever the other entries
    are and in whatever order they come. *)
Theorem loaded_entries_resolve {HT : HostText} entries m e host port :
  LoadEntries entries = Some m -> e ∈ entries -> 0 <= FI_NodeID e ->
  exists adv, parseEndpoint (FI_Advertised e) = Some adv /\
              Lookup (Some m) (FI_NodeID e) host port = Some adv.
Proof.
  intros Hl He Hn. destruct (loaded_entries_in_force entries m e Hl He Hn) as (adv & Ha & Hb).
  exists adv. split; [done|]. by apply lookup_node.
Qed.

Definition two_entries : list FileEntry :=
  [mkFileEntry 0 "10.0.0.1:9092" "proxy:9192"; mkFileEntry 1 "10.0.0.2:9092" "proxy:9193"].

Lemma loaded_entries_resolve_witness :
  exists m adv, @LoadEntries ascii_host_text two_entries = Some m /\
    parseEndpoint "proxy:9193" = Some adv /\ @Lookup ascii_host_text (Some m) 1 "x" 7 = Some adv.
Proof.
  destruct (@LoadEntries ascii_host_text two_entries) as [m|] eqn:E; [|by vm_compute in E].
  destruct (@loaded_entries_resolve ascii_host_text two_entries m
    (mkFileEntry 1 "10.0.0.2:9092" "proxy:9193") "x" 7 E) as (adv & H1 & H2).
  - unfold two_entries. right. left.
  - simpl. lia.
  - exists m, adv. split; [done|]. by split.
Defined.

(** C38: A mapping built from the flag or from a file only ever advertises
    endpoints a client can dial: a non-empty host and a port from 1 to 65535. *)
Theorem parsed_mapping_servable {HT : HostText} :
  (forall spec m, ParseFlag spec = Some m -> servable_mapping m) /\
  (forall entries m, LoadEntries entries = Some m -> servable_mapping m).
Proof.
  split.
  - intros spec m. unfold ParseFlag. destruct (bool_decide _).
    + intros [= <-]. apply servable_New.
    + apply fold_option_inv; [apply servable_New|apply parse_entry_servable].
  - intros entries m. apply fold_option_inv; [apply servable_New|apply load_entry_servable].
Qed.

Lemma parsed_mapping_servable_witness :
  exists m, @LoadEntries ascii_host_text two_entries = Some m /\ servable_mapping m.
Proof.
  destruct (@LoadEntries ascii_host_text two_entries) as [m|] eqn:E; [|vm_compute in E; discriminate].
  exists m. split; [reflexivity|]. apply (proj2 (@parsed_mapping_servable ascii_host_text) two_entries m E).
Defined.

(** C24: when the count returned by [RewriteMetadataResponse] says that every
    broker was rewritten, the client sees no real address: each broker of the
    response carries an advertised endpoint of the mapping, under its own node
    id and rack, and the topics, the controller and all other fields are those
    of the broker's response. *)
Theorem rewrite_metadata_no_leak {HT : HostText} r m :
  snd (RewriteMetadataResponse r (Some m)) = len (MR_Brokers r) ->
  let r' := fst (RewriteMetadataResponse r (Some m)) in
  Forall2 (fun b b' => MB_NodeID b' = MB_NodeID b /\ MB_Rack b' = MB_Rack b /\
                       MB_RackNull b' = MB_RackNull b /\
                       exists e, advertised m e /\ MB_Host b' = EP_Host e /\ MB_Port b' = EP_Port e)
    (MR_Brokers r) (MR_Brokers r') /\
  r = set_brokers r' (MR_Brokers r).
Proof.
  simpl. intros Hn. split; [|by destruct r].
  assert (Forall (fun n => n = 1) (map snd (map (rewrite_broker (Some m)) (MR_Brokers r)))) as Hone.
  { apply total_all_one; [|by rewrite Hn, !len_map].
    apply Forall_map, Forall_map, Forall_forall. intros b _. apply rewrite_broker_count. }
  clear Hn. induction (MR_Brokers r) as [|b bs IH]; simpl in *; [constructor|].
  inversion_clear Hone. constructor; [|by apply IH].
  destruct (rewrite_broker_fields (Some m) b) as (?&?&?).
  repeat split; [done..|by apply rewrite_broker_mapped].
Qed.

Definition sample_mapping : Mapping :=
  snd (@Add ascii_host_text New 1 (mkEndpoint "b1" 9092) (mkEndpoint "p" 9192)).
Definition sample_response : MetadataResponse :=
  mkMetadataResponse 9 0 [mkMetadataBroker 1 "b1" 9092 "r" false] "c" false 1 [] 0.

Lemma rewrite_metadata_no_leak_witness :
  let r' := fst (@RewriteMetadataResponse ascii_host_text sample_response (Some sample_mapping)) in
  sample_response = set_brokers r' (MR_Brokers sample_response).
Proof.
  apply (@rewrite_metadata_no_leak ascii_host_text sample_response sample_mapping).
  vm_compute. reflexivity.
Defined.

(** [RewriteFindCoordinatorResponse] never touches an error entry (an empty
    host or a port that is not positive), keeps keys, node ids and errors, and
    gives every other coordinator the endpoint [Lookup] finds for it, or
    leaves it as it was when there is none, in both response shapes. *)
Theorem rewrite_findcoord_spec {HT : HostText} r m :
  let r' := fst (RewriteFindCoordinatorResponse r (Some m)) in
  let target id host port :=
    if bool_decide (host = ""%string) || (port <=? 0) then mkEndpoint host port
    else default (mkEndpoint host port) (Lookup (Some m) id host port) in
  FC_Version r' = FC_Version r /\ FC_ErrorCode r' = FC_ErrorCode r /\ FC_NodeID r' = FC_NodeID r /\
  (FC_Version r <= 3 ->
     mkEndpoint (FC_Host r') (FC_Port r') = target (FC_NodeID r) (FC_Host r) (FC_Port r) /\
     FC_Coordinators r' = FC_Coordinators r) /\
  (3 < FC_Version r ->
     FC_Host r' = FC_Host r /\ FC_Port r' = FC_Port r /\
     Forall2 (fun c c' => FE_Key c' = FE_Key c /\ FE_NodeID c' = FE_NodeID c /\
                          FE_ErrorCode c' = FE_ErrorCode c /\
                          mkEndpoint (FE_Host c') (FE_Port c') =
                          target (FE_NodeID c) (FE_Host c) (FE_Port c))
       (FC_Coordinators r) (FC_Coordinators r')).
Proof.
  cbv zeta. unfold RewriteFindCoordinatorResponse.
  destruct (Z.leb_spec (FC_Version r) 3).
  - rewrite (Z.leb_antisym 0 (FC_Port r)). destruct (bool_decide _); simpl; [repeat split; (done || lia)|].
    destruct (0 <? FC_Port r); simpl; [|repeat split; (done || lia)].
    destruct (Lookup (Some m) (FC_NodeID r) (FC_Host r) (FC_Port r)) as [[h p]|] eqn:E;
      simpl in E; simpl; rewrite ?E; repeat split; (done || lia).
  - repeat split; try (done || lia). simpl.
    induction (FC_Coordinators r) as [|c cs IH]; simpl; constructor; [|done].
    unfold rewrite_entry. destruct (bool_decide _ || _); simpl; [done|].
    destruct (Lookup (Some m) (FE_NodeID c) (FE_Host c) (FE_Port c)) as [[h p]|] eqn:E;
      simpl in E; simpl; by rewrite ?E.
Qed.

Lemma ascii_lower_not_K c : ascii_lower c <> "K"%char.
Proof. by destruct c as [[] [] [] [] [] [] [] []]. Qed.

(** The lower-casing in [Lookup] is not applied by [Add]: a real endpoint
    registered with an upper-case letter is found under no spelling of its
    host, its registered one included, for responses without a mapped node id. *)
Theorem mixed_case_host_never_found :
  let _ := ascii_host_text in
  exists m, Add New (-1) (mkEndpoint "Kafka.Local" 9092) (mkEndpoint "proxy" 19092) = (None, m) /\
    (forall host, Lookup (Some m) (-1) host 9092 = None).
Proof.
  exists (mkMapping ∅ {["Kafka.Local:9092"%string := mkEndpoint "proxy" 19092]}).
  split; [vm_compute; reflexivity|]. intros host.
  cbn [Lookup byHostPt Z.leb Z.compare]. apply lookup_singleton_None.
  unfold EndpointString. simpl.
  destruct (has_byte _ _); [done|]. destruct host as [|c host]; [done|]. simpl.
  intros [= E _]. by apply (ascii_lower_not_K c).
Qed.
