(* ===== verification/Plan.v ===== *)
(** * The assignment planner: internal/plan/plan.go

    [Compute] as the code runs it: the pool of free partitions with its
    tombstones, retention of the previous plan, weighted distribution, the
    feasibility pass that steals from a loaded member, the final sort; and the
    rendering [ToAssignments].

    Go ranges over a map in an unspecified order.  Where that order can be
    observed it is an argument of the model ([MapOrder]), constrained only to
    be a permutation of the keys ([MapOrderOk]); the theorems hold for every
    such order. *)

From stdpp Require Import base numbers list strings gmap sorting.
From Stdlib Require Import ZArith Lia Strings.Byte.
From S2P Require Import Prelude Primitives Codec ConsumerProtocol.

(** ** Data *)

Record Member := mkMember { MemberID : string; Topics : list string; Lag : Z }.

(** [Plan]: memberID to topic to partitions.  A nil inner map and an empty one
    are read alike everywhere, and so are they here. *)
Abbreviation Plan := (gmap string (gmap string (list Z))).

Record Inputs := mkInputs {
  GroupID : string;
  Members : list Member;
  Partitions : gmap string (list Z);
  Previous : option Plan;
}.

(** [p[member][topic]], the nil slice when absent. *)
Definition owned (p : Plan) (member topic : string) : list Z :=
  default [] (default ∅ (p !! member) !! topic).

Definition PlanAdd (p : Plan) (member topic : string) (part : Z) : Plan :=
  let tm := default ∅ (p !! member) in
  <[member := <[topic := default [] (tm !! topic) ++ [part]]> tm]> p.

(** ** The orders in which maps are ranged over *)

Class MapOrder := {
  (** [for topic, parts := range in.Partitions] *)
  ord_parts : list string -> list string;
  (** [for topic, parts := range prev], for member [mid] *)
  ord_prev : string -> list string -> list string;
  (** [for did := range subs], for the starved member and the topic *)
  ord_subs : string -> string -> list string -> list string;
}.

Class MapOrderOk (MO : MapOrder) : Prop := {
  ord_parts_perm ks : ord_parts ks ≡ₚ ks;
  ord_prev_perm mid ks : ord_prev mid ks ≡ₚ ks;
  ord_subs_perm mid topic ks : ord_subs mid topic ks ≡ₚ ks;
}.

(** ** The pool of free partitions *)

Definition freeKey : Type := string * Z.

(** [freeKey{}], the tombstone. *)
Definition tombstone : freeKey := (""%string, 0).

Record freePool := mkPool { keys : list freeKey; index : gmap freeKey nat }.

Definition emptyPool : freePool := mkPool [] ∅.

Definition pool_add (f : freePool) (k : freeKey) : freePool :=
  match index f !! k with
  | Some _ => f
  | None => mkPool (keys f ++ [k]) (<[k := length (keys f)]> (index f))
  end.

Definition pool_remove (f : freePool) (k : freeKey) : bool * freePool :=
  match index f !! k with
  | None => (false, f)
  | Some idx => (true, mkPool (<[idx := tombstone]> (keys f)) (delete k (index f)))
  end.

(** The order of [sort.Slice] in [forEach]. *)
Definition key_le (k1 k2 : freeKey) : Prop :=
  if decide (k1.1 = k2.1) then k1.2 <= k2.2 else String.le k1.1 k2.1.

#[global] Instance key_le_dec : RelDecision key_le.
Proof. intros k1 k2. unfold key_le. destruct (decide (k1.1 = k2.1)); apply _. Defined.

(** The keys [forEach] visits, in order. *)
Definition pool_remaining (f : freePool) : list freeKey :=
  merge_sort key_le (filter (fun k => is_Some (index f !! k)) (keys f)).

(** ** Compute *)

Section compute.
Context {MO : MapOrder}.

Definition memberIDs (inp : Inputs) : list string :=
  merge_sort String.le (map MemberID (Members inp)).

Definition memberByID (inp : Inputs) : gmap string Member :=
  fold_left (fun acc m => <[MemberID m := m]> acc) (Members inp) ∅.

(** [memberByID[mid].Topics] and [.Lag], zero when absent. *)
Definition topics_of (inp : Inputs) (mid : string) : list string :=
  match memberByID inp !! mid with Some m => Topics m | None => [] end.

Definition lag_of (inp : Inputs) (mid : string) : Z :=
  match memberByID inp !! mid with Some m => Lag m | None => 0 end.

(** [s, ok := subscribers[t]; ...; s[mid] = struct{}{}] *)
Definition subscribe (mid : string) (acc : gmap string (gset string)) (t : string)
    : gmap string (gset string) :=
  <[t := {[mid]} ∪ default ∅ (acc !! t)]> acc.

Definition subscribers (inp : Inputs) : gmap string (gset string) :=
  fold_left (fun acc mid => fold_left (subscribe mid) (topics_of inp mid) acc)
    (memberIDs inp) ∅.

(** [subscribers[topic]], the nil map when absent. *)
Definition subs_of (inp : Inputs) (topic : string) : gset string :=
  default ∅ (subscribers inp !! topic).

(** [in.Partitions[topic]] *)
Definition parts_of (inp : Inputs) (topic : string) : list Z :=
  default [] (Partitions inp !! topic).

(** The pool with every partition of the metadata. *)
Definition fill_pool (inp : Inputs) : freePool :=
  fold_left (fun f topic => fold_left (fun f p => pool_add f (topic, p)) (parts_of inp topic) f)
    (ord_parts (map fst (map_to_list (Partitions inp)))) emptyPool.

(** [if free.remove(topic, p) { out.Add(mid, topic, p) }] *)
Definition retain_part (mid topic : string) (st : Plan * freePool) (p : Z) : Plan * freePool :=
  match pool_remove (snd st) (topic, p) with
  | (true, f') => (PlanAdd (fst st) mid topic p, f')
  | (false, f') => (fst st, f')
  end.

Definition retain_topic (inp : Inputs) (prev : gmap string (list Z)) (mid : string)
    (st : Plan * freePool) (topic : string) : Plan * freePool :=
  if decide (mid ∈ subs_of inp topic)
  then fold_left (retain_part mid topic) (default [] (prev !! topic)) st
  else st.

Definition retain_member (inp : Inputs) (pv : Plan) (st : Plan * freePool) (mid : string)
    : Plan * freePool :=
  match pv !! mid with
  | None => st
  | Some prev =>
      fold_left (retain_topic inp prev mid) (ord_prev mid (map fst (map_to_list prev))) st
  end.

Definition retain (inp : Inputs) (st : Plan * freePool) : Plan * freePool :=
  match Previous inp with
  | None => st
  | Some pv => fold_left (retain_member inp pv) (memberIDs inp) st
  end.

(** [weight = max(1, scale - min(scale-1, lag/lagDivisor))].  [m.Lag/lagDivisor]
    is only evaluated on a positive lag, where Go's division is [Z.div]. *)
Definition scale : Z := 100.
Definition lagDivisor : Z := 1000.

Definition weight (inp : Inputs) (mid : string) : Z :=
  let lag := lag_of inp mid in
  let w := if 0 <? lag then scale - Z.min (lag / lagDivisor) (scale - 1) else scale in
  if w <? 1 then 1 else w.

(** [load[mid]], zero when absent. *)
Definition load_of (load : gmap string Z) (mid : string) : Z := default 0 (load !! mid).

Definition initial_load (out : Plan) : gmap string Z :=
  (fun byTopic => map_fold (fun _ ps acc => acc + len ps) 0 byTopic) <$> out.

Record Best := mkBest { bestID : string; bestScore : Z; bestLoad : Z }.

Definition consider (inp : Inputs) (subs : gset string) (load : gmap string Z)
    (b : Best) (mid : string) : Best :=
  if negb (bool_decide (mid ∈ subs)) then b else
  let score := weight inp mid * 8 - load_of load mid in
  if bool_decide (bestID b = ""%string) || (bestScore b <? score) ||
     ((score =? bestScore b) && (load_of load mid <? bestLoad b))
  then mkBest mid score (load_of load mid)
  else b.

Definition pick (inp : Inputs) (subs : gset string) (load : gmap string Z) : Best :=
  fold_left (consider inp subs load) (memberIDs inp) (mkBest "" (-1) 0).

(** The callback passed to [free.forEach]. *)
Definition distribute_key (inp : Inputs) (st : Plan * gmap string Z) (k : freeKey)
    : Plan * gmap string Z :=
  let '(out, load) := st in
  let subs := subs_of inp k.1 in
  if decide (size subs = O) then st else
  let b := pick inp subs load in
  if bool_decide (bestID b = ""%string) then st
  else (PlanAdd out (bestID b) k.1 k.2, <[bestID b := load_of load (bestID b) + 1]> load).

Definition distribute (inp : Inputs) (f : freePool) (out : Plan) : Plan * gmap string Z :=
  fold_left (distribute_key inp) (pool_remaining f) (out, initial_load out).

Definition hasAny (byTopic : gmap string (list Z)) : bool :=
  existsb (fun kv => 0 <? len (snd kv)) (map_to_list byTopic).

(** The donor search: the most loaded subscriber other than [mid], the first
    one met on ties. *)
Definition donor_step (mid : string) (load : gmap string Z) (d : string * Z) (did : string)
    : string * Z :=
  if decide (did = mid) then d else
  let l := load_of load did in
  if snd d <? l then (did, l) else d.

Definition donor (inp : Inputs) (mid topic : string) (load : gmap string Z) : string :=
  fst (fold_left (donor_step mid load) (ord_subs mid topic (elements (subs_of inp topic)))
         (""%string, -1)).

(** One iteration of the topic loop of the feasibility pass; [None] is
    [continue], [Some] the state after the steal and the [break]. *)
Definition steal (inp : Inputs) (mid topic : string) (st : Plan * gmap string Z)
    : option (Plan * gmap string Z) :=
  let '(out, load) := st in
  if len (parts_of inp topic) <? Z.of_nat (size (subs_of inp topic)) then None else
  let donorID := donor inp mid topic load in
  if bool_decide (donorID = ""%string) then None else
  let donorParts := owned out donorID topic in
  if len donorParts <=? 1 then None else
  match last donorParts with
  | None => None
  | Some stolen =>
      let out := <[donorID := <[topic := take (length donorParts - 1) donorParts]>
                                (default ∅ (out !! donorID))]> out in
      let load := <[donorID := load_of load donorID - 1]> load in
      let out := PlanAdd out mid topic stolen in
      let load := <[mid := load_of load mid + 1]> load in
      Some (out, load)
  end.

(** The topic loop, left at the first steal. *)
Fixpoint feed (inp : Inputs) (mid : string) (topics : list string) (st : Plan * gmap string Z)
    : Plan * gmap string Z :=
  match topics with
  | [] => st
  | topic :: topics =>
      match steal inp mid topic st with
      | Some st' => st'
      | None => feed inp mid topics st
      end
  end.

Definition feasible_member (inp : Inputs) (st : Plan * gmap string Z) (mid : string)
    : Plan * gmap string Z :=
  if hasAny (default ∅ (fst st !! mid)) then st else feed inp mid (topics_of inp mid) st.

Definition feasibility (inp : Inputs) (st : Plan * gmap string Z) : Plan * gmap string Z :=
  fold_left (feasible_member inp) (memberIDs inp) st.

Definition sort_plan (out : Plan) : Plan := (fmap (M := gmap string) (merge_sort Z.le)) <$> out.

Definition Compute (inp : Inputs) : Plan :=
  match Members inp with
  | [] => ∅
  | _ =>
      let '(out, free) := retain inp (∅, fill_pool inp) in
      let st := distribute inp free out in
      let st := feasibility inp st in
      sort_plan (fst st)
  end.

End compute.

(** ** Rendering *)

Record MemberAssignment := mkMemberAssignment {
  MA_MemberID : string;
  MA_Partitions : list TopicPartitions;
}.

Definition render_topics (topics : gmap string (list Z)) : list TopicPartitions :=
  map (fun t => mkTopicPartitions t (default [] (topics !! t)))
    (merge_sort String.le (map fst (map_to_list topics))).

Definition ToAssignments (p : Plan) : list MemberAssignment :=
  map (fun mid => mkMemberAssignment mid (render_topics (default ∅ (p !! mid))))
    (merge_sort String.le (map fst (map_to_list p))).

(** An order for concrete runs: the keys as the map enumerates them. *)
Definition as_listed : MapOrder := {|
  ord_parts ks := ks; ord_prev _ ks := ks; ord_subs _ _ ks := ks |}.

#[global] Instance as_listed_ok : MapOrderOk as_listed.
Proof. by split. Qed.

(** The inputs of the repository's tests. *)
Definition three_members : Inputs :=
  mkInputs "g" [mkMember "m1" ["t"%string] 0; mkMember "m2" ["t"%string] 9999999;
                mkMember "m3" ["t"%string] 0]
    {["t"%string := [0; 1; 2]]} None.

Example compute_feasibility :
  let p := @Compute as_listed three_members in
  (owned p "m1" "t", owned p "m2" "t", owned p "m3" "t") = ([0], [2], [1]).
Proof. vm_compute. reflexivity. Qed.
