(* ===== verification/PlanFacts.v ===== *)
(** * Facts about the planner

    The invariants behind the theorems of PlanTheorems.v: the free pool keeps
    each remaining partition exactly once, every step of [Compute] keeps the
    plan an assignment ([good]), and [load] counts what each member owns. *)

From stdpp Require Import base numbers list strings gmap sorting.
From Stdlib Require Import ZArith Lia Strings.Byte.
From S2P Require Import Prelude Primitives Codec ConsumerProtocol Plan.

(** ** Reading and updating a plan *)

Lemma owned_empty m t : owned ∅ m t = [].
Proof. done. Qed.

Lemma owned_set (p : Plan) d topic l m t :
  owned (<[d := <[topic := l]> (default ∅ (p !! d))]> p) m t =
  if decide (m = d /\ t = topic) then l else owned p m t.
Proof.
  unfold owned. destruct (decide (m = d)) as [->|Hm].
  - rewrite lookup_insert_eq; simpl. destruct (decide (t = topic)) as [->|Ht].
    + rewrite lookup_insert_eq. by rewrite decide_True.
    + rewrite lookup_insert_ne by done. rewrite decide_False by naive_solver. done.
  - rewrite lookup_insert_ne by done. rewrite decide_False by naive_solver. done.
Qed.

Lemma owned_add p member topic x m t :
  owned (PlanAdd p member topic x) m t =
  if decide (m = member /\ t = topic) then owned p m t ++ [x] else owned p m t.
Proof.
  unfold PlanAdd. rewrite owned_set. case_decide as E; [|done]. by destruct E as [-> ->].
Qed.

Lemma owned_sort p m t : owned (sort_plan p) m t = merge_sort Z.le (owned p m t).
Proof.
  unfold owned, sort_plan. rewrite lookup_fmap. destruct (p !! m) as [tm|]; simpl.
  - rewrite lookup_fmap. by destruct (tm !! t).
  - by rewrite lookup_empty.
Qed.

(** ** Members and subscribers *)

Section members.
Context (inp : Inputs).

Lemma elem_of_memberIDs mid :
  mid ∈ memberIDs inp <-> exists m, m ∈ Members inp /\ MemberID m = mid.
Proof.
  unfold memberIDs. rewrite merge_sort_Permutation, list_elem_of_fmap. naive_solver.
Qed.

Lemma memberByID_some mid m :
  memberByID inp !! mid = Some m -> m ∈ Members inp /\ MemberID m = mid.
Proof.
  unfold memberByID.
  apply (fold_left_inv (fun acc : gmap string Member =>
    acc !! mid = Some m -> m ∈ Members inp /\ MemberID m = mid)); [done|].
  intros acc m' Hm' IH. rewrite lookup_insert. case_decide; [|done]. by intros [= <-].
Qed.

Lemma topics_of_member mid t : t ∈ topics_of inp mid -> mid ∈ memberIDs inp.
Proof.
  unfold topics_of. destruct (memberByID inp !! mid) as [m|] eqn:E; [|by intros ?%elem_of_nil].
  intros _. apply elem_of_memberIDs. exists m. by apply memberByID_some.
Qed.

Lemma subscribe_fold mid ts (acc : gmap string (gset string)) t m :
  m ∈ default ∅ (fold_left (subscribe mid) ts acc !! t) <->
  m ∈ default ∅ (acc !! t) \/ (m = mid /\ t ∈ ts).
Proof.
  revert acc. induction ts as [|t' ts IH]; intros acc; simpl.
  { rewrite elem_of_nil. naive_solver. }
  rewrite IH, elem_of_cons. unfold subscribe. rewrite lookup_insert. case_decide.
  - subst. simpl. rewrite elem_of_union, elem_of_singleton. naive_solver.
  - naive_solver.
Qed.

(** A subscriber is a member of the group with the topic in its list. *)
Lemma elem_of_subs mid t : mid ∈ subs_of inp t <-> t ∈ topics_of inp mid.
Proof.
  unfold subs_of, subscribers.
  assert (forall ids (acc : gmap string (gset string)),
    mid ∈ default ∅ (fold_left (fun acc m => fold_left (subscribe m) (topics_of inp m) acc) ids acc !! t)
    <-> mid ∈ default ∅ (acc !! t) \/ (mid ∈ ids /\ t ∈ topics_of inp mid)) as H.
  { induction ids as [|i ids IH]; intros acc; simpl.
    - rewrite elem_of_nil. naive_solver.
    - rewrite IH, subscribe_fold, elem_of_cons. naive_solver. }
  rewrite H, lookup_empty; simpl. rewrite elem_of_empty.
  pose proof (topics_of_member mid t). naive_solver.
Qed.

Lemma subs_members mid t : mid ∈ subs_of inp t -> mid ∈ memberIDs inp.
Proof. rewrite elem_of_subs. apply topics_of_member. Qed.

End members.

(** ** The pool *)

(** The index and the keys describe each other, up to tombstones. *)
Definition pool_wf (f : freePool) : Prop :=
  (forall k i, index f !! k = Some i -> keys f !! i = Some k) /\
  (forall i k, keys f !! i = Some k -> k = tombstone \/ index f !! k = Some i).

Definition pool_has (f : freePool) (k : freeKey) : Prop := is_Some (index f !! k).

Lemma pool_wf_empty : pool_wf emptyPool.
Proof. by split. Qed.

Lemma pool_add_wf f k : pool_wf f -> pool_wf (pool_add f k).
Proof.
  intros [H1 H2]. unfold pool_add. destruct (index f !! k) eqn:E; [by split|].
  split; simpl.
  - intros k' i. rewrite lookup_insert. case_decide.
    + intros [= <-]. subst. by apply list_lookup_middle.
    + intros Hk%H1. by apply lookup_app_l_Some.
  - intros i k'. rewrite lookup_app_Some. intros [Hi|[Hle Hi]].
    + destruct (H2 _ _ Hi) as [?|Hk]; [by left|right].
      rewrite lookup_insert_ne; [done|]. congruence.
    + apply list_lookup_singleton_Some in Hi as [Hi <-]. right.
      rewrite lookup_insert_eq. f_equal. lia.
Qed.

Lemma pool_add_has f k k' : pool_has (pool_add f k) k' <-> pool_has f k' \/ k' = k.
Proof.
  unfold pool_add, pool_has. destruct (index f !! k) eqn:E; simpl.
  - split; [by left|]. intros [?| ->]; [done|]. by rewrite E.
  - rewrite lookup_insert_is_Some'. naive_solver.
Qed.

Lemma pool_remove_wf f k : pool_wf f -> pool_wf (snd (pool_remove f k)).
Proof.
  intros [H1 H2]. unfold pool_remove. destruct (index f !! k) as [idx|] eqn:E; [|by split].
  split; simpl.
  - intros k' i. rewrite lookup_delete_Some. intros [Hne Hk'].
    rewrite list_lookup_insert_ne; [by apply H1|]. intros ->.
    apply H1 in E, Hk'. congruence.
  - intros i k'. rewrite list_lookup_insert_Some. intros [(-> & -> & _)|[Hne Hi]]; [by left|].
    destruct (H2 _ _ Hi) as [?|Hk]; [by left|]. right.
    rewrite lookup_delete_ne; [done|]. congruence.
Qed.

Lemma pool_remove_has f k k' :
  pool_has (snd (pool_remove f k)) k' <-> pool_has f k' /\ k' <> k.
Proof.
  unfold pool_remove, pool_has. destruct (index f !! k) eqn:E; simpl.
  - rewrite lookup_delete_is_Some. naive_solver.
  - split; [|naive_solver]. intros H. split; [done|]. intros ->. rewrite E in H. by destruct H.
Qed.

Lemma pool_remove_true f k : fst (pool_remove f k) = true <-> pool_has f k.
Proof.
  unfold pool_remove, pool_has. destruct (index f !! k); simpl; [naive_solver|].
  split; [done|]. by intros [? ?].
Qed.

Lemma elem_of_remaining f k : pool_wf f -> k ∈ pool_remaining f <-> pool_has f k.
Proof.
  intros [H1 _]. unfold pool_remaining. rewrite merge_sort_Permutation, list_elem_of_filter.
  split; [by intros [? _]|]. intros [i Hi]. split; [by exists i|].
  apply list_elem_of_lookup. eauto.
Qed.

(** A tombstone is not mistaken for a key unless the empty topic is in use. *)
Lemma NoDup_remaining f :
  pool_wf f -> ~ pool_has f tombstone -> NoDup (pool_remaining f).
Proof.
  intros [H1 H2] Htomb. unfold pool_remaining. rewrite merge_sort_Permutation.
  assert (forall i j k, keys f !! i = Some k -> keys f !! j = Some k -> pool_has f k -> i = j) as Hinj.
  { intros i j k Hi Hj Hk.
    destruct (H2 _ _ Hi) as [->|E1]; [done|]. destruct (H2 _ _ Hj) as [->|E2]; [done|]. congruence. }
  clear H1 H2 Htomb. unfold pool_has in Hinj. induction (keys f) as [|k l IH]; [constructor|].
  rewrite filter_cons. case_decide as Hk.
  - constructor.
    + rewrite list_elem_of_filter. intros [_ [j Hj]%list_elem_of_lookup].
      specialize (Hinj O (S j) k eq_refl Hj Hk). done.
    + apply IH. intros i j k' Hi Hj Hk'. specialize (Hinj (S i) (S j) k' Hi Hj Hk'). lia.
  - apply IH. intros i j k' Hi Hj Hk'. specialize (Hinj (S i) (S j) k' Hi Hj Hk'). lia.
Qed.

(** ** Plans as assignments *)

(** [p] assigns exactly the partitions of [S], each to one member, which is
    subscribed to the topic, and once. *)
Record good (inp : Inputs) (p : Plan) (S : gset freeKey) : Prop := {
  good_nodup m t : NoDup (owned p m t);
  good_in m t x : x ∈ owned p m t -> (t, x) ∈ S /\ m ∈ subs_of inp t;
  good_unique m m' t x : x ∈ owned p m t -> x ∈ owned p m' t -> m = m';
  good_total t x : (t, x) ∈ S -> exists m, x ∈ owned p m t;
}.

Lemma good_empty inp : good inp ∅ ∅.
Proof.
  split; intros; try (rewrite owned_empty in *); try set_solver. constructor.
Qed.

Lemma NoDup_snoc {A} (l : list A) x : NoDup l -> x ∉ l -> NoDup (l ++ [x]).
Proof.
  intros. apply NoDup_app. split; [done|]. split; [set_solver|apply NoDup_singleton].
Qed.

Lemma good_add inp p S m t x :
  good inp p S -> (t, x) ∉ S -> m ∈ subs_of inp t ->
  good inp (PlanAdd p m t x) ({[(t, x)]} ∪ S).
Proof.
  intros [G1 G2 G3 G4] Hx Hm. split.
  - intros m' t'. rewrite owned_add. case_decide as E; [|done]. destruct E as [-> ->].
    apply NoDup_snoc; [done|]. intros [??]%G2. done.
  - intros m' t' x'. rewrite owned_add. case_decide as E.
    + destruct E as [-> ->]. rewrite elem_of_app, list_elem_of_singleton.
      intros [[??]%G2| ->]; set_solver.
    + intros [??]%G2. set_solver.
  - intros m1 m2 t' x'. rewrite !owned_add. intros H1 H2.
    assert (forall m', x' ∈ owned p m' t' -> (t', x') <> (t, x)) as Hne.
    { intros m' [Hs _]%G2 [= -> ->]. done. }
    destruct (decide (m1 = m /\ t' = t)) as [[-> E1]|N1],
             (decide (m2 = m /\ t' = t)) as [[-> E2]|N2]; [done| | |by eapply G3].
    + apply elem_of_app in H1 as [H1|H1%list_elem_of_singleton]; [by eapply G3|].
      subst. by apply Hne in H2.
    + apply elem_of_app in H2 as [H2|H2%list_elem_of_singleton]; [by eapply G3|].
      subst. by apply Hne in H1.
  - intros t' x' [[= -> ->]%elem_of_singleton|[m' Hm']%G4]%elem_of_union.
    + exists m. rewrite owned_add, decide_True by done. set_solver.
    + exists m'. rewrite owned_add. case_decide; [set_solver|done].
Qed.

(** Moving the last partition of a list to another member. *)
Lemma good_move inp p S d m t l x :
  good inp p S -> owned p d t = l ++ [x] -> m <> d -> m ∈ subs_of inp t ->
  good inp (PlanAdd (<[d := <[t := l]> (default ∅ (p !! d))]> p) m t x) S.
Proof.
  intros [G1 G2 G3 G4] Hd Hmd Hm.
  set (q := <[d := _]> p).
  assert (forall m' t', owned q m' t' = if decide (m' = d /\ t' = t) then l else owned p m' t') as Hq
    by apply owned_set.
  pose proof (G1 d t) as Hnd. rewrite Hd in Hnd. apply NoDup_app in Hnd as (Hl & Hxl & _).
  assert (forall m' t' x', x' ∈ owned q m' t' -> x' ∈ owned p m' t' /\ (t', x') <> (t, x)) as Hsub.
  { intros m' t' x'. rewrite Hq. case_decide as E.
    - destruct E as [-> ->]. intros Hx'. split; [rewrite Hd; set_solver|].
      intros [= ->]. apply (Hxl x Hx'). set_solver.
    - intros Hx'. split; [done|]. intros [= -> ->]. apply E. split; [|done].
      apply (G3 m' d t x Hx'). rewrite Hd. set_solver. }
  assert (good inp q (S ∖ {[(t, x)]})) as Gq.
  { split.
    - intros m' t'. rewrite Hq. case_decide; done.
    - intros m' t' x' [[??]%G2 ?]%Hsub. set_solver.
    - intros m1 m2 t' x' [H1 _]%Hsub [H2 _]%Hsub. by eapply G3.
    - intros t' x' [[m' Hm']%G4 Hne]%elem_of_difference. exists m'. rewrite Hq.
      case_decide as E; [|done]. destruct E as [-> ->]. rewrite Hd in Hm'. set_solver. }
  assert ((t, x) ∈ S) as HxS. { apply (G2 d t x). rewrite Hd. set_solver. }
  replace S with ({[(t, x)]} ∪ S ∖ {[(t, x)]}) by (apply set_eq; intros k; destruct (decide (k = (t, x))); set_solver).
  apply good_add; [done|set_solver|done].
Qed.

Lemma good_sort inp p S : good inp p S -> good inp (sort_plan p) S.
Proof.
  intros [G1 G2 G3 G4]. split.
  - intros m t. rewrite owned_sort, merge_sort_Permutation. apply G1.
  - intros m t x. rewrite owned_sort, merge_sort_Permutation. apply G2.
  - intros m m' t x. rewrite !owned_sort, !merge_sort_Permutation. apply G3.
  - intros t x [m Hm]%G4. exists m. by rewrite owned_sort, merge_sort_Permutation.
Qed.

(** ** The phases of [Compute] keep the plan an assignment *)

(** A partition of the metadata. *)
Definition is_part (inp : Inputs) (k : freeKey) : Prop := k.2 ∈ parts_of inp k.1.

Section phases.
Context {MO : MapOrder} `{!MapOrderOk MO} (inp : Inputs).

Lemma parts_key t : parts_of inp t <> [] -> t ∈ map fst (map_to_list (Partitions inp)).
Proof.
  unfold parts_of. destruct (Partitions inp !! t) as [ps|] eqn:E; [|done]. intros _.
  apply list_elem_of_fmap. exists (t, ps). split; [done|]. by apply elem_of_map_to_list.
Qed.

Lemma fill_parts t ps f :
  pool_wf f ->
  pool_wf (fold_left (fun f p => pool_add f (t, p)) ps f) /\
  (forall k, pool_has (fold_left (fun f p => pool_add f (t, p)) ps f) k <->
             pool_has f k \/ (k.1 = t /\ k.2 ∈ ps)).
Proof.
  revert f. induction ps as [|p ps IH]; intros f Hf; simpl.
  { split; [done|]. intros k. rewrite elem_of_nil. naive_solver. }
  destruct (IH (pool_add f (t, p))) as [Hw Hh]; [by apply pool_add_wf|]. split; [done|].
  intros [t' x]. rewrite Hh, pool_add_has, elem_of_cons. simpl. naive_solver.
Qed.

Lemma fill_pool_ok :
  pool_wf (fill_pool inp) /\ (forall k, pool_has (fill_pool inp) k <-> is_part inp k).
Proof.
  unfold fill_pool.
  assert (forall ts f, pool_wf f ->
    let f' := fold_left (fun f t => fold_left (fun f p => pool_add f (t, p)) (parts_of inp t) f) ts f in
    pool_wf f' /\ (forall k, pool_has f' k <-> pool_has f k \/ (k.1 ∈ ts /\ is_part inp k))) as H.
  { induction ts as [|t ts IH]; intros f Hf; simpl.
    - split; [done|]. intros k. rewrite elem_of_nil. naive_solver.
    - destruct (fill_parts t (parts_of inp t) f Hf) as [Hw Hh].
      destruct (IH _ Hw) as [Hw' Hh']. split; [done|]. intros [t' x].
      rewrite Hh', Hh, elem_of_cons. unfold is_part; simpl. naive_solver. }
  destruct (H (ord_parts (map fst (map_to_list (Partitions inp)))) _ pool_wf_empty) as [Hw Hh].
  split; [done|]. intros k. rewrite Hh, ord_parts_perm. split.
  - intros [[i Hi]|[_ Hk]]; [done|done].
  - intros Hk. right. split; [|done]. apply parts_key. unfold is_part in Hk.
    intros E. rewrite E in Hk. by apply elem_of_nil in Hk.
Qed.

(** What holds between the plan being built and the pool. *)
Definition split_ok (st : Plan * freePool) : Prop :=
  exists S, good inp (fst st) S /\ pool_wf (snd st) /\
    (forall k, k ∈ S -> ~ pool_has (snd st) k) /\
    (forall k, k ∈ S \/ pool_has (snd st) k <-> is_part inp k).

Lemma retain_part_ok mid topic st p :
  mid ∈ subs_of inp topic -> split_ok st -> split_ok (retain_part mid topic st p).
Proof.
  intros Hm (S & HG & Hw & Hd & Hall). unfold retain_part.
  pose proof (pool_remove_wf (snd st) (topic, p) Hw) as Hw'.
  pose proof (pool_remove_has (snd st) (topic, p)) as Hh'.
  pose proof (pool_remove_true (snd st) (topic, p)) as Ht.
  destruct (pool_remove (snd st) (topic, p)) as [[] f'] eqn:E; simpl in *.
  - assert (pool_has (snd st) (topic, p)) as Hp by by apply Ht.
    exists ({[(topic, p)]} ∪ S). split_and!; [|done| |].
    + apply good_add; [done| |done]. intros HS. by eapply Hd.
    + intros k Hk. simpl. rewrite Hh'. set_solver.
    + intros k. simpl. rewrite Hh', elem_of_union, elem_of_singleton.
      rewrite <- (Hall k). destruct (decide (k = (topic, p))); naive_solver.
  - exists S. split_and!; [done|done| |].
    + intros k Hk. simpl. rewrite Hh'. intros [? _]. by eapply Hd.
    + intros k. simpl. rewrite Hh', <- (Hall k).
      split; [naive_solver|]. intros [?|Hk]; [by left|right]. split; [done|].
      intros ->. by apply Ht in Hk.
Qed.

Lemma retain_ok : split_ok (retain inp (∅, fill_pool inp)).
Proof.
  assert (split_ok (∅, fill_pool inp)) as H0.
  { destruct fill_pool_ok as [Hw Hh]. exists ∅. split_and!; [apply good_empty|done|set_solver|].
    intros k. simpl. rewrite Hh. set_solver. }
  unfold retain. destruct (Previous inp) as [pv|]; [|done].
  apply fold_left_inv; [done|]. intros st mid _ Hst. unfold retain_member.
  destruct (pv !! mid) as [prev|]; [|done].
  apply fold_left_inv; [done|]. intros st' topic _ Hst'. unfold retain_topic.
  case_decide as Hs; [|done]. apply fold_left_inv; [done|].
  intros st'' p _. by apply retain_part_ok.
Qed.

(** *** Picking the best member *)

(** [b] is at least as good a candidate as [mid]: a higher score, or the same
    score with no more load. *)
Definition better_eq (load : gmap string Z) (b mid : string) : Prop :=
  let score m := weight inp m * 8 - load_of load m in
  score mid < score b \/ (score mid = score b /\ load_of load b <= load_of load mid).

Definition best_ok (subs : gset string) (load : gmap string Z) (seen : list string) (b : Best) : Prop :=
  (bestID b = ""%string /\ forall m, m ∈ seen -> m ∉ subs) \/
  (bestID b <> ""%string /\ bestID b ∈ seen /\ bestID b ∈ subs /\
   bestScore b = weight inp (bestID b) * 8 - load_of load (bestID b) /\
   bestLoad b = load_of load (bestID b) /\
   forall m, m ∈ seen -> m ∈ subs -> better_eq load (bestID b) m).

Lemma consider_ok subs load seen b mid :
  mid <> ""%string -> best_ok subs load seen b ->
  best_ok subs load (seen ++ [mid]) (consider inp subs load b mid).
Proof.
  intros Hmid Hb. unfold consider. case_bool_decide as Hs; simpl.
  2:{ destruct Hb as [[? Hb]|(?&?&?&?&?&Hb)]; [left|right].
      - split; [done|]. intros m. rewrite elem_of_app, list_elem_of_singleton.
        intros [?| ->]; [by apply Hb|done].
      - split_and!; try done; [set_solver|]. intros m. rewrite elem_of_app, list_elem_of_singleton.
        intros [?| ->]; [by apply Hb|done]. }
  destruct Hb as [[E Hb]|(Hne & Hin & Hsub & Esc & Eld & Hb)].
  - rewrite E. simpl. right. simpl. split_and!; try done; [set_solver|].
    intros m. rewrite elem_of_app, list_elem_of_singleton. intros [Hm| ->] Hms.
    + by apply Hb in Hm.
    + right. lia.
  - rewrite bool_decide_eq_false_2 by done. rewrite orb_false_l, Esc, Eld.
    destruct (Z.ltb_spec (weight inp (bestID b) * 8 - load_of load (bestID b))
                         (weight inp mid * 8 - load_of load mid)); simpl.
    2: destruct (Z.eqb_spec (weight inp mid * 8 - load_of load mid)
                            (weight inp (bestID b) * 8 - load_of load (bestID b))); simpl.
    2: destruct (Z.ltb_spec (load_of load mid) (load_of load (bestID b))).
    all: right; simpl; split_and!; try done; try set_solver.
    all: intros m; rewrite elem_of_app, list_elem_of_singleton; intros [Hm| ->] Hms;
      unfold better_eq in *; try (specialize (Hb m Hm Hms)); lia.
Qed.

Hypothesis ids_nonempty : ""%string ∉ memberIDs inp.

Lemma pick_ok subs load : best_ok subs load (memberIDs inp) (pick inp subs load).
Proof.
  unfold pick.
  assert (forall ids seen b, ""%string ∉ ids -> best_ok subs load seen b ->
    best_ok subs load (seen ++ ids) (fold_left (consider inp subs load) ids b)) as H.
  { induction ids as [|i ids IH]; intros seen b Hid Hb; simpl; [by rewrite app_nil_r|].
    replace (seen ++ i :: ids) with ((seen ++ [i]) ++ ids) by by rewrite <- app_assoc.
    apply IH; [set_solver|]. apply consider_ok; [set_solver|done]. }
  apply (H (memberIDs inp) []); [done|]. left. simpl. split; [done|]. set_solver.
Qed.

(** A topic with a subscriber always finds a best member, a subscriber. *)
Lemma pick_some t load :
  subs_of inp t <> ∅ ->
  let b := pick inp (subs_of inp t) load in
  bestID b <> ""%string /\ bestID b ∈ subs_of inp t /\
  (forall m, m ∈ subs_of inp t -> better_eq load (bestID b) m).
Proof.
  intros Hne. simpl. destruct (pick_ok (subs_of inp t) load) as [[_ Hn]|(?&?&?&_&_&Hb)].
  - apply set_choose_L in Hne as [m Hm]. exfalso. by apply (Hn m (subs_members _ _ _ Hm)).
  - split_and!; [done|done|]. intros m Hm. apply Hb; [|done]. by eapply subs_members.
Qed.

(** *** Distribution *)

Lemma distribute_key_spec out load k :
  let st' := distribute_key inp (out, load) k in
  (subs_of inp k.1 = ∅ /\ st' = (out, load)) \/
  (subs_of inp k.1 <> ∅ /\ exists m, m ∈ subs_of inp k.1 /\
     (forall m', m' ∈ subs_of inp k.1 -> better_eq load m m') /\
     st' = (PlanAdd out m k.1 k.2, <[m := load_of load m + 1]> load)).
Proof.
  simpl. case_decide as E.
  - left. split; [|done]. by apply leibniz_equiv, size_empty_inv.
  - right. assert (subs_of inp k.1 <> ∅) as Hne.
    { intros H. apply E. rewrite H. apply size_empty. }
    split; [done|]. destruct (pick_some k.1 load Hne) as (H1 & H2 & H3).
    rewrite bool_decide_eq_false_2 by done. eauto.
Qed.

Lemma distribute_good ks out load S :
  NoDup ks -> (forall k, k ∈ ks -> k ∉ S) -> good inp out S ->
  exists S', good inp (fst (fold_left (distribute_key inp) ks (out, load))) S' /\
    (forall k, k ∈ S' <-> k ∈ S \/ (k ∈ ks /\ subs_of inp k.1 <> ∅)).
Proof.
  revert out load S. induction ks as [|k ks IH]; intros out load S Hnd Hks HG.
  { exists S. split; [done|]. set_solver. }
  apply NoDup_cons in Hnd as [Hk Hnd]. cbn [fold_left].
  destruct (distribute_key_spec out load k) as [[Hs ->]|(Hs & m & Hm & _ & ->)].
  - destruct (IH out load S Hnd ltac:(set_solver) HG) as (S' & HG' & HS').
    exists S'. split; [done|]. intros k'. rewrite HS', elem_of_cons. naive_solver.
  - destruct (IH (PlanAdd out m k.1 k.2) (<[m := load_of load m + 1]> load) ({[k]} ∪ S)) as (S' & HG' & HS').
    + done.
    + set_solver.
    + destruct k as [t x]. apply good_add; [done|set_solver|done].
    + exists S'. split; [done|]. intros k'. rewrite HS', elem_of_cons, elem_of_union, elem_of_singleton.
      naive_solver.
Qed.

(** *** Feasibility *)

Definition donor_ok (mid : string) (load : gmap string Z) (seen : list string) (d : string * Z)
    : Prop :=
  (d = (""%string, -1) /\ forall m, m ∈ seen -> m = mid \/ load_of load m <= -1) \/
  (fst d ∈ seen /\ fst d <> mid /\ snd d = load_of load (fst d) /\
   forall m, m ∈ seen -> m = mid \/ load_of load m <= snd d).

Lemma donor_step_ok mid load seen d did :
  donor_ok mid load seen d -> donor_ok mid load (seen ++ [did]) (donor_step mid load d did).
Proof.
  intros Hd. unfold donor_step, donor_ok in *. setoid_rewrite elem_of_app.
  setoid_rewrite list_elem_of_singleton. case_decide as E; [naive_solver|].
  destruct (Z.ltb_spec (snd d) (load_of load did)).
  - right. simpl. split_and!; [by right|done|done|].
    intros m [Hm| ->]; [|by right].
    destruct Hd as [[-> Hd]|(?&?&?&Hd)]; destruct (Hd m Hm); simpl in *; (by left) || (right; lia).
  - destruct Hd as [[-> Hd]|(?&?&?&Hd)]; [left|right].
    + split; [done|]. intros m [Hm| ->]; [by apply Hd|]. simpl in *. right. lia.
    + split_and!; [by left|done|done|]. intros m [Hm| ->]; [by apply Hd|by right].
Qed.

Lemma donor_fold mid load ids seen d :
  donor_ok mid load seen d -> donor_ok mid load (seen ++ ids) (fold_left (donor_step mid load) ids d).
Proof.
  revert seen d. induction ids as [|i ids IH]; intros seen d Hd; simpl; [by rewrite app_nil_r|].
  replace (seen ++ i :: ids) with ((seen ++ [i]) ++ ids) by by rewrite <- app_assoc.
  by apply IH, donor_step_ok.
Qed.

(** The donor is a most loaded subscriber other than the starved member. *)
Lemma donor_spec mid t load :
  (forall m, 0 <= load_of load m) ->
  let d := donor inp mid t load in
  (d = ""%string /\ forall m, m ∈ subs_of inp t -> m = mid) \/
  (d ∈ subs_of inp t /\ d <> mid /\ d <> ""%string /\
   forall m, m ∈ subs_of inp t -> m <> mid -> load_of load m <= load_of load d).
Proof.
  intros Hnn. cbv zeta. unfold donor.
  set (ids := ord_subs mid t (elements (subs_of inp t))).
  assert (forall m, m ∈ ids <-> m ∈ subs_of inp t) as Hids.
  { intros m. subst ids. by rewrite ord_subs_perm, elem_of_elements. }
  assert (donor_ok mid load ids (fold_left (donor_step mid load) ids (""%string, -1))) as Hd.
  { apply (donor_fold mid load ids []). left. split; [done|]. set_solver. }
  destruct Hd as [[-> Hd]|(H1 & H2 & H3 & H4)].
  - left. split; [done|]. intros m Hm%Hids. destruct (Hd m Hm) as [?|Hl]; [done|].
    specialize (Hnn m). lia.
  - right. rewrite <- Hids. split_and!; [done|done| |].
    + intros E. rewrite E in H1. by apply Hids, subs_members in H1.
    + intros m Hm%Hids Hne. destruct (H4 m Hm); [done|]. lia.
Qed.

Lemma owned_last {A} (l : list A) x : last l = Some x -> l = take (length l - 1) l ++ [x].
Proof.
  intros [l' ->]%last_Some. rewrite length_app; simpl.
  replace (length l' + 1 - 1)%nat with (length l') by lia. by rewrite take_app_length.
Qed.

(** What a successful steal does: it moves the last partition of the donor,
    which owned at least two of the topic. *)
Lemma steal_spec mid t out load st' :
  (forall m, 0 <= load_of load m) ->
  steal inp mid t (out, load) = Some st' ->
  exists d l x, d ∈ subs_of inp t /\ d <> mid /\ d = donor inp mid t load /\
    l <> [] /\ owned out d t = l ++ [x] /\
    st' = (PlanAdd (<[d := <[t := l]> (default ∅ (out !! d))]> out) mid t x,
           <[mid := load_of (<[d := load_of load d - 1]> load) mid + 1]>
             (<[d := load_of load d - 1]> load)).
Proof.
  intros Hnn. unfold steal. destruct (_ <? _); [done|].
  case_bool_decide as Hd; [done|].
  destruct (donor_spec mid t load Hnn) as [[? _]|(H1 & H2 & _ & _)]; [done|].
  set (d := donor inp mid t load) in *.
  destruct (Z.leb_spec (len (owned out d t)) 1) as [?|Hlen]; [done|].
  destruct (last (owned out d t)) as [x|] eqn:E; [|done]. intros [= <-].
  pose proof (owned_last _ _ E) as Ho.
  exists d, (take (length (owned out d t) - 1) (owned out d t)), x.
  split_and!; try done. intros Hl. rewrite Hl in Ho. rewrite Ho in Hlen. done.
Qed.

Lemma steal_mid_sub mid t : t ∈ topics_of inp mid -> mid ∈ subs_of inp t.
Proof. apply elem_of_subs. Qed.

End phases.

(** ** Loads *)

Definition count_topics (tm : gmap string (list Z)) : Z :=
  map_fold (fun _ ps acc => acc + len ps) 0 tm.

(** The number of partitions a member owns. *)
Definition owned_count (p : Plan) (m : string) : Z := count_topics (default ∅ (p !! m)).

Lemma count_insert tm t l :
  count_topics (<[t := l]> tm) = count_topics tm - len (default [] (tm !! t)) + len l.
Proof.
  assert (forall tm t l, tm !! t = None -> count_topics (<[t := l]> tm) = count_topics tm + len l) as H.
  { intros tm' t' l' E. unfold count_topics. rewrite map_fold_insert_L; [lia| |done].
    intros. lia. }
  destruct (tm !! t) as [l0|] eqn:E; simpl.
  - rewrite <- (insert_delete_id tm t l0) at 2 by done.
    rewrite <- insert_delete_eq. rewrite !H by apply lookup_delete_eq. lia.
  - rewrite H by done. rewrite len_nil. lia.
Qed.

Lemma owned_count_set (p : Plan) d t l m :
  owned_count (<[d := <[t := l]> (default ∅ (p !! d))]> p) m =
  if decide (m = d) then owned_count p m - len (owned p m t) + len l else owned_count p m.
Proof.
  unfold owned_count, owned. case_decide as E.
  - subst. rewrite lookup_insert_eq; simpl. apply count_insert.
  - by rewrite lookup_insert_ne.
Qed.

Lemma owned_count_add p member t x m :
  owned_count (PlanAdd p member t x) m =
  owned_count p m + (if decide (m = member) then 1 else 0).
Proof.
  unfold PlanAdd. rewrite owned_count_set. case_decide as E; [|lia]. subst.
  change (default [] (default ∅ (p !! member) !! t)) with (owned p member t).
  rewrite len_app. change (len [x]) with 1. lia.
Qed.

Lemma count_topics_ge tm t : len (default [] (tm !! t)) <= count_topics tm.
Proof.
  assert (forall tm, 0 <= count_topics tm) as Hnn.
  { intros tm'. unfold count_topics. apply (map_fold_weak_ind (fun r _ => 0 <= r)); [done|].
    intros. len_lia. }
  destruct (tm !! t) as [l|] eqn:E; simpl; [|by rewrite len_nil].
  rewrite <- (insert_delete_id tm t l) by done. rewrite count_insert, lookup_delete_eq. simpl.
  specialize (Hnn (delete t tm)). rewrite len_nil. lia.
Qed.

Lemma owned_count_ge p m t : len (owned p m t) <= owned_count p m.
Proof. apply count_topics_ge. Qed.

Lemma owned_count_nonneg p m : 0 <= owned_count p m.
Proof. pose proof (owned_count_ge p m ""). len_lia. Qed.

Lemma count_topics_zero tm : (forall t, default [] (tm !! t) = []) -> count_topics tm = 0.
Proof.
  intros H. unfold count_topics. rewrite map_fold_foldr.
  assert (forall t l, (t, l) ∈ map_to_list tm -> l = []) as Hl.
  { intros t l E%elem_of_map_to_list. specialize (H t). by rewrite E in H. }
  induction (map_to_list tm) as [|[t l] kvs IH]; simpl; [done|].
  rewrite IH by set_solver. rewrite (Hl t l) by set_solver. done.
Qed.

Lemma hasAny_count p m : hasAny (default ∅ (p !! m)) = true <-> 0 < owned_count p m.
Proof.
  unfold hasAny. rewrite existsb_exists. split.
  - intros ([t l] & Hin & Hl). apply list_elem_of_In, elem_of_map_to_list in Hin. simpl in Hl.
    pose proof (count_topics_ge (default ∅ (p !! m)) t) as Hge. rewrite Hin in Hge. simpl in Hge.
    unfold owned_count. lia.
  - intros Hc. destruct (decide (Exists (fun kv => 0 < len (snd kv)) (map_to_list (default ∅ (p !! m)))))
      as [HE|HE].
    + apply Exists_exists in HE as (kv & Hin & Hl). exists kv. rewrite <- list_elem_of_In.
      split; [done|]. lia.
    + exfalso. unfold owned_count in Hc. rewrite count_topics_zero in Hc; [lia|]. intros t.
      destruct (default ∅ (p !! m) !! t) as [l|] eqn:E; [|done]. simpl.
      destruct l as [|x l]; [done|]. exfalso. apply HE, Exists_exists. exists (t, x :: l).
      rewrite elem_of_map_to_list. split; [done|]. simpl. len_lia.
Qed.

Lemma owned_count_pos p m t x : x ∈ owned p m t -> 0 < owned_count p m.
Proof.
  intros Hx. pose proof (owned_count_ge p m t). destruct (owned p m t); [set_solver|]. len_lia.
Qed.

(** [load] counts what the plan gives. *)
Definition load_ok (st : Plan * gmap string Z) : Prop :=
  forall m, load_of (snd st) m = owned_count (fst st) m.

Lemma load_ok_initial out : load_ok (out, initial_load out).
Proof.
  intros m. simpl. unfold load_of, initial_load, owned_count. rewrite lookup_fmap.
  by destruct (out !! m).
Qed.

Lemma load_of_insert load m v m' :
  load_of (<[m := v]> load) m' = if decide (m' = m) then v else load_of load m'.
Proof.
  unfold load_of. rewrite lookup_insert.
  destruct (decide (m = m')), (decide (m' = m)); by subst.
Qed.

Lemma load_ok_add out load m t x :
  load_ok (out, load) -> load_ok (PlanAdd out m t x, <[m := load_of load m + 1]> load).
Proof.
  intros H m'. simpl. rewrite load_of_insert, owned_count_add. specialize (H m'). simpl in H.
  case_decide; subst; lia.
Qed.

Lemma load_ok_nonneg out load m : load_ok (out, load) -> 0 <= load_of load m.
Proof. intros H. specialize (H m). simpl in H. rewrite H. apply owned_count_nonneg. Qed.

(** ** Moves of the feasibility pass *)

(** One partition of topic [t] moves from [d], which keeps one, to [mid], which
    had none. *)
Inductive move (inp : Inputs) : Plan * gmap string Z -> Plan * gmap string Z -> Prop :=
| move_intro out load mid d t l x :
    owned_count out mid = 0 -> mid ∈ subs_of inp t -> d ∈ subs_of inp t -> d <> mid ->
    l <> [] -> owned out d t = l ++ [x] ->
    move inp (out, load)
      (PlanAdd (<[d := <[t := l]> (default ∅ (out !! d))]> out) mid t x,
       <[mid := load_of (<[d := load_of load d - 1]> load) mid + 1]>
         (<[d := load_of load d - 1]> load)).

Lemma move_good inp st st' S : move inp st st' -> good inp (fst st) S -> good inp (fst st') S.
Proof. intros [] HG. simpl in *. by apply good_move. Qed.

Lemma move_load inp st st' : move inp st st' -> load_ok st -> load_ok st'.
Proof.
  intros [out load mid d t l x Hz Hm Hd Hne Hl Ho] H m'. simpl.
  rewrite !load_of_insert, owned_count_add, owned_count_set.
  pose proof (H m') as Hm'. pose proof (H mid) as Hmid. pose proof (H d) as Hdd. simpl in *.
  destruct (decide (mid = d)); [congruence|].
  destruct (decide (m' = mid)), (decide (m' = d)); subst; try congruence; try lia.
  rewrite Ho, len_app. change (len [x]) with 1. lia.
Qed.

(** Nobody is left with nothing by a move. *)
Lemma move_keeps inp st st' m :
  move inp st st' -> 0 < owned_count (fst st) m -> 0 < owned_count (fst st') m.
Proof.
  intros [out load mid d t l x Hz Hm Hd Hne Hl Ho] H. simpl in *.
  rewrite owned_count_add, owned_count_set. repeat case_decide; subst; try lia.
  pose proof (owned_count_ge out d t). rewrite Ho, len_app in *. change (len [x]) with 1 in *.
  destruct l; [done|]. len_lia.
Qed.

(** [Compute] by its phases. *)
Definition distributed {MO : MapOrder} (inp : Inputs) : Plan * gmap string Z :=
  let '(out, free) := retain inp (∅, fill_pool inp) in distribute inp free out.

Lemma compute_phases {MO : MapOrder} inp :
  Members inp <> [] -> Compute inp = sort_plan (fst (feasibility inp (distributed inp))).
Proof.
  intros H. unfold Compute, distributed. destruct (Members inp); [done|].
  by destruct (retain inp (∅, fill_pool inp)).
Qed.

Section compute_facts.
Context {MO : MapOrder} `{!MapOrderOk MO} (inp : Inputs).
Hypothesis ids_nonempty : ""%string ∉ memberIDs inp.

Lemma steal_move mid t st st' :
  load_ok st -> owned_count (fst st) mid = 0 -> t ∈ topics_of inp mid ->
  steal inp mid t st = Some st' -> move inp st st'.
Proof.
  destruct st as [out load]. simpl. intros Hok Hz Ht E.
  apply steal_spec in E as (d & l & x & Hd & Hne & _ & Hl & Ho & ->).
  - constructor; try done. by apply elem_of_subs.
  - done.
  - intros m. by eapply load_ok_nonneg.
Qed.

Lemma feed_move mid ts st :
  load_ok st -> owned_count (fst st) mid = 0 -> ts ⊆ topics_of inp mid ->
  feed inp mid ts st = st \/ move inp st (feed inp mid ts st).
Proof.
  intros Hok Hz. induction ts as [|t ts IH]; intros Hts; simpl; [by left|].
  destruct (steal inp mid t st) as [st'|] eqn:E; [|apply IH; set_solver].
  right. apply (steal_move mid t); [done|done|set_solver|done].
Qed.

Lemma feasible_member_move st mid :
  load_ok st -> feasible_member inp st mid = st \/ move inp st (feasible_member inp st mid).
Proof.
  intros Hok. unfold feasible_member.
  destruct (hasAny (default ∅ (fst st !! mid))) eqn:E; [by left|].
  apply feed_move; [done| |done].
  pose proof (owned_count_nonneg (fst st) mid).
  destruct (decide (0 < owned_count (fst st) mid)) as [Hp|]; [|lia].
  apply hasAny_count in Hp. congruence.
Qed.

(** The feasibility pass is a sequence of moves. *)
Lemma feasibility_moves st :
  load_ok st -> rtc (move inp) st (feasibility inp st) /\ load_ok (feasibility inp st).
Proof.
  intros Hok. unfold feasibility.
  apply (fold_left_inv (fun st' => rtc (move inp) st st' /\ load_ok st')); [by split; [apply rtc_refl|]|].
  intros st' mid _ [Hr Hl]. destruct (feasible_member_move st' mid Hl) as [->|Hm]; [done|].
  split; [by eapply rtc_r|by eapply move_load].
Qed.

Lemma moves_good st st' S :
  rtc (move inp) st st' -> good inp (fst st) S -> good inp (fst st') S.
Proof. induction 1; [done|]. intros. eauto using move_good. Qed.

Lemma moves_keep st st' m :
  rtc (move inp) st st' -> 0 < owned_count (fst st) m -> 0 < owned_count (fst st') m.
Proof. induction 1; [done|]. intros. eauto using move_keeps. Qed.

Lemma load_ok_distribute ks st :
  load_ok st -> load_ok (fold_left (distribute_key inp) ks st).
Proof.
  intros H. apply fold_left_inv; [done|]. intros [out load] k _ Hok.
  destruct (distribute_key_spec inp ids_nonempty out load k) as [[_ ->]|(_ & m & _ & _ & ->)]; [done|].
  by apply load_ok_add.
Qed.

Hypothesis no_tombstone : ~ is_part inp tombstone.

(** After the distribution, exactly the partitions whose topic has a subscriber
    are assigned. *)
Lemma distributed_good :
  exists S, good inp (fst (distributed inp)) S /\
    (forall k, k ∈ S <-> is_part inp k /\ subs_of inp k.1 <> ∅).
Proof.
  unfold distributed. pose proof (retain_ok inp) as (S & HG & Hw & Hd & Hall).
  destruct (retain inp (∅, fill_pool inp)) as [out free]. simpl in *.
  destruct (distribute_good inp ids_nonempty (pool_remaining free) out (initial_load out) S)
    as (S' & HG' & HS').
  - apply NoDup_remaining; [done|]. intros H. apply no_tombstone, Hall. by right.
  - intros k. rewrite elem_of_remaining by done. intros Hk HkS. by eapply Hd.
  - done.
  - exists S'. split; [done|].
    intros k. rewrite HS', elem_of_remaining by done. rewrite <- (Hall k).
    split; [|naive_solver]. intros [HkS|]; [|naive_solver]. split; [by left|].
    destruct k as [t x]. destruct (good_total _ _ _ HG t x HkS) as [m Hm].
    apply (good_in _ _ _ HG) in Hm as [_ Hm]. set_solver.
Qed.

Lemma load_ok_distributed : load_ok (distributed inp).
Proof.
  unfold distributed. destruct (retain inp (∅, fill_pool inp)) as [out free].
  apply load_ok_distribute, load_ok_initial.
Qed.

(** The result of [Compute] is an assignment of exactly the same partitions. *)
Lemma compute_good :
  exists S, good inp (Compute inp) S /\
    (forall k, k ∈ S <-> is_part inp k /\ subs_of inp k.1 <> ∅).
Proof.
  destruct (decide (Members inp = [])) as [E|HM].
  - exists ∅. unfold Compute. rewrite E. split; [apply good_empty|]. intros k.
    assert (subs_of inp k.1 = ∅); [|set_solver].
    apply set_eq. intros m. split; [|set_solver].
    intros (x & Hx & _)%subs_members%elem_of_memberIDs. rewrite E in Hx. set_solver.
  - rewrite compute_phases by done. destruct distributed_good as (S & HG & HS).
    exists S. split; [|done]. apply good_sort. eapply moves_good; [|exact HG].
    apply feasibility_moves, load_ok_distributed.
Qed.

End compute_facts.
