(* ===== verification/PlanTheorems.v ===== *)
(** * What the planner promises

    The theorems about [Compute] and [ToAssignments] of Plan.v: the plan is an
    assignment, it is complete, sorted, sticky, balanced and fed, for every
    order in which the maps are ranged over; and what that order, or an
    unlucky donor, still decides. *)

From stdpp Require Import base numbers list strings gmap sorting relations.
From Stdlib Require Import ZArith Lia Strings.Byte.
From S2P Require Import Prelude Primitives Codec ConsumerProtocol Plan PlanFacts.

(** Inputs as Kafka produces them: neither a member id nor a topic name is the
    empty string (the code uses both as sentinels). *)
Definition named_inputs (inp : Inputs) : Prop :=
  Forall (fun m => MemberID m <> ""%string) (Members inp) /\ parts_of inp "" = [].

#[global] Instance named_inputs_dec inp : Decision (named_inputs inp).
Proof. unfold named_inputs. apply _. Defined.

Lemma named_ids inp : named_inputs inp -> ""%string ∉ memberIDs inp.
Proof.
  intros [H _] (m & Hm & E)%elem_of_memberIDs. rewrite Forall_forall in H. by apply (H m).
Qed.

Lemma named_tombstone inp : named_inputs inp -> ~ is_part inp tombstone.
Proof. intros [_ H]. unfold is_part. simpl. rewrite H. apply not_elem_of_nil. Qed.

(** ** Helpers *)

Lemma owned_count_sort p m : owned_count (sort_plan p) m = owned_count p m.
Proof.
  unfold owned_count, sort_plan. rewrite lookup_fmap. destruct (p !! m) as [tm|]; [|done]. simpl.
  induction tm as [|t l tm Hn IH] using map_ind; [by rewrite fmap_empty|].
  rewrite fmap_insert, !count_insert, lookup_fmap, Hn, IH. simpl.
  unfold len. by rewrite merge_sort_Permutation.
Qed.

Section theorems.
Context {MO : MapOrder} `{!MapOrderOk MO} (inp : Inputs).

Lemma subs_nonempty_members t m : m ∈ subs_of inp t -> Members inp <> [].
Proof.
  intros (x & Hx & _)%subs_members%elem_of_memberIDs E. rewrite E in Hx. set_solver.
Qed.

Hypothesis named : named_inputs inp.

Lemma compute_moves :
  rtc (move inp) (distributed inp) (feasibility inp (distributed inp)) /\
  load_ok (feasibility inp (distributed inp)).
Proof. apply feasibility_moves, load_ok_distributed; by apply named_ids. Qed.

End theorems.

(** ** The plan is an assignment *)

(** C5: a partition in the plan is one of the topic's partitions, is given only
    to a member subscribed to the topic, to one member only and once, and each
    list is strictly increasing. *)
Theorem compute_assignment {MO : MapOrder} `{!MapOrderOk MO} inp m t x :
  named_inputs inp -> x ∈ owned (Compute inp) m t ->
  x ∈ parts_of inp t /\ t ∈ topics_of inp m /\
  (forall m', x ∈ owned (Compute inp) m' t -> m' = m) /\
  StronglySorted Z.lt (owned (Compute inp) m t).
Proof.
  intros Hn Hx.
  destruct (compute_good inp (named_ids _ Hn) (named_tombstone _ Hn)) as (S & HG & HS).
  pose proof (good_in _ _ _ HG _ _ _ Hx) as [HxS Hm].
  split_and!.
  - by apply HS in HxS as [? _].
  - by apply elem_of_subs.
  - intros m' Hx'. by eapply good_unique.
  - pose proof (good_nodup _ _ _ HG m t) as Hnd. revert Hnd. clear HxS Hx HG HS.
    rewrite (compute_phases inp), owned_sort by by eapply subs_nonempty_members.
    set (l := owned _ _ _). intros Hnd.
    pose proof (StronglySorted_merge_sort Z.le l) as Hs.
    induction Hs as [|a l' Hs IH Ha]; [constructor|].
    apply NoDup_cons in Hnd as [Hna Hnd]. constructor; [by apply IH|].
    rewrite Forall_forall in Ha |- *. intros y Hy. specialize (Ha y Hy).
    assert (a <> y) by congruence. lia.
Qed.

Lemma compute_assignment_witness :
  2 ∈ parts_of three_members "t" /\ "t"%string ∈ topics_of three_members "m2" /\
  (forall m', 2 ∈ owned (@Compute as_listed three_members) m' "t" -> m' = "m2"%string) /\
  StronglySorted Z.lt (owned (@Compute as_listed three_members) "m2" "t").
Proof.
  apply (@compute_assignment as_listed as_listed_ok three_members "m2" "t" 2).
  - by apply (bool_decide_unpack _); vm_compute.
  - vm_compute. left.
Defined.

(** C4: nothing is left out: when no member id and no topic name is the empty
    string (the code uses both as sentinels, and Kafka knows neither), every
    partition of a topic with a subscriber is owned by exactly one member. *)
Theorem compute_complete {MO : MapOrder} `{!MapOrderOk MO} inp t x m :
  named_inputs inp -> x ∈ parts_of inp t -> t ∈ topics_of inp m ->
  exists! m', x ∈ owned (Compute inp) m' t.
Proof.
  intros Hn Hx Hm.
  destruct (compute_good inp (named_ids _ Hn) (named_tombstone _ Hn)) as (S & HG & HS).
  assert ((t, x) ∈ S) as HxS.
  { apply HS. split; [done|]. apply elem_of_subs in Hm. simpl. set_solver. }
  destruct (good_total _ _ _ HG t x HxS) as [m' Hm']. exists m'. split; [done|].
  intros m'' Hm''. by eapply good_unique.
Qed.

Lemma compute_complete_witness :
  exists! m', 1 ∈ owned (@Compute as_listed three_members) m' "t".
Proof.
  apply (@compute_complete as_listed as_listed_ok three_members "t" 1 "m3").
  - by apply (bool_decide_unpack _); vm_compute.
  - vm_compute. right. left.
  - vm_compute. left.
Defined.

(** ** Balance *)

(** All members have the same topics. *)
Definition uniform (inp : Inputs) : Prop :=
  forall a b t, a ∈ memberIDs inp -> b ∈ memberIDs inp -> t ∈ topics_of inp a -> t ∈ topics_of inp b.

(** Nobody who got a partition could have been passed over for [b]: [b]'s
    score is at most one above. *)
Definition balanced (inp : Inputs) (load : gmap string Z) : Prop :=
  forall a b, a ∈ memberIDs inp -> b ∈ memberIDs inp -> 0 < load_of load a ->
    weight inp b * 8 - load_of load b <= weight inp a * 8 - load_of load a + 1.

Section balance.
Context {MO : MapOrder} `{!MapOrderOk MO} (inp : Inputs).
Hypothesis named : named_inputs inp.
Hypothesis fresh : Previous inp = None.

Lemma distributed_fresh :
  distributed inp = fold_left (distribute_key inp) (pool_remaining (fill_pool inp)) (∅, ∅).
Proof.
  unfold distributed, retain. rewrite fresh. unfold distribute, initial_load. by rewrite fmap_empty.
Qed.

Lemma distributed_balanced : uniform inp -> balanced inp (snd (distributed inp)).
Proof.
  intros Hu. rewrite distributed_fresh.
  apply (fold_left_inv (fun st : Plan * gmap string Z => balanced inp (snd st))).
  - intros a b _ _. unfold load_of. simpl. rewrite !lookup_empty. simpl. lia.
  - intros [out load] k _ Hb.
    destruct (distribute_key_spec inp (named_ids _ named) out load k)
      as [[_ ->]|(_ & m & Hm & Hbest & ->)]; [done|].
    simpl in *. intros a b Ha Hb'. rewrite !load_of_insert.
    assert (b ∈ subs_of inp k.1) as Hbs.
    { apply elem_of_subs, (Hu m b); [by eapply subs_members|done|by apply elem_of_subs]. }
    specialize (Hbest b Hbs). unfold better_eq in Hbest.
    destruct (decide (a = m)), (decide (b = m)); subst; intros Hpos; try lia.
    + specialize (Hb a m Ha Hb' Hpos). lia.
    + by apply Hb.
Qed.

(** With equal weights the loads differ by at most one, so nothing is moved. *)
Lemma balanced_no_move st :
  load_ok st -> balanced inp (snd st) ->
  (forall a b, a ∈ memberIDs inp -> b ∈ memberIDs inp -> weight inp a = weight inp b) ->
  forall st', rtc (move inp) st st' -> st' = st.
Proof.
  intros Hok Hb Hw st' Hr. destruct Hr as [|st1 st2 st3 Hm _]; [done|]. exfalso.
  destruct Hm as [out load mid d t l x Hz Hm Hd Hne Hl Ho]. simpl in *.
  pose proof (owned_count_ge out d t) as Hge. rewrite Ho, len_app in Hge.
  change (len [x]) with 1 in Hge. destruct l as [|y l]; [done|].
  pose proof (Hok d) as Hd'. pose proof (Hok mid) as Hm'. simpl in *.
  assert (mid ∈ memberIDs inp) by by eapply subs_members.
  assert (d ∈ memberIDs inp) by by eapply subs_members.
  specialize (Hb d mid ltac:(done) ltac:(done)). rewrite (Hw d mid) in Hb by done.
  len_lia.
Qed.

End balance.

(** With no previous plan and the same subscriptions for everyone, the
    distribution follows the weights: for a member [a] with at least one
    partition and any member [b], [b]'s score (eight times its weight minus
    its number of partitions) exceeds [a]'s by at most one, that is, moving a
    partition from [a] to [b] would not bring the scores closer. *)
Theorem distribution_follows_weights {MO : MapOrder} `{!MapOrderOk MO} inp a b :
  named_inputs inp -> Previous inp = None -> uniform inp ->
  a ∈ memberIDs inp -> b ∈ memberIDs inp ->
  let plan := fst (distributed inp) in
  0 < owned_count plan a ->
  weight inp b * 8 - owned_count plan b <= weight inp a * 8 - owned_count plan a + 1.
Proof.
  intros Hn Hf Hu Ha Hb. cbv zeta.
  pose proof (load_ok_distributed inp (named_ids _ Hn)) as Hok.
  rewrite <- (Hok a), <- (Hok b). by apply distributed_balanced.
Qed.

(** C26: with no previous plan, the same subscriptions and equal weights, the
    numbers of partitions of any two members differ by at most one in the
    plan [Compute] returns. *)
Theorem compute_balanced {MO : MapOrder} `{!MapOrderOk MO} inp a b :
  named_inputs inp -> Previous inp = None -> uniform inp ->
  (forall a b, a ∈ memberIDs inp -> b ∈ memberIDs inp -> weight inp a = weight inp b) ->
  a ∈ memberIDs inp -> b ∈ memberIDs inp ->
  owned_count (Compute inp) a <= owned_count (Compute inp) b + 1.
Proof.
  intros Hn Hf Hu Hw Ha Hb.
  rewrite compute_phases, !owned_count_sort.
  2:{ apply elem_of_memberIDs in Ha as (x & Hx & _). intros E. rewrite E in Hx. set_solver. }
  pose proof (load_ok_distributed inp (named_ids _ Hn)) as Hok.
  pose proof (distributed_balanced inp Hn Hf Hu) as Hbal.
  destruct (compute_moves inp Hn) as [Hr _].
  rewrite (balanced_no_move inp _ Hok Hbal Hw _ Hr).
  rewrite <- (Hok a), <- (Hok b). specialize (Hbal a b Ha Hb).
  rewrite (Hw a b) in Hbal by done.
  pose proof (owned_count_nonneg (fst (distributed inp)) b) as Hnn. rewrite <- (Hok b) in Hnn. lia.
Qed.

Definition equal_members : Inputs :=
  mkInputs "g" [mkMember "m1" ["t"%string; "u"%string] 0; mkMember "m2" ["u"%string; "t"%string] 0]
    (<["t"%string := [0; 1; 2]]> {["u"%string := [0; 1]]}) None.

Lemma equal_members_ids m : m ∈ memberIDs equal_members -> m = "m1"%string \/ m = "m2"%string.
Proof. change (memberIDs equal_members) with ["m1"; "m2"]%string. set_solver. Qed.

Lemma equal_members_uniform : uniform equal_members.
Proof.
  intros a b t [-> | ->]%equal_members_ids [-> | ->]%equal_members_ids;
    change (topics_of equal_members "m1") with ["t"; "u"]%string;
    change (topics_of equal_members "m2") with ["u"; "t"]%string; set_solver.
Qed.

Lemma compute_balanced_witness :
  owned_count (@Compute as_listed equal_members) "m1" <=
  owned_count (@Compute as_listed equal_members) "m2" + 1.
Proof.
  apply (@compute_balanced as_listed as_listed_ok equal_members "m1" "m2").
  - by apply (bool_decide_unpack _); vm_compute.
  - reflexivity.
  - apply equal_members_uniform.
  - by intros a b [-> | ->]%equal_members_ids [-> | ->]%equal_members_ids.
  - vm_compute. left.
  - vm_compute. right. left.
Defined.

Lemma distribution_follows_weights_witness :
  let plan := fst (@distributed as_listed equal_members) in
  weight equal_members "m1" * 8 - owned_count plan "m1" <=
  weight equal_members "m2" * 8 - owned_count plan "m2" + 1.
Proof.
  apply (@distribution_follows_weights as_listed as_listed_ok equal_members "m2" "m1").
  - by apply (bool_decide_unpack _); vm_compute.
  - reflexivity.
  - apply equal_members_uniform.
  - vm_compute. right. left.
  - vm_compute. left.
  - vm_compute. reflexivity.
Defined.

(** ** Nobody starves *)

Lemma sum_at_most_one {A} (f : A -> list Z) l a :
  (forall x, x ∈ l -> (length (f x) <= 1)%nat) -> a ∈ l -> f a = [] ->
  (length (concat (map f l)) < length l)%nat.
Proof.
  assert (forall l, (forall x, x ∈ l -> (length (f x) <= 1)%nat) ->
    (length (concat (map f l)) <= length l)%nat) as Hle.
  { clear. induction l as [|x l IH]; intros H; simpl; [done|].
    rewrite length_app. specialize (IH ltac:(set_solver)). pose proof (H x ltac:(set_solver)). lia. }
  intros H (l1 & l2 & ->)%list_elem_of_split Hf. rewrite map_app, concat_app. simpl.
  rewrite Hf, !length_app. simpl.
  pose proof (Hle l1 ltac:(set_solver)). pose proof (Hle l2 ltac:(set_solver)). lia.
Qed.

(** The group of one topic: all members subscribe to [t] and to nothing else. *)
Definition one_topic (inp : Inputs) (t : string) : Prop :=
  forall m, m ∈ memberIDs inp -> forall t', t' ∈ topics_of inp m <-> t' = t.

Section fed.
Context {MO : MapOrder} `{!MapOrderOk MO} (inp : Inputs) (t : string).
Hypothesis named : named_inputs inp.
Hypothesis single : one_topic inp t.
Hypothesis distinct : NoDup (parts_of inp t).
Hypothesis enough : Z.of_nat (size (subs_of inp t)) <= len (parts_of inp t).

(** The plan holds every partition of the topic. *)
Definition holds_all (p : Plan) : Prop :=
  exists S, good inp p S /\ forall x, x ∈ parts_of inp t -> (t, x) ∈ S.

Lemma single_count p m : holds_all p -> owned_count p m = len (owned p m t).
Proof.
  intros (S & HG & _). assert (forall t', t' <> t -> owned p m t' = []) as Hno.
  { intros t' Hne. destruct (owned p m t') as [|x l] eqn:E; [done|].
    assert (x ∈ owned p m t') as Hx by (rewrite E; set_solver).
    apply (good_in _ _ _ HG) in Hx as [_ Hs]. exfalso. apply Hne.
    apply (single m); [by eapply subs_members|by apply elem_of_subs]. }
  unfold owned_count, owned in *. set (tm := default ∅ (p !! m)) in *.
  destruct (tm !! t) as [l|] eqn:E; simpl.
  - rewrite <- (insert_delete_id tm t l) by done. rewrite count_insert, lookup_delete_eq. simpl.
    rewrite count_topics_zero; [rewrite (@len_nil Z); lia|]. intros t'.
    destruct (decide (t' = t)) as [->|Hne]; [by rewrite lookup_delete_eq|].
    rewrite lookup_delete_ne by done. by apply Hno.
  - rewrite (@len_nil Z). apply count_topics_zero. intros t'.
    destruct (decide (t' = t)) as [->|Hne]; [by rewrite E|by apply Hno].
Qed.

(** With a starved member and enough partitions, somebody owns two. *)
Lemma rich_member p mid :
  holds_all p -> mid ∈ subs_of inp t -> owned p mid t = [] ->
  exists m, m ∈ subs_of inp t /\ 2 <= len (owned p m t).
Proof.
  intros (S & HG & HS) Hmid Hz.
  destruct (decide (Exists (fun m => 2 <= len (owned p m t)) (elements (subs_of inp t)))) as [HE|HE].
  { apply Exists_exists in HE as (m & Hm & H2). exists m. split; [by apply elem_of_elements|done]. }
  exfalso.
  pose proof (sum_at_most_one (fun m => owned p m t) (elements (subs_of inp t)) mid) as Hsum.
  assert (length (parts_of inp t) <=
    length (concat (map (fun m => owned p m t) (elements (subs_of inp t)))))%nat as Hle.
  { apply submseteq_length, NoDup_submseteq; [done|]. intros x Hx.
    destruct (good_total _ _ _ HG t x (HS x Hx)) as [m Hm].
    apply list_elem_of_In, in_concat. exists (owned p m t). rewrite <- !list_elem_of_In. split; [|done].
    apply list_elem_of_fmap. exists m. split; [done|]. apply elem_of_elements.
    by apply (good_in _ _ _ HG) in Hm as [_ ?]. }
  assert (length (concat (map (fun m => owned p m t) (elements (subs_of inp t)))) <
          length (elements (subs_of inp t)))%nat as Hlt.
  { apply Hsum; [|by apply elem_of_elements|done]. intros m Hm.
    destruct (decide (2 <= len (owned p m t))) as [H2|H2]; [|unfold len in H2; lia].
    exfalso. apply HE, Exists_exists. by exists m. }
  revert enough. unfold len, size, set_size. simpl. lia.
Qed.

(** A starved member is fed by the first topic of its list. *)
Lemma starved_is_fed st mid :
  load_ok st -> holds_all (fst st) -> mid ∈ memberIDs inp ->
  0 < owned_count (fst (feasible_member inp st mid)) mid.
Proof.
  intros Hok Hall Hmid. unfold feasible_member.
  destruct (hasAny (default ∅ (fst st !! mid))) eqn:E; [by apply hasAny_count|].
  assert (owned_count (fst st) mid = 0) as Hz.
  { pose proof (owned_count_nonneg (fst st) mid).
    destruct (decide (0 < owned_count (fst st) mid)) as [Hp|]; [|lia].
    apply hasAny_count in Hp. congruence. }
  assert (mid ∈ subs_of inp t) as Hs by by apply elem_of_subs, (single mid).
  assert (owned (fst st) mid t = []) as Ho.
  { rewrite single_count in Hz by done. by destruct (owned (fst st) mid t). }
  destruct (rich_member _ _ Hall Hs Ho) as (rich & Hrich & H2).
  destruct (topics_of inp mid) as [|t' ts] eqn:Et.
  { apply elem_of_subs in Hs. rewrite Et in Hs. set_solver. }
  assert (t' = t) as -> by (apply (single mid); [done|rewrite Et; set_solver]).
  simpl. assert (exists st', steal inp mid t st = Some st') as [st' E'].
  { destruct st as [out load]. unfold steal.
    destruct (Z.ltb_spec (len (parts_of inp t)) (Z.of_nat (size (subs_of inp t)))); [lia|].
    destruct (donor_spec inp (named_ids _ named) mid t load) as [[_ Hd]|(Hd1 & Hd2 & Hd3 & Hd4)].
    { intros m. by eapply load_ok_nonneg. }
    { assert (rich = mid) as -> by by apply Hd. simpl in *. rewrite Ho in H2. done. }
    rewrite bool_decide_eq_false_2 by done.
    specialize (Hd4 rich Hrich ltac:(intros ->; simpl in *; rewrite Ho in H2; done)).
    pose proof (Hok rich) as L1. pose proof (Hok (donor inp mid t load)) as L2. simpl in *.
    rewrite single_count in L1, L2 by done.
    destruct (Z.leb_spec (len (owned out (donor inp mid t load) t)) 1); [lia|].
    destruct (last (owned out (donor inp mid t load) t)) eqn:El; [eauto|].
    apply last_None in El. rewrite El in *. done. }
  rewrite E'. destruct st as [out load].
  apply steal_spec in E' as (d & l & x & _ & _ & _ & _ & _ & ->);
    [|by apply named_ids|intros m; by eapply load_ok_nonneg].
  simpl. rewrite owned_count_add, decide_True by done.
  match goal with |- 0 < owned_count ?q mid + 1 => pose proof (owned_count_nonneg q mid) end. lia.
Qed.

Lemma holds_all_move st st' : move inp st st' -> holds_all (fst st) -> holds_all (fst st').
Proof. intros Hm (S & HG & HS). exists S. split; [by eapply move_good|done]. Qed.

Lemma feasibility_feeds st m :
  load_ok st -> holds_all (fst st) -> m ∈ memberIDs inp ->
  0 < owned_count (fst (feasibility inp st)) m.
Proof.
  intros Hok Hall Hm. unfold feasibility.
  set (Q := fun st : Plan * gmap string Z => load_ok st /\ holds_all (fst st)).
  assert (forall st mid, Q st -> Q (feasible_member inp st mid)) as HQ.
  { intros st' mid [H1 H2].
    destruct (feasible_member_move inp (named_ids _ named) st' mid H1) as [->|Hmv]; [done|].
    split; [by eapply move_load|by eapply holds_all_move]. }
  apply (fold_left_reach Q (fun st => Q st /\ 0 < owned_count (fst st) m) _ _ _ m); [done|done| | |].
  - intros st' mid _. apply HQ.
  - intros st' Hst'. split; [by apply HQ|]. destruct Hst'. by apply starved_is_fed.
  - intros st' mid _ [Hst' Hpos]. split; [by apply HQ|].
    destruct (feasible_member_move inp (named_ids _ named) st' mid (proj1 Hst')) as [->|Hmv]; [done|].
    by eapply move_keeps.
Qed.

End fed.

(** C27: In a group whose members subscribe to one and the same topic with at
    least as many partitions as members, every member owns a partition,
    whatever the lags, the previous plan and the donor order are. *)
Theorem single_topic_fed {MO : MapOrder} `{!MapOrderOk MO} inp t m :
  named_inputs inp -> one_topic inp t -> NoDup (parts_of inp t) ->
  Z.of_nat (size (subs_of inp t)) <= len (parts_of inp t) ->
  m ∈ memberIDs inp -> 0 < owned_count (Compute inp) m.
Proof.
  intros Hn Hs Hd He Hm. rewrite compute_phases, owned_count_sort.
  2:{ apply elem_of_memberIDs in Hm as (x & Hx & _). intros E. rewrite E in Hx. set_solver. }
  apply (feasibility_feeds inp t); try done; [apply load_ok_distributed, named_ids, Hn|].
  destruct (distributed_good inp (named_ids _ Hn) (named_tombstone _ Hn)) as (S & HG & HS).
  exists S. split; [done|]. intros x Hx. apply HS. split; [done|]. simpl.
  assert (m ∈ subs_of inp t) by by apply elem_of_subs, (Hs m). set_solver.
Qed.

Lemma single_topic_fed_witness : 0 < owned_count (@Compute as_listed three_members) "m2".
Proof.
  apply (@single_topic_fed as_listed as_listed_ok three_members "t" "m2").
  - by apply (bool_decide_unpack _); vm_compute.
  - intros m Hm t'. change (memberIDs three_members) with ["m1"; "m2"; "m3"]%string in Hm.
    assert (topics_of three_members m = ["t"%string]) as ->; [|set_solver].
    repeat (apply elem_of_cons in Hm as [->|Hm]; [reflexivity|]). set_solver.
  - change (NoDup [0; 1; 2]). apply (bool_decide_unpack _). vm_compute. done.
  - vm_compute. discriminate.
  - vm_compute. right. left.
Defined.

(** ** Stickiness *)

Section sticky.
Context {MO : MapOrder} `{!MapOrderOk MO} (inp : Inputs) (pv : Plan).
Context (m t : string) (x : Z).
Hypothesis once : forall m', x ∈ owned pv m' t -> m' = m.
Hypothesis had : x ∈ owned pv m t.
Hypothesis subscribed : t ∈ topics_of inp m.

(** Until its owner's turn, the partition is in the pool or already back. *)
Definition kept (st : Plan * freePool) : Prop :=
  pool_has (snd st) (t, x) \/ x ∈ owned (fst st) m t.

Lemma retain_part_mono mid topic st p :
  x ∈ owned (fst st) m t -> x ∈ owned (fst (retain_part mid topic st p)) m t.
Proof.
  intros H. unfold retain_part. destruct (pool_remove (snd st) (topic, p)) as [[] f']; [|done].
  simpl. rewrite owned_add. case_decide; set_solver.
Qed.

Lemma retain_part_kept mid topic st p :
  p ∈ owned pv mid topic -> kept st -> kept (retain_part mid topic st p).
Proof.
  intros Hp [Hk|Hk]; [|right; by apply retain_part_mono].
  unfold retain_part, kept.
  pose proof (pool_remove_has (snd st) (topic, p) (t, x)) as Hh.
  pose proof (pool_remove_true (snd st) (topic, p)) as Ht.
  destruct (pool_remove (snd st) (topic, p)) as [r f'] eqn:E; simpl in *.
  destruct (decide ((t, x) = (topic, p))) as [[= <- <-]|Hne].
  - apply Ht in Hk. subst r. right. simpl. rewrite owned_add, decide_True; [set_solver|].
    split; [|done]. symmetry. by apply once.
  - destruct r; left; simpl; by apply Hh.
Qed.

Lemma retain_topic_kept prev mid topic st :
  pv !! mid = Some prev -> kept st -> kept (retain_topic inp prev mid st topic).
Proof.
  intros Hpv Hk. unfold retain_topic. case_decide; [|done].
  apply fold_left_inv; [done|]. intros st' p Hp. apply retain_part_kept.
  unfold owned. by rewrite Hpv.
Qed.

Lemma retain_topic_mono prev mid topic st :
  x ∈ owned (fst st) m t -> x ∈ owned (fst (retain_topic inp prev mid st topic)) m t.
Proof.
  intros H. unfold retain_topic. case_decide; [|done].
  apply (fold_left_inv (fun st => x ∈ owned (fst st) m t)); [done|].
  intros st' p _. apply retain_part_mono.
Qed.

Lemma retain_member_kept st mid : kept st -> kept (retain_member inp pv st mid).
Proof.
  intros H. unfold retain_member. destruct (pv !! mid) as [prev|] eqn:E; [|done].
  apply fold_left_inv; [done|]. intros st' topic _. by apply retain_topic_kept.
Qed.

Lemma retain_member_mono st mid :
  x ∈ owned (fst st) m t -> x ∈ owned (fst (retain_member inp pv st mid)) m t.
Proof.
  intros H. unfold retain_member. destruct (pv !! mid) as [prev|]; [|done].
  apply (fold_left_inv (fun st => x ∈ owned (fst st) m t)); [done|].
  intros st' topic _. apply retain_topic_mono.
Qed.

(** The owner's turn puts it back. *)
Lemma retain_member_takes st :
  kept st -> x ∈ owned (fst (retain_member inp pv st m)) m t.
Proof.
  intros Hk. pose proof had as Hx. unfold owned in Hx. unfold retain_member.
  destruct (pv !! m) as [prev|] eqn:E; [simpl in Hx|by apply elem_of_nil in Hx].
  destruct (prev !! t) as [ps|] eqn:Et; [simpl in Hx|simpl in Hx; set_solver].
  apply (fold_left_reach kept (fun st => x ∈ owned (fst st) m t) _ _ _ t);
    [|done|intros st' topic _; by apply retain_topic_kept| |intros st' topic _; apply retain_topic_mono].
  { rewrite ord_prev_perm. apply list_elem_of_fmap. exists (t, ps). by rewrite elem_of_map_to_list. }
  intros st' Hk'. unfold retain_topic. rewrite decide_True by by apply elem_of_subs.
  rewrite Et; simpl.
  apply (fold_left_reach kept (fun st => x ∈ owned (fst st) m t) _ _ _ x); [done|done| | |].
  - intros st'' p Hp. apply retain_part_kept. unfold owned. by rewrite E; simpl; rewrite Et.
  - intros st'' [Hh|Ho]; [|by apply retain_part_mono].
    unfold retain_part. apply pool_remove_true in Hh.
    destruct (pool_remove (snd st'') (t, x)) as [r f']. simpl in Hh. subst r. simpl.
    rewrite owned_add, decide_True by done. set_solver.
  - intros st'' p _. apply retain_part_mono.
Qed.

Lemma retain_takes :
  Previous inp = Some pv -> x ∈ parts_of inp t ->
  x ∈ owned (fst (retain inp (∅, fill_pool inp))) m t.
Proof.
  intros Hpv Hx. unfold retain. rewrite Hpv.
  apply (fold_left_reach kept (fun st => x ∈ owned (fst st) m t) _ _ _ m).
  - by eapply topics_of_member.
  - left. by apply fill_pool_ok.
  - intros st mid _. apply retain_member_kept.
  - apply retain_member_takes.
  - intros st mid _. apply retain_member_mono.
Qed.

End sticky.

Lemma distribute_mono {MO : MapOrder} inp m t x ks st :
  x ∈ owned (fst st) m t -> x ∈ owned (fst (fold_left (distribute_key inp) ks st)) m t.
Proof.
  intros H. apply (fold_left_inv (fun st : Plan * gmap string Z => x ∈ owned (fst st) m t)); [done|].
  intros [out load] k _ Hx. simpl in *. case_decide; [done|]. case_bool_decide; [done|].
  simpl. rewrite owned_add. case_decide; set_solver.
Qed.

(** Along moves, a member either only loses partitions or, having had none,
    owns exactly one. *)
Lemma moves_change inp st st' m :
  rtc (move inp) st st' -> load_ok st ->
  (forall t, owned (fst st') m t ⊆ owned (fst st) m t) \/
  (owned_count (fst st) m = 0 /\ owned_count (fst st') m = 1).
Proof.
  intros Hr Hok. revert st' Hr.
  apply (rtc_ind_r (fun st' => (forall t, owned (fst st') m t ⊆ owned (fst st) m t) \/
    (owned_count (fst st) m = 0 /\ owned_count (fst st') m = 1)) st); [by left|].
  intros st1 st2 Hr Hm IH.
  assert (0 < owned_count (fst st) m -> 0 < owned_count (fst st1) m) as Hkeep by (by apply (moves_keep inp)).
  destruct Hm as [out load mid d t l x Hz Hmid Hd Hne Hl Ho]. simpl in *.
  pose proof (owned_count_nonneg (fst st) m).
  destruct (decide (m = mid)) as [->|Hm].
  - right. split; [lia|]. rewrite owned_count_add, owned_count_set.
    repeat case_decide; try congruence. lia.
  - destruct IH as [IH|[H0 H1]].
    + left. intros t'. rewrite owned_add, decide_False by naive_solver. rewrite owned_set.
      case_decide as E; [|apply IH]. destruct E as [-> ->]. rewrite <- IH, Ho. set_solver.
    + right. split; [done|]. rewrite owned_count_add, owned_count_set.
      rewrite (decide_False (P := m = mid)) by done. rewrite Z.add_0_r. destruct (decide (m = d)) as [->|]; [|done].
      pose proof (owned_count_ge out d t) as Hge. rewrite Ho, len_app in Hge.
      destruct l; [done|]. change (len [x]) with 1 in Hge. len_lia.
Qed.

(** C28: stickiness: a partition that its previous owner can keep (it still
    exists and the owner still subscribes to its topic) stays with it, unless
    it was given to one member that would otherwise have had nothing at all:
    that member retained no partition of its own and owns just this one. *)
Theorem compute_sticky {MO : MapOrder} `{!MapOrderOk MO} inp pv m t x :
  named_inputs inp -> Previous inp = Some pv ->
  (forall m', x ∈ owned pv m' t -> m' = m) ->
  x ∈ owned pv m t -> t ∈ topics_of inp m -> x ∈ parts_of inp t ->
  x ∈ owned (Compute inp) m t \/
  exists m', m' <> m /\ x ∈ owned (Compute inp) m' t /\ owned_count (Compute inp) m' = 1 /\
    owned_count (fst (distributed inp)) m' = 0.
Proof.
  intros Hn Hpv Honce Hhad Hsub Hx.
  assert (x ∈ owned (fst (distributed inp)) m t) as Hret.
  { unfold distributed. pose proof (retain_takes inp pv m t x Honce Hhad Hsub Hpv Hx) as H.
    destruct (retain inp (∅, fill_pool inp)) as [out free]. by apply distribute_mono. }
  rewrite (compute_phases inp).
  2:{ apply topics_of_member, elem_of_memberIDs in Hsub as (y & Hy & _). intros E. rewrite E in Hy.
      set_solver. }
  destruct (compute_moves inp Hn) as [Hr _].
  destruct (distributed_good inp (named_ids _ Hn) (named_tombstone _ Hn)) as (S & HG & HS).
  pose proof (moves_good _ _ _ _ Hr HG) as HG'.
  assert ((t, x) ∈ S) as HxS by by apply (good_in _ _ _ HG) in Hret as [? _].
  destruct (good_total _ _ _ HG' t x HxS) as [m' Hm'].
  destruct (decide (m' = m)) as [->|Hne]; [left; by rewrite owned_sort, merge_sort_Permutation|].
  right. exists m'. rewrite owned_sort, merge_sort_Permutation, owned_count_sort.
  destruct (moves_change inp _ _ m' Hr (load_ok_distributed inp (named_ids _ Hn))) as [Hs|[H0 H1]].
  - apply Hs in Hm'. exfalso. apply Hne. by eapply (good_unique _ _ _ HG).
  - done.
Qed.

Definition sticky_inputs : Inputs :=
  mkInputs "g" [mkMember "m1" ["t"%string] 0; mkMember "m2" ["t"%string] 0]
    {["t"%string := [0; 1; 2; 3]]}
    (Some (<["m1"%string := {["t"%string := [0; 1]]}]> {["m2"%string := {["t"%string := [2; 3]]}]})).

Lemma compute_sticky_witness :
  3 ∈ owned (@Compute as_listed sticky_inputs) "m2" "t" \/
  exists m', m' <> "m2"%string /\ 3 ∈ owned (@Compute as_listed sticky_inputs) m' "t" /\
    owned_count (@Compute as_listed sticky_inputs) m' = 1 /\
    owned_count (fst (@distributed as_listed sticky_inputs)) m' = 0.
Proof.
  eapply (@compute_sticky as_listed as_listed_ok sticky_inputs _ "m2" "t" 3).
  - by apply (bool_decide_unpack _); vm_compute.
  - reflexivity.
  - intros m'. unfold owned. rewrite lookup_insert. case_decide; [simpl|].
    + change (3 ∈ [0; 1] -> m' = "m2"%string). set_solver.
    + rewrite lookup_singleton. case_decide; [done|]. intros []%elem_of_nil.
  - vm_compute. right. left.
  - vm_compute. left.
  - vm_compute. right. right. right. left.
Defined.

(** ** Rendering *)

(** The plan a list of rendered assignments stands for. *)
Definition read_topics (tps : list TopicPartitions) : gmap string (list Z) :=
  list_to_map (map (fun tp => (TP_Topic tp, TP_Partitions tp)) tps).
Definition read_assignments (l : list MemberAssignment) : Plan :=
  list_to_map (map (fun a => (MA_MemberID a, read_topics (MA_Partitions a))) l).

Lemma list_to_map_keys {A} (m : gmap string A) (f : string -> A) ks :
  ks ≡ₚ map fst (map_to_list m) -> (forall k v, m !! k = Some v -> f k = v) ->
  list_to_map (map (fun k => (k, f k)) ks) = m.
Proof.
  intros Hks Hf. apply map_eq. intros k.
  assert (map fst (map (fun k => (k, f k)) ks) = ks) as Hfst.
  { rewrite map_map. simpl. apply map_id. }
  destruct (m !! k) as [v|] eqn:E.
  - apply elem_of_list_to_map_1.
    + change (NoDup (map fst (map (fun k => (k, f k)) ks))).
      rewrite Hfst, Hks. apply NoDup_fst_map_to_list.
    + apply list_elem_of_fmap. exists k. split; [by rewrite (Hf k v)|]. rewrite Hks.
      apply list_elem_of_fmap. exists (k, v). by rewrite elem_of_map_to_list.
  - apply not_elem_of_list_to_map_1.
    change (k ∉ map fst (map (fun k => (k, f k)) ks)). rewrite Hfst, Hks.
    intros ([k' v] & -> & Hin)%list_elem_of_fmap. apply elem_of_map_to_list in Hin. simpl in *. congruence.
Qed.

Lemma read_render_topics tm : read_topics (render_topics tm) = tm.
Proof.
  unfold read_topics, render_topics. rewrite map_map. simpl.
  apply list_to_map_keys; [apply merge_sort_Permutation|]. by intros k v ->.
Qed.

(** Rendering loses nothing and is deterministic: the assignments can be
    read back to the plan, and members, and topics within a member, come
    strictly sorted, without repetition. *)
Theorem to_assignments_faithful p :
  read_assignments (ToAssignments p) = p /\
  Sorted String.le (map MA_MemberID (ToAssignments p)) /\ NoDup (map MA_MemberID (ToAssignments p)) /\
  Forall (fun a => Sorted String.le (map TP_Topic (MA_Partitions a)) /\
                   NoDup (map TP_Topic (MA_Partitions a))) (ToAssignments p).
Proof.
  assert (forall (A : Type) (m : gmap string A),
    Sorted String.le (merge_sort String.le (map fst (map_to_list m))) /\
    NoDup (merge_sort String.le (map fst (map_to_list m)))) as Hs.
  { intros A m. split; [apply Sorted_merge_sort, _|].
    rewrite merge_sort_Permutation. apply NoDup_fst_map_to_list. }
  assert (map MA_MemberID (ToAssignments p) = merge_sort String.le (map fst (map_to_list p))) as ->.
  { unfold ToAssignments. rewrite map_map. simpl. apply map_id. }
  split_and!; [|apply Hs|apply Hs|].
  - unfold read_assignments, ToAssignments. rewrite map_map. simpl.
    apply (list_to_map_keys p (fun mid => read_topics (render_topics (default ∅ (p !! mid)))));
      [apply merge_sort_Permutation|]. intros k v ->. apply read_render_topics.
  - apply Forall_map, Forall_forall. intros mid _. simpl. unfold render_topics.
    rewrite map_map. simpl. rewrite map_id. apply Hs.
Qed.

(** ** What the donor search leaves open *)

Definition reversed : MapOrder := {|
  ord_parts ks := ks; ord_prev _ ks := ks; ord_subs _ _ ks := reverse ks |}.

#[global] Instance reversed_ok : MapOrderOk reversed.
Proof. split; intros; simpl; [done..|]. apply reverse_Permutation. Qed.

Definition tied_donors : Inputs :=
  mkInputs "g" [mkMember "a" ["t"%string] 0; mkMember "b" ["t"%string] 0;
                mkMember "c" ["t"%string] 99000]
    {["t"%string := [0; 1; 2; 3]]} None.

(** Equal inputs need not produce equal plans: when two donors are equally
    loaded, the order in which the subscribers are ranged over decides which
    one gives up a partition. *)
Theorem compute_depends_on_map_order :
  MapOrderOk as_listed /\ MapOrderOk reversed /\
  @Compute as_listed tied_donors <> @Compute reversed tied_donors.
Proof.
  split_and!; [apply _..|]. intros E.
  assert (owned (@Compute as_listed tied_donors) "c" "t" =
          owned (@Compute reversed tied_donors) "c" "t") as H by by rewrite E.
  vm_compute in H. done.
Qed.

Definition busy_donor : Inputs :=
  mkInputs "g" [mkMember "a" ["s"%string; "t"%string] 0; mkMember "b" ["t"%string] 0;
                mkMember "c" ["t"%string] 99000]
    (<["s"%string := [0; 1; 2; 3; 4]]> {["t"%string := [0; 1; 2]]}) None.

(** A member can be left with nothing although its topic has as many
    partitions as subscribers and another subscriber owns two or more of them:
    the donor is chosen by its load over all topics, and one that owns none of
    this topic gives nothing. *)
Theorem member_starved_with_enough_partitions :
  exists inp m t, t ∈ topics_of inp m /\
    Z.of_nat (size (subs_of inp t)) <= len (parts_of inp t) /\
    owned_count (@Compute as_listed inp) m = 0 /\
    (exists m', 2 <= len (owned (@Compute as_listed inp) m' t)).
Proof.
  exists busy_donor, "c"%string, "t"%string. split_and!.
  - vm_compute. left.
  - vm_compute. discriminate.
  - vm_compute. reflexivity.
  - exists "b"%string. vm_compute. discriminate.
Qed.
