(* ===== verification/PlanPool.v ===== *)
(** * The pool of free partitions is an ordered set: internal/plan/plan.go, [freePool]

    The pool of Plan.v removes in constant time: it overwrites the key with a
    tombstone and forgets its index.  Here it is compared with the set it
    stands for, over any sequence of operations. *)

From stdpp Require Import base numbers list strings gmap sorting.
From Stdlib Require Import ZArith Lia.
From S2P Require Import Prelude Plan PlanFacts.

(** ** The order of [forEach] *)

#[global] Instance key_le_total : Total key_le.
Proof.
  intros [t1 p1] [t2 p2]. unfold key_le. simpl.
  destruct (decide (t1 = t2)) as [->|]; destruct (decide (_ = _)); try done.
  - destruct (Z.le_ge_cases p1 p2); auto.
  - apply (total String.le).
Qed.

#[global] Instance key_le_antisymm : AntiSymm (=) key_le.
Proof.
  intros [t1 p1] [t2 p2]. unfold key_le. simpl.
  destruct (decide (t1 = t2)) as [->|Hne]; destruct (decide (_ = _)); try done.
  - intros. f_equal. lia.
  - intros. destruct Hne. by apply (anti_symm String.le).
Qed.

#[global] Instance key_le_trans : Transitive key_le.
Proof.
  intros [t1 p1] [t2 p2] [t3 p3]. unfold key_le. simpl.
  destruct (decide (t1 = t2)) as [->|H12]; destruct (decide (t2 = t3)) as [->|H23];
    repeat (destruct (decide (_ = _))); subst; try done; try lia.
  - intros H1 H2. destruct H23. by apply (anti_symm String.le).
  - intros. by transitivity t2.
Qed.

(** ** The set the pool stands for *)

Inductive pool_op := OpAdd (k : freeKey) | OpRemove (k : freeKey).

(** Operations and the answers of the removals, on the pool and on a set. *)
Definition pool_do (st : freePool * list bool) (op : pool_op) : freePool * list bool :=
  match op with
  | OpAdd k => (pool_add (fst st) k, snd st)
  | OpRemove k => let '(ok, f) := pool_remove (fst st) k in (f, snd st ++ [ok])
  end.

Definition set_do (st : gset freeKey * list bool) (op : pool_op) : gset freeKey * list bool :=
  match op with
  | OpAdd k => ({[k]} ∪ fst st, snd st)
  | OpRemove k => (fst st ∖ {[k]}, snd st ++ [bool_decide (k ∈ fst st)])
  end.

Definition pool_after (ops : list pool_op) : freePool * list bool := fold_left pool_do ops (emptyPool, []).
Definition set_after (ops : list pool_op) : gset freeKey * list bool := fold_left set_do ops (∅, []).

(** The pool and the set agree. *)
Definition pool_rel (x : freePool * list bool) (y : gset freeKey * list bool) : Prop :=
  pool_wf (fst x) /\ (forall k, pool_has (fst x) k <-> k ∈ fst y) /\ snd x = snd y.

Lemma pool_do_rel x y op : pool_rel x y -> pool_rel (pool_do x op) (set_do y op).
Proof.
  destruct x as [f l], y as [X l']. intros (Hwf & Hhas & Hl). simpl in *. subst l'.
  destruct op as [k|k]; simpl.
  - split_and!; [by apply pool_add_wf| |done]. intros k'. simpl. rewrite pool_add_has, Hhas. set_solver.
  - pose proof (pool_remove_wf f k Hwf) as Hw. pose proof (pool_remove_has f k) as Hr.
    pose proof (pool_remove_true f k) as Ht.
    destruct (pool_remove f k) as [ok f']. split_and!; simpl in *; [done| |].
    + intros k'. rewrite Hr, Hhas. set_solver.
    + do 2 f_equal. apply eq_true_iff_eq. by rewrite Ht, Hhas, bool_decide_eq_true.
Qed.

Lemma pool_after_rel ops : pool_rel (pool_after ops) (set_after ops).
Proof.
  unfold pool_after, set_after.
  assert (pool_rel (emptyPool, []) (∅, [])) as H.
  { split_and!; [apply pool_wf_empty| |done]. intros k. unfold pool_has. simpl.
    rewrite lookup_empty, is_Some_alt. set_solver. }
  revert H. generalize (emptyPool, @nil bool), (∅ : gset freeKey, @nil bool).
  induction ops as [|op ops IH]; intros x y H; simpl; [done|]. by apply IH, pool_do_rel.
Qed.

Lemma set_after_tombstone ops st :
  OpAdd tombstone ∉ ops -> tombstone ∉ fst st -> tombstone ∉ fst (fold_left set_do ops st).
Proof.
  revert st. induction ops as [|op ops IH]; intros st Hops Hst; simpl; [done|].
  apply IH; [set_solver|]. destruct op as [k|k]; simpl; set_solver.
Qed.

(** C18: the pool with tombstones is equivalent to an ordered set.  After any
    sequence of additions and removals, every removal has answered whether the
    key was there, and [forEach] visits exactly the keys added and not removed
    since, each once, in the order of topic and partition - provided that the
    zero key, which the code uses as its tombstone, was never added. *)
Theorem pool_is_ordered_set ops :
  OpAdd tombstone ∉ ops ->
  snd (pool_after ops) = snd (set_after ops) /\
  pool_remaining (fst (pool_after ops)) = merge_sort key_le (elements (fst (set_after ops))).
Proof.
  intros Hops. destruct (pool_after_rel ops) as (Hwf & Hhas & Hans). split; [done|].
  apply (Sorted_unique key_le); [apply (Sorted_merge_sort key_le)..|].
  rewrite (merge_sort_Permutation key_le (elements _)). apply NoDup_Permutation.
  - apply NoDup_remaining; [done|]. rewrite Hhas. by apply set_after_tombstone.
  - apply NoDup_elements.
  - intros k. rewrite elem_of_remaining, Hhas, elem_of_elements by done. done.
Qed.

Lemma pool_is_ordered_set_witness :
  let ops := [OpAdd ("b"%string, 1); OpAdd ("a"%string, 2); OpAdd ("b"%string, 0);
              OpRemove ("b"%string, 1); OpRemove ("b"%string, 1); OpAdd ("b"%string, 1)] in
  snd (pool_after ops) = snd (set_after ops) /\
  pool_remaining (fst (pool_after ops)) = merge_sort key_le (elements (fst (set_after ops))).
Proof.
  apply (pool_is_ordered_set
    [OpAdd ("b"%string, 1); OpAdd ("a"%string, 2); OpAdd ("b"%string, 0);
     OpRemove ("b"%string, 1); OpRemove ("b"%string, 1); OpAdd ("b"%string, 1)]).
  rewrite !not_elem_of_cons. repeat split; try discriminate. apply not_elem_of_nil.
Defined.

(** The zero key is not a key like the others: once it has been added, a removal
    leaves a second copy of it in [keys], and [forEach] visits it twice. *)
Theorem tombstone_visited_twice :
  pool_remaining (fst (pool_after [OpAdd tombstone; OpAdd ("a"%string, 1); OpRemove ("a"%string, 1)])) =
  [tombstone; tombstone].
Proof. vm_compute. reflexivity. Qed.
