(* ===== verification/Store.v ===== *)
(** * The subscription store: internal/subscription/store.go

    The two-level map of subscriptions with its cap on the number of members,
    and its contract: the store is a finite map from (group, member) to
    subscription, of bounded size.  Each method runs under the lock and is one
    atomic step; [Put] takes the time it stamps, and [Put] and [RemoveMember]
    return the group they notify [onChange] of. *)

From stdpp Require Import base numbers list strings gmap.
From Stdlib Require Import ZArith Lia Strings.Byte.
From S2P Require Import Prelude Primitives Codec ConsumerProtocol.

(** ** Data *)

Record Sub := mkSub {
  S_GroupID : string;
  S_MemberID : string;
  S_Topics : list string;
  S_OwnedPartitions : list TopicPartitions;
  S_GenerationID : Z;
  S_UpdatedAt : Z;
}.

Record Store := mkStore {
  maxMembers : Z;
  byGroup : gmap string (gmap string Sub);
}.

Definition NewStore (n : Z) : Store := mkStore n ∅.

(** ** Operations *)

(** The loop of [dedupCopy] with the set of topics seen so far. *)
Fixpoint dedup (seen : gset string) (l : list string) : list string :=
  match l with
  | [] => []
  | t :: l => if decide (t ∈ seen) then dedup seen l else t :: dedup ({[t]} ∪ seen) l
  end.

Definition dedupCopy (l : list string) : list string := dedup ∅ l.

Definition cloneTopicParts (tps : list TopicPartitions) : list TopicPartitions :=
  map (fun tp => mkTopicPartitions (TP_Topic tp) (TP_Partitions tp)) tps.

Definition totalLocked (s : Store) : Z :=
  map_fold (fun _ g n => n + Z.of_nat (size g)) 0 (byGroup s).

(** [s.max > 0 && s.totalLocked() >= s.max] *)
Definition full (s : Store) : bool := (0 <? maxMembers s) && (maxMembers s <=? totalLocked s).

Definition Put (s : Store) (now : Z) (sub : Sub) : bool * Store * option string :=
  let cp := mkSub (S_GroupID sub) (S_MemberID sub) (dedupCopy (S_Topics sub))
              (cloneTopicParts (S_OwnedPartitions sub)) (S_GenerationID sub) now in
  let gid := S_GroupID cp in
  match (match byGroup s !! gid with
         | Some g => Some (g, s)
         | None => if full s then None else Some (∅, mkStore (maxMembers s) (<[gid := ∅]> (byGroup s)))
         end) with
  | None => (false, s, None)
  | Some (g, s) =>
      match g !! S_MemberID cp with
      | None => if full s then (false, s, None)
                else (true, mkStore (maxMembers s) (<[gid := <[S_MemberID cp := cp]> g]> (byGroup s)), Some gid)
      | Some _ => (true, mkStore (maxMembers s) (<[gid := <[S_MemberID cp := cp]> g]> (byGroup s)), Some gid)
      end
  end.

Definition Get (s : Store) (group member : string) : option Sub :=
  match byGroup s !! group with
  | Some g => g !! member
  | None => None
  end.

(** The slices of [MembersOf] and [Groups], in the map's order. *)
Definition MembersOf (s : Store) (group : string) : list string :=
  match byGroup s !! group with
  | Some g => map fst (map_to_list g)
  | None => []
  end.

Definition Groups (s : Store) : list string := map fst (map_to_list (byGroup s)).

Definition RemoveMember (s : Store) (group member : string) : Store * option string :=
  match byGroup s !! group with
  | None => (s, None)
  | Some g =>
      match g !! member with
      | None => (s, None)
      | Some _ =>
          let g := delete member g in
          let m := if decide (size g = O) then delete group (byGroup s)
                   else <[group := g]> (byGroup s) in
          (mkStore (maxMembers s) m, Some group)
      end
  end.

Definition StoreLen (s : Store) : Z := totalLocked s.

(** ** The contract *)

(** The store as one map. *)
Definition view (s : Store) : gmap (string * string) Sub := 
  map_uncurry (M1 := gmap string) (M2 := gmap string) (M12 := gmap (string * string)) (byGroup s).

(** What [Put] stores. *)
Definition recorded (now : Z) (sub : Sub) : Sub :=
  mkSub (S_GroupID sub) (S_MemberID sub) (dedupCopy (S_Topics sub))
    (cloneTopicParts (S_OwnedPartitions sub)) (S_GenerationID sub) now.

Definition key (sub : Sub) : string * string := (S_GroupID sub, S_MemberID sub).

(** No group is empty, the cap is respected, each entry is under its own key. *)
Definition store_ok (s : Store) : Prop :=
  map_Forall (fun _ g => g <> ∅) (byGroup s) /\
  (0 < maxMembers s -> totalLocked s <= maxMembers s) /\
  map_Forall (fun k sub => key sub = k /\ NoDup (S_Topics sub)) (view s).

Lemma Get_view s g m : Get s g m = view s !! (g, m).
Proof. unfold Get, view. rewrite lookup_map_uncurry. by destruct (byGroup s !! g). Qed.

Lemma view_insert (b : gmap string (gmap string Sub)) g ms mx k :
  view (mkStore mx (<[g := ms]> b)) !! k =
  if decide (k.1 = g) then ms !! k.2 else view (mkStore mx b) !! k.
Proof.
  destruct k as [g' m]. unfold view. cbn [byGroup fst snd]. rewrite !lookup_map_uncurry, lookup_insert.
  destruct (decide (g = g')), (decide (g' = g)); by subst.
Qed.

Lemma total_insert (b : gmap string (gmap string Sub)) g ms mx :
  totalLocked (mkStore mx (<[g := ms]> b)) =
  totalLocked (mkStore mx b) - Z.of_nat (size (default ∅ (b !! g))) + Z.of_nat (size ms).
Proof.
  assert (forall b g ms, b !! g = None ->
    totalLocked (mkStore mx (<[g := ms]> b)) = totalLocked (mkStore mx b) + Z.of_nat (size ms)) as H.
  { intros b' g' ms' E. unfold totalLocked; simpl. rewrite map_fold_insert_L; [lia| |done]. intros. lia. }
  destruct (b !! g) as [ms0|] eqn:E; simpl.
  - rewrite <- (insert_delete_id b g ms0) at 2 by done.
    rewrite <- insert_delete_eq. rewrite !H by apply lookup_delete_eq. lia.
  - rewrite H by done. rewrite map_size_empty. lia.
Qed.

Lemma total_delete (b : gmap string (gmap string Sub)) g mx :
  totalLocked (mkStore mx (delete g b)) =
  totalLocked (mkStore mx b) - Z.of_nat (size (default ∅ (b !! g))).
Proof.
  destruct (b !! g) as [ms|] eqn:E; simpl.
  - rewrite <- (insert_delete_id b g ms) at 2 by done.
    rewrite total_insert, lookup_delete_eq. simpl. rewrite map_size_empty. lia.
  - rewrite delete_id by done. rewrite map_size_empty. lia.
Qed.

(** The number of entries is the size of the map the store stands for. *)
Lemma total_size s : totalLocked s = Z.of_nat (size (view s)).
Proof.
  destruct s as [mx b]. induction b as [|g ms b Hn IH] using map_ind; [done|].
  rewrite total_insert, Hn, IH. simpl. rewrite map_size_empty.
  assert (view (mkStore mx (<[g := ms]> b)) = kmap (pair g) ms ∪ view (mkStore mx b)) as ->.
  { apply map_eq. intros [g' m]. rewrite view_insert. simpl. case_decide as E.
    - subst. rewrite lookup_union.
      assert (view (mkStore mx b) !! (g, m) = None) as ->.
      { unfold view. simpl. by rewrite lookup_map_uncurry, Hn. }
      rewrite lookup_kmap by apply _. by destruct (ms !! m).
    - rewrite lookup_union_r; [done|]. apply lookup_kmap_None; [apply _|]. intros m' [= ]. done. }
  rewrite map_size_disj_union.
  - assert (size (kmap (M2 := gmap (string * string)) (pair g) ms) = size ms) as ->; [|lia].
    rewrite <- !length_map_to_list. by rewrite map_to_list_kmap, length_fmap by apply _.
  - apply map_disjoint_spec. intros [g' m] x y [m' [[= -> ->] _]]%lookup_kmap_Some; [|apply _].
    unfold view. simpl. by rewrite lookup_map_uncurry, Hn.
Qed.

(** *** The operations on the view *)

Lemma Put_spec s now sub :
  store_ok s ->
  match Put s now sub with
  | (true, s', note) =>
      view s' = <[key sub := recorded now sub]> (view s) /\ note = Some (S_GroupID sub) /\
      maxMembers s' = maxMembers s /\ map_Forall (fun _ g => g <> ∅) (byGroup s') /\
      (is_Some (view s !! key sub) \/ full s = false)
  | (false, s', note) => s' = s /\ note = None /\ view s !! key sub = None /\ full s = true
  end.
Proof.
  intros (Hne & _ & _). unfold Put. cbn [S_GroupID S_MemberID].
  fold (recorded now sub).
  assert (forall (b : gmap string (gmap string Sub)) g, b !! S_GroupID sub = Some g ->
    view (mkStore (maxMembers s) (<[S_GroupID sub := <[S_MemberID sub := recorded now sub]> g]> b)) =
    <[key sub := recorded now sub]> (view (mkStore (maxMembers s) b))) as Hv.
  { intros b g Hg. apply map_eq. intros [g' m']. rewrite view_insert. cbn [fst snd].
    unfold key. case_decide as E.
    - subst. rewrite !lookup_insert. repeat case_decide; try congruence.
      unfold view. cbn [byGroup]. by rewrite lookup_map_uncurry, Hg.
    - rewrite lookup_insert_ne; [done|]. congruence. }
  destruct (byGroup s !! S_GroupID sub) as [g|] eqn:Eg.
  - assert (view s !! key sub = g !! S_MemberID sub) as Hk.
    { unfold view, key. by rewrite lookup_map_uncurry, Eg. }
    assert (map_Forall (fun _ (g : gmap string Sub) => g <> ∅)
      (<[S_GroupID sub := <[S_MemberID sub := recorded now sub]> g]> (byGroup s))) as Hne'.
    { apply map_Forall_insert_2; [apply insert_non_empty|done]. }
    destruct (g !! S_MemberID sub) as [old|] eqn:Em.
    + split_and!; try done; [by rewrite Hv by done; destruct s|]. left. rewrite Hk. eauto.
    + destruct (full s) eqn:Ef; [by split_and!|].
      split_and!; try done; [by rewrite Hv by done; destruct s|by right].
  - destruct (full s) eqn:Ef.
    { split_and!; try done. unfold view, key. by rewrite lookup_map_uncurry, Eg. }
    rewrite lookup_empty.
    assert (full (mkStore (maxMembers s) (<[S_GroupID sub := ∅]> (byGroup s))) = false) as ->.
    { unfold full in *. cbn [maxMembers]. rewrite total_insert, Eg. simpl. rewrite map_size_empty.
      destruct s; simpl in *. by rewrite Z.sub_0_r, Z.add_0_r. }
    cbn [maxMembers byGroup]. split_and!; try done.
    + rewrite Hv by apply lookup_insert_eq. f_equal. apply map_eq. intros [g' m'].
      rewrite view_insert. cbn [fst snd]. case_decide as E; [|by destruct s].
      subst. unfold view. by rewrite lookup_map_uncurry, Eg.
    + rewrite insert_insert_eq. apply map_Forall_insert_2; [apply insert_non_empty|done].
    + by right.
Qed.

Lemma RemoveMember_spec s g m :
  store_ok s ->
  let '(s', note) := RemoveMember s g m in
  view s' = delete (g, m) (view s) /\ maxMembers s' = maxMembers s /\
  map_Forall (fun _ g => g <> ∅) (byGroup s') /\
  note = (if decide (is_Some (view s !! (g, m))) then Some g else None).
Proof.
  intros (Hne & _ & _). unfold RemoveMember.
  destruct (byGroup s !! g) as [ms|] eqn:Eg.
  2:{ assert (view s !! (g, m) = None) as Hn by (unfold view; by rewrite lookup_map_uncurry, Eg).
      rewrite delete_id by done. split_and!; try done. rewrite decide_False; [done|].
      rewrite Hn. by intros [? ?]. }
  assert (view s !! (g, m) = ms !! m) as Hk by (unfold view; by rewrite lookup_map_uncurry, Eg).
  destruct (ms !! m) as [old|] eqn:Em.
  2:{ rewrite delete_id by done. split_and!; try done. rewrite decide_False; [done|].
      rewrite Hk. by intros [? ?]. }
  split_and!; try done.
  - apply map_eq. intros [g' m']. cbn [maxMembers byGroup]. rewrite lookup_delete.
    destruct (decide ((g, m) = (g', m'))) as [E|E].
    + injection E as <- <-. case_decide as Hz.
      * unfold view. cbn [byGroup]. by rewrite lookup_map_uncurry, lookup_delete_eq.
      * rewrite view_insert. cbn [fst snd]. by rewrite decide_True, lookup_delete_eq.
    + case_decide as Hz.
      * unfold view. cbn [byGroup]. rewrite !lookup_map_uncurry.
        destruct (decide (g = g')) as [->|]; [|by rewrite lookup_delete_ne].
        rewrite lookup_delete_eq, Eg. simpl. apply map_size_empty_inv in Hz.
        assert (delete m ms !! m' = None) as Hd by by rewrite Hz.
        rewrite lookup_delete_ne in Hd; [by rewrite Hd|]. congruence.
      * rewrite view_insert. cbn [fst snd]. case_decide as Eq; [|by destruct s]. subst.
        rewrite lookup_delete_ne by congruence. unfold view. by rewrite lookup_map_uncurry, Eg.
  - cbn [byGroup]. case_decide as Hz; [by apply map_Forall_delete|].
    apply map_Forall_insert_2; [|done]. intros E. apply Hz. by rewrite E.
  - rewrite decide_True; [done|]. rewrite Hk. eauto.
Qed.

Lemma dedup_spec seen l : (forall t, t ∈ dedup seen l <-> t ∈ l /\ t ∉ seen) /\ NoDup (dedup seen l).
Proof.
  revert seen. induction l as [|t l IH]; intros seen; simpl.
  { split; [|constructor]. intros t. set_solver. }
  case_decide as Hs.
  - destruct (IH seen) as [H1 H2]. split; [|done]. intros t'. rewrite H1. set_solver.
  - destruct (IH ({[t]} ∪ seen)) as [H1 H2]. split.
    + intros t'. rewrite elem_of_cons, H1. destruct (decide (t' = t)); set_solver.
    + constructor; [rewrite H1; set_solver|done].
Qed.

(** ** The store as a bounded map *)

Inductive store_op :=
| OpPut (now : Z) (sub : Sub)
| OpRemove (group member : string).

(** The store's run: the state, and the results of the [Put]s and the
    notifications. *)
Definition store_step (s : Store) (op : store_op) : Store * (bool * option string) :=
  match op with
  | OpPut now sub => let '(ok, s', note) := Put s now sub in (s', (ok, note))
  | OpRemove g m => let '(s', note) := RemoveMember s g m in (s', (true, note))
  end.

(** The specification: a map with a cap on its size. *)
Definition spec_step (cap : Z) (m : gmap (string * string) Sub) (op : store_op)
    : gmap (string * string) Sub * (bool * option string) :=
  match op with
  | OpPut now sub =>
      if decide (m !! key sub = None /\ 0 < cap <= Z.of_nat (size m))
      then (m, (false, None))
      else (<[key sub := recorded now sub]> m, (true, Some (S_GroupID sub)))
  | OpRemove g x =>
      (delete (g, x) m, (true, if decide (is_Some (m !! (g, x))) then Some g else None))
  end.

Fixpoint run_steps {A B C} (step : A -> B -> A * C) (a : A) (ops : list B) : A * list C :=
  match ops with
  | [] => (a, [])
  | op :: ops =>
      let '(a', r) := step a op in
      let '(a'', rs) := run_steps step a' ops in
      (a'', r :: rs)
  end.

Lemma full_spec s : full s = true <-> 0 < maxMembers s <= Z.of_nat (size (view s)).
Proof. unfold full. rewrite andb_true_iff, Z.ltb_lt, Z.leb_le, total_size. done. Qed.

(** One operation of the store is one of the specification, and keeps the
    invariant. *)
Lemma store_step_refines s op s' r :
  store_ok s -> store_step s op = (s', r) ->
  store_ok s' /\ maxMembers s' = maxMembers s /\
  spec_step (maxMembers s) (view s) op = (view s', r).
Proof.
  intros Hok. pose proof Hok as (Hne & Hcap & Hkeys).
  destruct op as [now sub|g m]; simpl.
  - pose proof (Put_spec s now sub Hok) as Hp. pose proof (full_spec s) as Hf.
    destruct (Put s now sub) as [[[] s1] note]; intros [= <- <-].
    + destruct Hp as (Hv & -> & Hm & Hne' & Hroom). split_and!; [|done|].
      * split_and!; [done| |].
        -- intros Hpos. rewrite Hm in Hpos |- *. specialize (Hcap Hpos).
           rewrite total_size in Hcap |- *. rewrite Hv.
           destruct (view s !! key sub) as [old|] eqn:E.
           ++ rewrite map_size_insert_Some by eauto. done.
           ++ rewrite map_size_insert_None by done. destruct Hroom as [[? ?]|Hroom]; [done|].
              assert (~ (0 < maxMembers s <= Z.of_nat (size (view s)))) by
                (rewrite <- Hf, Hroom; done). lia.
        -- rewrite Hv. apply map_Forall_insert_2; [|done]. split; [done|]. apply dedup_spec.
      * rewrite decide_False; [by rewrite Hv|]. intros [Hn Hfull].
        destruct Hroom as [[? ?]|Hroom]; [congruence|]. apply Hf in Hfull. congruence.
    + destruct Hp as (-> & -> & Hn & Hfull). split_and!; [done|done|].
      rewrite decide_True; [done|]. split; [done|]. by apply Hf.
  - pose proof (RemoveMember_spec s g m Hok) as Hr.
    destruct (RemoveMember s g m) as [s1 note]. intros [= <- <-].
    destruct Hr as (Hv & Hm & Hne' & ->). split_and!; [|done|by rewrite Hv].
    split_and!; [done| |].
    + intros Hpos. rewrite Hm in Hpos |- *. specialize (Hcap Hpos).
      rewrite total_size in Hcap |- *. rewrite Hv.
      enough (size (delete (g, m) (view s)) <= size (view s))%nat by lia.
      apply map_subseteq_size, delete_subseteq.
    + rewrite Hv. by apply map_Forall_delete.
Qed.

Lemma store_runs_refine ops s :
  store_ok s ->
  let '(s', rs) := run_steps store_step s ops in
  store_ok s' /\ maxMembers s' = maxMembers s /\
  run_steps (spec_step (maxMembers s)) (view s) ops = (view s', rs).
Proof.
  revert s. induction ops as [|op ops IH]; intros s Hok; simpl; [done|].
  destruct (store_step s op) as [s1 r] eqn:E.
  destruct (store_step_refines s op s1 r Hok E) as (Hok1 & Hm1 & Hs1).
  specialize (IH s1 Hok1). destruct (run_steps store_step s1 ops) as [s' rs].
  destruct IH as (Hok' & Hm' & Hs'). rewrite Hs1. rewrite Hm1 in Hs', Hm'. rewrite Hs'. done.
Qed.

Lemma view_NewStore n : view (NewStore n) = ∅.
Proof. reflexivity. Qed.

Lemma NewStore_ok n : store_ok (NewStore n).
Proof.
  split_and!; [apply map_Forall_empty| |].
  - intros Hpos. rewrite total_size, view_NewStore, map_size_empty. lia.
  - rewrite view_NewStore. apply map_Forall_empty.
Qed.

(** C11: the store is a bounded map: on every sequence of [Put]s and
    [RemoveMember]s it accepts, refuses and notifies exactly as a map from
    (group, member) to subscription that refuses a new key when it is full,
    and [Get], [Len], [MembersOf] and [Groups] read that map. *)
Theorem store_refines_map n ops :
  let '(s, rs) := run_steps store_step (NewStore n) ops in
  let '(m, rs') := run_steps (spec_step n) ∅ ops in
  rs = rs' /\ StoreLen s = Z.of_nat (size m) /\
  (forall g x, Get s g x = m !! (g, x)) /\
  (forall g x, x ∈ MembersOf s g <-> is_Some (m !! (g, x))) /\
  (forall g, g ∈ Groups s <-> exists x, is_Some (m !! (g, x))).
Proof.
  pose proof (store_runs_refine ops (NewStore n) (NewStore_ok n)) as H.
  destruct (run_steps store_step (NewStore n) ops) as [s rs].
  destruct H as ((Hne & _ & _) & _ & Hspec). rewrite view_NewStore in Hspec.
  cbn [maxMembers NewStore] in Hspec. rewrite Hspec.
  assert (forall g x, view s !! (g, x) = byGroup s !! g ≫= (.!! x)) as Hv
    by (intros; unfold view; apply lookup_map_uncurry).
  split_and!.
  - done.
  - apply total_size.
  - apply Get_view.
  - intros g x. rewrite Hv. unfold MembersOf. destruct (byGroup s !! g) as [ms|]; simpl.
    + rewrite list_elem_of_fmap. split.
      * intros ([k v] & -> & Hin). apply elem_of_map_to_list in Hin. eauto.
      * intros [v Hx]. exists (x, v). by rewrite elem_of_map_to_list.
    + split; [set_solver|]. by intros [? ?].
  - intros g. unfold Groups. rewrite list_elem_of_fmap. split.
    + intros ([k ms] & -> & Hin). apply elem_of_map_to_list in Hin. simpl.
      pose proof (Hne _ _ Hin) as Hms. simpl in Hms. apply map_choose in Hms as (x & v & Hx).
      exists x. rewrite Hv, Hin. simpl. eauto.
    + intros [x [v Hx]]. rewrite Hv in Hx. destruct (byGroup s !! g) as [ms|] eqn:E; [|done].
      exists (g, ms). by rewrite elem_of_map_to_list.
Qed.

(** Memory is bounded: whatever is put, a store with a positive cap never
    holds more members than the cap, and every subscription is filed under its
    own group and member with no topic listed twice. *)
Theorem store_invariant n ops g x sub :
  let s := fst (run_steps store_step (NewStore n) ops) in
  (0 < n -> StoreLen s <= n) /\
  (Get s g x = Some sub -> S_GroupID sub = g /\ S_MemberID sub = x /\ NoDup (S_Topics sub)).
Proof.
  cbv zeta. pose proof (store_runs_refine ops (NewStore n) (NewStore_ok n)) as H.
  destruct (run_steps store_step (NewStore n) ops) as [s rs]. cbn [fst].
  destruct H as ((_ & Hcap & Hkeys) & Hm & _). cbn [maxMembers NewStore] in Hm. split.
  - intros Hn. rewrite <- Hm. apply Hcap. lia.
  - rewrite Get_view. intros E. destruct (Hkeys _ _ E) as [[= -> ->] Hnd]. done.
Qed.
