(* ===== verification/MetaCache.v ===== *)
(** * The metadata cache: internal/metadata/cache.go

    The snapshot built from a Metadata response, and the cache that publishes
    snapshots: concurrent [Refresh] calls as a transition system whose steps
    are the code's atomic actions (a lock section, an atomic store, the end of
    a fetch).  The fetch itself ([Source]) is the environment's: its result is
    an argument of the step. *)

From stdpp Require Import base numbers list strings gmap relations.
From Stdlib Require Import ZArith Lia Strings.Byte.
From S2P Require Import Prelude Primitives Codec Header MetadataCodec.

(** ** Snapshots *)

Record Broker := mkBroker { BR_Host : string; BR_Port : Z }.

Record Snapshot := mkSnapshot {
  BuiltAt : Z;
  ByTopic : gmap string (list Z);
  BrokerByID : gmap Z Broker;
}.

Definition add_broker (acc : gmap Z Broker) (b : MetadataBroker) : gmap Z Broker :=
  <[MB_NodeID b := mkBroker (MB_Host b) (MB_Port b)]> acc.

(** A topic the snapshot leaves out. *)
Definition skip_topic (t : MetadataTopic) : bool :=
  MT_NameNull t || bool_decide (MT_Name t = ""%string) || (len (MT_Partitions t) =? 0).

Definition add_topic (acc : gmap string (list Z)) (t : MetadataTopic) : gmap string (list Z) :=
  if skip_topic t then acc
  else <[MT_Name t := map MP_PartitionIndex (MT_Partitions t)]> acc.

(** [KClientSource.Fetch], given what the broker answered. *)
Definition snapshot_of (now : Z) (resp : MetadataResponse) : Snapshot :=
  mkSnapshot now (fold_left add_topic (MR_Topics resp) ∅) (fold_left add_broker (MR_Brokers resp) ∅).

Definition Fetch (now : Z) (answer : kerr + MetadataResponse) : kerr + Snapshot :=
  match answer with
  | inl e => inl e
  | inr resp => inr (snapshot_of now resp)
  end.

(** ** The cache *)

(** Where a [Refresh] that leads a flight stands. *)
Inductive phase :=
| Fetching                        (** in [c.source.Fetch] *)
| Fetched (r : kerr + Snapshot)   (** the fetch returned, the flight not yet cleared *)
| Cleared (r : kerr + Snapshot)   (** [c.flight = nil] done, nothing published *)
| Stored (r : kerr + Snapshot)    (** after the store, [call.done] still open *)
| Done (r : kerr + Snapshot).     (** [call.done] closed: waiters return *)

Record Cache := mkCache {
  cur : option Snapshot;
  flight : option nat;
  calls : list phase;
}.

Definition NewCache : Cache := mkCache None None [].

Definition CacheGet (c : Cache) : option Snapshot := cur c.

(** [Age], with [now] the current time. *)
Definition Age (c : Cache) (now : Z) : Z :=
  match cur c with
  | None => 3600 * 24 * 365 * 1000000000
  | Some s => now - BuiltAt s
  end.

(** The store of [Refresh]: [if err == nil && snap != nil { c.cur.Store(snap) }]. *)
Definition publish (old : option Snapshot) (r : kerr + Snapshot) : option Snapshot :=
  match r with inr s => Some s | inl _ => old end.

Inductive cache_step : Cache -> Cache -> Prop :=
| begin_flight cu cs :
    cache_step (mkCache cu None cs) (mkCache cu (Some (length cs)) (cs ++ [Fetching]))
| fetch_returns cu fl cs n r :
    cs !! n = Some Fetching ->
    cache_step (mkCache cu fl cs) (mkCache cu fl (<[n := Fetched r]> cs))
| clear_flight cu fl cs n r :
    cs !! n = Some (Fetched r) ->
    cache_step (mkCache cu fl cs) (mkCache cu None (<[n := Cleared r]> cs))
| store_snapshot cu fl cs n r :
    cs !! n = Some (Cleared r) ->
    cache_step (mkCache cu fl cs) (mkCache (publish cu r) fl (<[n := Stored r]> cs))
| close_call cu fl cs n r :
    cs !! n = Some (Stored r) ->
    cache_step (mkCache cu fl cs) (mkCache cu fl (<[n := Done r]> cs)).

(** What a caller that found flight [n] gets once [call.done] is closed. *)
Definition waiter_result (c : Cache) (n : nat) : option (kerr + Snapshot) :=
  match calls c !! n with Some (Done r) => Some r | _ => None end.

(** ** Facts *)

(** A call whose fetch is under way or whose result is not yet cleared. *)
Definition in_flight (p : phase) : Prop :=
  match p with Fetching | Fetched _ => True | _ => False end.

Definition result_of (p : phase) : option (kerr + Snapshot) :=
  match p with Fetching => None | Fetched r | Cleared r | Stored r | Done r => Some r end.

(** The calls in flight are exactly the one [c.flight] points to, and what is
    published came from a fetch. *)
Definition cache_ok (c : Cache) : Prop :=
  (forall n p, calls c !! n = Some p -> in_flight p -> flight c = Some n) /\
  (forall n, flight c = Some n -> exists p, calls c !! n = Some p /\ in_flight p) /\
  (forall s, cur c = Some s -> exists n p, calls c !! n = Some p /\ result_of p = Some (inr s)).

Lemma lookup_set (cs : list phase) n q m p :
  <[n := q]> cs !! m = Some p -> (m = n /\ p = q) \/ (m <> n /\ cs !! m = Some p).
Proof.
  rewrite list_lookup_insert_Some. intros [(-> & -> & _)|[? ?]]; [by left|by right].
Qed.

Lemma result_kept (cs : list phase) n p q s :
  cs !! n = Some p -> (forall r, result_of p = Some r -> result_of q = Some r) ->
  (exists m p', cs !! m = Some p' /\ result_of p' = Some (inr s)) ->
  exists m p', <[n := q]> cs !! m = Some p' /\ result_of p' = Some (inr s).
Proof.
  intros Hn Hres (m & p' & Hm & Hs). destruct (decide (m = n)) as [->|Hne].
  - exists n, q. rewrite list_lookup_insert_eq by by eapply lookup_lt_Some.
    split; [done|]. apply Hres. congruence.
  - exists m, p'. by rewrite list_lookup_insert_ne.
Qed.

Lemma cache_step_ok c c' : cache_ok c -> cache_step c c' -> cache_ok c'.
Proof.
  intros (H1 & H2 & H3) Hs.
  destruct Hs as [cu cs|cu fl cs n r Hn|cu fl cs n r Hn|cu fl cs n r Hn|cu fl cs n r Hn];
    cbn [cur flight calls] in *.
  - split_and!; cbn [cur flight calls].
    + intros m p [Hm|[Hle Hm]]%lookup_app_Some Hp; [by specialize (H1 m p Hm Hp)|].
      apply list_lookup_singleton_Some in Hm as [Hm _]. f_equal. lia.
    + intros m [= <-]. exists Fetching. split; [by apply list_lookup_middle|done].
    + intros s (m & p & Hm & Hp)%H3. exists m, p. split; [by apply lookup_app_l_Some|done].
  - assert (fl = Some n) as Hfl by by apply (H1 n Fetching).
    split_and!; cbn [cur flight calls].
    + intros m p [[-> ->]|[_ Hm]]%lookup_set Hp; [done|by eapply H1].
    + intros m Hm. assert (m = n) as -> by congruence. exists (Fetched r).
      by rewrite list_lookup_insert_eq by by eapply lookup_lt_Some.
    + intros s Hs. eapply result_kept; [exact Hn|done|by apply H3].
  - assert (fl = Some n) as Hfl by by apply (H1 n (Fetched r)).
    split_and!; cbn [cur flight calls]; [|done|].
    + intros m p [[-> ->]|[Hne Hm]]%lookup_set Hp; [done|].
      assert (fl = Some m) by by eapply H1. congruence.
    + intros s Hs. eapply result_kept; [exact Hn|done|by apply H3].
  - split_and!; cbn [cur flight calls].
    + intros m p [[-> ->]|[_ Hm]]%lookup_set Hp; [done|by eapply H1].
    + intros m Hm. destruct (H2 m Hm) as (p & Hp & Hf). exists p. split; [|done].
      rewrite list_lookup_insert_ne; [done|]. intros ->. rewrite Hn in Hp. by injection Hp as <-.
    + intros s Hs. destruct r as [e|s']; simpl in Hs.
      * eapply result_kept; [exact Hn|done|by apply H3].
      * injection Hs as ->. exists n, (Stored (inr s)).
        by rewrite list_lookup_insert_eq by by eapply lookup_lt_Some.
  - split_and!; cbn [cur flight calls].
    + intros m p [[-> ->]|[_ Hm]]%lookup_set Hp; [done|by eapply H1].
    + intros m Hm. destruct (H2 m Hm) as (p & Hp & Hf). exists p. split; [|done].
      rewrite list_lookup_insert_ne; [done|]. intros ->. rewrite Hn in Hp. by injection Hp as <-.
    + intros s Hs. eapply result_kept; [exact Hn|done|by apply H3].
Qed.

Lemma cache_reach_ok c : rtc cache_step NewCache c -> cache_ok c.
Proof.
  apply (rtc_ind_r (fun c => cache_ok c) NewCache).
  - split_and!; by intros.
  - intros c1 c2 _ Hs IH. by eapply cache_step_ok.
Qed.

(** ** Properties *)

(** C31: single flight: in every reachable state at most one fetch is running,
    and a published snapshot is always the result of some successful fetch. (A
    finished fetch may still have to publish while the next one runs, see
    [cache_can_regress].) *)
Theorem cache_single_flight c :
  rtc cache_step NewCache c ->
  (forall n m, calls c !! n = Some Fetching -> calls c !! m = Some Fetching -> n = m) /\
  (forall s, CacheGet c = Some s ->
     exists n p, calls c !! n = Some p /\ result_of p = Some (inr s)).
Proof.
  intros (H1 & _ & H3)%cache_reach_ok. split; [|done].
  intros n m Hn Hm. apply (H1 n) in Hn; [|done]. apply (H1 m) in Hm; [|done]. congruence.
Qed.

Definition one_flight : Cache := mkCache None (Some O) [Fetching].

Lemma cache_single_flight_witness :
  (forall n m, calls one_flight !! n = Some Fetching -> calls one_flight !! m = Some Fetching -> n = m) /\
  (forall s, CacheGet one_flight = Some s ->
     exists n p, calls one_flight !! n = Some p /\ result_of p = Some (inr s)).
Proof. apply (cache_single_flight one_flight). apply rtc_once, (begin_flight None []). Defined.

(** A failed refresh never takes a snapshot away: once a snapshot is
    published there is one in every later state, whatever the fetches return. *)
Theorem cache_never_unpublished c c' s :
  CacheGet c = Some s -> rtc cache_step c c' -> exists s', CacheGet c' = Some s'.
Proof.
  intros Hs Hr. revert s Hs. induction Hr as [c|c1 c2 c3 Hstep _ IH]; intros s Hs; [eauto|].
  destruct Hstep; unfold CacheGet in *; cbn [cur] in *; try (by eapply IH).
  destruct r as [e|s']; by eapply IH.
Qed.

Definition snapshot_at (t : Z) : Snapshot := mkSnapshot t ∅ ∅.

Lemma cache_never_unpublished_witness :
  exists s', CacheGet (mkCache (Some (snapshot_at 1)) None [Stored (inl ErrTruncated)]) = Some s'.
Proof.
  apply (cache_never_unpublished (mkCache (Some (snapshot_at 1)) None [Cleared (inl ErrTruncated)])
    (mkCache (Some (snapshot_at 1)) None [Stored (inl ErrTruncated)]) (snapshot_at 1)).
  - reflexivity.
  - apply rtc_once. apply (store_snapshot (Some (snapshot_at 1)) None [Cleared (inl ErrTruncated)] 0 (inl ErrTruncated)).
    reflexivity.
Defined.

(** The snapshot built from a response maps every named, non-empty topic to
    the partitions of its last entry, and contains no empty name and no empty
    list. *)
Theorem snapshot_topics now resp t ids :
  ByTopic (snapshot_of now resp) !! t = Some ids <->
  exists pre tp post, MR_Topics resp = pre ++ tp :: post /\
    skip_topic tp = false /\ MT_Name tp = t /\ ids = map MP_PartitionIndex (MT_Partitions tp) /\
    Forall (fun tp' => skip_topic tp' = true \/ MT_Name tp' <> t) post.
Proof.
  unfold snapshot_of. simpl. induction (MR_Topics resp) as [|x ts IH] using rev_ind.
  { simpl. rewrite lookup_empty. split; [done|]. intros (pre & tp & post & E & _). by destruct pre. }
  rewrite fold_left_app. simpl. unfold add_topic at 1. destruct (skip_topic x) eqn:Hx.
  - rewrite IH. split.
    + intros (pre & tp & post & -> & H1 & H2 & H3 & H4). exists pre, tp, (post ++ [x]).
      rewrite <- app_assoc. split_and!; try done. apply Forall_app. split; [done|].
      constructor; [by left|constructor].
    + intros (pre & tp & post & E & H1 & H2 & H3 & H4).
      destruct post as [|y post _] using rev_ind.
      { apply app_inj_tail in E as [-> ->]. congruence. }
      rewrite app_comm_cons, app_assoc in E. apply app_inj_tail in E as [-> ->].
      exists pre, tp, post. apply Forall_app in H4 as [H4 _]. done.
  - rewrite lookup_insert. case_decide as E.
    + split.
      * intros [= <-]. exists ts, x, []. by split_and!.
      * intros (pre & tp & post & E' & H1 & H2 & H3 & H4).
        destruct post as [|y post _] using rev_ind; [by apply app_inj_tail in E' as [-> ->]; subst|].
        rewrite app_comm_cons, app_assoc in E'. apply app_inj_tail in E' as [-> ->].
        apply Forall_app in H4 as [_ H4]. apply Forall_cons in H4 as [[?|?] _]; congruence.
    + rewrite IH. split.
      * intros (pre & tp & post & -> & H1 & H2 & H3 & H4). exists pre, tp, (post ++ [x]).
        rewrite <- app_assoc. split_and!; try done. apply Forall_app. split; [done|].
        constructor; [by right|constructor].
      * intros (pre & tp & post & E' & H1 & H2 & H3 & H4).
        destruct post as [|y post _] using rev_ind; [by apply app_inj_tail in E' as [-> ->]|].
        rewrite app_comm_cons, app_assoc in E'. apply app_inj_tail in E' as [-> ->].
        exists pre, tp, post. apply Forall_app in H4 as [H4 _]. done.
Qed.

(** Publication is not ordered like the fetches: the flight is cleared
    before the snapshot is stored, so a call can start, fetch and publish a
    newer snapshot in between, which the older one then overwrites. *)
Theorem cache_can_regress old new :
  exists c c', rtc cache_step NewCache c /\ CacheGet c = Some new /\
    rtc cache_step c c' /\ CacheGet c' = Some old /\
    calls c' !! 0%nat = Some (Stored (inr old)) /\ calls c' !! 1%nat = Some (Done (inr new)).
Proof.
  exists (mkCache (Some new) None [Cleared (inr old); Done (inr new)]),
         (mkCache (Some old) None [Stored (inr old); Done (inr new)]).
  split_and!; try done.
  - eapply rtc_l; [apply begin_flight|]. simpl.
    eapply rtc_l; [by apply (fetch_returns _ _ _ 0 (inr old))|]. simpl.
    eapply rtc_l; [by apply (clear_flight _ _ _ 0 (inr old))|]. simpl.
    eapply rtc_l; [apply begin_flight|]. simpl.
    eapply rtc_l; [by apply (fetch_returns _ _ _ 1 (inr new))|]. simpl.
    eapply rtc_l; [by apply (clear_flight _ _ _ 1 (inr new))|]. simpl.
    eapply rtc_l; [by apply (store_snapshot _ _ _ 1 (inr new))|]. simpl.
    eapply rtc_l; [by apply (close_call _ _ _ 1 (inr new))|]. apply rtc_refl.
  - apply rtc_once. by apply (store_snapshot (Some new) None [Cleared (inr old); Done (inr new)] 0 (inr old)).
Qed.
