(* ===== verification/Planner.v ===== *)
(** * The planner's worker pool: internal/planner/planner.go

    The pool as a transition system: callers in [Plan], the bounded queue, the
    workers, and [Close].  A step is one communication of the code (a channel
    operation or a return); which ready case a [select] takes is open, as in
    Go.  Contexts may expire at any time. *)

From stdpp Require Import base numbers list strings gmap relations.
From Stdlib Require Import ZArith Lia Strings.Byte.
From S2P Require Import Prelude Plan.

(** ** Data *)

(** [Reply]; [Elapsed] is left out and [Err] is never set. *)
Record Reply := mkReply { R_Plan : option Plan; R_Panic : bool }.

Inductive plan_err := ErrClosed | CtxErr.

(** Where a call of [Plan] stands: in the second [select], in the third one, or
    returned with its plan (nil is [None]) and error. *)
Inductive call_state :=
| Admitting
| Waiting
| Returned (plan : option Plan) (err : option plan_err).

(** A call: its inputs, its state, and its reply channel of capacity one. *)
Record Call := mkCall { C_In : Inputs; C_State : call_state; C_Reply : option Reply }.

Record Pool := mkPool {
  closed : bool;
  idle : nat;              (** workers in their [select] *)
  queue : list nat;        (** buffered requests, by call *)
  running : list nat;      (** requests being computed *)
  calls : list Call;
}.

(** [New], after the defaults. *)
Definition NewPool (workers : nat) : Pool := mkPool false workers [] [] [].

Definition workers_of (GOMAXPROCS workers : Z) : Z := if workers <=? 0 then GOMAXPROCS else workers.
Definition depth_of (workers queueDepth : Z) : Z :=
  if queueDepth <? 0 then workers * 4 else queueDepth.

(** The outcome of [plan.Compute] under [recover], as a reply. *)
Definition runOne (o : outcome Empty_set Plan) : Reply :=
  match o with
  | Ok p => mkReply (Some p) false
  | Fail _ | Panic => mkReply None true
  end.

(** [return r.Plan, r.Elapsed, r.Err] *)
Definition receive (r : Reply) : call_state := Returned (R_Plan r) None.

Definition set_state (c : Call) (st : call_state) : Call := mkCall (C_In c) st (C_Reply c).
Definition set_reply (c : Call) (r : option Reply) : Call := mkCall (C_In c) (C_State c) r.

(** [p] is a plan [Compute] can return for [inp]: the one for some order in
    which Go ranges over its maps. *)
Definition may_compute (inp : Inputs) (p : Plan) : Prop :=
  exists MO : MapOrder, MapOrderOk MO /\ p = Compute inp.

Section pool.
Context (depth : nat).

Inductive pool_step : Pool -> Pool -> Prop :=
(** [Plan] is called: the fast path, and past it. *)
| call_refused idle q run cs inp :
    pool_step (mkPool true idle q run cs)
              (mkPool true idle q run (cs ++ [mkCall inp (Returned None (Some ErrClosed)) None]))
| call_begins idle q run cs inp :
    pool_step (mkPool false idle q run cs)
              (mkPool false idle q run (cs ++ [mkCall inp Admitting None]))
(** [case p.queue <- req]: into the buffer, or straight to a waiting worker. *)
| admit_buffered cl idle q run cs i c :
    cs !! i = Some c -> C_State c = Admitting -> (length q < depth)%nat ->
    pool_step (mkPool cl idle q run cs) (mkPool cl idle (q ++ [i]) run (<[i := set_state c Waiting]> cs))
| admit_handoff cl idle run cs i c :
    cs !! i = Some c -> C_State c = Admitting ->
    pool_step (mkPool cl (S idle) [] run cs) (mkPool cl idle [] (i :: run) (<[i := set_state c Waiting]> cs))
(** [case <-p.closed] and [case <-ctx.Done()], in either [select]. *)
| caller_closed idle q run cs i c :
    cs !! i = Some c -> C_State c = Admitting \/ C_State c = Waiting ->
    pool_step (mkPool true idle q run cs)
              (mkPool true idle q run (<[i := set_state c (Returned None (Some ErrClosed))]> cs))
| caller_expires cl idle q run cs i c :
    cs !! i = Some c -> C_State c = Admitting \/ C_State c = Waiting ->
    pool_step (mkPool cl idle q run cs)
              (mkPool cl idle q run (<[i := set_state c (Returned None (Some CtxErr))]> cs))
(** The worker takes a request, also when the pool is closed by then. *)
| worker_takes cl idle i q run cs :
    pool_step (mkPool cl (S idle) (i :: q) run cs) (mkPool cl idle q (i :: run) cs)
| worker_exits idle q run cs :
    pool_step (mkPool true (S idle) q run cs) (mkPool true idle q run cs)
(** [runOne]: [Compute] returns, or panics; the reply goes to the channel. *)
| worker_replies cl idle q run1 i run2 cs c o :
    cs !! i = Some c -> (exists p, o = Ok p /\ may_compute (C_In c) p) \/ o = Panic -> C_Reply c = None ->
    pool_step (mkPool cl idle q (run1 ++ i :: run2) cs)
              (mkPool cl (S idle) q (run1 ++ run2) (<[i := set_reply c (Some (runOne o))]> cs))
(** [case r := <-reply] *)
| caller_receives cl idle q run cs i c r :
    cs !! i = Some c -> C_State c = Waiting -> C_Reply c = Some r ->
    pool_step (mkPool cl idle q run cs)
              (mkPool cl idle q run (<[i := mkCall (C_In c) (receive r) None]> cs))
| close cl idle q run cs :
    pool_step (mkPool cl idle q run cs) (mkPool true idle q run cs).

(** ** The invariant *)

(** A plan found in a call is the one for its inputs. *)
Definition call_ok (c : Call) : Prop :=
  (forall r p, C_Reply c = Some r -> R_Plan r = Some p -> may_compute (C_In c) p) /\
  (forall p e, C_State c = Returned (Some p) e -> may_compute (C_In c) p /\ e = None).

(** The requests in [l] belong to calls that went on and have no reply yet. *)
Definition pending (cs : list Call) (l : list nat) : Prop :=
  forall j, j ∈ l -> exists d, cs !! j = Some d /\ C_State d <> Admitting /\ C_Reply d = None.

Definition pool_ok (workers : nat) (s : Pool) : Prop :=
  (idle s + length (running s) <= workers)%nat /\ (length (queue s) <= depth)%nat /\
  NoDup (queue s ++ running s) /\ pending (calls s) (queue s ++ running s) /\
  (forall i c, calls s !! i = Some c -> call_ok c /\ (C_State c = Admitting -> C_Reply c = None)).

(** Changing one call that is not queued or running, or keeping it without a
    reply, keeps the bookkeeping. *)
Lemma pending_update (cs : list Call) (l : list nat) i c c' :
  cs !! i = Some c ->
  (i ∈ l -> C_State c' <> Admitting /\ C_Reply c' = None) ->
  pending cs l -> pending (<[i := c']> cs) l.
Proof.
  intros Hi Hc' H j Hj. destruct (decide (j = i)) as [->|Hne].
  - exists c'. rewrite list_lookup_insert_eq by by eapply lookup_lt_Some. split; [done|by apply Hc'].
  - rewrite list_lookup_insert_ne by done. by apply H.
Qed.

Lemma calls_update (cs : list Call) i c' (P : Call -> Prop) :
  P c' -> (forall j c, cs !! j = Some c -> P c) -> forall j c, <[i := c']> cs !! j = Some c -> P c.
Proof.
  intros Hc' H j c. rewrite list_lookup_insert_Some. intros [(_ & -> & _)|[_ Hj]]; [done|by eapply H].
Qed.

Lemma calls_append (cs : list Call) c' (P : Call -> Prop) :
  P c' -> (forall j c, cs !! j = Some c -> P c) -> forall j c, (cs ++ [c']) !! j = Some c -> P c.
Proof.
  intros Hc' H j c. rewrite lookup_app_Some. intros [Hj|[_ Hj]]; [by eapply H|].
  by apply list_lookup_singleton_Some in Hj as [_ <-].
Qed.

Lemma pending_append (cs : list Call) (l : list nat) c' :
  pending cs l -> pending (cs ++ [c']) l.
Proof. intros H j (d & Hd & ?)%H. exists d. split; [by apply lookup_app_l_Some|done]. Qed.

Definition fine (c : Call) : Prop := call_ok c /\ (C_State c = Admitting -> C_Reply c = None).

Lemma fine_state c st :
  fine c -> st <> Admitting -> (forall p e, st <> Returned (Some p) e) -> fine (set_state c st).
Proof.
  intros [[H1 H2] H3] Hst Hp. split; [split|]; simpl; [done| |done]. intros p e E. by apply Hp in E.
Qed.

Lemma pending_perm cs l l' : l ≡ₚ l' -> pending cs l -> pending cs l'.
Proof. intros Hl H j Hj. apply H. by rewrite Hl. Qed.

(** A call that is admitted becomes pending. *)
Lemma pending_admit cs l i c :
  cs !! i = Some c -> fine c -> C_State c = Admitting -> NoDup l -> pending cs l ->
  NoDup (i :: l) /\ pending (<[i := set_state c Waiting]> cs) (i :: l).
Proof.
  intros Hi Hf Hst Hnd H. assert (i ∉ l) as Hn by (intros (d & Hd & ? & _)%H; congruence).
  split; [by constructor|]. intros j [->|Hj]%elem_of_cons.
  - exists (set_state c Waiting). rewrite list_lookup_insert_eq by by eapply lookup_lt_Some.
    split_and!; [done..|]. by apply Hf.
  - destruct (H j Hj) as (d & Hd & ?). exists d. rewrite list_lookup_insert_ne by set_solver. done.
Qed.

(** A caller that leaves keeps its request pending. *)
Lemma pending_leave cs l i c st :
  cs !! i = Some c -> st <> Admitting -> pending cs l -> pending (<[i := set_state c st]> cs) l.
Proof.
  intros Hi Hst H. apply (pending_update cs l i c); [done| |done].
  intros (d & Hd & _ & Hr)%H. simplify_eq. done.
Qed.

Lemma pool_step_ok workers s s' : pool_ok workers s -> pool_step s s' -> pool_ok workers s'.
Proof.
  intros (Hw & Hq & Hnd & Hpend & Hall) Hs.
  change (forall i c, calls s !! i = Some c -> fine c) in Hall.
  destruct Hs as [id q run cs inp|id q run cs inp|cl id q run cs i c Hi Hst Hlen|cl id run cs i c Hi Hst
    |id q run cs i c Hi Hst|cl id q run cs i c Hi Hst|cl id i q run cs|id q run cs
    |cl id q run1 i run2 cs c o Hi Ho Hr|cl id q run cs i c r Hi Hst Hr|cl id q run cs];
    cbn [closed idle queue running calls] in *; unfold pool_ok; cbn [closed idle queue running calls].
  - split_and!; try done; [by apply pending_append|]. apply calls_append; [|done]. by repeat split.
  - split_and!; try done; [by apply pending_append|]. apply calls_append; [|done]. by repeat split.
  - destruct (pending_admit cs (q ++ run) i c) as [Hn Hp]; try done; [by eapply Hall|].
    assert ((q ++ [i]) ++ run ≡ₚ i :: q ++ run) as Hperm by solve_Permutation.
    split_and!; [done|rewrite length_app; simpl; lia|by rewrite Hperm|by apply (pending_perm _ _ _ (symmetry Hperm))|].
    apply (calls_update cs i _ fine); [|done]. apply fine_state; [by eapply Hall|done|done].
  - destruct (pending_admit cs run i c) as [Hn Hp]; try done; [by eapply Hall|].
    split_and!; [simpl; lia|done|done|done|].
    apply (calls_update cs i _ fine); [|done]. apply fine_state; [by eapply Hall|done|done].
  - split_and!; try done; [by apply pending_leave|].
    apply (calls_update cs i _ fine); [|done]. apply fine_state; [by eapply Hall|done|done].
  - split_and!; try done; [by apply pending_leave|].
    apply (calls_update cs i _ fine); [|done]. apply fine_state; [by eapply Hall|done|done].
  - assert (q ++ i :: run ≡ₚ (i :: q) ++ run) as Hperm by solve_Permutation.
    split_and!; [simpl; lia|simpl in Hq; lia|by rewrite Hperm|by apply (pending_perm _ _ _ (symmetry Hperm))|done].
  - split_and!; try done. lia.
  - assert (q ++ run1 ++ i :: run2 ≡ₚ i :: q ++ run1 ++ run2) as Hperm by solve_Permutation.
    rewrite Hperm in Hnd. apply NoDup_cons in Hnd as [Hni Hnd].
    split_and!; [rewrite length_app in *; simpl in *; lia|done|done| |].
    + apply (pending_update cs _ i c); [done|done|]. intros j Hj. apply Hpend. rewrite Hperm. by right.
    + apply (calls_update cs i _ fine); [|done]. destruct (Hall i c Hi) as [[H1 H2] H3].
      destruct (Hpend i) as (d & Hd & Hna & _); [rewrite Hperm; by left|]. simplify_eq.
      split; [split|]; simpl; [|done|done].
      intros r p [= <-]. destruct Ho as [(p' & -> & Hp') | ->]; simpl; [by intros [= <-]|done].
  - destruct (Hall i c Hi) as [[H1 H2] H3].
    split_and!; try done.
    + apply (pending_update cs _ i c); [done|done|done].
    + apply (calls_update cs i _ fine); [|done]. split; [split|]; simpl; [done| |done].
      unfold receive. intros p e [= E <-]. split; [by eapply H1|done].
  - split_and!; done.
Qed.

Lemma pool_reach_ok workers s : rtc pool_step (NewPool workers) s -> pool_ok workers s.
Proof.
  apply (rtc_ind_r (pool_ok workers) (NewPool workers)).
  - split_and!; simpl; try done; [lia|lia|constructor|]. intros i Hi. set_solver.
  - intros s1 s2 _ Hs IH. by eapply pool_step_ok.
Qed.

End pool.

(** ** Properties *)

(** The pool bounds its work: in every reachable state at most [workers]
    plans are being computed and at most [depth] requests are queued; no
    request is queued or computed twice, and the reply channel of a request in
    progress is empty, so that a worker never blocks on a caller that left. *)
Theorem pool_bounded_work workers depth s :
  rtc (pool_step depth) (NewPool workers) s ->
  (length (running s) <= workers)%nat /\ (length (queue s) <= depth)%nat /\
  NoDup (queue s ++ running s) /\
  (forall i, i ∈ queue s ++ running s -> exists c, calls s !! i = Some c /\ C_Reply c = None).
Proof.
  intros (Hw & Hq & Hnd & Hp & _)%pool_reach_ok. split_and!; [lia|done|done|].
  intros i (c & ? & _ & ?)%Hp. eauto.
Qed.

Definition busy_pool (inp : Inputs) : Pool := mkPool false 0 [] [O] [mkCall inp Waiting None].

Lemma busy_pool_reached inp : rtc (pool_step 1) (NewPool 1) (busy_pool inp).
Proof.
  eapply rtc_l; [apply (call_begins 1 1 [] [] [] inp)|].
  eapply rtc_l; [by apply (admit_handoff 1 false 0 [] _ 0 (mkCall inp Admitting None))|].
  apply rtc_refl.
Qed.

Lemma pool_bounded_work_witness :
  let s := busy_pool three_members in
  (length (running s) <= 1)%nat /\ (length (queue s) <= 1)%nat /\ NoDup (queue s ++ running s) /\
  (forall i, i ∈ queue s ++ running s -> exists c, calls s !! i = Some c /\ C_Reply c = None).
Proof. apply (pool_bounded_work 1 1 (busy_pool three_members)), busy_pool_reached. Defined.

(** What a caller of the pool relies on: a plan that comes back is one that
    [Compute] can return for the inputs asked about, and no error comes with
    it. *)
Class PlannerOk (planner : Inputs -> option Plan * Z * option plan_err) : Prop := {
  planner_computes inp p dur err :
    planner inp = (Some p, dur, err) -> may_compute inp p /\ err = None;
}.

(** [planner] answers as a pool does: each answer is what some call with those
    inputs returned in a run of the pool. *)
Definition pool_answers (workers depth : nat)
    (planner : Inputs -> option Plan * Z * option plan_err) : Prop :=
  forall inp p dur err, planner inp = (p, dur, err) ->
    exists s i c, rtc (pool_step depth) (NewPool workers) s /\ calls s !! i = Some c /\
      C_In c = inp /\ C_State c = Returned p err.

Lemma returned_computed workers depth s i c p e :
  rtc (pool_step depth) (NewPool workers) s -> calls s !! i = Some c ->
  C_State c = Returned (Some p) e -> may_compute (C_In c) p /\ e = None.
Proof. intros (_ & _ & _ & _ & Hall)%pool_reach_ok Hi Hst. by apply (Hall i c Hi). Qed.

Lemma pool_answers_ok workers depth planner :
  pool_answers workers depth planner -> PlannerOk planner.
Proof.
  intros H. split. intros inp p dur err (s & i & c & Hs & Hc & <- & Hst)%H. by eapply returned_computed.
Qed.

(** C32: a call of [Plan] that returns a plan returns the plan of its own
    inputs, with no error: replies are never mixed up between callers, however
    calls, workers, timeouts and [Close] interleave; a call that returns an
    error returns no plan. *)
Theorem plan_returns_own_result workers depth s i c p e :
  rtc (pool_step depth) (NewPool workers) s -> calls s !! i = Some c ->
  C_State c = Returned p e ->
  (forall pl, p = Some pl -> may_compute (C_In c) pl /\ e = None) /\
  (e <> None -> p = None).
Proof.
  intros Hs Hc Hst. destruct p as [pl|]; [|done].
  destruct (returned_computed _ _ _ _ _ _ _ Hs Hc Hst) as [Hm ->]. split; [by intros ? [= <-]|done].
Qed.

Definition done_call (inp : Inputs) : Call :=
  mkCall inp (Returned (Some (@Compute as_listed inp)) None) None.

Lemma done_call_reached inp :
  rtc (pool_step 1) (NewPool 1) (mkPool false 1 [] [] [done_call inp]).
Proof.
  etrans; [apply (busy_pool_reached inp)|].
  eapply rtc_l; [apply (worker_replies 1 false 0 [] [] 0 [] _ (mkCall inp Waiting None)
    (Ok (@Compute as_listed inp))); [reflexivity| |reflexivity]|].
  { left. eexists. split; [done|]. exists as_listed. split; [apply _|done]. }
  eapply rtc_l; [by apply (caller_receives 1 false 1 [] [] _ 0
    (mkCall inp Waiting (Some (mkReply (Some (@Compute as_listed inp)) false)))
    (mkReply (Some (@Compute as_listed inp)) false))|].
  apply rtc_refl.
Qed.

Lemma plan_returns_own_result_witness :
  (forall pl, Some (@Compute as_listed three_members) = Some pl ->
     may_compute three_members pl /\ @None plan_err = None) /\
  (@None plan_err <> None -> Some (@Compute as_listed three_members) = None).
Proof.
  apply (plan_returns_own_result 1 1 (mkPool false 1 [] [] [done_call three_members]) 0
    (done_call three_members)).
  - apply done_call_reached.
  - reflexivity.
  - reflexivity.
Defined.

(** A panic of [Compute] is not reported to the caller: there is a run in
    which [Plan] returns neither a plan nor an error. *)
Theorem panic_is_silent inp :
  exists s, rtc (pool_step 1) (NewPool 1) s /\
    calls s !! 0%nat = Some (mkCall inp (Returned None None) None).
Proof.
  exists (mkPool false 1 [] [] [mkCall inp (Returned None None) None]). split; [|done].
  etrans; [apply busy_pool_reached|].
  eapply rtc_l; [apply (worker_replies 1 false 0 [] [] 0 [] _ (mkCall inp Waiting None) Panic);
    [reflexivity|by right|reflexivity]|].
  eapply rtc_l; [by apply (caller_receives 1 false 1 [] [] _ 0
    (mkCall inp Waiting (Some (mkReply None true))) (mkReply None true))|].
  apply rtc_refl.
Qed.
