(* ===== verification/Telemetry.v ===== *)
(** * Load snapshots: internal/telemetry/snapshot.go

    The lag measurements the planner reads.  [Holder] is an atomic pointer. *)

From stdpp Require Import base numbers list strings gmap.
From Stdlib Require Import ZArith Lia.
From S2P Require Import Prelude.

Record MemberLoad := mkMemberLoad {
  ML_MemberID : string;
  ML_AssignedPartitions : Z;
  ML_LagMessages : Z;
  ML_LatencyMicros : Z;
}.

Record GroupLoad := mkGroupLoad {
  GL_GroupID : string;
  GL_Members : gmap string MemberLoad;
}.

Record LoadSnapshot := mkLoadSnapshot {
  LS_BuiltAt : Z;
  LS_Groups : gmap string GroupLoad;
}.

Record Holder := mkHolder { held : option LoadSnapshot }.

Definition HolderGet (h : Holder) : option LoadSnapshot := held h.
Definition HolderStore (h : Holder) (s : LoadSnapshot) : Holder := mkHolder (Some s).
Definition EmptySnapshot (now : Z) : LoadSnapshot := mkLoadSnapshot now ∅.

(** [snap.Groups[group]] and [gl.Members[member].LagMessages], zero when absent. *)
Definition lag_in (snap : option LoadSnapshot) (group member : string) : Z :=
  match snap with
  | None => 0
  | Some s =>
      match LS_Groups s !! group with
      | None => 0
      | Some gl => match GL_Members gl !! member with Some m => ML_LagMessages m | None => 0 end
      end
  end.
