(* ===== verification/Interceptor.v ===== *)
(** * The production interceptor: internal/interceptor/interceptor.go

    One definition per handler, over a state that holds what the interceptor
    shares: the topology, the metadata and load snapshots as currently
    published, the subscription store, the metrics and the planner.  The
    planner is an argument, a function from inputs to what [Pool.Plan] returns;
    the theorems rely only on the interface [PlannerOk] of Planner.v, which
    the pool meets ([pool_answers_ok]). *)

From stdpp Require Import base numbers list strings gmap.
From Stdlib Require Import ZArith Lia Strings.Byte.
From S2P Require Import Prelude Primitives Codec Header MetadataCodec FindCoord.
From S2P Require Import ConsumerProtocol JoinGroup SyncGroup Tracker Conn Topology.
From S2P Require Import Plan Planner Store MetaCache Telemetry.

(** ** State *)

(** The counters of obs.Metrics the interceptor moves. *)
Record Metrics := mkMetrics {
  InterceptsTotal : Z;
  InterceptsRewrote : Z;
  InterceptsPassthru : Z;
  InterceptsTimeout : Z;
  InterceptsError : Z;
  UnmappedBrokers : Z;
  PlanCount : Z;
  PlanDurationNanosSum : Z;
  SubscriptionLen : Z;
}.

(** What [Pool.Plan] returns: plan, elapsed nanoseconds, error. *)
Definition PlanCall : Type := Inputs -> option Plan * Z * option plan_err.

(** [Deps] and the interceptor's counter.  A nil dependency is [None]; the
    caches are given by the snapshot they hold. *)
Record IState := mkIState {
  D_Topology : option Mapping;
  D_Metadata : option (option Snapshot);
  D_Subscription : option Store;
  D_Telemetry : option Holder;
  D_Planner : option PlanCall;
  D_Metrics : option Metrics;
  clock : Z;
  syncGroupRewrites : Z;
}.

Definition set_Metrics (st : IState) (m : option Metrics) : IState :=
  mkIState (D_Topology st) (D_Metadata st) (D_Subscription st) (D_Telemetry st) (D_Planner st) m
    (clock st) (syncGroupRewrites st).

Definition set_Subscription (st : IState) (s : option Store) : IState :=
  mkIState (D_Topology st) (D_Metadata st) s (D_Telemetry st) (D_Planner st) (D_Metrics st)
    (clock st) (syncGroupRewrites st).

Definition bump_rewrites (st : IState) : IState :=
  mkIState (D_Topology st) (D_Metadata st) (D_Subscription st) (D_Telemetry st) (D_Planner st)
    (D_Metrics st) (clock st) (syncGroupRewrites st + 1).

(** [if i.deps.Metrics != nil { ... }] *)
Definition with_metrics (f : Metrics -> Metrics) (st : IState) : IState :=
  set_Metrics st (f <$> D_Metrics st).

Definition inc_total (m : Metrics) : Metrics :=
  mkMetrics (InterceptsTotal m + 1) (InterceptsRewrote m) (InterceptsPassthru m)
    (InterceptsTimeout m) (InterceptsError m) (UnmappedBrokers m) (PlanCount m)
    (PlanDurationNanosSum m) (SubscriptionLen m).
Definition inc_rewrote (m : Metrics) : Metrics :=
  mkMetrics (InterceptsTotal m) (InterceptsRewrote m + 1) (InterceptsPassthru m)
    (InterceptsTimeout m) (InterceptsError m) (UnmappedBrokers m) (PlanCount m)
    (PlanDurationNanosSum m) (SubscriptionLen m).
Definition inc_passthru (m : Metrics) : Metrics :=
  mkMetrics (InterceptsTotal m) (InterceptsRewrote m) (InterceptsPassthru m + 1)
    (InterceptsTimeout m) (InterceptsError m) (UnmappedBrokers m) (PlanCount m)
    (PlanDurationNanosSum m) (SubscriptionLen m).
Definition inc_timeout (m : Metrics) : Metrics :=
  mkMetrics (InterceptsTotal m) (InterceptsRewrote m) (InterceptsPassthru m)
    (InterceptsTimeout m + 1) (InterceptsError m) (UnmappedBrokers m) (PlanCount m)
    (PlanDurationNanosSum m) (SubscriptionLen m).
Definition inc_error (m : Metrics) : Metrics :=
  mkMetrics (InterceptsTotal m) (InterceptsRewrote m) (InterceptsPassthru m)
    (InterceptsTimeout m) (InterceptsError m + 1) (UnmappedBrokers m) (PlanCount m)
    (PlanDurationNanosSum m) (SubscriptionLen m).
Definition add_unmapped (n : Z) (m : Metrics) : Metrics :=
  mkMetrics (InterceptsTotal m) (InterceptsRewrote m) (InterceptsPassthru m)
    (InterceptsTimeout m) (InterceptsError m) (UnmappedBrokers m + n) (PlanCount m)
    (PlanDurationNanosSum m) (SubscriptionLen m).
Definition add_plan (dur : Z) (m : Metrics) : Metrics :=
  mkMetrics (InterceptsTotal m) (InterceptsRewrote m) (InterceptsPassthru m)
    (InterceptsTimeout m) (InterceptsError m) (UnmappedBrokers m) (PlanCount m + 1)
    (PlanDurationNanosSum m + dur) (SubscriptionLen m).
Definition store_len (n : Z) (m : Metrics) : Metrics :=
  mkMetrics (InterceptsTotal m) (InterceptsRewrote m) (InterceptsPassthru m)
    (InterceptsTimeout m) (InterceptsError m) (UnmappedBrokers m) (PlanCount m)
    (PlanDurationNanosSum m) n.

Definition bumpErr : IState -> IState := with_metrics inc_error.
Definition passthru : IState -> IState := with_metrics inc_passthru.

(** The two response rewriters an interceptor hands out. *)
Inductive Rewriter := rewriteMetadataResp | rewriteFindCoordResp.

(** The order in which [encodeAssignment] ranges over the topics. *)
Class RenderOrder := { ord_topics : list string -> list string }.

Class RenderOrderOk (RO : RenderOrder) : Prop := {
  ord_topics_perm ks : ord_topics ks ≡ₚ ks;
}.

Section interceptor.
Context {HT : HostText} {RO : RenderOrder}.

(** ** Metadata and FindCoordinator *)

(** [i.deps.Topology == nil || i.deps.Topology.Len() == 0] *)
Definition no_topology (st : IState) : bool :=
  match D_Topology st with None => true | Some m => Len (Some m) =? 0 end.

Definition onMetadata (st : IState) (h : RequestHeader) : option (Pending Rewriter) * IState :=
  if no_topology st then (None, passthru st)
  else (Some (mkPending (RH_APIKey h) (RH_APIVersion h) 0 0 (Some rewriteMetadataResp) None), st).

Definition onFindCoordinator (st : IState) (h : RequestHeader)
    : option (Pending Rewriter) * IState :=
  if no_topology st then (None, passthru st)
  else (Some (mkPending (RH_APIKey h) (RH_APIVersion h) 0 0 (Some rewriteFindCoordResp) None), st).

Definition rewrite_metadata_resp (st : IState) (dst body : list byte) (p : Pending Rewriter)
    : outcome kerr (list byte) * IState :=
  match DecodeMetadataResponse body (P_APIVersion p) with
  | Panic => (Panic, st)
  | Fail e => (Fail e, bumpErr st)
  | Ok r =>
      let '(r, n) := RewriteMetadataResponse r (D_Topology st) in
      let missed := len (MR_Brokers r) - n in
      let st := with_metrics inc_rewrote st in
      let st := if 0 <? missed then with_metrics (add_unmapped missed) st else st in
      (Ok (AppendMetadataResponse dst r), st)
  end.

Definition rewrite_findcoord_resp (st : IState) (dst body : list byte) (p : Pending Rewriter)
    : outcome kerr (list byte) * IState :=
  match DecodeFindCoordinatorResponse body (P_APIVersion p) with
  | Panic => (Panic, st)
  | Fail e => (Fail e, bumpErr st)
  | Ok r =>
      let r := fst (RewriteFindCoordinatorResponse r (D_Topology st)) in
      (Ok (AppendFindCoordinatorResponse dst r), with_metrics inc_rewrote st)
  end.

(** ** JoinGroup *)

Definition onJoinGroup (st : IState) (h : RequestHeader) (body : list byte)
    : option (Pending Rewriter) * IState :=
  match D_Subscription st with
  | None => (None, passthru st)
  | Some store =>
      match DecodeJoinGroupRequest body (RH_APIVersion h) with
      | Ok jg =>
          match JG_Protocols jg with
          | [] => (None, passthru st)
          | proto :: _ =>
              if bool_decide (JG_MemberID jg = ""%string) then (None, passthru st) else
              match DecodeSubscription (JP_Metadata proto) with
              | Ok sub =>
                  let '(_, store, _) :=
                    Put store (clock st)
                      (mkSub (JG_Group jg) (JG_MemberID jg) (SUB_Topics sub)
                         (SUB_OwnedPartitions sub) (SUB_GenerationID sub) 0) in
                  let st := set_Subscription st (Some store) in
                  (None, with_metrics (store_len (StoreLen store)) (passthru st))
              | _ => (None, bumpErr st)
              end
          end
      | _ => (None, bumpErr st)
      end
  end.

(** ** SyncGroup *)

(** The members the plan is made for: those of the leader's list whose
    subscription is in the store. *)
Definition plan_member (st : IState) (store : Store) (group : string) (a : SyncGroupAssignment)
    : option Member :=
  match Get store group (SA_MemberID a) with
  | None => None
  | Some sub =>
      let lag := match D_Telemetry st with
                 | None => 0
                 | Some h => lag_in (HolderGet h) group (SA_MemberID a)
                 end in
      Some (mkMember (SA_MemberID a) (S_Topics sub) lag)
  end.

Definition plan_members (st : IState) (store : Store) (sg : SyncGroupRequest) : list Member :=
  omap (plan_member st store (SG_Group sg)) (SG_Assignments sg).

(** One iteration of the loops that collect the partitions. *)
Definition add_parts (snap : Snapshot) (parts : gmap string (list Z)) (t : string)
    : gmap string (list Z) :=
  match parts !! t with
  | Some _ => parts
  | None => match ByTopic snap !! t with
            | Some (p :: ps) => <[t := p :: ps]> parts
            | _ => parts
            end
  end.

Definition plan_parts (st : IState) (members : list Member) : gmap string (list Z) :=
  match D_Metadata st with
  | Some (Some snap) =>
      fold_left (fun parts m => fold_left (add_parts snap) (Topics m) parts) members ∅
  | _ => ∅
  end.

(** [encodeAssignment]; a nil map is the empty one. *)
Definition assignment_of (byTopic : gmap string (list Z)) : Assignment :=
  mkAssignment 0
    (map (fun t => mkTopicPartitions t (default [] (byTopic !! t)))
       (ord_topics (map fst (map_to_list byTopic))))
    [] true "" false false.

Definition encodeAssignment (byTopic : gmap string (list Z)) : list byte :=
  AppendAssignment [] (assignment_of byTopic).

(** [newSG := sg] with the planned assignments. *)
Definition planned_request (sg : SyncGroupRequest) (pl : Plan) : SyncGroupRequest :=
  mkSyncGroupRequest (SG_Version sg) (SG_Group sg) (SG_Generation sg) (SG_MemberID sg)
    (SG_InstanceID sg) (SG_InstancePres sg) (SG_InstanceNull sg)
    (SG_ProtocolType sg) (SG_ProtoTypePres sg) (SG_ProtoTypeNull sg)
    (SG_ProtocolName sg) (SG_ProtoNamePres sg) (SG_ProtoNameNull sg)
    (map (fun a => mkSyncGroupAssignment (SA_MemberID a)
                     (encodeAssignment (default ∅ (pl !! SA_MemberID a))) false)
       (SG_Assignments sg)).

Definition plan_inputs (st : IState) (store : Store) (sg : SyncGroupRequest) : Inputs :=
  let members := plan_members st store sg in
  mkInputs (SG_Group sg) members (plan_parts st members) None.

Definition onSyncGroup (st : IState) (h : RequestHeader) (body : list byte)
    : option (Pending Rewriter) * IState :=
  match D_Planner st, D_Subscription st with
  | Some planner, Some store =>
      match DecodeSyncGroupRequest body (RH_APIVersion h) with
      | Ok sg =>
          match SG_Assignments sg with
          | [] => (None, passthru st)
          | _ =>
              let inp := plan_inputs st store sg in
              if len (Members inp) =? 0 then (None, passthru st) else
              if decide (size (Partitions inp) = O) then (None, passthru st) else
              let '(pl, dur, err) := planner inp in
              match err with
              | Some _ => (None, with_metrics inc_timeout st)
              | None =>
                  let st := with_metrics (add_plan dur) st in
                  let rewrittenReq := AppendSyncGroupRequest [] (planned_request sg (default ∅ pl)) in
                  (Some (mkPending (RH_APIKey h) (RH_APIVersion h) 0 0 None (Some rewrittenReq)),
                   bump_rewrites st)
              end
          end
      | _ => (None, bumpErr st)
      end
  | _, _ => (None, passthru st)
  end.

(** ** Dispatch *)

Definition on_request (st : IState) (h : RequestHeader) (body : list byte)
    : option (Pending Rewriter) * IState :=
  let st := with_metrics inc_total st in
  if RH_APIKey h =? APIMetadata then onMetadata st h else
  if RH_APIKey h =? APIFindCoordinator then onFindCoordinator st h else
  if RH_APIKey h =? APIJoinGroup then onJoinGroup st h body else
  if RH_APIKey h =? APISyncGroup then onSyncGroup st h body else
  (None, passthru st).

#[global] Instance production : Interceptor IState Rewriter := {|
  OnRequest := on_request;
  Rewrite r st dst body p :=
    match r with
    | rewriteMetadataResp => rewrite_metadata_resp st dst body p
    | rewriteFindCoordResp => rewrite_findcoord_resp st dst body p
    end;
|}.

End interceptor.
