(* ===== verification/InterceptorTheorems.v ===== *)
(** * What the interceptor promises

    The handlers of Interceptor.v end to end: what the client decodes from a
    rewritten response, what a JoinGroup leaves in the store, and what the
    broker decodes from a rewritten SyncGroup request. *)

From stdpp Require Import base numbers list strings gmap sorting.
From Stdlib Require Import ZArith Lia Strings.Byte.
From S2P Require Import Prelude Primitives Codec Header MetadataCodec FindCoord.
From S2P Require Import ConsumerProtocol JoinGroup SyncGroup Tracker Conn Topology.
From S2P Require Import Plan PlanFacts PlanTheorems Planner Store MetaCache Telemetry Interceptor.

(** The rewriters meet the contract of the connection. *)
#[global] Instance production_ok {HT : HostText} {RO : RenderOrder} :
  InterceptorOk IState Rewriter.
Proof.
  split. intros [] st dst body p; simpl.
  - unfold rewrite_metadata_resp. pose proof (codec_no_panic (dec := metadataResponse (P_APIVersion p)) body).
    unfold DecodeMetadataResponse. destruct (run_dec _ body); try done.
    by destruct (RewriteMetadataResponse _ _).
  - unfold rewrite_findcoord_resp.
    pose proof (codec_no_panic (dec := findCoordinatorResponse (P_APIVersion p)) body).
    unfold DecodeFindCoordinatorResponse. by destruct (run_dec _ body).
Qed.

(** ** Rewritten messages are well-formed *)

(** The advertised endpoints fit the wire: a host of less than 32 KiB, a port
    in 32 bits. *)
Definition hosts_fit (m : Mapping) : Prop :=
  forall e, advertised m e -> str16 (EP_Host e) /\ int32 (EP_Port e).

Lemma str16_ok flex s : str16 s -> str_ok flex s.
Proof. unfold str16, str_ok, str_compact. destruct flex; unfold str16; lia. Qed.

Lemma arr_ok_map {A B} flex (P : A -> Prop) (Q : B -> Prop) (f : A -> B) xs :
  (forall a, P a -> Q (f a)) -> arr_ok flex P xs -> arr_ok flex Q (map f xs).
Proof.
  intros Hf [Hxs Hlen]. split; [|by rewrite len_map].
  apply Forall_map. eapply Forall_impl; [done|]. done.
Qed.

Section rewritten.
Context {HT : HostText}.

Lemma wf_rewritten_broker v flex m b :
  hosts_fit m -> wf_broker v flex b -> wf_broker v flex (fst (rewrite_broker (Some m) b)).
Proof.
  intros Hfit (H1 & H2 & H3 & H4). unfold rewrite_broker.
  destruct (Lookup _ _ _ _) as [e|] eqn:E; [|done].
  apply lookup_advertised, Hfit in E as [Eh Ep]. split_and!; simpl; try done. by apply str16_ok.
Qed.

Lemma wf_rewritten_metadata v m r :
  hosts_fit m -> wf_metadata v r -> wf_metadata v (fst (RewriteMetadataResponse r (Some m))).
Proof.
  intros Hfit (H1 & H2 & H3 & H4 & H5 & H6 & H7). cbn [RewriteMetadataResponse fst].
  split_and!; cbn; try done. rewrite map_map.
  eapply arr_ok_map; [|exact H3]. intros b. by apply wf_rewritten_broker.
Qed.

Lemma wf_rewritten_entry flex m c :
  hosts_fit m -> wf_entry flex c -> wf_entry flex (fst (rewrite_entry (Some m) c)).
Proof.
  intros Hfit (H1 & H2 & H3 & H4 & H5 & H6). unfold rewrite_entry.
  destruct (_ || _); [done|]. destruct (Lookup _ _ _ _) as [e|] eqn:E; [|done].
  apply lookup_advertised, Hfit in E as [Eh Ep]. split_and!; simpl; try done. by apply str16_ok.
Qed.

Lemma wf_rewritten_findcoord v m r :
  hosts_fit m -> wf_findcoord v r -> wf_findcoord v (fst (RewriteFindCoordinatorResponse r (Some m))).
Proof.
  intros Hfit (H1 & H2 & H3 & H4). unfold RewriteFindCoordinatorResponse.
  destruct (Z.leb_spec (FC_Version r) 3) as [Hv|Hv].
  - destruct (_ && _); [|by split_and!].
    destruct (Lookup _ _ _ _) as [e|] eqn:E; [|by split_and!].
    apply lookup_advertised, Hfit in E as [Eh Ep].
    split_and!; cbn; try done. rewrite H1 in Hv.
    assert ((v <=? 3) = true) as Hle by lia. rewrite Hle in *. cbn in *.
    destruct H3 as (? & ? & ? & ? & ?). split_and!; try done. by apply str16_ok.
  - split_and!; cbn; try done. rewrite H1 in Hv.
    assert (negb (v <=? 3) = true) as Hle by (destruct (Z.leb_spec v 3); [lia|done]).
    rewrite Hle in *. cbn in *. rewrite map_map.
    eapply arr_ok_map; [|exact H4]. intros c. by apply wf_rewritten_entry.
Qed.

End rewritten.

Lemma with_metrics_topology f st : D_Topology (with_metrics f st) = D_Topology st.
Proof. done. Qed.

(** ** Responses *)

(** The client decodes the rewritten Metadata response: for every response the
    broker's bytes decode to, the rewriter produces bytes from which the client
    decodes that same response with the broker addresses replaced by the
    topology; bytes that decode to nothing are not passed on. *)
Lemma metadata_rewriter_spec {HT : HostText} {RO : RenderOrder} st m body p :
  D_Topology st = Some m -> hosts_fit m ->
  match DecodeMetadataResponse body (P_APIVersion p) with
  | Ok r => exists out st',
      Rewrite rewriteMetadataResp st [] body p = (Ok out, st') /\
      DecodeMetadataResponse out (P_APIVersion p) = Ok (fst (RewriteMetadataResponse r (Some m)))
  | _ => exists e st', Rewrite rewriteMetadataResp st [] body p = (Fail e, st')
  end.
Proof.
  intros Ht Hfit.
  pose proof (codec_no_panic (dec := metadataResponse (P_APIVersion p)) body) as Hnp.
  simpl. unfold rewrite_metadata_resp. rewrite Ht.
  destruct (DecodeMetadataResponse body (P_APIVersion p)) as [r|e|] eqn:E; [|eauto|done].
  destruct (RewriteMetadataResponse r (Some m)) as [r' n] eqn:Er. eexists _, _. split; [done|].
  replace r' with (fst (RewriteMetadataResponse r (Some m))) by by rewrite Er.
  apply (codec_roundtrip (dec := metadataResponse (P_APIVersion p))).
  apply wf_rewritten_metadata; [done|]. by eapply codec_run_wf.
Qed.

(** The same for FindCoordinator responses. *)
Theorem findcoord_rewriter_end_to_end {HT : HostText} {RO : RenderOrder} st m body p :
  D_Topology st = Some m -> hosts_fit m ->
  match DecodeFindCoordinatorResponse body (P_APIVersion p) with
  | Ok r => exists out st',
      Rewrite rewriteFindCoordResp st [] body p = (Ok out, st') /\
      DecodeFindCoordinatorResponse out (P_APIVersion p) =
        Ok (fst (RewriteFindCoordinatorResponse r (Some m)))
  | _ => exists e st', Rewrite rewriteFindCoordResp st [] body p = (Fail e, st')
  end.
Proof.
  intros Ht Hfit.
  pose proof (codec_no_panic (dec := findCoordinatorResponse (P_APIVersion p)) body) as Hnp.
  simpl. unfold rewrite_findcoord_resp. rewrite Ht.
  destruct (DecodeFindCoordinatorResponse body (P_APIVersion p)) as [r|e|] eqn:E; [|eauto|done].
  eexists _, _. split; [done|].
  apply (codec_roundtrip (dec := findCoordinatorResponse (P_APIVersion p))).
  apply wf_rewritten_findcoord; [done|]. by eapply codec_run_wf.
Qed.

(** A state with the sample topology and nothing else. *)
Definition topology_state (m : Mapping) : IState :=
  mkIState (Some m) None None None None None 0 0.

Definition listed_topics : RenderOrder := {| ord_topics ks := ks |}.
#[global] Instance listed_topics_ok : RenderOrderOk listed_topics.
Proof. by split. Qed.

Lemma sample_mapping_fits : hosts_fit sample_mapping.
Proof.
  assert (sample_mapping = mkMapping {[1 := mkEndpoint "p" 9192]} {["b1:9092"%string := mkEndpoint "p" 9192]})
    as -> by by vm_compute.
  intros e [[k Hk]|[k Hk]]; simpl in Hk; apply lookup_singleton_Some in Hk as [_ <-]; by vm_compute.
Qed.

Definition sample_body : list byte := AppendMetadataResponse [] sample_response.

Definition sample_coord : list byte :=
  AppendFindCoordinatorResponse [] (mkFindCoordinatorResponse 2 0 0 "" false 1 "b1" 9092 []).
Definition sample_coord_p : Pending Rewriter :=
  mkPending APIFindCoordinator 2 1 0 (Some rewriteFindCoordResp) None.

Lemma findcoord_rewriter_end_to_end_witness :
  match DecodeFindCoordinatorResponse sample_coord 2 with
  | Ok r => exists out st',
      @Rewrite _ _ (@production ascii_host_text listed_topics) rewriteFindCoordResp
        (topology_state sample_mapping) [] sample_coord sample_coord_p = (Ok out, st') /\
      DecodeFindCoordinatorResponse out 2 =
        Ok (fst (@RewriteFindCoordinatorResponse ascii_host_text r (Some sample_mapping)))
  | _ => exists e st', @Rewrite _ _ (@production ascii_host_text listed_topics) rewriteFindCoordResp
        (topology_state sample_mapping) [] sample_coord sample_coord_p = (Fail e, st')
  end.
Proof.
  apply (@findcoord_rewriter_end_to_end ascii_host_text listed_topics (topology_state sample_mapping)
    sample_mapping sample_coord sample_coord_p); [reflexivity|apply sample_mapping_fits].
Defined.

(** The samples exercise the success branch. *)
Example samples_decode :
  DecodeMetadataResponse sample_body 9 = Ok sample_response /\
  exists r, DecodeFindCoordinatorResponse sample_coord 2 = Ok r.
Proof. split; [by vm_compute|eexists; vm_compute; reflexivity]. Qed.

(** ** JoinGroup *)




(** ** SyncGroup *)

Section sync.
Context {RO : RenderOrder} `{!RenderOrderOk RO}.

(** The plan fits the wire at the request's version. *)
Definition encodable (flex : bool) (sg : SyncGroupRequest) (pl : Plan) : Prop :=
  Forall (fun a => let asg := assignment_of (default ∅ (pl !! SA_MemberID a)) in
                   wf_assignment asg /\ bytes_ok flex (AppendAssignment [] asg)) (SG_Assignments sg).

Lemma wf_planned version sg pl :
  wf_syncgroup version sg -> encodable (IsFlexibleRequest APISyncGroup version) sg pl ->
  wf_syncgroup version (planned_request sg pl).
Proof.
  intros (H1&H2&H3&H4&H5&H6&[H7 H7']&H8&H9&H10) Henc. split_and!; cbn; try done.
  split; [|by rewrite len_map]. apply Forall_map.
  unfold encodable in Henc. rewrite Forall_forall in H7, Henc |- *. intros a Ha. specialize (H7 a Ha). specialize (Henc a Ha).
  destruct H7 as [Hid _]. destruct Henc as [_ Hb]. split; done.
Qed.

(** What a member decodes from its planned assignment. *)
Lemma decode_planned byTopic :
  wf_assignment (assignment_of byTopic) ->
  exists asg, DecodeAssignment (encodeAssignment byTopic) = Ok asg /\
    read_topics (ASG_Partitions asg) = byTopic.
Proof.
  intros Hwf. eexists. split; [apply decodes_run_nil, decodes_assignment, Hwf|]. simpl.
  unfold read_topics. rewrite map_map. simpl.
  apply list_to_map_keys; [apply ord_topics_perm|]. by intros k v ->.
Qed.

End sync.

(** The partitions of topic [t] that the blob of an assignment gives. *)
Definition blob_parts (blob : list byte) (t : string) : list Z :=
  match DecodeAssignment blob with
  | Ok asg => default [] (read_topics (ASG_Partitions asg) !! t)
  | _ => []
  end.

Lemma planned_blob {RO : RenderOrder} `{!RenderOrderOk RO} (pl : Plan) member t :
  wf_assignment (assignment_of (default ∅ (pl !! member))) ->
  blob_parts (encodeAssignment (default ∅ (pl !! member))) t = owned pl member t.
Proof.
  intros Hwf. unfold blob_parts. destruct (decode_planned _ Hwf) as (asg & -> & ->). done.
Qed.

(** A SyncGroup request of the leader, ready to be planned. *)
Record leader_sync (st : IState) (h : RequestHeader) (body : list byte) (planner : PlanCall)
    (store : Store) (sg : SyncGroupRequest) : Prop := {
  ls_key : RH_APIKey h = APISyncGroup;
  ls_planner : D_Planner st = Some planner;
  ls_store : D_Subscription st = Some store;
  ls_decoded : DecodeSyncGroupRequest body (RH_APIVersion h) = Ok sg;
  ls_members : Members (plan_inputs st store sg) <> [];
  ls_parts : Partitions (plan_inputs st store sg) <> ∅;
}.

Lemma plan_inputs_metrics f st store sg :
  plan_inputs (with_metrics f st) store sg = plan_inputs st store sg.
Proof. done. Qed.

(** The handler on such a request, by what the planner returns. *)
Lemma sync_handled {HT : HostText} {RO : RenderOrder} st h body planner store sg pl dur err :
  leader_sync st h body planner store sg -> planner (plan_inputs st store sg) = (pl, dur, err) ->
  fst (OnRequest st h body) =
  match err with
  | Some _ => None
  | None => Some (mkPending (RH_APIKey h) (RH_APIVersion h) 0 0 None
                    (Some (AppendSyncGroupRequest [] (planned_request sg (default ∅ pl)))))
  end.
Proof.
  intros [Hk Hpl Hst Hsg Hm Hp] Hcall. simpl. unfold on_request. rewrite Hk. simpl.
  unfold onSyncGroup. cbn [D_Planner D_Subscription with_metrics set_Metrics].
  rewrite Hpl, Hst, Hsg.
  change (plan_inputs (with_metrics inc_total st) store sg) with (plan_inputs st store sg).
  assert (SG_Assignments sg <> []) as Hne.
  { intros E. apply Hm. simpl. unfold plan_members. by rewrite E. }
  destruct (SG_Assignments sg); [done|].
  destruct (Z.eqb_spec (len (Members (plan_inputs st store sg))) 0) as [E|_].
  { exfalso. apply Hm. destruct (Members _); [done|]. len_lia. }
  rewrite decide_False by (intros Hz%map_size_empty_inv; by apply Hp).
  rewrite Hcall. destruct err; [done|]. cbn. by rewrite Hk.
Qed.

(** A group of three, of which the store knows two. *)
Definition sample_store : Store :=
  let put s m := snd (fst (Put s 0 (mkSub "g" m ["t"%string] [] (-1) 0))) in
  put (put (NewStore 10) "m1"%string) "m2"%string.
Definition sample_sg : SyncGroupRequest :=
  mkSyncGroupRequest 0 "g" 1 "m1" "" false false "" false false "" false false
    [mkSyncGroupAssignment "m1" [] false; mkSyncGroupAssignment "m2" [] false;
     mkSyncGroupAssignment "m3" [] false].
Definition sample_sg_body : list byte := AppendSyncGroupRequest [] sample_sg.
Definition sample_snapshot : Snapshot := mkSnapshot 0 {["t"%string := [0; 1; 2]]} ∅.
Definition sync_header : RequestHeader := mkRequestHeader APISyncGroup 0 1 "c" false 0.
Definition compute_planner : PlanCall := fun inp => (Some (@Compute as_listed inp), 0, None).
#[global] Instance compute_planner_ok : PlannerOk compute_planner.
Proof.
  apply (pool_answers_ok 1 1). intros inp p dur err [= <- <- <-].
  eexists _, 0%nat, _. split; [apply done_call_reached|]. by split_and!.
Qed.

Definition sync_state (planner : PlanCall) : IState :=
  mkIState None (Some (Some sample_snapshot)) (Some sample_store) None (Some planner) None 0 0.
Definition sample_plan : Plan :=
  @Compute as_listed (plan_inputs (sync_state compute_planner) sample_store sample_sg).

Lemma sample_leader planner :
  leader_sync (sync_state planner) sync_header sample_sg_body planner sample_store sample_sg.
Proof. split; try reflexivity; try (by vm_compute). Qed.

Lemma wf_sample_assignment tps :
  len tps < 2 ^ 31 -> Forall wf_tp tps -> wf_assignment (mkAssignment 0 tps [] true "" false false).
Proof. intros H1 H2. split_and!; done. Qed.

Lemma sample_encodable : @encodable listed_topics false sample_sg sample_plan.
Proof.
  assert (forall a tps,
    @assignment_of listed_topics (default ∅ (sample_plan !! SA_MemberID a)) =
      mkAssignment 0 tps [] true "" false false ->
    len tps < 2 ^ 31 -> Forall wf_tp tps ->
    len (AppendAssignment [] (mkAssignment 0 tps [] true "" false false)) < 2 ^ 31 ->
    let asg := @assignment_of listed_topics (default ∅ (sample_plan !! SA_MemberID a)) in
    wf_assignment asg /\ bytes_ok false (AppendAssignment [] asg)) as H.
  { intros a tps -> H1 H2 H3. split; [by apply wf_sample_assignment|done]. }
  repeat apply Forall_cons_2; [| | |constructor].
  - apply (H _ [mkTopicPartitions "t" [0; 2]]).
    + vm_compute. reflexivity.
    + reflexivity.
    + repeat constructor; discriminate.
    + vm_compute. reflexivity.
  - apply (H _ [mkTopicPartitions "t" [1]]).
    + vm_compute. reflexivity.
    + reflexivity.
    + repeat constructor; discriminate.
    + vm_compute. reflexivity.
  - apply (H _ []).
    + vm_compute. reflexivity.
    + reflexivity.
    + constructor.
    + vm_compute. reflexivity.
Qed.

(** End to end, the plan reaches the group: when the planner returns a
    plan, the request the broker receives decodes to the leader's request with
    only the assignment blobs replaced, and the blob of every member decodes
    to exactly what the plan of the group gives that member. *)
Theorem sync_plan_delivered {HT : HostText} {RO : RenderOrder} `{!RenderOrderOk RO}
    st h body planner store sg pl dur :
  leader_sync st h body planner store sg ->
  planner (plan_inputs st store sg) = (Some pl, dur, None) ->
  encodable (IsFlexibleRequest APISyncGroup (RH_APIVersion h)) sg pl ->
  exists new, fst (OnRequest st h body) =
      Some (mkPending (RH_APIKey h) (RH_APIVersion h) 0 0 None (Some new)) /\
    DecodeSyncGroupRequest new (RH_APIVersion h) = Ok (planned_request sg pl) /\
    Forall (fun a => forall t, blob_parts (SA_MemberAssignment a) t = owned pl (SA_MemberID a) t)
      (SG_Assignments (planned_request sg pl)).
Proof.
  intros Hls Hcall Henc. pose proof (ls_decoded _ _ _ _ _ _ Hls) as Hsg.
  rewrite (sync_handled st h body planner store sg _ _ _ Hls Hcall). eexists. split; [done|]. split.
  - apply (codec_roundtrip (dec := syncGroupRequest (RH_APIVersion h))).
    apply wf_planned; [by eapply codec_run_wf|done].
  - cbn. apply Forall_map. eapply Forall_impl; [exact Henc|]. intros a [Hwf _] t.
    by apply planned_blob.
Qed.

Lemma sync_plan_delivered_witness :
  exists new, fst (@OnRequest _ _ (@production ascii_host_text listed_topics)
      (sync_state compute_planner) sync_header sample_sg_body) =
      Some (mkPending APISyncGroup 0 0 0 None (Some new)) /\
    DecodeSyncGroupRequest new 0 = Ok (@planned_request listed_topics sample_sg sample_plan) /\
    Forall (fun a => forall t, blob_parts (SA_MemberAssignment a) t = owned sample_plan (SA_MemberID a) t)
      (SG_Assignments (@planned_request listed_topics sample_sg sample_plan)).
Proof.
  apply (@sync_plan_delivered ascii_host_text listed_topics listed_topics_ok
    (sync_state compute_planner) sync_header sample_sg_body compute_planner sample_store sample_sg
    sample_plan 0).
  - apply sample_leader.
  - reflexivity.
  - apply sample_encodable.
Defined.

(** ** What the plan is made from *)

Lemma plan_member_inv st store g a m :
  plan_member st store g a = Some m ->
  exists sub, Get store g (SA_MemberID a) = Some sub /\ MemberID m = SA_MemberID a /\
    Topics m = S_Topics sub.
Proof. unfold plan_member. destruct (Get _ _ _) as [sub|]; [|done]. intros [= <-]. eauto. Qed.

Lemma elem_of_plan_members st store sg m :
  m ∈ plan_members st store sg <->
  exists a, a ∈ SG_Assignments sg /\ plan_member st store (SG_Group sg) a = Some m.
Proof. apply list_elem_of_omap. Qed.

Lemma memberByID_has inp m : m ∈ Members inp -> is_Some (memberByID inp !! MemberID m).
Proof.
  intros Hm. unfold memberByID.
  eapply (fold_left_reach (fun _ => True) (fun acc => is_Some (acc !! MemberID m))); try done.
  - intros a _. rewrite lookup_insert_eq. eauto.
  - intros a b _ Ha. destruct (decide (MemberID b = MemberID m)) as [->|Hne];
      [rewrite lookup_insert_eq; eauto|by rewrite lookup_insert_ne].
Qed.

(** A member has the topics of its stored subscription. *)
Lemma plan_topics_of st store sg a sub :
  a ∈ SG_Assignments sg -> Get store (SG_Group sg) (SA_MemberID a) = Some sub ->
  topics_of (plan_inputs st store sg) (SA_MemberID a) = S_Topics sub.
Proof.
  intros Ha Hg.
  assert (exists m, m ∈ plan_members st store sg /\ MemberID m = SA_MemberID a) as (m & Hm & Hid).
  { eexists. split; [apply elem_of_plan_members; exists a; split; [done|]|].
    - unfold plan_member. by rewrite Hg.
    - done. }
  unfold topics_of. destruct (memberByID (plan_inputs st store sg) !! SA_MemberID a) as [m'|] eqn:E.
  - apply memberByID_some in E as [Hm' Hid']. apply elem_of_plan_members in Hm' as (a' & _ & Hp).
    apply plan_member_inv in Hp as (sub' & Hg' & Hid'' & ->). congruence.
  - destruct (memberByID_has (plan_inputs st store sg) m Hm) as [m' Hm']. congruence.
Qed.

Definition parts_from (snap : Snapshot) (parts : gmap string (list Z)) : Prop :=
  forall t ps, parts !! t = Some ps -> ByTopic snap !! t = Some ps.

Lemma add_parts_from snap parts t : parts_from snap parts -> parts_from snap (add_parts snap parts t).
Proof.
  intros H t' ps. unfold add_parts. destruct (parts !! t) eqn:E; [apply H|].
  destruct (ByTopic snap !! t) as [[|p l]|] eqn:Es; [apply H| |apply H].
  destruct (decide (t' = t)) as [->|Hne];
    [rewrite lookup_insert_eq; congruence|rewrite lookup_insert_ne by done; apply H].
Qed.

Lemma add_parts_mono snap parts t t' :
  is_Some (parts !! t') -> is_Some (add_parts snap parts t !! t').
Proof.
  intros H. unfold add_parts. destruct (parts !! t) eqn:E; [done|].
  destruct (ByTopic snap !! t) as [[|p l]|]; try done.
  destruct (decide (t' = t)) as [->|Hne];
    [rewrite lookup_insert_eq; eauto|by rewrite lookup_insert_ne].
Qed.

Lemma add_parts_has snap parts t p ps :
  ByTopic snap !! t = Some (p :: ps) -> is_Some (add_parts snap parts t !! t).
Proof.
  intros H. unfold add_parts. destruct (parts !! t) eqn:E; [rewrite E; eauto|].
  rewrite H, lookup_insert_eq. eauto.
Qed.

(** The loops that collect the partitions. *)
Definition collect (snap : Snapshot) (ms : list Member) : gmap string (list Z) :=
  fold_left (fun parts m => fold_left (add_parts snap) (Topics m) parts) ms ∅.

Lemma collect_from snap ms : parts_from snap (collect snap ms).
Proof.
  apply (fold_left_inv (parts_from snap)); [by intros ? ?|]. intros acc m _ Hacc.
  apply (fold_left_inv (parts_from snap)); [done|]. intros ? ? _. apply add_parts_from.
Qed.

Lemma collect_has snap ms m t p ps :
  m ∈ ms -> t ∈ Topics m -> ByTopic snap !! t = Some (p :: ps) -> is_Some (collect snap ms !! t).
Proof.
  intros Hm Htm Es.
  eapply (fold_left_reach (fun _ => True) (fun acc : gmap string (list Z) => is_Some (acc !! t)));
    [exact Hm|done|done| |].
  - intros acc _. eapply (fold_left_reach (fun _ => True)
      (fun acc : gmap string (list Z) => is_Some (acc !! t))); [exact Htm|done|done| |].
    + intros acc' _. by eapply add_parts_has.
    + intros acc' t' _. apply add_parts_mono.
  - intros acc m' _ Hacc.
    apply (fold_left_inv (fun acc : gmap string (list Z) => is_Some (acc !! t))); [done|].
    intros ? ? _. apply add_parts_mono.
Qed.

(** The partitions of a subscribed topic are those of the snapshot. *)
Lemma plan_parts_of st store sg snap a sub t :
  D_Metadata st = Some (Some snap) -> a ∈ SG_Assignments sg ->
  Get store (SG_Group sg) (SA_MemberID a) = Some sub -> t ∈ S_Topics sub ->
  parts_of (plan_inputs st store sg) t = default [] (ByTopic snap !! t).
Proof.
  intros Hmd Ha Hg Ht. unfold parts_of. cbn. unfold plan_parts. rewrite Hmd.
  set (ms := plan_members st store sg).
  change (default [] (collect snap ms !! t) = default [] (ByTopic snap !! t)).
  destruct (collect snap ms !! t) as [ps|] eqn:E; [apply collect_from in E; by rewrite E|].
  destruct (ByTopic snap !! t) as [[|p ps]|] eqn:Es; [done| |done]. exfalso.
  assert (exists m, m ∈ ms /\ t ∈ Topics m) as (m & Hm & Htm).
  { eexists. split; [apply elem_of_plan_members; exists a; split; [done|]|].
    - unfold plan_member. by rewrite Hg.
    - done. }
  destruct (collect_has snap ms m t p ps Hm Htm Es) as [? Hs]. congruence.
Qed.

(** Member ids and topics are named: what Kafka guarantees. *)
Definition named_request (snap : Snapshot) (sg : SyncGroupRequest) : Prop :=
  Forall (fun a => SA_MemberID a <> ""%string) (SG_Assignments sg) /\ ByTopic snap !! ""%string = None.

Lemma plan_inputs_named st store sg snap :
  D_Metadata st = Some (Some snap) -> named_request snap sg -> named_inputs (plan_inputs st store sg).
Proof.
  intros Hmd [Hid Hno]. split.
  - apply Forall_forall. intros m (a & Ha & Hp)%elem_of_plan_members.
    apply plan_member_inv in Hp as (_ & _ & -> & _). rewrite Forall_forall in Hid. by apply Hid.
  - unfold parts_of. cbn. unfold plan_parts. rewrite Hmd.
    change (default [] (collect snap (plan_members st store sg) !! ""%string) = []).
    destruct (collect _ _ !! _) as [ps|] eqn:E; [|done]. apply collect_from in E. congruence.
Qed.

(** ** Every partition to one member *)

(** Member [m] finds partition [x] of [t] in its blob of the request. *)
Definition gets (sg : SyncGroupRequest) (t : string) (x : Z) (m : string) : Prop :=
  exists a, a ∈ SG_Assignments sg /\ SA_MemberID a = m /\ x ∈ blob_parts (SA_MemberAssignment a) t.

Lemma gets_planned {RO : RenderOrder} `{!RenderOrderOk RO} flex sg pl t x m :
  encodable flex sg pl ->
  gets (planned_request sg pl) t x m <->
  (exists a, a ∈ SG_Assignments sg /\ SA_MemberID a = m) /\ x ∈ owned pl m t.
Proof.
  intros Henc. unfold encodable in Henc. rewrite Forall_forall in Henc. unfold gets. cbn [planned_request SG_Assignments]. split.
  - intros (a' & (a & -> & Ha)%list_elem_of_fmap & Hid & Hx). cbn [SA_MemberID SA_MemberAssignment] in Hid, Hx. subst m.
    rewrite planned_blob in Hx by by apply Henc. eauto.
  - intros ((a & Ha & <-) & Hx). eexists. split; [apply list_elem_of_fmap; eauto|].
    split; [done|]. cbn [SA_MemberAssignment]. rewrite planned_blob; [done|]. by apply Henc.
Qed.

(** The handler divides the work: in the request it hands to the connection,
    every partition the snapshot lists for a topic that some member of the
    request has subscribed to is in the blob of exactly one member, and that
    member has subscribed to the topic. *)
Lemma sync_request_planned {HT : HostText} {RO : RenderOrder} `{!RenderOrderOk RO}
    st h body planner `{!PlannerOk planner} store sg pl dur snap a sub t x :
  leader_sync st h body planner store sg -> D_Metadata st = Some (Some snap) ->
  planner (plan_inputs st store sg) = (Some pl, dur, None) ->
  encodable (IsFlexibleRequest APISyncGroup (RH_APIVersion h)) sg pl ->
  named_request snap sg ->
  a ∈ SG_Assignments sg -> Get store (SG_Group sg) (SA_MemberID a) = Some sub ->
  t ∈ S_Topics sub -> x ∈ default [] (ByTopic snap !! t) ->
  exists new sg', fst (OnRequest st h body) =
      Some (mkPending (RH_APIKey h) (RH_APIVersion h) 0 0 None (Some new)) /\
    DecodeSyncGroupRequest new (RH_APIVersion h) = Ok sg' /\
    map SA_MemberID (SG_Assignments sg') = map SA_MemberID (SG_Assignments sg) /\
    exists m, gets sg' t x m /\ (forall m', gets sg' t x m' -> m' = m) /\
      exists s, Get store (SG_Group sg) m = Some s /\ t ∈ S_Topics s.
Proof.
  intros Hls Hmd Hcall Henc Hn Ha Hg Ht Hx. set (inp := plan_inputs st store sg) in *.
  destruct (planner_computes _ _ _ _ Hcall) as [(MO & HMO & ->) _].
  rewrite (sync_handled st h body planner store sg _ _ _ Hls Hcall).
  exists (AppendSyncGroupRequest [] (planned_request sg (Compute inp))), (planned_request sg (Compute inp)).
  split; [done|]. split.
  { apply (codec_roundtrip (dec := syncGroupRequest (RH_APIVersion h))).
    apply wf_planned; [eapply codec_run_wf, (ls_decoded _ _ _ _ _ _ Hls)|done]. }
  split; [cbn; by rewrite map_map|].
  pose proof (plan_inputs_named st store sg snap Hmd Hn) as Hni.
  destruct (compute_good inp (named_ids _ Hni) (named_tombstone _ Hni)) as (S & HG & HS).
  assert ((t, x) ∈ S) as HxS.
  { apply HS. unfold is_part. cbn. unfold inp. rewrite (plan_parts_of st store sg snap a sub t) by done.
    split; [done|]. fold inp. assert (SA_MemberID a ∈ subs_of inp t); [|set_solver].
    apply elem_of_subs. unfold inp. by erewrite plan_topics_of. }
  destruct (good_total _ _ _ HG t x HxS) as [m Hm]. exists m.
  pose proof (good_in _ _ _ HG _ _ _ Hm) as [_ Hsub]. apply elem_of_subs in Hsub.
  pose proof Hsub as (y & Hy & Hid)%topics_of_member%elem_of_memberIDs.
  apply elem_of_plan_members in Hy as (b & Hb & Hp).
  apply plan_member_inv in Hp as (s & Hgs & Hid' & _).
  assert (SA_MemberID b = m) as <- by congruence. split_and!.
  - apply (gets_planned _ _ _ _ _ _ Henc). eauto.
  - intros m' Hm'. apply (gets_planned _ _ _ _ _ _ Henc) in Hm' as [_ Hm']. by eapply good_unique.
  - exists s. split; [done|]. unfold inp in Hsub. by erewrite plan_topics_of in Hsub.
Qed.

(** ** Findings *)

(** A topology whose entries carry no node id (host:port keys only) is
    never applied: [Len] counts the node ids alone, so Metadata and
    FindCoordinator requests pass through unregistered and their responses
    reach the client unrewritten, although [Lookup] maps the broker. *)
Theorem host_only_topology_not_applied {HT : HostText} {RO : RenderOrder} st m h body :
  D_Topology st = Some m -> byNodeID m = ∅ ->
  RH_APIKey h = APIMetadata \/ RH_APIKey h = APIFindCoordinator ->
  fst (OnRequest st h body) = None.
Proof.
  intros Ht Hm Hk. simpl. unfold on_request, onMetadata, onFindCoordinator, no_topology.
  cbn [D_Topology with_metrics set_Metrics]. rewrite Ht. cbn [Len]. rewrite Hm.
  destruct Hk as [-> | ->]; reflexivity.
Qed.

Definition host_only : Mapping :=
  snd (@Add ascii_host_text New (-1) (mkEndpoint "b1" 9092) (mkEndpoint "p" 9192)).

Lemma host_only_topology_not_applied_witness :
  @Lookup ascii_host_text (Some host_only) 1 "b1" 9092 = Some (mkEndpoint "p" 9192) /\
  fst (@OnRequest _ _ (@production ascii_host_text listed_topics) (topology_state host_only)
    (mkRequestHeader APIMetadata 9 1 "c" false 0) []) = None.
Proof.
  split; [vm_compute; reflexivity|].
  apply (@host_only_topology_not_applied ascii_host_text listed_topics _ host_only);
    [reflexivity|vm_compute; reflexivity|left; reflexivity].
Defined.

(** A member of the leader's request whose subscription the proxy has not
    seen (it joined through another proxy, or its first JoinGroup carried no
    member id and it has not rejoined) is planned away: whatever the leader had
    assigned to it, the blob the broker receives for it holds no partition. *)
Theorem unknown_member_assigned_nothing {HT : HostText} {RO : RenderOrder} `{!RenderOrderOk RO}
    st h body planner `{!PlannerOk planner} store sg pl dur snap m t x :
  leader_sync st h body planner store sg -> D_Metadata st = Some (Some snap) ->
  planner (plan_inputs st store sg) = (Some pl, dur, None) ->
  encodable (IsFlexibleRequest APISyncGroup (RH_APIVersion h)) sg pl ->
  named_request snap sg -> Get store (SG_Group sg) m = None ->
  exists new sg', fst (OnRequest st h body) =
      Some (mkPending (RH_APIKey h) (RH_APIVersion h) 0 0 None (Some new)) /\
    DecodeSyncGroupRequest new (RH_APIVersion h) = Ok sg' /\ ~ gets sg' t x m.
Proof.
  intros Hls Hmd Hcall Henc Hn Hg. set (inp := plan_inputs st store sg) in *.
  destruct (planner_computes _ _ _ _ Hcall) as [(MO & HMO & ->) _].
  rewrite (sync_handled st h body planner store sg _ _ _ Hls Hcall).
  exists (AppendSyncGroupRequest [] (planned_request sg (Compute inp))), (planned_request sg (Compute inp)).
  split; [done|]. split.
  { apply (codec_roundtrip (dec := syncGroupRequest (RH_APIVersion h))).
    apply wf_planned; [eapply codec_run_wf, (ls_decoded _ _ _ _ _ _ Hls)|done]. }
  intros [_ Hx]%(gets_planned _ _ _ _ _ _ Henc).
  pose proof (plan_inputs_named st store sg snap Hmd Hn) as Hni.
  destruct (compute_good inp (named_ids _ Hni) (named_tombstone _ Hni)) as (S & HG & _).
  apply (good_in _ _ _ HG) in Hx as [_ (y & Hy & Hid)%elem_of_subs%topics_of_member%elem_of_memberIDs].
  apply elem_of_plan_members in Hy as (b & _ & (s & Hgs & Hid' & _)%plan_member_inv). congruence.
Qed.

Lemma unknown_member_assigned_nothing_witness :
  exists new sg', fst (@OnRequest _ _ (@production ascii_host_text listed_topics)
      (sync_state compute_planner) sync_header sample_sg_body) =
      Some (mkPending APISyncGroup 0 0 0 None (Some new)) /\
    DecodeSyncGroupRequest new 0 = Ok sg' /\ ~ gets sg' "t" 2 "m3".
Proof.
  apply (@unknown_member_assigned_nothing ascii_host_text listed_topics listed_topics_ok
    (sync_state compute_planner) sync_header sample_sg_body compute_planner compute_planner_ok
    sample_store sample_sg sample_plan 0 sample_snapshot "m3" "t" 2).
  - apply sample_leader.
  - reflexivity.
  - reflexivity.
  - apply sample_encodable.
  - split; [repeat constructor; discriminate|vm_compute; reflexivity].
  - vm_compute. reflexivity.
Defined.

(** When the planner comes back with neither plan nor error (what [Plan]
    returns after a panic in [Compute]), the leader's own assignment is not
    kept: the broker receives, for every member, a blob that holds no partition
    of any topic. *)
Theorem missing_plan_empties_group {HT : HostText} {RO : RenderOrder} `{!RenderOrderOk RO}
    st h body planner store sg dur :
  leader_sync st h body planner store sg ->
  planner (plan_inputs st store sg) = (None, dur, None) ->
  exists new sg', fst (OnRequest st h body) =
      Some (mkPending (RH_APIKey h) (RH_APIVersion h) 0 0 None (Some new)) /\
    DecodeSyncGroupRequest new (RH_APIVersion h) = Ok sg' /\
    map SA_MemberID (SG_Assignments sg') = map SA_MemberID (SG_Assignments sg) /\
    forall t x m, ~ gets sg' t x m.
Proof.
  intros Hls Hcall. rewrite (sync_handled st h body planner store sg _ _ _ Hls Hcall). cbn [default].
  assert (forall flex, encodable flex sg ∅) as Henc.
  { intros flex. apply Forall_forall. intros a _. rewrite lookup_empty. cbn [default]. cbv zeta.
    unfold assignment_of. rewrite map_to_list_empty. cbn [map].
    rewrite (proj1 (Permutation_nil_r _) (ord_topics_perm [])). cbn [map].
    split; [apply wf_sample_assignment; [done|constructor]|]. by destruct flex. }
  eexists _, (planned_request sg ∅). split; [done|]. split; [|split].
  - apply (codec_roundtrip (dec := syncGroupRequest (RH_APIVersion h))).
    apply wf_planned; [eapply codec_run_wf, (ls_decoded _ _ _ _ _ _ Hls)|done].
  - cbn. by rewrite map_map.
  - intros t x m [_ Hx]%(gets_planned _ _ _ _ _ _ (Henc true)).
    unfold owned in Hx. rewrite lookup_empty in Hx. by apply elem_of_nil in Hx.
Qed.

Lemma missing_plan_empties_group_witness :
  exists new sg', fst (@OnRequest _ _ (@production ascii_host_text listed_topics)
      (sync_state (fun _ => (None, 0, None))) sync_header sample_sg_body) =
      Some (mkPending APISyncGroup 0 0 0 None (Some new)) /\
    DecodeSyncGroupRequest new 0 = Ok sg' /\
    map SA_MemberID (SG_Assignments sg') = ["m1"; "m2"; "m3"]%string /\
    forall t x m, ~ gets sg' t x m.
Proof.
  apply (@missing_plan_empties_group ascii_host_text listed_topics listed_topics_ok
    (sync_state (fun _ => (None, 0, None))) sync_header sample_sg_body (fun _ => (None, 0, None))
    sample_store sample_sg 0).
  - apply sample_leader.
  - reflexivity.
Defined.
