(* ===== verification/System.v ===== *)
(** * A connection with the production interceptor

    Conn.v and Interceptor.v put together: what the two ends of a proxied
    connection see of a Metadata exchange and of a leader's SyncGroup, across
    any interleaving of the two pumps in between. *)

From stdpp Require Import base numbers list strings gmap relations.
From Stdlib Require Import ZArith Lia Strings.Byte.
From S2P Require Import Prelude Primitives Codec Header MetadataCodec FindCoord.
From S2P Require Import ConsumerProtocol JoinGroup SyncGroup Frame Tracker Conn ConnTheorems Topology.
From S2P Require Import Plan PlanFacts PlanTheorems Planner Store MetaCache Telemetry.
From S2P Require Import Interceptor InterceptorTheorems.

Section system.
Context {HT : HostText} {RO : RenderOrder}.
Implicit Types c : Conn IState Rewriter.

(** ** The topology is fixed *)

Lemma on_request_topology st h body : D_Topology (snd (OnRequest st h body)) = D_Topology st.
Proof.
  simpl. unfold on_request, onMetadata, onFindCoordinator, onJoinGroup, onSyncGroup.
  repeat match goal with
  | |- context [if ?b then _ else _] => destruct b; try done
  | |- context [match ?x with _ => _ end] => destruct x; try done
  end.
Qed.

Lemma rewrite_topology rw st dst body p : D_Topology (snd (Rewrite rw st dst body p)) = D_Topology st.
Proof.
  destruct rw; simpl; unfold rewrite_metadata_resp, rewrite_findcoord_resp;
    repeat match goal with
    | |- context [match ?x with _ => _ end] => destruct x; try done
    end.
Qed.

Lemma upstream_topology cfg env c err c' :
  upstream_iter cfg env c = (err, c') -> D_Topology (icept c') = D_Topology (icept c).
Proof. intros [_ [->|(h & payload & ->)]]%upstream_effect; [done|apply on_request_topology]. Qed.

Lemma downstream_topology cfg env c err c' :
  downstream_iter cfg env c = (err, c') -> D_Topology (icept c') = D_Topology (icept c).
Proof. intros [_ [->|(rw & payload & p & ->)]]%downstream_effect; [done|apply rewrite_topology]. Qed.

(** ** Between a request and its response *)

(** An iteration of either pump that leaves request [id] in the tracker: no
    later than [limit], and not the response to [id] itself. *)
Inductive quiet_step (cfg : Config) (id limit : Z) : Conn IState Rewriter -> Conn IState Rewriter -> Prop :=
| quiet_up env c c' :
    now env <= limit -> upstream_iter cfg env c = (None, c') -> quiet_step cfg id limit c c'
| quiet_down env c c' :
    (forall body b s, ReadFrame (frame_cap cfg) (downBuf c) (brokerR c) = (inr body, b, s) ->
       PeekResponseCorrelID body <> Ok id) ->
    downstream_iter cfg env c = (None, c') -> quiet_step cfg id limit c c'.

Lemma quiet_keeps cfg p c c' :
  quiet_step cfg (P_CorrelID p) (P_Sent p + maxAge (tracker c)) c c' ->
  entries (tracker c) !! P_CorrelID p = Some p ->
  entries (tracker c') !! P_CorrelID p = Some p /\ maxAge (tracker c') = maxAge (tracker c) /\
  D_Topology (icept c') = D_Topology (icept c).
Proof.
  intros Hs Hp. inversion Hs as [env c0 c0' Hnow Hup|env c0 c0' Hno Hdn]; subst c0 c0'.
  - rewrite (upstream_topology _ _ _ _ _ Hup).
    apply upstream_effect in Hup as [[->|(q & ->)] _]; [done|].
    destruct (run_op_params (tracker c) (OpRegister (now env) q)) as [_ Ha].
    split_and!; [|done|done]. apply (run_op_keeps (tracker c) (OpRegister (now env) q)); [|done].
    simpl. lia.
  - rewrite (downstream_topology _ _ _ _ _ Hdn).
    apply downstream_effect in Hdn as [[->|(body & b & s & id & Hr & Hpk & ->)] _]; [done|].
    destruct (run_op_params (tracker c) (OpTake (R := Rewriter) id)) as [_ Ha].
    split_and!; [|done|done]. apply (run_op_keeps (tracker c) (OpTake id)); [|done].
    simpl. intros ->. by apply (Hno _ _ _ Hr).
Qed.

Lemma quiet_run_keeps cfg p c c' :
  rtc (quiet_step cfg (P_CorrelID p) (P_Sent p + maxAge (tracker c))) c c' ->
  entries (tracker c) !! P_CorrelID p = Some p ->
  entries (tracker c') !! P_CorrelID p = Some p /\ D_Topology (icept c') = D_Topology (icept c).
Proof.
  intros Hr. remember (P_Sent p + maxAge (tracker c)) as limit eqn:Hl. revert Hl.
  induction Hr as [c|c c1 c2 Hs _ IH]; intros -> Hp; [done|].
  destruct (quiet_keeps _ _ _ _ Hs Hp) as (Hp1 & Ha & Ht).
  destruct IH as [Hp2 Ht2]; [by rewrite Ha|done|]. by rewrite Ht2.
Qed.

(** ** A Metadata exchange *)

Lemma peek_int32 body id : PeekResponseCorrelID body = Ok id -> int32 id.
Proof.
  unfold PeekResponseCorrelID, run_dec. destruct (ReadInt32 (NewCursor body)) as [o c] eqn:E.
  simpl. intros ->. by eapply yields_ReadInt32.
Qed.

(** What the client can read from the frame [out]: header, then a Metadata
    response. *)
Definition client_reads_metadata (out : list byte) (version id : Z) (r : MetadataResponse) : Prop :=
  exists size payload, DecodeResponseHeader out APIMetadata version = Ok (mkResponseHeader id size) /\
    go_slice out size (len out) = Some payload /\ DecodeMetadataResponse payload version = Ok r.

(** C3: a Metadata exchange through the proxy, with a topology that has at
    least one entry under a node id (Len is not 0) and whose hosts fit a
    string of the wire. A client's Metadata request has been forwarded; then
    whole iterations of both pumps ran in any order and succeeded, those
    upstream before the entry was too old, those downstream on responses with
    other correlation ids; then the broker's response with that correlation id
    is read, and the iteration that handles it succeeds. Then the response is
    delivered as one frame with the request's correlation id from which the
    client decodes the broker's response with every broker address the
    topology knows replaced by its advertised one. (Interleavings of single
    operations are the subject of the session theorems.) *)
Theorem metadata_exchange cfg env c c1 c2 c3 h body payload m env' resp b s :
  incoming cfg env c h body payload -> RH_APIKey h = APIMetadata ->
  D_Topology (icept c) = Some m -> Len (Some m) <> 0 -> hosts_fit m ->
  upstream_iter cfg env c = (None, c1) ->
  rtc (quiet_step cfg (RH_CorrelID h) (now env + maxAge (tracker c1))) c1 c2 ->
  deadline_err cfg env' = None ->
  ReadFrame (frame_cap cfg) (downBuf c2) (brokerR c2) = (inr resp, b, s) ->
  PeekResponseCorrelID resp = Ok (RH_CorrelID h) ->
  downstream_iter cfg env' c2 = (None, c3) ->
  exists rh wire r out,
    DecodeResponseHeader resp APIMetadata (RH_APIVersion h) = Ok rh /\
    go_slice resp (SH_HeaderSize rh) (len resp) = Some wire /\
    DecodeMetadataResponse wire (RH_APIVersion h) = Ok r /\
    written (clientW c3) = written (clientW c2) ++ frame_bytes out /\
    client_reads_metadata out (RH_APIVersion h) (RH_CorrelID h)
      (fst (RewriteMetadataResponse r (Some m))).
Proof.
  intros Hin Hk Htop Hlen Hfit Hup Hq Hd Hr Hpk Hdn.
  assert (exists st, OnRequest (icept c) h payload =
    (Some (mkPending (RH_APIKey h) (RH_APIVersion h) 0 0 (Some rewriteMetadataResp) None), st)) as [st Ho].
  { eexists. simpl. unfold on_request. rewrite Hk. simpl. unfold onMetadata, no_topology.
    cbn [D_Topology with_metrics set_Metrics]. rewrite Htop.
    destruct (Z.eqb_spec (Len (Some m)) 0); [done|]. by rewrite Hk. }
  destruct (tracked_before_forward cfg env c c1 h body payload _ st _ None Hin Ho eq_refl Hup)
    as [[_ ?]|He]; [done|].
  set (p := mkPending (RH_APIKey h) (RH_APIVersion h) (RH_CorrelID h) (now env)
    (Some rewriteMetadataResp) None) in *.
  destruct (quiet_run_keeps cfg p c1 c2 Hq He) as [He2 Ht2].
  rewrite (upstream_topology _ _ _ _ _ Hup), Htop in Ht2.
  destruct (tracked_response cfg env' c2 c3 resp (RH_CorrelID h) p rewriteMetadataResp None)
    as [_ [[_ ?]|(rh & wire & new & st' & Hrh & Hw & Hrw & _ & Hout)]]; try done.
  { split_and!; eauto. }
  pose proof (metadata_rewriter_spec (icept c2) m wire p Ht2 Hfit) as Hspec.
  unfold p in *. cbn [P_APIKey P_APIVersion P_CorrelID] in *. rewrite Hk in *.
  destruct (DecodeMetadataResponse wire (RH_APIVersion h)) as [r| |] eqn:Edec.
  2,3: destruct Hspec as (e' & st2 & Hspec); congruence.
  destruct Hspec as (new' & st2 & Hspec & Hdec).
  assert (new' = new) as -> by congruence.
  eexists rh, wire, r, _. split_and!; [done..| |].
  - apply Hout. done.
  - pose proof (decode_append_response_header APIMetadata (RH_APIVersion h) (RH_CorrelID h) new
      (peek_int32 _ _ Hpk)) as Hh.
    eexists _, new. split_and!; [exact Hh|apply go_slice_tail|exact Hdec].
Qed.

(** C1: the leader's SyncGroup through the proxy, when it is planned. Suppose
    the planner returns a plan and no error in time, a metadata snapshot has
    been published, the plan can be encoded within the widths of the wire, no
    member id of the request and no topic of the snapshot is the empty string,
    and the upstream pump's iteration succeeds. Then what reaches the broker
    is one frame with the leader's own header, whose payload decodes to a
    request for the same members in which every partition that the snapshot
    has of a topic some member of the request subscribed to (as the store
    remembers it) is assigned to exactly one member, one that subscribed to
    the topic. (When the planner fails or times out the request passes as it
    came; what a nil plan without an error does is
    [missing_plan_empties_group].) *)
Theorem sync_group_exchange `{!RenderOrderOk RO} cfg env c c' h body payload planner
    `{!PlannerOk planner} store sg pl dur snap a sub t x :
  incoming cfg env c h body payload -> leader_sync (icept c) h payload planner store sg ->
  D_Metadata (icept c) = Some (Some snap) ->
  planner (plan_inputs (icept c) store sg) = (Some pl, dur, None) ->
  encodable (IsFlexibleRequest APISyncGroup (RH_APIVersion h)) sg pl ->
  named_request snap sg ->
  a ∈ SG_Assignments sg -> Get store (SG_Group sg) (SA_MemberID a) = Some sub ->
  t ∈ S_Topics sub -> x ∈ default [] (ByTopic snap !! t) ->
  upstream_iter cfg env c = (None, c') ->
  exists out new sg', written (brokerW c') = written (brokerW c) ++ frame_bytes out /\
    DecodeRequestHeader out = Ok h /\ go_slice out (RH_HeaderSize h) (len out) = Some new /\
    DecodeSyncGroupRequest new (RH_APIVersion h) = Ok sg' /\
    map SA_MemberID (SG_Assignments sg') = map SA_MemberID (SG_Assignments sg) /\
    exists m, gets sg' t x m /\ (forall m', gets sg' t x m' -> m' = m) /\
      exists s, Get store (SG_Group sg) m = Some s /\ t ∈ S_Topics s.
Proof.
  intros Hin Hls Hmd Hcall Henc Hn Ha Hg Ht Hx Hup.
  destruct (sync_request_planned _ _ _ _ _ _ _ _ _ _ _ _ _ Hls Hmd Hcall Henc Hn Ha Hg Ht Hx)
    as (new & sg' & Hreq & Hdec & Hids & Hone).
  destruct (OnRequest (icept c) h payload) as [[p|] st] eqn:Ho; [|done].
  simpl in Hreq. injection Hreq as ->.
  destruct (respliced_request cfg env c c' h body payload _ st new Hin Ho eq_refl Hup)
    as (out & Hw & Hh & Hs).
  by exists out, new, sg'.
Qed.

End system.

(** ** Concrete exchanges *)

Definition system_conn (st : IState) (fromClient fromBroker : list byte) : Conn IState Rewriter :=
  NewConn default_config (mkStream fromClient EOF) (mkStream fromBroker EOF)
    (mkSink [] None) (mkSink [] None) (mkBuffer [] 0) (mkBuffer [] 0) st.

Definition md_header : RequestHeader := mkRequestHeader APIMetadata 9 5 "c" false 0.
Definition md_request : list byte := AppendRequestHeader [] md_header ++ [Byte.x01].
Definition md_response : list byte := AppendResponseHeader [] APIMetadata 9 5 ++ sample_body.
Definition md_conn : Conn IState Rewriter :=
  system_conn (topology_state sample_mapping) (frame_bytes md_request) (frame_bytes md_response).
Definition sent : Env := mkEnv 10 None.
Definition md_sent : Conn IState Rewriter :=
  snd (@upstream_iter _ _ (@production ascii_host_text listed_topics) default_config sent md_conn).

Lemma metadata_exchange_witness :
  exists rh wire r out,
    DecodeResponseHeader md_response APIMetadata 9 = Ok rh /\
    go_slice md_response (SH_HeaderSize rh) (len md_response) = Some wire /\
    DecodeMetadataResponse wire 9 = Ok r /\
    written (clientW (snd (@downstream_iter _ _ (@production ascii_host_text listed_topics)
      default_config sent md_sent))) = written (clientW md_sent) ++ frame_bytes out /\
    client_reads_metadata out 9 5 (fst (@RewriteMetadataResponse ascii_host_text r (Some sample_mapping))).
Proof.
  eapply (@metadata_exchange ascii_host_text listed_topics default_config sent md_conn md_sent md_sent _
    (set_HeaderSize md_header 12) md_request [Byte.x01] sample_mapping sent md_response).
  - split; [reflexivity|]. split; [|split; vm_compute; reflexivity].
    eexists _, _. vm_compute. reflexivity.
  - reflexivity.
  - reflexivity.
  - vm_compute. discriminate.
  - apply sample_mapping_fits.
  - vm_compute. reflexivity.
  - apply rtc_refl.
  - reflexivity.
  - vm_compute. reflexivity.
  - vm_compute. reflexivity.
  - vm_compute. reflexivity.
Defined.

Definition sg_request : list byte := AppendRequestHeader [] sync_header ++ sample_sg_body.
Definition sg_conn : Conn IState Rewriter := system_conn (sync_state compute_planner) (frame_bytes sg_request) [].

Lemma sync_group_exchange_witness :
  exists out new sg',
    written (brokerW (snd (@upstream_iter _ _ (@production ascii_host_text listed_topics)
      default_config sent sg_conn))) = written (brokerW sg_conn) ++ frame_bytes out /\
    DecodeRequestHeader out = Ok (set_HeaderSize sync_header 11) /\
    go_slice out 11 (len out) = Some new /\ DecodeSyncGroupRequest new 0 = Ok sg' /\
    map SA_MemberID (SG_Assignments sg') = ["m1"; "m2"; "m3"]%string /\
    exists m, gets sg' "t" 2 m /\ (forall m', gets sg' "t" 2 m' -> m' = m) /\
      exists s, Get sample_store "g" m = Some s /\ "t"%string ∈ S_Topics s.
Proof.
  eapply (@sync_group_exchange ascii_host_text listed_topics listed_topics_ok default_config sent
    sg_conn _ (set_HeaderSize sync_header 11) sg_request sample_sg_body compute_planner
    compute_planner_ok sample_store sample_sg sample_plan 0 sample_snapshot
    (mkSyncGroupAssignment "m1" [] false) _ "t" 2).
  - split; [reflexivity|]. split; [|split; vm_compute; reflexivity].
    eexists _, _. vm_compute. reflexivity.
  - split; try reflexivity; vm_compute; discriminate.
  - reflexivity.
  - reflexivity.
  - apply sample_encodable.
  - split; [repeat constructor; discriminate|vm_compute; reflexivity].
  - left.
  - vm_compute. reflexivity.
  - left.
  - vm_compute. right. right. left.
  - rewrite (surjective_pairing (upstream_iter default_config sent sg_conn)).
    f_equal.
Defined.
