(* ===== verification/EndToEnd.v ===== *)
(** * What the client of a session can see

    The sessions of Session.v, with the production interceptor: everything the
    downstream pump ever writes to the client is a response of the broker to a
    request that is not to be rewritten, or what the request's rewriter made of
    the broker's response.  For Metadata and FindCoordinator this means that the
    client only ever reads advertised addresses.

    The first part is about any interceptor whose state keeps a property [I]
    (for the production interceptor: its topology). *)

From stdpp Require Import base numbers list strings gmap relations.
From Stdlib Require Import ZArith Lia Strings.Byte.
From S2P Require Import Prelude Primitives Codec Header MetadataCodec FindCoord Locality Frame Tracker Conn ConnTheorems.
From S2P Require Import ConnRun ConnTracking Session Topology Interceptor InterceptorTheorems System.

(** [Register] adds its request at most. *)
Lemma register_adds {R} (t t' : Tracker R) now p ok id q :
  Register t now p = (ok, t') -> entries t' !! id = Some q ->
  entries t !! id = Some q \/ (id = P_CorrelID p /\ q = p).
Proof.
  assert (entries (swept t now) !! id = Some q -> entries t !! id = Some q) as Hs.
  { unfold swept. destruct (sweep_due t now); [|done]. cbn [entries]. by intros [? _]%evict_lookup. }
  rewrite Register_spec. cbv zeta. destruct (_ <=? _); [intros [= _ <-]; auto|].
  destruct (_ !! P_CorrelID p); intros [= _ <-]; [auto|]. cbn [entries].
  intros [[<- <-]|[_ Hq]]%lookup_insert_Some; auto.
Qed.

Section history.
Context {IS R : Type} `{Interceptor IS R} (I : IS -> Prop).
Hypothesis I_request : forall st h b, I st -> I (snd (OnRequest st h b)).
Hypothesis I_rewrite : forall rw st dst b p, I st -> I (snd (Rewrite rw st dst b p)).
Implicit Types s : Session (IS := IS) (R := R).

(** What the interceptor decided about a request: the entry to be tracked, if
    its response is to be rewritten. *)
Definition decided (h : RequestHeader) (o : option (Pending R)) : Prop :=
  exists st payload now, I st /\
    o = match fst (OnRequest st h payload) with
        | Some p => match P_Rewrite p with
                    | Some rw => Some (mkPending (RH_APIKey h) (RH_APIVersion h) (RH_CorrelID h) now
                                         (Some rw) (P_RewriteRequest p))
                    | None => None
                    end
        | None => None
        end.

Definition table_ok s : Prop :=
  forall id q, table (run s) !! id = Some q ->
    P_CorrelID q = id /\ id ∈ seen s /\ (is_Some (P_Rewrite q) -> must s !! id = Some q).

Definition up_hist s : Prop :=
  match up (run s) with
  | UIntercept h _ _ => asked s !! RH_CorrelID h = Some h /\ table (run s) !! RH_CorrelID h = None
  | URegister p _ => P_CorrelID p ∈ seen s /\ (is_Some (P_Rewrite p) -> must s !! P_CorrelID p = Some p)
  | _ => True
  end.

Definition asked_ok s : Prop :=
  (forall id, id ∈ seen s -> is_Some (asked s !! id)) /\
  forall id h, asked s !! id = Some h -> RH_CorrelID h = id /\ id ∈ seen s /\
    ((exists b pl, up (run s) = UIntercept h b pl) \/ decided h (must s !! id)).

(** The payload of the broker's response to a request. *)
Definition reply_payload s (p : Pending R) (payload : list byte) : Prop :=
  exists body rh, replies s !! P_CorrelID p = Some body /\
    DecodeResponseHeader body (P_APIKey p) (P_APIVersion p) = Ok rh /\
    go_slice body (SH_HeaderSize rh) (len body) = Some payload.

(** What is written to the client: the broker's response to a request that is
    not to be rewritten or has been dropped for its age, or what a rewriter made
    of the broker's response. *)
Definition raw_write s out : Prop :=
  exists id, PeekResponseCorrelID out = Ok id /\ replies s !! id = Some out /\ id ∈ answered s /\
    (must s !! id = None \/ gone s id).

Definition rewritten_write s out : Prop :=
  exists p rw st payload new, must s !! P_CorrelID p = Some p /\ P_Rewrite p = Some rw /\
    int32 (P_CorrelID p) /\ reply_payload s p payload /\ I st /\ fst (Rewrite rw st [] payload p) = Ok new /\
    out = AppendResponseHeader [] (P_APIKey p) (P_APIVersion p) (P_CorrelID p) ++ new.

Definition down_hist s : Prop :=
  match down (run s) with
  | DTake id body => PeekResponseCorrelID body = Ok id
  | DRewrite p rw payload => must s !! P_CorrelID p = Some p /\ P_Rewrite p = Some rw /\
      int32 (P_CorrelID p) /\ reply_payload s p payload
  | DWrite out => raw_write s out \/ rewritten_write s out
  | _ => True
  end.

Definition history s : Prop :=
  I (icept (rconn (run s))) /\ table_ok s /\ up_hist s /\ asked_ok s /\ down_hist s.

(** Histories only grow. *)
Definition extends s s' : Prop :=
  (forall id, is_Some (must s !! id) \/ id ∈ answered s -> must s' !! id = must s !! id) /\
  (forall id, gone s id -> gone s' id) /\ answered s ⊆ answered s' /\ replies s ⊆ replies s'.

(** ** Stability *)

(** What is decided about a request, or about an answered one, stays. *)
Lemma just_intercepted_id cfg client broker r r' p :
  sys_step cfg client broker r r' -> just_intercepted (up r) (up r') = Some p ->
  exists h body payload out, up r = UIntercept h body payload /\ up r' = URegister p out /\
    P_CorrelID p = RH_CorrelID h /\ is_Some (P_Rewrite p).
Proof.
  intros Hs Hj. unfold just_intercepted in Hj.
  destruct (up r) as [| |h body payload| | | |] eqn:Eu; try done.
  destruct (up r') as [| | |q out| | |] eqn:Eu'; try done.
  destruct (P_Rewrite q) as [rw|] eqn:Erw; [|done]. injection Hj as ->.
  exists h, body, payload, out. split_and!; try done.
  destruct (step_cases _ _ _ _ _ Hs) as [[Hup _]|[[_ E]|(_ & [E|[Ho _]] & _)]]; try congruence; [|by rewrite Eu in Ho].
  rewrite Eu, Eu' in Hup. inversion Hup as [| |? ? ? ? po st now Hi Ei| |]; subst.
  match goal with H : up_intercept _ _ _ _ = _ |- _ => revert H end. unfold up_intercept. destruct po as [p0|]; [|done].
  cbv zeta. cbn [P_RewriteRequest]. destruct (P_RewriteRequest p0); [destruct (go_slice _ _ _); [|done]|];
    by intros [= <- _].
Qed.

Lemma must_stable cfg client broker s r' id :
  session_inv s -> sys_step cfg client broker (run s) r' -> is_Some (must s !! id) \/ id ∈ answered s ->
  must (stepped s r') !! id = must s !! id.
Proof.
  intros (sent & _ & Hu & _ & _ & Hans & _) Hs Hid. unfold stepped. cbn [must].
  destruct (just_intercepted _ _) as [p|] eqn:Ej; [|done]. cbn [add_must].
  destruct (just_intercepted_id _ _ _ _ _ _ Hs Ej) as (h & body & payload & out & Eu & _ & Hp & _).
  rewrite Eu in Hu. destruct Hu as (_ & [_ Hne] & Hno). apply lookup_insert_ne. rewrite Hp. intros <-.
  destruct Hid as [Hid|Hid]; [by rewrite Hno in Hid; destruct Hid|].
  destruct (Hans _ Hid) as (out' & h' & Ho & Hh & E). by apply (Hne out' h').
Qed.

Lemma stepped_extends cfg client broker s r' :
  session_inv s -> sys_step cfg client broker (run s) r' -> extends s (stepped s r').
Proof. intros Hi Hs. split_and!; [intros; by eapply must_stable|intros id ?; by left|done|done]. Qed.

Lemma payload_stable s s' p pl : extends s s' -> reply_payload s p pl -> reply_payload s' p pl.
Proof. intros (_ & _ & _ & Hr) (body & rh & Hb & ?). exists body, rh. split; [by eapply lookup_weaken|done]. Qed.

Lemma write_stable s s' out :
  extends s s' -> raw_write s out \/ rewritten_write s out -> raw_write s' out \/ rewritten_write s' out.
Proof.
  intros Hx [(id & Hp & Hrep & Hid & Hc)|(p & rw & st & pl & new & Hp & Hrw & Hint & Hpl & Hrest)];
    pose proof Hx as (Hm & Hg & Ha & Hr).
  - left. exists id. split_and!; [done|by eapply lookup_weaken|by apply Ha|].
    destruct Hc as [Hc|Hc]; [left|right; by apply Hg]. by rewrite Hm by (by right).
  - right. exists p, rw, st, pl, new. split_and!; try done; [by rewrite Hm by (left; by rewrite Hp)|by eapply payload_stable|apply Hrest..].
Qed.

(** The downstream half, when the downstream pump does nothing. *)
Lemma down_hist_same s s' :
  extends s s' -> down (run s') = down (run s) \/ down_over (down (run s')) -> down_hist s -> down_hist s'.
Proof.
  intros Hx [Hd|Ho]; unfold down_hist.
  2:{ intros _. by destruct (down (run s')). }
  rewrite Hd. destruct (down (run s)) as [| | |p rw pl|out| |]; try done.
  - intros (Hp & ? & ? & ?). split_and!; try done; [|by eapply payload_stable].
    by rewrite (proj1 Hx) by (left; by rewrite Hp).
  - by apply write_stable.
Qed.

(** The upstream half, when the upstream pump does nothing and no entry is
    added. *)
Lemma up_hist_same s s' :
  up (run s') = up (run s) \/ (up_over (up (run s)) /\ up_over (up (run s'))) ->
  seen s' = seen s -> must s' = must s -> asked s' = asked s ->
  table (run s') ⊆ table (run s) ->
  table_ok s /\ up_hist s /\ asked_ok s -> table_ok s' /\ up_hist s' /\ asked_ok s'.
Proof.
  intros Hu Hseen Hmust Hasked Ht (Htab & Hup & Hask). split_and!.
  - intros id q Hq. rewrite Hseen, Hmust. apply Htab. by eapply lookup_weaken.
  - unfold up_hist in *. rewrite Hseen, Hmust, Hasked. destruct Hu as [->|[_ Ho]]; [|by destruct (up (run s'))].
    destruct (up (run s)); try done. split; [apply Hup|]. destruct Hup as [_ Hno].
    destruct (table (run s') !! _) eqn:E; [|done]. by rewrite (lookup_weaken _ _ _ _ E Ht) in Hno.
  - unfold asked_ok in *. rewrite Hseen, Hmust, Hasked. destruct Hask as [H1 H2]. split; [done|].
    intros id h Hh. destruct (H2 id h Hh) as (? & ? & Hc). split_and!; try done.
    destruct Hc as [(b & pl & Hc)|Hc]; [|by right]. left. exists b, pl.
    destruct Hu as [->|[Ho _]]; [done|]. by rewrite Hc in Ho.
Qed.

(** All requests but the one at hand are decided. *)
Lemma decided_all s id h :
  asked_ok s -> asked s !! id = Some h ->
  (forall b pl, up (run s) <> UIntercept h b pl) -> decided h (must s !! id).
Proof. intros [_ Ha] Hh Hu. destruct (Ha id h Hh) as (_ & _ & [(b & pl & E)|?]); [by apply Hu in E|done]. Qed.

(** A request is read. *)
Lemma read_history s r' h body payload :
  up (run s) = URead -> up r' = UIntercept h body payload -> table r' = table (run s) ->
  RH_CorrelID h ∉ seen s ->
  table_ok s /\ up_hist s /\ asked_ok s ->
  table_ok (stepped s r') /\ up_hist (stepped s r') /\ asked_ok (stepped s r').
Proof.
  intros Eu Eu' Et Hnew (Htab & _ & Hask).
  assert (forall id, id ∈ seen s -> id <> RH_CorrelID h) as Hne by (intros id ? ->; done).
  unfold table_ok, up_hist, asked_ok, stepped. cbn [run seen must asked]. rewrite Eu, Eu', Et.
  cbn [just_read just_intercepted add_id add_must add_asked]. split_and!.
  - intros id q Hq. destruct (Htab id q Hq) as (? & ? & ?). split_and!; [done|set_solver|done].
  - by rewrite lookup_insert_eq.
  - destruct (table (run s) !! RH_CorrelID h) eqn:E; [|done]. by destruct (Htab _ _ E) as (_ & ? & _).
  - intros id [->%elem_of_singleton|Hid]%elem_of_union; [by rewrite lookup_insert_eq|].
    rewrite lookup_insert_ne by (apply not_eq_sym; by apply Hne). by apply Hask.
  - intros id h' [[<- <-]|[_ Hh']]%lookup_insert_Some.
    + split_and!; [done|set_solver|]. left. eauto.
    + destruct (proj2 Hask id h' Hh') as (? & ? & _). split_and!; [done|set_solver|]. right.
      apply decided_all; [done|done|]. intros b pl. by rewrite Eu.
Qed.

(** The entry the interceptor's answer asks for. *)
Definition entry_of (now : Z) (po : option (Pending R)) (h : RequestHeader) : option (Pending R) :=
  match po with
  | Some p => match P_Rewrite p with
              | Some rw => Some (mkPending (RH_APIKey h) (RH_APIVersion h) (RH_CorrelID h) now
                                   (Some rw) (P_RewriteRequest p))
              | None => None
              end
  | None => None
  end.

Lemma intercept_cases now po h body payload :
  DecodeRequestHeader body = Ok h ->
  let u' := up_intercept now po h body in
  just_intercepted (UIntercept h body payload) u' = entry_of now po h /\
  match u' with
  | URegister p _ => P_CorrelID p = RH_CorrelID h /\ (is_Some (P_Rewrite p) -> entry_of now po h = Some p)
  | UIntercept _ _ _ => False
  | _ => True
  end.
Proof.
  intros Hd. cbv zeta. unfold up_intercept, entry_of. destruct po as [p|]; [|done].
  cbn [P_RewriteRequest]. pose proof (header_size_range _ _ Hd) as Hr.
  assert (forall out, just_intercepted (UIntercept h body payload)
    (URegister (mkPending (RH_APIKey h) (RH_APIVersion h) (RH_CorrelID h) now (P_Rewrite p) (P_RewriteRequest p)) out) =
    match P_Rewrite p with
    | Some rw => Some (mkPending (RH_APIKey h) (RH_APIVersion h) (RH_CorrelID h) now (Some rw) (P_RewriteRequest p))
    | None => None
    end) as Hj by (intros out; unfold just_intercepted; cbn [P_Rewrite]; by destruct (P_Rewrite p)).
  assert (is_Some (P_Rewrite p) -> match P_Rewrite p with
    | Some rw => Some (mkPending (RH_APIKey h) (RH_APIVersion h) (RH_CorrelID h) now (Some rw) (P_RewriteRequest p))
    | None => None
    end = Some (mkPending (RH_APIKey h) (RH_APIVersion h) (RH_CorrelID h) now (P_Rewrite p) (P_RewriteRequest p))) as He
    by (intros [rw ->]; done).
  destruct (P_RewriteRequest p) as [new|]; [rewrite go_slice_some by lia|]; by split.
Qed.

(** A request is decided upon. *)
Lemma intercept_history s r' h body payload now :
  session_inv s -> up (run s) = UIntercept h body payload -> table r' = table (run s) -> I (icept (rconn (run s))) ->
  up r' = up_intercept now (fst (OnRequest (icept (rconn (run s))) h payload)) h body ->
  table_ok s /\ up_hist s /\ asked_ok s ->
  table_ok (stepped s r') /\ up_hist (stepped s r') /\ asked_ok (stepped s r').
Proof.
  intros (sent & _ & Hu & _) Eu Et HI Eu' (Htab & Hup & Hask). rewrite Eu in Hu. destruct Hu as (Hd & [Hseen _] & Hno).
  unfold up_hist in Hup. rewrite Eu in Hup. destruct Hup as [Hah Hnt].
  set (po := fst (OnRequest _ _ _)) in *. destruct (intercept_cases now po h body payload Hd) as [Hj Hc].
  rewrite <- Eu' in Hj, Hc.
  assert (forall id, id <> RH_CorrelID h -> add_must (entry_of now po h) (must s) !! id = must s !! id) as Hother.
  { intros id Hne. unfold entry_of. destruct po as [p|]; [|done]. destruct (P_Rewrite p); [|done].
    cbn [add_must P_CorrelID]. by apply lookup_insert_ne, not_eq_sym. }
  assert (add_must (entry_of now po h) (must s) !! RH_CorrelID h = entry_of now po h) as Hthis.
  { unfold entry_of. destruct po as [p|]; [|done]. destruct (P_Rewrite p); [|done].
    cbn [add_must P_CorrelID]. by rewrite lookup_insert_eq. }
  unfold table_ok, up_hist, asked_ok, stepped. cbn [run seen must asked]. rewrite Et, Eu, Hj.
  cbn [just_read add_asked]. split_and!.
  - intros id q Hq. cbn [add_id]. destruct (Htab id q Hq) as (? & ? & Hm). split_and!; try done. intros Hrw.
    rewrite Hother by (intros ->; congruence). by apply Hm.
  - destruct (up r') as [| | |p out| | |]; try done. destruct Hc as [Hid Hrw]. rewrite Hid. cbn [add_id].
    split; [done|]. intros Hp. rewrite Hthis. by apply Hrw.
  - cbn [add_id]. apply Hask.
  - intros id h' Hh'. cbn [add_id]. destruct (proj2 Hask id h' Hh') as (Hid & ? & Hc').
    split_and!; try done. right. destruct (decide (id = RH_CorrelID h)) as [->|Hne].
    + rewrite Hah in Hh'. injection Hh' as <-. rewrite Hthis. by exists (icept (rconn (run s))), payload, now.
    + rewrite Hother by done. destruct Hc' as [(b & pl & E)|]; [|done]. rewrite Eu in E. by injection E as <-.
Qed.

(** A request is registered, or the table is full. *)
Lemma register_history s r' p out ok now :
  up (run s) = URegister p out -> up r' = up_register ok p out ->
  Register (tracker (rconn (run s))) now p = (ok, tracker (rconn r')) ->
  table_ok s /\ up_hist s /\ asked_ok s ->
  table_ok (stepped s r') /\ up_hist (stepped s r') /\ asked_ok (stepped s r').
Proof.
  intros Eu Eu' Ht (Htab & Hup & Hask). unfold up_hist in Hup. rewrite Eu in Hup. destruct Hup as [Hin Hm].
  unfold table_ok, up_hist, asked_ok, stepped, table. cbn [run seen must asked]. rewrite Eu, Eu'.
  cbn [just_read just_intercepted add_id add_must add_asked]. split_and!.
  - intros id q Hq. destruct (register_adds _ _ _ _ _ _ _ Ht Hq) as [Hq'|[-> ->]]; [by apply Htab|by split_and!].
  - unfold up_register. destruct ok; [done|]. by destruct (P_Rewrite p).
  - apply Hask.
  - intros id h Hh. destruct (proj2 Hask id h Hh) as (? & ? & _). split_and!; try done. right.
    apply decided_all; [done|done|]. intros b pl. by rewrite Eu.
Qed.

(** A step of the upstream pump that neither reads, nor decides, nor registers. *)
Lemma plain_up_history s r' :
  (forall h b pl, up (run s) <> UIntercept h b pl) -> (forall h b pl, up r' <> UIntercept h b pl) ->
  (forall p out, up r' <> URegister p out) -> table r' = table (run s) ->
  table_ok s /\ up_hist s /\ asked_ok s ->
  table_ok (stepped s r') /\ up_hist (stepped s r') /\ asked_ok (stepped s r').
Proof.
  intros H1 H2 H3 Et (Htab & Hup & Hask). unfold table_ok, up_hist, asked_ok, stepped. cbn [run seen must asked].
  assert (just_read (up (run s)) (up r') = None) as ->.
  { unfold just_read. destruct (up (run s)); try done. destruct (up r') eqn:E; try done. by destruct (H2 h body payload). }
  assert (just_intercepted (up (run s)) (up r') = None) as ->.
  { unfold just_intercepted. destruct (up (run s)); try done. by destruct (H1 h body payload). }
  assert (add_asked (up (run s)) (up r') (asked s) = asked s) as ->.
  { unfold add_asked. destruct (up (run s)); try done. destruct (up r') eqn:E; try done. by destruct (H2 h body payload). }
  rewrite Et. cbn [add_id add_must]. split_and!; try done.
  - destruct (up r') eqn:E; try done; [by destruct (H2 h body payload)|by destruct (H3 p out)].
  - apply Hask.
  - intros id h Hh. destruct (proj2 Hask id h Hh) as (? & ? & _). split_and!; try done. right.
    apply decided_all; [done|done|]. apply H1.
Qed.

Lemma up_history cfg client broker cc bc s r' :
  session_inv s ->
  up_step cfg client broker cc bc (up (run s), rconn (run s)) (up r', rconn r') ->
  (forall id, just_read (up (run s)) (up r') = Some id -> id ∉ seen s) ->
  I (icept (rconn (run s))) -> table_ok s /\ up_hist s /\ asked_ok s ->
  I (icept (rconn r')) /\ table_ok (stepped s r') /\ up_hist (stepped s r') /\ asked_ok (stepped s r').
Proof.
  intros Hinv Hs Hnew HI Hh. remember (up (run s), rconn (run s)) as uc eqn:Ea.
  remember (up r', rconn r') as uc' eqn:Eb. revert Ea Eb.
  destruct Hs as [c r|c r b st Hr|c h body payload po st now Hi|c p out ok t now Ht|c out err w Hw];
    intros [= E1 E2] [= E3 E4].
  - rewrite <- E4, E2. split; [done|].
    apply plain_up_history; try done; unfold table; try (intros *; rewrite <- ?E1, <- ?E3).
    all: try by (unfold up_deadline; destruct (set_deadline _ _ _)). by rewrite <- E4, E2.
  - rewrite <- E4, E2. split; [done|]. assert (table r' = table (run s)) as Et by (unfold table; by rewrite <- E4, E2).
    destruct r as [e|body]; [apply plain_up_history; try done; intros *; rewrite <- ?E1, <- ?E3; done|].
    unfold up_decode in E3. destruct (DecodeRequestHeader body) as [h| |] eqn:Hd.
    2,3: apply plain_up_history; try done; intros *; rewrite <- ?E1, <- ?E3; done.
    destruct (go_slice body _ _) as [payload|].
    2: apply plain_up_history; try done; intros *; rewrite <- ?E1, <- ?E3; done.
    eapply read_history; [done|done|done| |done]. apply Hnew. by rewrite <- E1, <- E3.
  - rewrite E2 in Hi. split.
    { rewrite <- E4. cbn [icept]. pose proof (I_request _ h payload HI) as HI'. by rewrite Hi in HI'. }
    eapply intercept_history; try done; [unfold table; by rewrite <- E4, E2|]. rewrite Hi. cbn [fst]. by rewrite <- E3.
  - rewrite <- E4. cbn [icept]. rewrite E2. split; [done|]. eapply register_history; try done.
    rewrite <- E4, <- E2. cbn [tracker]. exact Ht.
  - rewrite <- E4. cbn [icept]. rewrite E2. split; [done|].
    apply plain_up_history; try done; unfold table; try (intros *; rewrite <- ?E1, <- ?E3).
    all: try by destruct err. by rewrite <- E4, E2.
Qed.

(** The response at hand is an answer, and its request is safe. *)
Lemma at_hand_safe s id body :
  session_inv s -> down (run s) = DTake id body ->
  id ∈ answered s /\ replies s !! id = Some body /\
  forall p, must s !! id = Some p -> table (run s) !! id = Some p \/ gone s id.
Proof.
  intros Hinv Ed. destruct (at_hand_new _ _ _ Hinv Ed) as (Hid & Hnt & Hrep).
  destruct Hinv as (sent & _ & _ & Hsent & _ & Hans & _).
  split_and!; [done..|]. intros p Hp. destruct (Hans id Hid) as (out & h & Ho & Hh & <-).
  destruct (Hsent out h Ho Hh) as [_ Hsafe]. destruct (Hsafe p Hp) as [|[|]]; [by left|by right|done].
Qed.

(** The response at hand is looked up. *)
Lemma take_history cfg client broker s r' id body q t :
  session_inv s -> table_ok s -> sys_step cfg client broker (run s) r' ->
  down (run s) = DTake id body -> PeekResponseCorrelID body = Ok id ->
  Take (tracker (rconn (run s))) id = (q, t) -> down r' = down_taken q body ->
  tracker (rconn r') = t ->
  table r' ⊆ table (run s) /\ down_hist (stepped s r').
Proof.
  intros Hinv Htab Hs Ed Hpk Ht Ed' Et'. destruct (at_hand_safe _ _ _ Hinv Ed) as (Hans & Hrep & Hsafe).
  assert (table (run s) !! id = q /\ table r' ⊆ table (run s)) as [Hq Hsub].
  { unfold table. rewrite Et'. unfold Take in Ht. destruct (entries _ !! id) as [p|] eqn:E; injection Ht as <- <-.
    - split; [done|]. cbn [entries]. apply delete_subseteq.
    - by split. }
  split; [done|]. unfold down_hist. change (run (stepped s r')) with r'. rewrite Ed'.
  assert (forall id', is_Some (must s !! id') \/ id' ∈ answered s -> must (stepped s r') !! id' = must s !! id') as Hm
    by (intros; by eapply must_stable).
  assert (match q with Some q => P_Rewrite q = None | None => True end -> raw_write (stepped s r') body) as Hraw.
  { intros Hnone. exists id. split_and!; [done..|]. rewrite Hm by (by right).
    destruct (must s !! id) as [p|] eqn:Ep; [|by left]. destruct (Hsafe p eq_refl) as [Hp|Hg]; [|right; by left].
    rewrite Hq in Hp. subst q. destruct Hinv as (? & _ & _ & _ & Hmo & _).
    destruct (Hmo _ _ Ep) as (_ & [rw E] & _). rewrite Hp in Hnone; congruence. }
  unfold down_taken. destruct q as [q|]; [|left; by apply Hraw].
  destruct (P_Rewrite q) as [rw|] eqn:Erw; [|left; by apply Hraw].
  destruct (DecodeResponseHeader _ _ _) as [rh| |] eqn:Erh; try done. destruct (go_slice _ _ _) eqn:Epl; [|done].
  destruct (Htab _ _ Hq) as (Hid & _ & Hmq). rewrite Hid. specialize (Hmq ltac:(by rewrite Erw)).
  split_and!; [by rewrite Hm by (by right)|done|by eapply peek_int32|].
  exists body, rh. by rewrite Hid.
Qed.

Lemma down_history cfg client broker cc bc s r' :
  session_inv s -> sys_step cfg client broker (run s) r' ->
  down_step cfg client broker cc bc (down (run s), rconn (run s)) (down r', rconn r') ->
  history s ->
  I (icept (rconn r')) /\ table r' ⊆ table (run s) /\ down_hist (stepped s r').
Proof.
  intros Hinv Hsys Hs (HI & Htab & _ & _ & Hd). remember (down (run s), rconn (run s)) as dc eqn:Ea.
  remember (down r', rconn r') as dc' eqn:Eb. revert Ea Eb. unfold down_hist in Hd.
  destruct Hs as [c r|c r b st Hr|c id body q t Ht|c p rw payload r st Hrw|c out err w Hw];
    intros [= E1 E2] [= E3 E4]; rewrite <- E1 in Hd; unfold down_hist at 1; change (run (stepped s r')) with r'.
  - rewrite <- E3, <- E4, E2. unfold table. rewrite <- E4, E2. split_and!; try done.
    unfold down_deadline. by destruct (set_deadline _ _ _).
  - unfold table. rewrite <- E3, <- E4, E2. split_and!; try done. unfold down_decode. destruct r as [e|body]; [done|].
    by destruct (PeekResponseCorrelID body) eqn:Hpk.
  - destruct (take_history cfg client broker s r' id body q t) as [H1 H2]; try done; try (by symmetry); [by rewrite <- E2|by rewrite <- E4|].
    split; [|split; [done|exact H2]]. rewrite <- E4. cbn [icept]. by rewrite E2.
  - destruct Hd as (Hp & Hprw & Hint & Hpl). unfold table. rewrite <- E3, <- E4. cbn [icept tracker]. rewrite E2.
    rewrite E2 in Hrw. split.
    { pose proof (I_rewrite rw _ [] payload p HI) as HI'. by rewrite Hrw in HI'. }
    split; [done|]. unfold down_rewritten. destruct r as [new| |]; try done. right.
    exists p, rw, (icept (rconn (run s))), payload, new. split_and!; try done; [|by rewrite Hrw].
    rewrite (must_stable cfg client broker) by (done || (left; by rewrite Hp)). done.
  - unfold table. rewrite <- E3, <- E4. cbn [icept tracker]. rewrite E2. split_and!; try done. by destruct err.
Qed.

(** ** Every session *)

Definition replies_ok s : Prop := forall id, is_Some (replies s !! id) -> id ∈ answered s.

Lemma proxy_history cfg client broker s r' :
  session_inv s -> sys_step cfg client broker (run s) r' ->
  (forall id, just_read (up (run s)) (up r') = Some id -> id ∉ seen s) ->
  history s -> history (stepped s r').
Proof.
  intros Hinv Hs Hnew Hh. pose proof Hh as (HI & Htab & Hup & Hask & Hd).
  pose proof (stepped_extends _ _ _ _ _ Hinv Hs) as Hx. unfold history. change (run (stepped s r')) with r'.
  assert (forall u, u = up (run s) \/ (up_over (up (run s)) /\ up_over u) -> up r' = u -> table r' ⊆ table (run s) ->
    table_ok (stepped s r') /\ up_hist (stepped s r') /\ asked_ok (stepped s r')) as Hsame.
  { intros u Hu Eu Ht. subst u. eapply up_hist_same; [exact Hu|..|done|done]; unfold stepped; cbn [seen must asked].
    - by rewrite just_read_same.
    - by rewrite just_intercepted_same.
    - unfold add_asked. destruct Hu as [->|[Hu _]]; by destruct (up (run s)). }
  destruct (step_cases _ _ _ _ _ Hs) as [[Hu Hdn]|[[Hdn Hu]|(Hc & Hu & Hdn)]].
  - destruct (up_history _ _ _ _ _ s r' Hinv Hu Hnew HI) as (? & ? & ? & ?); [done|].
    split_and!; try done. apply (down_hist_same s); [done|by left|done].
  - destruct (down_history _ _ _ _ _ s r' Hinv Hs Hdn Hh) as (? & Ht & ?).
    destruct (Hsame (up r')) as (? & ? & ?); [by left|done|done|]. by split_and!.
  - destruct (Hsame (up r')) as (? & ? & ?); [done|done|unfold table; by rewrite Hc|].
    split_and!; try done; [by rewrite Hc|]. apply (down_hist_same s); [done| |done].
    destruct Hdn as [?|[_ ?]]; [by left|by right].
Qed.

Lemma answer_extends s id body :
  id ∉ answered s -> replies_ok s ->
  extends s (mkSession (deliver (run s) body) (seen s) (must s) (gone s) (taken s) (answered s ++ [id]) (asked s)
    (<[id := body]> (replies s))).
Proof.
  intros Hnew Hrep. split_and!; cbn [must gone answered replies]; try done; [set_solver|].
  apply insert_subseteq. destruct (replies s !! id) eqn:E; [|done]. destruct Hnew. apply Hrep. by rewrite E.
Qed.

Lemma answer_history s id body :
  id ∉ answered s -> history s /\ replies_ok s ->
  let s' := mkSession (deliver (run s) body) (seen s) (must s) (gone s) (taken s) (answered s ++ [id]) (asked s)
              (<[id := body]> (replies s)) in
  history s' /\ replies_ok s'.
Proof.
  intros Hnew [(HI & Htab & Hup & Hask & Hd) Hrep]. cbv zeta. split.
  - split; [done|]. split; [done|]. split; [done|]. split; [done|].
    apply (down_hist_same s); [by apply answer_extends|by left|done].
  - intros id'. cbn [replies answered]. intros [b [[<- _]|[_ Hb]]%lookup_insert_Some]; [set_solver|].
    apply elem_of_app. left. apply Hrep. by rewrite Hb.
Qed.

Lemma history_reachable others cfg client broker (c : Conn IS R) s :
  unused c -> entries (tracker c) = ∅ -> I (icept c) -> (forall st st', I st -> others st st' -> I st') ->
  rtc (session_step others cfg client broker) (session_start c) s -> history s /\ replies_ok s.
Proof.
  intros Hc Ht HI Hoth Hs. revert s Hs. apply rtc_ind_r.
  - split; [|intros id [b Hb]; done]. split; [done|]. split_and!; try done.
    intros id q. unfold table, session_start. cbn [run ConnRun.start rconn]. by rewrite Ht.
  - intros s1 s2 Hr Hs IH. pose proof (session_reachable _ _ _ _ _ _ Hc Hr) as Hinv.
    destruct Hs as [s r' Hs Hnew|s out h body Hwire Hh Hnew Hpeek Hlen|s st Ho].
    + destruct IH as [Hh Hrep]. split; [by apply (proxy_history cfg client broker)|exact Hrep].
    + by apply answer_history.
    + destruct IH as [(HI' & Hh) Hrep]. split; [|exact Hrep]. split; [by eapply Hoth|exact Hh].
Qed.

(** *** The client's side of the wire *)

Abbreviation client_wire s := (written (clientW (rconn (run s)))).

(** The response being dealt with. *)
Definition in_work (d : down_pc R) : list Z :=
  match d with
  | DRewrite p _ _ => [P_CorrelID p]
  | DWrite out => match PeekResponseCorrelID out with Ok id => [id] | _ => [] end
  | _ => []
  end.

Definition fair s out : Prop := raw_write s out \/ rewritten_write s out.

(** The client has been sent whole responses, in the order in which the broker
    gave them, and then perhaps the beginning of one more. *)
Definition client_ok s : Prop := exists outs ids part,
  client_wire s = concat (map frame_bytes outs) ++ part /\
  Forall2 (fun out id => PeekResponseCorrelID out = Ok id) outs ids /\ Forall (fair s) outs /\
  ((part = [] /\ taken s = ids ++ in_work (down (run s))) \/
   (down_over (down (run s)) /\ ids `prefix_of` taken s /\
    exists k, part = [] \/ exists out, fair s out /\ part = take k (frame_bytes out))).

Lemma fair_stable s s' outs : extends s s' -> Forall (fair s) outs -> Forall (fair s') outs.
Proof. intros Hx Hf. eapply Forall_impl; [done|]. intros out. by apply write_stable. Qed.

(** Every frame at hand carries a correlation id. *)
Lemma fair_id s out : fair s out -> exists id, PeekResponseCorrelID out = Ok id.
Proof.
  intros [(id & Hp & _)|(p & rw & st & pl & new & _ & _ & Hint & _ & _ & _ & ->)]; [by exists id|].
  eexists. eapply peek_decode_response, decode_append_response_header. done.
Qed.

(** Nothing written, and nothing taken up. *)
Lemma client_same s s' :
  extends s s' -> client_wire s' = client_wire s -> taken s' = taken s ->
  down (run s') = down (run s) \/ (down_over (down (run s)) /\ down_over (down (run s'))) ->
  client_ok s -> client_ok s'.
Proof.
  intros Hx Hw Ht Hd (outs & ids & part & Hwire & Hids & Hf & Hc). exists outs, ids, part. rewrite Hw, Ht.
  split_and!; [done..|by eapply fair_stable|]. destruct Hc as [[Hp Htk]|(Ho & Hp & k & Hk)].
  - destruct Hd as [->|[Ho Ho']]; [by left|]. right. split_and!; [done| |by exists 0%nat; left].
    rewrite Htk. by apply prefix_app_r.
  - right. split_and!; [by destruct Hd as [->|[_ ?]]|done|]. exists k.
    destruct Hk as [|(out & ? & ?)]; [by left|right]. exists out. split; [by eapply write_stable|done].
Qed.

(** A step of the downstream pump that writes nothing. *)
Lemma client_moved s s' :
  extends s s' -> client_wire s' = client_wire s -> ~ down_over (down (run s)) ->
  (forall ids, taken s = ids ++ in_work (down (run s)) ->
    taken s' = ids ++ in_work (down (run s')) \/ (down_over (down (run s')) /\ ids `prefix_of` taken s')) ->
  client_ok s -> client_ok s'.
Proof.
  intros Hx Hw Hno Ht (outs & ids & part & Hwire & Hids & Hf & Hc). exists outs, ids, part. rewrite Hw.
  split_and!; [done..|by eapply fair_stable|]. destruct Hc as [[Hp Htk]|[? _]]; [|done].
  destruct (Ht ids Htk) as [?|[? ?]]; [by left|right]. split_and!; [done..|]. exists 0%nat. by left.
Qed.

(** The response at hand is written, or a part of it. *)
Lemma client_written s s' out err w peer closed :
  extends s s' -> down (run s) = DWrite out -> fair s out ->
  writes peer closed (clientW (rconn (run s))) out err w -> clientW (rconn (run s')) = w ->
  taken s' = taken s -> down (run s') = down_written err -> client_ok s -> client_ok s'.
Proof.
  intros Hx Ed Hfair Hwr Ew Ht Ed' (outs & ids & part & Hwire & Hids & Hf & Hc).
  destruct (fair_id _ _ Hfair) as [id Hid]. rewrite Ed in Hc. destruct Hc as [[-> Htk]|[[] _]].
  rewrite app_nil_r in Hwire. cbn [in_work] in Htk. rewrite Hid in Htk. unfold client_ok. rewrite Ew, Ht, Ed'.
  assert (Forall (fair s') (outs ++ [out])) as [Hf1 Hf2]%Forall_app.
  { apply (fair_stable s); [done|]. apply Forall_app. split; [done|]. by apply Forall_singleton. }
  destruct err as [e|]; cbn [down_written].
  - apply writes_cut in Hwr as (k & _ & _ & Hwr). exists outs, ids, (take k (frame_bytes out)).
    rewrite Hwr, Hwire. split_and!; [done..|]. right. split_and!; [done|rewrite Htk; by apply prefix_app_r|].
    exists k. right. exists out. split; [by inversion Hf2|done].
  - apply writes_whole in Hwr as [_ Hwr]. exists (outs ++ [out]), (ids ++ [id]), [].
    rewrite Hwr, Hwire, map_app, concat_app, app_nil_r. simpl. rewrite !app_nil_r. split_and!; [done| | |by left].
    + apply Forall2_app; [done|]. by constructor.
    + by apply Forall_app.
Qed.

Lemma down_client cfg client broker cc bc s r' :
  session_inv s -> sys_step cfg client broker (run s) r' ->
  down_step cfg client broker cc bc (down (run s), rconn (run s)) (down r', rconn r') ->
  history s -> client_ok s -> client_ok (stepped s r').
Proof.
  intros Hinv Hsys Hs Hh Hok. pose proof (stepped_extends _ _ _ _ _ Hinv Hsys) as Hx.
  destruct (down_history _ _ _ _ _ _ _ Hinv Hsys Hs Hh) as (_ & _ & Hd'). destruct Hh as (_ & Htab & _ & _ & Hd).
  unfold down_hist in Hd, Hd'. change (run (stepped s r')) with r' in Hd'.
  remember (down (run s), rconn (run s)) as dc eqn:Ea. remember (down r', rconn r') as dc' eqn:Eb. revert Ea Eb.
  destruct Hs as [c r|c r b st Hr|c id body q t Ht|c p rw payload r st Hrw|c out err w Hw];
    intros [= E1 E2] [= E3 E4]; rewrite <- E1 in Hd; rewrite <- E3 in Hd'.
  5:{ eapply (client_written s (stepped s r') out err w _ cc); try done.
      - by rewrite <- E2.
      - change (run (stepped s r')) with r'. by rewrite <- E4.
      - unfold stepped. cbn [taken]. by rewrite <- E1. }
  all: eapply (client_moved s (stepped s r')); try done;
    [change (run (stepped s r')) with r'; by rewrite <- E4, <- E2|rewrite <- E1; by intros []|].
  all: intros ids; change (run (stepped s r')) with r'; unfold stepped; cbn [taken]; rewrite <- E1, <- E3;
    cbn [in_work]; intros Htk.
  - left. rewrite Htk. unfold down_deadline. by destruct (set_deadline _ _ _).
  - left. rewrite Htk. unfold down_decode. destruct r as [e|body]; [done|]. by destruct (PeekResponseCorrelID body).
  - rewrite app_nil_r in Htk. assert (just_taken (DTake id body) (down_taken q body) = Some id) as ->
      by (unfold down_taken; repeat case_match; done).
    cbn [add_last]. rewrite Htk. assert (forall p, q = Some p -> P_CorrelID p = id) as Hq.
    { intros p ->. unfold Take in Ht. rewrite E2 in Ht.
      destruct (entries _ !! id) as [p'|] eqn:E; [|done]. injection Ht as -> _. by apply Htab in E as [? _]. }
    unfold down_taken. destruct q as [q|]; [specialize (Hq q eq_refl)|cbn [in_work]; rewrite Hd; by left].
    destruct (P_Rewrite q); [|cbn [in_work]; rewrite Hd; by left].
    destruct (DecodeResponseHeader _ _ _); [destruct (go_slice _ _ _)|..]; cbn [in_work]; rewrite ?Hq;
      (by left) || (right; split; [done|by apply prefix_app_r]).
  - destruct Hd as (_ & _ & Hint & _). rewrite Htk. destruct r as [new| |]; cbn [down_rewritten just_taken add_last in_work];
      [left|right; split; [done|by apply prefix_app_r]..].
    by erewrite peek_decode_response by (by apply decode_append_response_header).
Qed.

Lemma client_reachable others cfg client broker (c : Conn IS R) s :
  unused c -> written (clientW c) = [] -> entries (tracker c) = ∅ -> I (icept c) -> (forall st st', I st -> others st st' -> I st') ->
  rtc (session_step others cfg client broker) (session_start c) s -> client_ok s.
Proof.
  intros Hc Hcw Ht HI Hoth. revert s. apply rtc_ind_r.
  - exists [], [], []. unfold session_start. cbn [run ConnRun.start rconn down taken]. rewrite Hcw.
    split_and!; [done|constructor|constructor|by left].
  - intros s1 s2 Hr Hs IH. pose proof (session_reachable _ _ _ _ _ _ Hc Hr) as Hinv.
    destruct (history_reachable _ _ _ _ _ _ Hc Ht HI Hoth Hr) as [Hh Hrep].
    destruct Hs as [s r' Hs Hnew|s out h body Hwire Hhd Hnew Hpeek Hlen|s st Ho]; [..|exact IH].
    + change (client_ok (stepped s r')). pose proof (stepped_extends _ _ _ _ _ Hinv Hs) as Hx.
      destruct (step_cases _ _ _ _ _ Hs) as [[Hu Hd]|[[Hd _]|(Hw & _ & Hd)]].
      * apply (client_same s); [done| |unfold stepped; cbn [taken]; by rewrite just_taken_same by (by left)|by left|done].
        change (run (stepped s r')) with r'. by inversion Hu.
      * by eapply down_client.
      * apply (client_same s); [done| |unfold stepped; cbn [taken]; by rewrite just_taken_same|done|done].
        change (run (stepped s r')) with r'. by rewrite Hw.
    + apply (client_same s); [|done|done|by left|done]. by apply answer_extends.
Qed.

End history.

(** ** The production interceptor *)

Section production.
Context {HT : HostText} {RO : RenderOrder}.
Implicit Types s : Session (IS := IState) (R := Rewriter).

(** The client reads a FindCoordinator response from the frame. *)
Definition client_reads_coordinator (out : list byte) (version id : Z) (r : FindCoordinatorResponse) : Prop :=
  exists size payload, DecodeResponseHeader out APIFindCoordinator version = Ok (mkResponseHeader id size) /\
    go_slice out size (len out) = Some payload /\ DecodeFindCoordinatorResponse payload version = Ok r.

(** What the frame [out] is to be, given the header of the request and the
    broker's response [body]. *)
Definition as_promised (m : Mapping) (h : RequestHeader) (body out : list byte) : Prop :=
  let k := RH_APIKey h in let v := RH_APIVersion h in let id := RH_CorrelID h in
  if k =? APIMetadata then
    exists rh wire r, DecodeResponseHeader body k v = Ok rh /\ go_slice body (SH_HeaderSize rh) (len body) = Some wire /\
      DecodeMetadataResponse wire v = Ok r /\
      client_reads_metadata out v id (fst (RewriteMetadataResponse r (Some m)))
  else if k =? APIFindCoordinator then
    exists rh wire r, DecodeResponseHeader body k v = Ok rh /\ go_slice body (SH_HeaderSize rh) (len body) = Some wire /\
      DecodeFindCoordinatorResponse wire v = Ok r /\
      client_reads_coordinator out v id (fst (RewriteFindCoordinatorResponse r (Some m)))
  else out = body.

Definition client_sees (m : Mapping) s (out : list byte) (id : Z) : Prop :=
  exists h body, asked s !! id = Some h /\ replies s !! id = Some body /\ PeekResponseCorrelID out = Ok id /\
    (as_promised m h body out \/ (gone s id /\ out = body)).

(** The rewriter a request gets. *)
Definition rewriter_of (k : Z) : option Rewriter :=
  if k =? APIMetadata then Some rewriteMetadataResp
  else if k =? APIFindCoordinator then Some rewriteFindCoordResp else None.

Lemma on_request_rewriter st h payload m :
  D_Topology st = Some m -> Len (Some m) <> 0 ->
  match fst (OnRequest st h payload) with Some p => P_Rewrite p | None => None end = rewriter_of (RH_APIKey h).
Proof.
  intros Ht Hl. simpl. unfold on_request, rewriter_of, onMetadata, onFindCoordinator.
  assert (no_topology (with_metrics inc_total st) = false) as Hno.
  { unfold no_topology. cbn [D_Topology with_metrics set_Metrics]. rewrite Ht. by apply Z.eqb_neq. }
  rewrite Hno. destruct (RH_APIKey h =? APIMetadata); [done|]. destruct (RH_APIKey h =? APIFindCoordinator); [done|].
  destruct (fst _) as [p|] eqn:E; [|done]. revert E.
  unfold onJoinGroup, onSyncGroup. by repeat case_match; intros E; simplify_eq/=.
Qed.

Abbreviation topology_is m := (fun st => D_Topology st = Some m).

(** What was decided about a request. *)
Lemma decided_entry m h o :
  Len (Some m) <> 0 -> decided (topology_is m) h o ->
  match rewriter_of (RH_APIKey h) with
  | Some rw => exists p, o = Some p /\ P_APIKey p = RH_APIKey h /\ P_APIVersion p = RH_APIVersion h /\
      P_CorrelID p = RH_CorrelID h /\ P_Rewrite p = Some rw
  | None => o = None
  end.
Proof.
  intros Hl (st & payload & now & Ht & ->). rewrite <- (on_request_rewriter st h payload m Ht Hl).
  destruct (fst (OnRequest st h payload)) as [p|]; [|done]. destruct (P_Rewrite p) as [rw|]; [|done]. eauto 10.
Qed.

(** The work of a rewriter is what was promised. *)
Lemma rewritten_promised m h p rw st body rh payload new :
  hosts_fit m -> D_Topology st = Some m -> int32 (RH_CorrelID h) -> rewriter_of (RH_APIKey h) = Some rw ->
  P_APIKey p = RH_APIKey h -> P_APIVersion p = RH_APIVersion h -> P_CorrelID p = RH_CorrelID h ->
  DecodeResponseHeader body (P_APIKey p) (P_APIVersion p) = Ok rh ->
  go_slice body (SH_HeaderSize rh) (len body) = Some payload -> fst (Rewrite rw st [] payload p) = Ok new ->
  as_promised m h body (AppendResponseHeader [] (P_APIKey p) (P_APIVersion p) (P_CorrelID p) ++ new).
Proof.
  unfold rewriter_of, as_promised. intros Hfit Ht Hint Hrw Hpk Hpv Hpid. rewrite Hpk, Hpv, Hpid. intros Hrh Hpl Hnew.
  pose proof (decode_append_response_header (RH_APIKey h) (RH_APIVersion h) (RH_CorrelID h) new Hint) as Hh.
  destruct (Z.eqb_spec (RH_APIKey h) APIMetadata) as [Hk|_];
    [|destruct (Z.eqb_spec (RH_APIKey h) APIFindCoordinator) as [Hk|_]; [|done]]; injection Hrw as <-; rewrite Hk in *.
  - pose proof (metadata_rewriter_spec st m payload p Ht Hfit) as Hs. rewrite Hpv in Hs.
    destruct (DecodeMetadataResponse payload _) as [r| |] eqn:Er.
    2,3: destruct Hs as (err & st' & Hs); by rewrite Hs in Hnew.
    destruct Hs as (new' & st' & Hs & Hdec). rewrite Hs in Hnew. injection Hnew as ->.
    exists rh, payload, r. split_and!; [done..|]. eexists _, new. split_and!; [exact Hh|apply go_slice_tail|exact Hdec].
  - pose proof (findcoord_rewriter_end_to_end st m payload p Ht Hfit) as Hs. rewrite Hpv in Hs.
    destruct (DecodeFindCoordinatorResponse payload _) as [r| |] eqn:Er.
    2,3: destruct Hs as (err & st' & Hs); by rewrite Hs in Hnew.
    destruct Hs as (new' & st' & Hs & Hdec). rewrite Hs in Hnew. injection Hnew as ->.
    exists rh, payload, r. split_and!; [done..|]. eexists _, new. split_and!; [exact Hh|apply go_slice_tail|exact Hdec].
Qed.

(** The answered requests have been asked, and decided upon. *)
Lemma answered_decided s m id :
  session_inv s -> history (topology_is m) s -> id ∈ answered s ->
  exists h, asked s !! id = Some h /\ RH_CorrelID h = id /\ decided (topology_is m) h (must s !! id).
Proof.
  intros (sent & _ & Hu & Hsent & _ & Hans & _) (_ & _ & _ & Hask & _) Hid.
  destruct (Hans id Hid) as (out & h0 & Ho & Hh0 & <-). destruct (Hsent out h0 Ho Hh0) as [Hseen _].
  destruct (proj1 Hask _ Hseen) as [h Hh]. exists h. destruct (proj2 Hask _ _ Hh) as (Hhid & _ & Hc).
  split_and!; [done..|]. destruct Hc as [(b & pl & Eu)|]; [|done]. exfalso. rewrite Eu in Hu.
  destruct Hu as (_ & [_ Hne] & _). by apply (Hne out h0).
Qed.

Lemma fair_seen s m out id :
  session_inv s -> history (topology_is m) s -> replies_ok s -> Len (Some m) <> 0 -> hosts_fit m ->
  fair (topology_is m) s out -> PeekResponseCorrelID out = Ok id -> client_sees m s out id.
Proof.
  intros Hinv Hh Hrep Hl Hfit [(id' & Hid & Hb & Hans & Hc)|(p & rw & st & pl & new & Hp & Hrw & Hint & Hpl & Ht & Hnew & ->)] Hpk.
  - assert (id' = id) as -> by congruence. destruct (answered_decided s m id Hinv Hh Hans) as (h & Ha & Hhid & Hdec).
    exists h, out. split_and!; [done..|]. destruct Hc as [Hc|Hc]; [left|by right].
    apply decided_entry in Hdec; [|done]. unfold as_promised. rewrite Hc in Hdec. unfold rewriter_of in Hdec.
    destruct (_ =? APIMetadata); [by destruct Hdec as (? & ? & _)|].
    destruct (_ =? APIFindCoordinator); [by destruct Hdec as (? & ? & _)|done].
  - destruct Hpl as (body & rh & Hb & Hrh & Hpl).
    destruct (answered_decided s m (P_CorrelID p) Hinv Hh) as (h & Ha & Hhid & Hdec); [apply Hrep; by rewrite Hb|].
    apply decided_entry in Hdec; [|done]. rewrite Hp in Hdec.
    destruct (rewriter_of (RH_APIKey h)) as [rw'|] eqn:Erw; [|done].
    destruct Hdec as (p' & [= <-] & Hk & Hv & _ & Hrw'). assert (rw' = rw) as -> by congruence.
    assert (id = P_CorrelID p) as ->.
    { erewrite peek_decode_response in Hpk by (by apply decode_append_response_header). by injection Hpk as <-. }
    exists h, body. split_and!; [done..|]. left.
    eapply rewritten_promised; try done; by rewrite Hhid.
Qed.

(** C2: everything a client ever sees. The connection has the production
    interceptor and a topology with at least one entry under a node id (Len is
    not 0; without one nothing is rewritten, [host_only_topology_not_applied])
    whose hosts fit a string of the wire. The broker answers each request at
    most once and only after the whole of it has arrived. The client never
    uses a correlation id twice on the connection (the code does not enforce
    this: a second request with the id of one still in flight would consume
    its entry). Then, over every interleaving of pumps, broker and shutdown,
    and whatever other connections and the background loops do meanwhile to
    the interceptor's state (its topology apart, which nothing changes): the
    bytes sent to the client are whole frames, one for each of the first
    responses of the broker and in the broker's order, followed by at most the
    beginning of one more. Each answers a request of the client under its
    correlation id. From the answer to a Metadata or FindCoordinator request
    the client decodes the broker's response with the addresses the topology
    knows replaced by the advertised ones; any other response is the broker's,
    byte for byte. The only exception are requests the tracker dropped for
    their age before the broker answered, whose responses are passed on
    unchanged. *)
Theorem client_sees_topology others cfg client broker (c : Conn IState Rewriter) m s :
  unused c -> written (clientW c) = [] -> entries (tracker c) = ∅ ->
  D_Topology (icept c) = Some m -> Len (Some m) <> 0 -> hosts_fit m ->
  (forall st st', others st st' -> D_Topology st' = D_Topology st) ->
  rtc (session_step others cfg client broker) (session_start c) s ->
  exists outs ids part,
    written (clientW (rconn (run s))) = concat (map frame_bytes outs) ++ part /\
    ids `prefix_of` answered s /\ NoDup ids /\ Forall2 (client_sees m s) outs ids /\
    (part = [] \/ exists out id k, client_sees m s out id /\ part = take k (frame_bytes out)).
Proof.
  intros Hc Hcw Ht Htop Hl Hfit Hoth Hr. pose proof (session_reachable _ _ _ _ _ _ Hc Hr) as Hinv.
  assert (forall st h b, D_Topology st = Some m -> D_Topology (snd (OnRequest st h b)) = Some m) as I1
    by (intros st h b; by rewrite on_request_topology).
  assert (forall rw st dst b p, D_Topology st = Some m -> D_Topology (snd (Rewrite rw st dst b p)) = Some m) as I2
    by (intros rw st dst b p; by rewrite rewrite_topology).
  assert (forall st st', D_Topology st = Some m -> others st st' -> D_Topology st' = Some m) as I3
    by (intros st st' ? Ho; by rewrite (Hoth _ _ Ho)).
  destruct (history_reachable (topology_is m) I1 I2 _ _ _ _ _ _ Hc Ht Htop I3 Hr) as [Hh Hrep].
  destruct (client_reachable (topology_is m) I1 I2 _ _ _ _ _ _ Hc Hcw Ht Htop I3 Hr)
    as (outs & ids & part & Hw & Hids & Hf & Hp).
  assert (ids `prefix_of` answered s) as Hpre.
  { destruct Hinv as (_ & _ & _ & _ & _ & _ & Htk & _). etrans; [|exact Htk].
    destruct Hp as [[_ ->]|(_ & ? & _)]; [by apply prefix_app_r|done]. }
  exists outs, ids, part. split_and!; [done..| | |].
  - destruct Hinv as (_ & _ & _ & _ & _ & _ & _ & Hnd & _). destruct Hpre as [l E]. rewrite E in Hnd.
    by apply NoDup_app in Hnd as [? _].
  - apply Forall2_same_length_lookup. split; [by eapply Forall2_length|]. intros i out id Ho Hi.
    apply fair_seen; try done; [by eapply Forall_lookup_1|by eapply Forall2_lookup_lr in Hids].
  - destruct Hp as [[-> _]|(_ & _ & k & [->|(out & Hfo & ->)])]; [by left..|right].
    destruct (fair_id _ _ _ Hfo) as [id Hid]. exists out, id, k. split; [by apply fair_seen|done].
Qed.

End production.

(** A session: a Metadata request passes the proxy, the broker answers it, and
    the client gets its answer. *)
Module Exchange.

Definition c0 : Conn IState Rewriter := system_conn (topology_state sample_mapping) (frame_bytes md_request) [].
Definition schedule : list action :=
  [AUp 0; AUp 0; AUp 9; AUp 9; AUp 0; ABroker [] md_request md_response; ADown; ADown; ADown; ADown; ADown].

Abbreviation interceptor := (@production ascii_host_text listed_topics).

(** Everything but the topology may change. *)
Definition same_topology (st st' : IState) : Prop := D_Topology st' = D_Topology st.

Definition end_ : Session := default (session_start c0) (@acts _ _ interceptor default_config schedule (session_start c0)).

(** The frame the client gets. *)
Definition answer : list byte :=
  AppendResponseHeader [] APIMetadata 9 5 ++
  AppendMetadataResponse [] (fst (@RewriteMetadataResponse ascii_host_text sample_response (Some sample_mapping))).

Lemma answered_end : written (clientW (rconn (run end_))) = frame_bytes answer /\ answered end_ = [5].
Proof. split; vm_compute; reflexivity. Qed.

Lemma reaches_end : rtc (@session_step _ _ interceptor same_topology default_config healthy healthy) (session_start c0) end_.
Proof.
  unfold end_. destruct (acts _ _ _) as [s|] eqn:E; [|done]. by eapply acts_sound.
Qed.

End Exchange.

Lemma client_sees_topology_witness :
  written (clientW (rconn (run Exchange.end_))) = frame_bytes Exchange.answer /\
  exists outs ids part,
    written (clientW (rconn (run Exchange.end_))) = concat (map frame_bytes outs) ++ part /\
    ids `prefix_of` answered Exchange.end_ /\ NoDup ids /\
    Forall2 (@client_sees ascii_host_text sample_mapping Exchange.end_) outs ids /\
    (part = [] \/ exists out id k, @client_sees ascii_host_text sample_mapping Exchange.end_ out id /\
       part = take k (frame_bytes out)).
Proof.
  split; [apply Exchange.answered_end|].
  apply (@client_sees_topology ascii_host_text listed_topics Exchange.same_topology default_config healthy healthy
    Exchange.c0 sample_mapping).
  - split; reflexivity.
  - reflexivity.
  - reflexivity.
  - reflexivity.
  - vm_compute. discriminate.
  - apply sample_mapping_fits.
  - intros st st' Ho. exact Ho.
  - apply Exchange.reaches_end.
Defined.
