(* ===== verification/Shutdown.v ===== *)
(** * The drain group: internal/shutdown/deadline.go

    Members join and leave a group; [Drain] cancels them all and waits for the
    group to empty, or past its deadline closes their sockets.  The operations
    are the code's lock sections; a group with the [Drain] calls under way is
    a transition system, in which deadlines expire at any time. *)

From stdpp Require Import base numbers list strings gmap relations.
From Stdlib Require Import ZArith Lia.
From S2P Require Import Prelude.

(** ** The group *)

(** A member is a pointer, here the number of its [Add]; it comes with a socket
    or without.  [g.empty] is a channel of capacity one, here whether it holds
    a token.  [cancelled] and [forced] record the calls of [m.cancel] and of
    [m.conn.Close]. *)
Record Group := mkGroup {
  g_closed : bool;
  g_members : gmap nat bool;
  g_empty : bool;
  g_next : nat;
  g_cancelled : gset nat;
  g_forced : gset nat;
}.

Definition emptyGroup : Group := mkGroup false ∅ false 0 ∅ ∅.

(** The release function [Add] returns. *)
Inductive handle := Forget (m : nat) | NoRelease.

Definition GroupAdd (g : Group) (conn : bool) : handle * Group :=
  let m := g_next g in
  if g_closed g
  then (NoRelease, mkGroup true (g_members g) (g_empty g) (S m) ({[m]} ∪ g_cancelled g) (g_forced g))
  else (Forget m, mkGroup false (<[m := conn]> (g_members g)) (g_empty g) (S m) (g_cancelled g) (g_forced g)).

Definition release (g : Group) (h : handle) : Group :=
  match h with
  | NoRelease => g
  | Forget m =>
      let ms := delete m (g_members g) in
      mkGroup (g_closed g) ms (if decide (size ms = O) then true else g_empty g)
        (g_next g) (g_cancelled g) (g_forced g)
  end.

(** The first lock section of [Drain], with the number of members it saw. *)
Definition drain_begin (g : Group) : nat * Group :=
  (size (g_members g),
   mkGroup true (g_members g) (g_empty g) (g_next g) (dom (g_members g) ∪ g_cancelled g) (g_forced g)).

(** [case <-emptyCh]: possible when the channel holds a token, which it takes. *)
Definition drain_empty (g : Group) : option Group :=
  if g_empty g
  then Some (mkGroup (g_closed g) (g_members g) false (g_next g) (g_cancelled g) (g_forced g))
  else None.

(** [case <-ctx.Done()]: the second lock section. *)
Definition drain_deadline (g : Group) : Group :=
  mkGroup (g_closed g) (g_members g) (g_empty g) (g_next g) (g_cancelled g)
    (dom (filter (fun kv => kv.2 = true) (g_members g)) ∪ g_forced g).

Definition GroupLen (g : Group) : Z := Z.of_nat (size (g_members g)).

(** ** Runs *)

(** How a call of [Drain] stands. *)
Inductive drain_state := Waiting | Emptied | TimedOut.

Record Drains := mkDrains { grp : Group; handles : list handle; drains : list drain_state }.

Definition NewDrains : Drains := mkDrains emptyGroup [] [].

Inductive sys_step : Drains -> Drains -> Prop :=
| step_add g hs ds conn :
    sys_step (mkDrains g hs ds) (mkDrains (snd (GroupAdd g conn)) (hs ++ [fst (GroupAdd g conn)]) ds)
| step_release g hs ds h :
    h ∈ hs -> sys_step (mkDrains g hs ds) (mkDrains (release g h) hs ds)
| step_drain g hs ds :
    sys_step (mkDrains g hs ds)
      (mkDrains (snd (drain_begin g)) hs
         (ds ++ [if decide (fst (drain_begin g) = O) then Emptied else Waiting]))
| step_drain_empty g g' hs ds i :
    ds !! i = Some Waiting -> drain_empty g = Some g' ->
    sys_step (mkDrains g hs ds) (mkDrains g' hs (<[i := Emptied]> ds))
| step_drain_deadline g hs ds i :
    ds !! i = Some Waiting ->
    sys_step (mkDrains g hs ds) (mkDrains (drain_deadline g) hs (<[i := TimedOut]> ds)).

(** ** Facts *)

(** Once a [Drain] has begun, everybody registered has been cancelled. *)
Definition cancels (s : Drains) : Prop :=
  (drains s <> [] -> g_closed (grp s) = true) /\
  (g_closed (grp s) = true -> dom (g_members (grp s)) ⊆ g_cancelled (grp s)) /\
  (forall m, is_Some (g_members (grp s) !! m) -> (m < g_next (grp s))%nat).

Lemma release_members g h m :
  is_Some (g_members (release g h) !! m) -> is_Some (g_members g !! m).
Proof.
  destruct h as [m'|]; simpl; [|done]. intros [x Hx]. apply lookup_delete_Some in Hx as [_ Hx]. eauto.
Qed.

Lemma insert_nonnil {A} (l : list A) i x : l <> [] -> <[i := x]> l <> [].
Proof. destruct l; [done|]. by destruct i. Qed.

Lemma step_cancels s s' : sys_step s s' -> cancels s -> cancels s'.
Proof.
  intros Hs (H1 & H2 & H3). unfold cancels in *.
  destruct Hs as [g hs ds conn|g hs ds h Hh|g hs ds|g g' hs ds i Hi Hg|g hs ds i Hi]; simpl in *.
  - unfold GroupAdd. destruct (g_closed g) eqn:E; simpl; split_and!; try done.
    + intros _. set_solver.
    + intros m Hm. specialize (H3 m Hm). lia.
    + intros m Hm. destruct (decide (m = g_next g)) as [->|Hne]; [lia|].
      rewrite lookup_insert_ne in Hm by done. specialize (H3 m Hm). lia.
  - split_and!.
    + intros Hd. specialize (H1 Hd). by destruct h.
    + intros Hc. assert (g_closed g = true) as Hc' by by destruct h.
      specialize (H2 Hc'). intros m Hm. apply elem_of_dom in Hm.
      apply release_members, elem_of_dom in Hm. destruct h; simpl; set_solver.
    + intros m Hm%release_members. specialize (H3 m Hm). by destruct h.
  - split_and!; [done| |done]. intros _. set_solver.
  - unfold drain_empty in Hg. destruct (g_empty g); [|done]. injection Hg as <-. simpl. split_and!; try done.
    intros _. apply H1. intros ->. done.
  - split_and!; try done. intros _. apply H1. intros ->. done.
Qed.

Lemma reach_cancels s : rtc sys_step NewDrains s -> cancels s.
Proof.
  apply (rtc_ind_r cancels NewDrains).
  - split_and!; simpl; [done|done|]. intros m [x Hx]. by rewrite lookup_empty in Hx.
  - intros s1 s2 _ Hs. by apply step_cancels.
Qed.

(** The group is closed, and a token says that it is empty. *)
Definition truthful (s : Drains) : Prop :=
  g_closed (grp s) = true /\ (g_empty (grp s) = true -> g_members (grp s) = ∅).

Lemma step_truthful s s' : sys_step s s' -> truthful s -> truthful s'.
Proof.
  intros Hs [H1 H2]. unfold truthful in *.
  destruct Hs as [g hs ds conn|g hs ds h Hh|g hs ds|g g' hs ds i Hi Hg|g hs ds i Hi]; simpl in *.
  - unfold GroupAdd. by rewrite H1.
  - destruct h as [m|]; simpl; [|done]. split; [done|]. case_decide as E.
    + intros _. by apply map_size_empty_inv.
    + intros Ht. rewrite (H2 Ht). apply delete_empty.
  - done.
  - unfold drain_empty in Hg. destruct (g_empty g); [|done]. injection Hg as <-. done.
  - done.
Qed.

(** ** Properties *)

(** Draining reaches everybody: in every state in which some [Drain] has
    begun, every connection still registered has been told to stop, and one
    that tries to register is told to stop at once and not registered. *)
Theorem drain_cancels_everyone s conn :
  rtc sys_step NewDrains s -> drains s <> [] ->
  (forall m, is_Some (g_members (grp s) !! m) -> m ∈ g_cancelled (grp s)) /\
  (let '(h, g) := GroupAdd (grp s) conn in
   h = NoRelease /\ g_next (grp s) ∈ g_cancelled g /\ g_members g = g_members (grp s)).
Proof.
  intros (H1 & H2 & _)%reach_cancels Hd. specialize (H1 Hd). specialize (H2 H1). split.
  - intros m Hm%elem_of_dom. set_solver.
  - unfold GroupAdd. rewrite H1. split_and!; [done|set_solver|done].
Qed.

Definition drained_one : Drains :=
  mkDrains (snd (drain_begin (snd (GroupAdd emptyGroup true)))) [Forget 0] [Waiting].

Lemma drained_one_reached : rtc sys_step NewDrains drained_one.
Proof.
  eapply rtc_l; [apply (step_add emptyGroup [] [] true)|].
  eapply rtc_l; [apply step_drain|]. apply rtc_refl.
Qed.

Lemma drain_cancels_everyone_witness :
  (forall m, is_Some (g_members (grp drained_one) !! m) -> m ∈ g_cancelled (grp drained_one)) /\
  (let '(h, g) := GroupAdd (grp drained_one) true in
   h = NoRelease /\ 1%nat ∈ g_cancelled g /\ g_members g = g_members (grp drained_one)).
Proof. apply (drain_cancels_everyone drained_one true); [apply drained_one_reached|discriminate]. Defined.

(** [Drain] waits: when no token is left in the channel as it begins, then in
    every later state in which it may return because the group emptied, the
    group is empty; and when it gives up at its deadline instead, every socket
    still registered has been closed. *)
Theorem drain_waits g hs ds s :
  g_empty g = false ->
  rtc sys_step (mkDrains (snd (drain_begin g)) hs (ds ++ [Waiting])) s ->
  (forall g', drain_empty (grp s) = Some g' -> g_members (grp s) = ∅) /\
  (forall m, g_members (grp s) !! m = Some true -> m ∈ g_forced (drain_deadline (grp s))).
Proof.
  intros He Hr.
  assert (truthful s) as [_ Ht].
  { revert s Hr. apply (rtc_ind_r truthful).
    - split; simpl; [done|]. by rewrite He.
    - intros s1 s2 _ Hs. by apply step_truthful. }
  split.
  - intros g' Hg. apply Ht. unfold drain_empty in Hg. by destruct (g_empty (grp s)).
  - intros m Hm. simpl. apply elem_of_union_l, elem_of_dom. exists true.
    by apply map_lookup_filter_Some.
Qed.

Lemma drain_waits_witness :
  (forall g', drain_empty (grp drained_one) = Some g' -> g_members (grp drained_one) = ∅) /\
  (forall m, g_members (grp drained_one) !! m = Some true ->
     m ∈ g_forced (drain_deadline (grp drained_one))).
Proof.
  apply (drain_waits (snd (GroupAdd emptyGroup true)) [Forget 0] [] drained_one);
    [reflexivity|apply rtc_refl].
Defined.

(** The token of an earlier emptying is never taken back: a group that was
    empty once and has a member again lets [Drain] return at once, with that
    member registered and its socket open. *)
Theorem stale_token_ends_drain :
  exists s, rtc sys_step NewDrains s /\ drains s = [Emptied] /\
    g_members (grp s) !! 1%nat = Some true /\ g_forced (grp s) = ∅.
Proof.
  exists (mkDrains (mkGroup true {[1%nat := true]} false 2 {[1%nat]} ∅) [Forget 0; Forget 1] [Emptied]).
  split; [|split_and!].
  { eapply rtc_l; [apply (step_add emptyGroup [] [] true)|].
    eapply rtc_l; [apply (step_release _ _ _ (Forget 0)); simpl; left|].
    eapply rtc_l; [apply (step_add _ _ _ true)|].
    eapply rtc_l; [apply step_drain|].
    eapply rtc_l; [apply (step_drain_empty _ (mkGroup true {[1%nat := true]} false 2 {[1%nat]} ∅) _ _ 0);
      by vm_compute|]. apply rtc_refl. }
  all: by vm_compute.
Qed.
