(* ===== verification/KClient.v ===== *)
(** * The broker client: internal/kclient/conn.go, rpc.go

    One connection to a broker with at most one request outstanding.  The body
    [Do] returns is not a copy: it is a slice of the connection's response
    buffer, which the next [Do] reuses.  The model keeps that: [Do] returns a
    reference, and what it denotes is looked up when it is read.  A buffer that
    is too small is replaced by a new array; slices of the old one then keep
    the old bytes. *)

From stdpp Require Import base numbers list strings gmap.
From Stdlib Require Import ZArith Lia Strings.Byte.
From S2P Require Import Prelude Primitives Codec Header MetadataCodec ClientCodecs Frame.

(** ** Data *)

Inductive kclient_err :=
| ErrCorrelationMismatch
| KFrame (e : frame_err)
| KWire (e : kerr).

Record KConn := mkKConn {
  K_r : Stream;
  K_w : Sink;
  K_clientID : string;
  K_nextCorrelID : Z;
  K_respBuf : option Buffer;
  K_retired : list (list byte);   (** arrays the response buffer has outgrown *)
  K_deadline : option Z;          (** the socket's deadline, if it has one *)
  K_closed : bool;                (** the socket has been closed *)
}.

(** [New], on a fresh socket. *)
Definition KNew (r : Stream) (w : Sink) (clientID : string) : KConn :=
  mkKConn r w clientID 0 None [] None false.

(** A slice of one of the arrays, by the array's number. *)
Record slice := mkSlice { sl_arr : nat; sl_lo : Z; sl_hi : Z }.

(** The array of that number: retired, or in use. *)
Definition array_of (c : KConn) (i : nat) : option (list byte) :=
  match K_retired c !! i with
  | Some a => Some a
  | None => if decide (i = length (K_retired c)) then arr <$> K_respBuf c else None
  end.

(** What the slice denotes now. *)
Definition read_slice (c : KConn) (s : slice) : option (list byte) :=
  match array_of c (sl_arr s) with
  | Some a => go_slice a (sl_lo s) (sl_hi s)
  | None => None
  end.

(** ** Do *)

(** The correlation id of the next request: [c.nextCorrelID.Add(1)]. *)
Definition next_id (c : KConn) : Z := swrap 32 (K_nextCorrelID c + 1).

(** The frame [Do] sends. *)
Definition request_frame (c : KConn) (apiKey apiVersion : Z) (reqBody : list byte) : list byte :=
  AppendRequestHeader [] (mkRequestHeader apiKey apiVersion (next_id c) (K_clientID c) false 0) ++ reqBody.

(** [Do]; [fresh] is what [frame.Get] hands out if the buffer is needed. *)
Definition Do (fresh : Buffer) (c : KConn) (apiKey apiVersion : Z) (reqBody : list byte)
    : outcome kclient_err slice * KConn :=
  let correlID := next_id c in
  let '(err, w) := WriteFrame (K_w c) (request_frame c apiKey apiVersion reqBody) in
  match err with
  | Some e => (Fail (KFrame e), mkKConn (K_r c) w (K_clientID c) correlID (K_respBuf c) (K_retired c) (K_deadline c) (K_closed c))
  | None =>
      let b := default fresh (K_respBuf c) in
      let '(r, b', s) := ReadFrame MaxFrameSize b (K_r c) in
      let retired := if BufCap b <? BufCap b' then K_retired c ++ [arr b] else K_retired c in
      let c := mkKConn s w (K_clientID c) correlID (Some b') retired (K_deadline c) (K_closed c) in
      match r with
      | inl e => (Fail (KFrame e), c)
      | inr body =>
          match DecodeResponseHeader body apiKey apiVersion with
          | Panic => (Panic, c)
          | Fail e => (Fail (KWire e), c)
          | Ok rh =>
              if SH_CorrelID rh =? correlID then
                match go_slice body (SH_HeaderSize rh) (len body) with
                | None => (Panic, c)
                | Some _ => (Ok (mkSlice (length retired) (SH_HeaderSize rh) (len body)), c)
                end
              else (Fail ErrCorrelationMismatch, c)
          end
      end
  end.

(** ** Calls *)

(** A call whose caller decodes the body before anything else happens. *)
Definition call {A} (dec : list byte -> outcome kerr A) (fresh : Buffer) (c : KConn)
    (apiKey apiVersion : Z) (reqBody : list byte) : outcome kclient_err A * KConn :=
  match Do fresh c apiKey apiVersion reqBody with
  | (Panic, c) => (Panic, c)
  | (Fail e, c) => (Fail e, c)
  | (Ok s, c) =>
      match read_slice c s with
      | None => (Panic, c)
      | Some body =>
          match dec body with
          | Panic => (Panic, c)
          | Fail e => (Fail (KWire e), c)
          | Ok a => (Ok a, c)
          end
      end
  end.

Definition append_md_topic (dst : list byte) (t : string) : list byte :=
  AppendEmptyTaggedFields (AppendCompactString dst t).

Definition encodeMetadataReqV9 (topics : option (list string)) (allowAutoCreate : bool) : list byte :=
  let dst := match topics with
             | None => AppendUvarint [] 0
             | Some ts => fold_left append_md_topic ts (AppendUvarint [] (uwrap 32 (len ts + 1)))
             end in
  let dst := append_bool dst allowAutoCreate in
  AppendEmptyTaggedFields (dst ++ [Byte.x00; Byte.x00]).

Definition Metadata (fresh : Buffer) (c : KConn) (topics : option (list string)) (allowAutoCreate : bool)
    : outcome kclient_err MetadataResponse * KConn :=
  call (fun b => DecodeMetadataResponse b 9) fresh c APIMetadata 9
    (encodeMetadataReqV9 topics allowAutoCreate).

Definition ListOffsets (fresh : Buffer) (c : KConn) (req : ListOffsetsRequest)
    : outcome kclient_err ListOffsetsResponse * KConn :=
  call DecodeListOffsetsResponse fresh c APIListOffsets ListOffsetsVersion
    (AppendListOffsetsRequest [] req).

Definition OffsetFetch (fresh : Buffer) (c : KConn) (req : OffsetFetchRequest)
    : outcome kclient_err OffsetFetchResponse * KConn :=
  call DecodeOffsetFetchResponse fresh c APIOffsetFetch OffsetFetchVersion
    (AppendOffsetFetchRequest [] req).

Definition DescribeGroups (fresh : Buffer) (c : KConn) (req : DescribeGroupsRequest)
    : outcome kclient_err DescribeGroupsResponse * KConn :=
  call DecodeDescribeGroupsResponse fresh c APIDescribeGroups DescribeGroupsVersion
    (AppendDescribeGroupsRequest [] req).

(** [Close] releases the buffer to the pool; its array is the pool's then.  The
    socket fails every read and write from there on; closing it again is an
    error. *)
Definition KClose (pool : list Buffer) (c : KConn) : option io_err * list Buffer * KConn :=
  let retired := match K_respBuf c with None => K_retired c | Some b => K_retired c ++ [arr b] end in
  (if K_closed c then Some NetClosed else None,
   Release pool (K_respBuf c),
   mkKConn (mkStream [] NetClosed) (mkSink (written (K_w c)) (Some (O, NetClosed))) (K_clientID c)
     (K_nextCorrelID c) None retired (K_deadline c) true).

(** [Dial]: what the dialer answered, an error or the two directions of a
    socket. *)
Definition Dial {E} (dialed : E + Stream * Sink) (clientID : string) : E + KConn :=
  match dialed with
  | inl err => inl err
  | inr (r, w) => inr (KNew r w clientID)
  end.

(** ** Deadlines *)

(** [SetDeadline]; the zero time, which lifts the deadline, is [None]. *)
Definition SetDeadline (t : option Z) (c : KConn) : option io_err * KConn :=
  if K_closed c then (Some NetClosed, c)
  else (None, mkKConn (K_r c) (K_w c) (K_clientID c) (K_nextCorrelID c) (K_respBuf c) (K_retired c) t false).

(** The socket's own side of a deadline: what it still accepts and delivers
    before the deadline, [k] bytes, and the timeout after them. *)
Definition Timeout : io_err := OtherErr.

Definition cut_sink (k : nat) (w : Sink) : Sink :=
  mkSink (written w)
    (Some match room w with Some (j, e) => if (j <=? k)%nat then (j, e) else (k, Timeout) | None => (k, Timeout) end).

Definition cut_stream (k : nat) (s : Stream) : Stream :=
  if (length (data s) <=? k)%nat then s else mkStream (take k (data s)) Timeout.

(** The socket again as it is without the deadline, [w'] and [s'] being what
    the cut ones became: late bytes are still delivered, and the peer has
    received what was written. *)
Definition uncut_sink (w w' : Sink) : Sink :=
  mkSink (written w')
    match room w with
    | Some (j, e) => Some ((j - (length (written w') - length (written w)))%nat, e)
    | None => None
    end.

Definition uncut_stream (k : nat) (s s' : Stream) : Stream :=
  mkStream (data s' ++ drop k (data s)) (fin s).

Definition with_io (c : KConn) (r : Stream) (w : Sink) : KConn :=
  mkKConn r w (K_clientID c) (K_nextCorrelID c) (K_respBuf c) (K_retired c) (K_deadline c) (K_closed c).

(** [Do] at time [now] on a socket with a deadline: [kout] bytes are accepted and
    [kin] bytes delivered before it; none, when it has passed already. *)
Definition DoAt (now : Z) (kout kin : nat) (fresh : Buffer) (c : KConn) (apiKey apiVersion : Z)
    (reqBody : list byte) : outcome kclient_err slice * KConn :=
  match K_deadline c with
  | None => Do fresh c apiKey apiVersion reqBody
  | Some d =>
      let '(kout, kin) := if d <=? now then (O, O) else (kout, kin) in
      let '(r, c') := Do fresh (with_io c (cut_stream kin (K_r c)) (cut_sink kout (K_w c))) apiKey apiVersion reqBody in
      (r, with_io c' (uncut_stream kin (K_r c) (K_r c')) (uncut_sink (K_w c) (K_w c')))
  end.

(** ** Facts *)

(** What the buffer holds after a frame was read into it. *)
Lemma read_frame_buffer maxSize b s body b' s' :
  ReadFrame maxSize b s = (inr body, b', s') ->
  BufBytes b' = body /\ Z.of_nat (blen b') = len body.
Proof.
  unfold ReadFrame. destruct (ReadFull s 4) as [[hdr [e|]] s1]; [done|].
  destruct (Z.ltb_spec (swrap 32 (be_val hdr)) 0); [done|].
  destruct (Z.ltb_spec maxSize (swrap 32 (be_val hdr))); [done|]. cbv zeta.
  set (n := swrap 32 (be_val hdr)) in *.
  destruct (ReadFull s1 (Z.of_nat (blen (grow b n)))) as [[got [e|]] s2] eqn:E2; [done|].
  destruct (ReadFull_len _ _ _ _ _ E2) as [_ Heq]; [lia|]. specialize (Heq eq_refl).
  intros [= <- <- _]. split; [done|]. by rewrite store_front_bytes.
Qed.

Lemma slice_of_front (b : Buffer) lo body l :
  BufBytes b = body -> Z.of_nat (blen b) = len body ->
  go_slice body lo (len body) = Some l -> go_slice (arr b) lo (len body) = Some l.
Proof.
  intros Hb Hn Hs. unfold BufBytes in Hb.
  assert (arr b = body ++ drop (blen b) (arr b)) as -> by by rewrite <- Hb, take_drop.
  unfold go_slice in *. destruct (Z.leb_spec 0 lo), (Z.leb_spec lo (len body)); try done.
  simpl in *. destruct (Z.leb_spec (len body) (len body)); [|lia].
  destruct (Z.leb_spec (len body) (len (body ++ drop (blen b) (arr b)))); [|len_lia].
  rewrite drop_app_le by (unfold len in *; lia). rewrite take_app_le; [done|].
  unfold len in *. rewrite length_drop. lia.
Qed.

(** The array of the last response is the one in use. *)
Lemma read_current c lo hi b :
  K_respBuf c = Some b -> read_slice c (mkSlice (length (K_retired c)) lo hi) = go_slice (arr b) lo hi.
Proof.
  intros Hb. unfold read_slice, array_of. cbn [sl_arr sl_lo sl_hi].
  rewrite lookup_ge_None_2 by done. rewrite decide_True by done. by rewrite Hb.
Qed.

(** A successful [Do], taken apart. *)
Lemma Do_inv fresh c k v req sl c' :
  Do fresh c k v req = (Ok sl, c') ->
  exists body rh payload,
    written (K_w c') = written (K_w c) ++ frame_bytes (request_frame c k v req) /\
    data (K_r c) = frame_bytes body ++ data (K_r c') /\
    DecodeResponseHeader body k v = Ok rh /\ SH_CorrelID rh = next_id c /\
    go_slice body (SH_HeaderSize rh) (len body) = Some payload /\
    read_slice c' sl = Some payload /\ K_nextCorrelID c' = next_id c.
Proof.
  unfold Do. destruct (WriteFrame _ _) as [[e|] w] eqn:Ew; [done|].
  destruct (ReadFrame _ _ _) as [[[e|body] b'] s] eqn:Er; [done|].
  destruct (DecodeResponseHeader body k v) as [rh| |] eqn:Eh; [|done|done].
  destruct (Z.eqb_spec (SH_CorrelID rh) (next_id c)) as [Hid|]; [|done].
  destruct (go_slice body _ _) as [payload|] eqn:Es; [|done]. intros [= <- <-].
  pose proof (read_frame_inv _ _ _ _ _ _ Er) as [Hd _].
  pose proof (read_frame_buffer _ _ _ _ _ _ Er) as [Hb Hn].
  exists body, rh, payload. cbn [K_w K_r K_nextCorrelID]. split_and!; try done.
  - by apply write_frame_inv.
  - set (c' := mkKConn _ _ _ _ _ _ _ _). rewrite (read_current c' _ _ b') by done.
    by apply slice_of_front.
Qed.

Lemma next_id_int32 c : int32 (next_id c).
Proof. unfold next_id. apply swrap_range. lia. Qed.

(** [Do] when the broker's next frame is [body] and the request fits. *)
Lemma Do_answer fresh c k v req body rest :
  room (K_w c) = None -> len (request_frame c k v req) < 2 ^ 32 ->
  data (K_r c) = frame_bytes body ++ rest -> len body <= MaxFrameSize ->
  exists c', K_nextCorrelID c' = next_id c /\ room (K_w c') = None /\
    K_clientID c' = K_clientID c /\
    written (K_w c') = written (K_w c) ++ frame_bytes (request_frame c k v req) /\
    K_r c' = mkStream rest (fin (K_r c)) /\
    (forall lo l, go_slice body lo (len body) = Some l ->
       read_slice c' (mkSlice (length (K_retired c')) lo (len body)) = Some l) /\
    Do fresh c k v req =
      (match DecodeResponseHeader body k v with
       | Panic => Panic
       | Fail e => Fail (KWire e)
       | Ok rh =>
           if SH_CorrelID rh =? next_id c then
             match go_slice body (SH_HeaderSize rh) (len body) with
             | None => Panic
             | Some _ => Ok (mkSlice (length (K_retired c')) (SH_HeaderSize rh) (len body))
             end
           else Fail ErrCorrelationMismatch
       end, c').
Proof.
  intros Hroom Hreq Hd Hmax. unfold Do. rewrite write_frame by done.
  destruct (read_frame MaxFrameSize (default fresh (K_respBuf c)) body rest (fin (K_r c)))
    as (b' & Hr & Hb & _); [done|unfold MaxFrameSize in *; lia|].
  assert (K_r c = mkStream (be_bytes 4 (uwrap 32 (len body)) ++ body ++ rest) (fin (K_r c))) as Hk.
  { destruct (K_r c) as [d f]. cbn [data fin] in *. rewrite Hd. unfold frame_bytes. by rewrite <- app_assoc. }
  rewrite Hk, Hr. clear Hk.
  pose proof (read_frame_buffer _ _ _ _ _ _ Hr) as [_ Hn].
  set (c' := mkKConn _ _ _ _ (Some b') _ _ _). exists c'.
  split; [done|]. split; [done|]. split; [done|]. split; [done|]. split; [done|]. split.
  - intros lo l Hl. rewrite (read_current c' _ _ b') by done. by apply slice_of_front.
  - destruct (DecodeResponseHeader body k v) as [rh| |]; try done.
    destruct (_ =? _); [|done]. by destruct (go_slice _ _ _).
Qed.

(** A broker that answers with [payload]. *)
Definition answers (c : KConn) (k v : Z) (payload rest : list byte) : Prop :=
  data (K_r c) = frame_bytes (AppendResponseHeader [] k v (next_id c) ++ payload) ++ rest /\
  len (AppendResponseHeader [] k v (next_id c) ++ payload) <= MaxFrameSize.

Lemma call_complete {A} (dec : list byte -> outcome kerr A) fresh c k v req payload rest a :
  room (K_w c) = None -> len (request_frame c k v req) < 2 ^ 32 ->
  answers c k v payload rest -> dec payload = Ok a ->
  exists c', call dec fresh c k v req = (Ok a, c') /\ K_r c' = mkStream rest (fin (K_r c)) /\
    written (K_w c') = written (K_w c) ++ frame_bytes (request_frame c k v req).
Proof.
  intros Hroom Hreq [Hd Hmax] Ha.
  destruct (Do_answer fresh c k v req _ rest Hroom Hreq Hd Hmax)
    as (c' & _ & _ & _ & Hw & Hr & Hread & Hdo).
  rewrite decode_append_response_header in Hdo by apply next_id_int32.
  cbn [SH_CorrelID SH_HeaderSize] in Hdo. rewrite Z.eqb_refl, go_slice_tail in Hdo.
  exists c'. split; [|by split]. unfold call. rewrite Hdo, (Hread _ payload) by apply go_slice_tail.
  by rewrite Ha.
Qed.

Lemma Do_no_panic fresh c k v req : fst (Do fresh c k v req) <> Panic.
Proof.
  unfold Do. destruct (WriteFrame _ _) as [[e|] w]; [done|].
  destruct (ReadFrame _ _ _) as [[[e|body] b'] s]; [done|].
  destruct (DecodeResponseHeader body k v) as [rh| |] eqn:Eh; [|done|].
  - destruct (_ =? _); [|done]. pose proof (response_header_size_range _ _ _ _ Eh).
    by rewrite go_slice_some by lia.
  - exfalso. by apply (safe_run (responseHeader k v) body _) in Eh.
Qed.

Lemma call_no_panic {A} (dec : list byte -> outcome kerr A) fresh c k v req :
  (forall b, dec b <> Panic) -> fst (call dec fresh c k v req) <> Panic.
Proof.
  intros Hdec. unfold call. pose proof (Do_no_panic fresh c k v req) as Hp.
  destruct (Do fresh c k v req) as [[sl| |] c'] eqn:E; [|done|done].
  apply Do_inv in E as (body & rh & payload & _ & _ & _ & _ & _ & -> & _).
  specialize (Hdec payload). by destruct (dec payload).
Qed.

(** ** Properties *)

(** C34: a call of [Do] that succeeds returns the response to its own request:
    the request went out as one frame from which a broker decodes the header
    (api key, version, client id and a fresh correlation id) and the body; the
    next frame of the stream carries that correlation id, and the slice
    returned denotes exactly what follows its header.  On no input does [Do]
    panic. *)
Theorem do_returns_own_response fresh c k v req :
  int16 k -> int16 v -> str16 (K_clientID c) ->
  fst (Do fresh c k v req) <> Panic /\
  forall sl c', Do fresh c k v req = (Ok sl, c') ->
    (exists out size, written (K_w c') = written (K_w c) ++ frame_bytes out /\
       DecodeRequestHeader out =
         Ok (mkRequestHeader k v (next_id c) (K_clientID c) false size) /\
       go_slice out size (len out) = Some req) /\
    (exists body rh, data (K_r c) = frame_bytes body ++ data (K_r c') /\
       DecodeResponseHeader body k v = Ok rh /\ SH_CorrelID rh = next_id c /\
       read_slice c' sl = go_slice body (SH_HeaderSize rh) (len body)).
Proof.
  intros Hk Hv Hs. split; [apply Do_no_panic|].
  intros sl c' (body & rh & payload & Hw & Hd & Hh & Hid & Hpl & Hr & _)%Do_inv. split.
  - exists (request_frame c k v req). eexists. split; [done|]. unfold request_frame.
    set (h := mkRequestHeader _ _ _ _ _ _). split; [|apply go_slice_tail].
    assert (wf_header h) as Hwf by (split_and!; try done; apply next_id_int32).
    by rewrite (decode_append_request_header h) by done.
  - exists body, rh. split_and!; try done. by rewrite Hr.
Qed.

(** A connection on which the broker answers one Metadata request. *)
Definition kmeta : MetadataResponse :=
  mkMetadataResponse 9 0 [mkMetadataBroker 1 "b1" 9092 "r" false] "c" false 1 [] 0.
Definition kpayload : list byte := AppendMetadataResponse [] kmeta.
Definition kfresh : Buffer := mkBuffer (replicate 64 Byte.x00) 0.
Definition kconn (fromBroker : list byte) : KConn :=
  KNew (mkStream fromBroker EOF) (mkSink [] None) "kproxy".
Definition kanswer (id : Z) (payload : list byte) : list byte :=
  frame_bytes (AppendResponseHeader [] APIMetadata 9 id ++ payload).

Lemma do_returns_own_response_witness :
  let c := kconn (kanswer 1 kpayload) in
  fst (Do kfresh c APIMetadata 9 [Byte.x00]) <> Panic /\
  forall sl c', Do kfresh c APIMetadata 9 [Byte.x00] = (Ok sl, c') ->
    (exists out size, written (K_w c') = written (K_w c) ++ frame_bytes out /\
       DecodeRequestHeader out = Ok (mkRequestHeader APIMetadata 9 (next_id c) "kproxy" false size) /\
       go_slice out size (len out) = Some [Byte.x00]) /\
    (exists body rh, data (K_r c) = frame_bytes body ++ data (K_r c') /\
       DecodeResponseHeader body APIMetadata 9 = Ok rh /\ SH_CorrelID rh = next_id c /\
       read_slice c' sl = go_slice body (SH_HeaderSize rh) (len body)).
Proof.
  apply (do_returns_own_response kfresh (kconn (kanswer 1 kpayload)) APIMetadata 9 [Byte.x00]);
    by vm_compute.
Defined.

(** The calls are answered: when the broker's next frame is the encoding of
    a well-formed response under the request's correlation id, the call
    returns exactly that response and leaves the stream behind it. *)
Theorem calls_answered fresh c topics auto lo_req of_req dg_req rest :
  room (K_w c) = None ->
  (forall r, len (request_frame c APIMetadata 9 (encodeMetadataReqV9 topics auto)) < 2 ^ 32 ->
     wf_metadata 9 r -> answers c APIMetadata 9 (AppendMetadataResponse [] r) rest ->
     exists c', Metadata fresh c topics auto = (Ok r, c') /\ data (K_r c') = rest) /\
  (forall r, len (request_frame c APIListOffsets ListOffsetsVersion (AppendListOffsetsRequest [] lo_req)) < 2 ^ 32 ->
     wf_lo_response r ->
     answers c APIListOffsets ListOffsetsVersion (broker_append_lo_response [] r) rest ->
     exists c', ListOffsets fresh c lo_req = (Ok r, c') /\ data (K_r c') = rest) /\
  (forall r, len (request_frame c APIOffsetFetch OffsetFetchVersion (AppendOffsetFetchRequest [] of_req)) < 2 ^ 32 ->
     wf_of_response r ->
     answers c APIOffsetFetch OffsetFetchVersion (broker_append_of_response [] r) rest ->
     exists c', OffsetFetch fresh c of_req = (Ok r, c') /\ data (K_r c') = rest) /\
  (forall r, len (request_frame c APIDescribeGroups DescribeGroupsVersion (AppendDescribeGroupsRequest [] dg_req)) < 2 ^ 32 ->
     wf_dg_response r ->
     answers c APIDescribeGroups DescribeGroupsVersion (broker_append_dg_response [] r) rest ->
     exists c', DescribeGroups fresh c dg_req = (Ok r, c') /\ data (K_r c') = rest).
Proof.
  intros Hroom.
  assert (forall A (dec : list byte -> outcome kerr A) k v req payload a,
    len (request_frame c k v req) < 2 ^ 32 -> answers c k v payload rest -> dec payload = Ok a ->
    exists c', call dec fresh c k v req = (Ok a, c') /\ data (K_r c') = rest) as H.
  { intros A dec k v req payload a Hreq Hans Ha.
    destruct (call_complete dec fresh c k v req payload rest a Hroom Hreq Hans Ha) as (c' & ? & E & _).
    exists c'. by rewrite E. }
  split_and!; intros r Hreq Hwf Hans; (eapply H; [done|done|]).
  - by apply (codec_roundtrip (dec := metadataResponse 9)).
  - by apply (codec_roundtrip (dec := listOffsetsResponse)).
  - by apply (codec_roundtrip (dec := offsetFetchResponse)).
  - by apply (codec_roundtrip (dec := describeGroupsResponse)).
Qed.

Lemma calls_answered_witness :
  exists c', Metadata kfresh (kconn (kanswer 1 kpayload ++ [Byte.x07])) None false = (Ok kmeta, c') /\
    data (K_r c') = [Byte.x07].
Proof.
  destruct (calls_answered kfresh (kconn (kanswer 1 kpayload ++ [Byte.x07])) None false
    (mkListOffsetsRequest 0 0 []) (mkOffsetFetchRequest [] false) (mkDescribeGroupsRequest [] false)
    [Byte.x07] eq_refl) as [H _].
  apply H.
  - vm_compute. reflexivity.
  - repeat first [split | constructor | lia | by vm_compute].
  - split; vm_compute; [reflexivity|discriminate].
Defined.

(** ** Findings *)

(** The calls that follow, all of the same kind. *)
Fixpoint do_all (n : nat) (fresh : Buffer) (c : KConn) (k v : Z) (req : list byte)
    : list (outcome kclient_err slice) * KConn :=
  match n with
  | O => ([], c)
  | S n => let '(r, c1) := Do fresh c k v req in
           let '(rs, c2) := do_all n fresh c1 k v req in (r :: rs, c2)
  end.

(** A stream one response behind: it starts with a leftover frame, and each
    request is answered behind it. *)
Fixpoint behind (k v id : Z) (payload : list byte) (n : nat) : list byte :=
  match n with
  | O => []
  | S n => frame_bytes (AppendResponseHeader [] k v id ++ payload) ++
           behind k v (swrap 32 (id + 1)) payload n
  end.

Lemma swrap_succ_ne x : swrap 32 (x + 1) <> x.
Proof.
  unfold swrap. intros E. pose proof (Z.div_mod (x + 1 + 2 ^ (32 - 1)) (2 ^ 32) ltac:(lia)). lia.
Qed.

(** One leftover response breaks the connection for good: after it, every
    call reads the answer to the call before and fails with
    [ErrCorrelationMismatch], although the broker answers each request
    correctly; nothing resynchronizes or closes the connection. *)
Theorem desync_is_permanent n fresh c k v req payload :
  int32 (K_nextCorrelID c) -> room (K_w c) = None ->
  (forall id, len (AppendRequestHeader [] (mkRequestHeader k v id (K_clientID c) false 0) ++ req) < 2 ^ 32) ->
  (forall id, len (AppendResponseHeader [] k v id ++ payload) <= MaxFrameSize) ->
  data (K_r c) = behind k v (K_nextCorrelID c) payload n ->
  fst (do_all n fresh c k v req) = replicate n (Fail ErrCorrelationMismatch).
Proof.
  revert c. induction n as [|n IH]; intros c Hid Hroom Hreq Hlen Hd; [done|].
  cbn [behind] in Hd.
  destruct (Do_answer fresh c k v req _ _ Hroom (Hreq _) Hd (Hlen _))
    as (c' & Hn & Hroom' & Hcid & _ & Hr & _ & Hdo).
  rewrite decode_append_response_header in Hdo by done. cbn [SH_CorrelID] in Hdo.
  destruct (Z.eqb_spec (K_nextCorrelID c) (next_id c)) as [E|_].
  { exfalso. symmetry in E. by apply swrap_succ_ne in E. }
  cbn [do_all]. rewrite Hdo. specialize (IH c').
  destruct (do_all n fresh c' k v req) as [rs c2]. cbn [fst replicate] in *. f_equal. apply IH; try done.
  - rewrite Hn. apply next_id_int32.
  - by rewrite Hcid.
  - rewrite Hr, Hn. done.
Qed.

Lemma desync_is_permanent_witness :
  fst (do_all 3 kfresh (kconn (behind APIMetadata 9 0 [Byte.x00] 3)) APIMetadata 9 []) =
  replicate 3 (Fail ErrCorrelationMismatch).
Proof.
  apply (desync_is_permanent 3 kfresh (kconn (behind APIMetadata 9 0 [Byte.x00] 3)) APIMetadata 9 []
    [Byte.x00]).
  - by vm_compute.
  - reflexivity.
  - intros id. unfold AppendRequestHeader. cbn. reflexivity.
  - intros id. unfold AppendResponseHeader. vm_compute. discriminate.
  - reflexivity.
Defined.

(** A returned body does not outlive the next call: on a connection shared
    by two users, the body the first one was given denotes the second one's
    response if it is decoded after the second call, which the lock in [Do]
    does not prevent. *)
Theorem shared_body_is_overwritten :
  let c := kconn (kanswer 1 [Byte.x11; Byte.x12] ++ kanswer 2 [Byte.x21; Byte.x22]) in
  let '(r1, c1) := Do kfresh c APIMetadata 9 [] in
  let '(r2, c2) := Do kfresh c1 APIMetadata 9 [] in
  match r1, r2 with
  | Ok sl1, Ok _ =>
      read_slice c1 sl1 = Some [Byte.x11; Byte.x12] /\ read_slice c2 sl1 = Some [Byte.x21; Byte.x22]
  | _, _ => False
  end.
Proof. vm_compute. split; reflexivity. Qed.

(** *** Deadlines *)

Lemma Do_deadline fresh c k v req :
  K_deadline (snd (Do fresh c k v req)) = K_deadline c /\ K_closed (snd (Do fresh c k v req)) = K_closed c.
Proof.
  unfold Do. destruct (WriteFrame _ _) as [[e|] w]; [done|].
  destruct (ReadFrame _ _ _) as [[[e|body] b'] s]; [done|].
  destruct (DecodeResponseHeader _ _ _); [|done..]. destruct (_ =? _); [|done].
  by destruct (go_slice _ _ _).
Qed.

Lemma write_frame_no_room w body e :
  len body < 2 ^ 32 -> room w = Some (O, e) -> WriteFrame w body = (Some (IoErr e), w).
Proof.
  intros H Hr. pose proof (len_nonneg body). unfold WriteFrame.
  destruct (Z.ltb_spec (len body) 0); [lia|]. destruct (Z.ltb_spec (2 ^ 32 - 1) (len body)); [lia|].
  cbn [orb]. unfold sink_write. rewrite Hr. change (be_bytes 4 (uwrap 32 (len body)) ++ body) with (frame_bytes body).
  destruct (Nat.leb_spec (length (frame_bytes body)) 0) as [Hl|_].
  - unfold frame_bytes in Hl. rewrite length_app, length_be_bytes in Hl. lia.
  - cbn [take]. rewrite app_nil_r. destruct w as [wr ro]. simpl in *. by subst.
Qed.

(** A deadline is not for the next call only: once it has passed, every call
    times out before it writes anything, until the deadline is moved. *)
Theorem deadline_outlives_the_call now kout kin fresh c d k v req :
  K_deadline c = Some d -> d <= now -> room (K_w c) = None -> len (request_frame c k v req) < 2 ^ 32 ->
  exists c', DoAt now kout kin fresh c k v req = (Fail (KFrame (IoErr Timeout)), c') /\
    K_w c' = K_w c /\ K_r c' = K_r c /\ K_deadline c' = Some d.
Proof.
  intros Hd Hnow Hroom Hlen. unfold DoAt. rewrite Hd. destruct (Z.leb_spec d now); [|lia].
  set (c0 := with_io c _ _). unfold Do at 1.
  rewrite (write_frame_no_room _ _ Timeout); [|done|by unfold c0, cut_sink; simpl; rewrite Hroom].
  eexists. split; [done|]. unfold c0, with_io, uncut_stream, uncut_sink, cut_stream. cbn [K_w K_r K_deadline written data fin].
  rewrite Hroom. split_and!; [by destruct (K_w c) as [? ?]; simpl in *; subst| |done].
  destruct (Nat.leb_spec (length (data (K_r c))) 0) as [Hz|_].
  - destruct (K_r c) as [[|? ?] f]; simpl in *; [done|lia].
  - cbn [data take app drop]. by destruct (K_r c).
Qed.

Lemma deadline_outlives_the_call_witness :
  let c := snd (SetDeadline (Some 10) (kconn (kanswer 1 kpayload))) in
  exists c', DoAt 11 100 100 kfresh c APIMetadata 9 [] = (Fail (KFrame (IoErr Timeout)), c') /\
    K_w c' = K_w c /\ K_r c' = K_r c /\ K_deadline c' = Some 10.
Proof.
  apply (deadline_outlives_the_call 11 100 100 kfresh
    (snd (SetDeadline (Some 10) (kconn (kanswer 1 kpayload)))) 10); by vm_compute.
Defined.

(** A request that is written in time and whose answer is late: the call times
    out and the answer stays in the stream. *)
Lemma late_answer now kout fresh c d k v req :
  K_deadline c = Some d -> now < d -> room (K_w c) = None -> len (request_frame c k v req) < 2 ^ 32 ->
  (length (frame_bytes (request_frame c k v req)) <= kout)%nat -> data (K_r c) <> [] ->
  exists c', DoAt now kout 0 fresh c k v req = (Fail (KFrame (IoErr Timeout)), c') /\
    written (K_w c') = written (K_w c) ++ frame_bytes (request_frame c k v req) /\
    room (K_w c') = None /\ K_r c' = K_r c /\ K_nextCorrelID c' = next_id c /\
    K_clientID c' = K_clientID c /\ K_closed c' = K_closed c.
Proof.
  intros Hd Hnow Hroom Hlen Hk Hne. unfold DoAt. rewrite Hd. destruct (Z.leb_spec d now); [lia|].
  unfold Do at 1. cbn [K_w K_r with_io K_respBuf K_clientID K_nextCorrelID K_retired K_deadline K_closed].
  change (request_frame (with_io c _ _) k v req) with (request_frame c k v req).
  unfold cut_sink. rewrite Hroom. unfold WriteFrame.
  pose proof (len_nonneg (request_frame c k v req)).
  destruct (Z.ltb_spec (len (request_frame c k v req)) 0); [lia|].
  destruct (Z.ltb_spec (2 ^ 32 - 1) (len (request_frame c k v req))); [lia|].
  cbn [orb]. unfold sink_write. cbn [room written]. fold (frame_bytes (request_frame c k v req)).
  destruct (Nat.leb_spec (length (frame_bytes (request_frame c k v req))) kout); [|lia].
  unfold cut_stream. destruct (Nat.leb_spec (length (data (K_r c))) 0) as [Hz|_].
  { destruct (data (K_r c)); simpl in Hz; [done|lia]. }
  cbn [take]. unfold ReadFrame, ReadFull. cbn [data fin]. change (4 <=? len (@nil byte)) with false.
  cbn [fmap option_fmap option_map]. eexists. split; [done|].
  unfold with_io, uncut_stream, uncut_sink. rewrite Hroom. cbn.
  split_and!; try done. by destruct (K_r c).
Qed.

(** One timeout costs the connection: when the answer to a call arrives after
    the deadline, lifting the deadline does not help, for every later call is
    given the answer to the one before it. *)
Theorem timeout_desyncs now kout n fresh c d k v req payload :
  K_deadline c = Some d -> now < d -> K_closed c = false -> room (K_w c) = None ->
  (forall id, len (AppendRequestHeader [] (mkRequestHeader k v id (K_clientID c) false 0) ++ req) < 2 ^ 32) ->
  (forall id, len (AppendResponseHeader [] k v id ++ payload) <= MaxFrameSize) ->
  (length (frame_bytes (request_frame c k v req)) <= kout)%nat ->
  data (K_r c) = behind k v (next_id c) payload (S n) ->
  exists c1 c2, DoAt now kout 0 fresh c k v req = (Fail (KFrame (IoErr Timeout)), c1) /\
    SetDeadline None c1 = (None, c2) /\
    fst (do_all (S n) fresh c2 k v req) = replicate (S n) (Fail ErrCorrelationMismatch).
Proof.
  intros Hd Hnow Hcl Hroom Hreq Hlen Hk Hdata.
  destruct (late_answer now kout fresh c d k v req) as (c1 & H1 & _ & Hr1 & Hs1 & Hn1 & Hc1 & Hcl1);
    try done; [apply Hreq| |]. 
  { rewrite Hdata. intros E%(f_equal length). cbn [behind] in E. unfold frame_bytes in E.
    rewrite !length_app, length_be_bytes in E. simpl in E. lia. }
  exists c1. unfold SetDeadline. rewrite Hcl1, Hcl. eexists. split; [done|]. split; [done|].
  apply (desync_is_permanent (S n) _ _ _ _ _ payload); cbn [K_nextCorrelID K_w K_clientID K_r]; try done.
  - rewrite Hn1. apply next_id_int32.
  - by rewrite Hc1.
  - by rewrite Hs1, Hn1.
Qed.

Lemma timeout_desyncs_witness :
  let c := snd (SetDeadline (Some 10) (kconn (behind APIMetadata 9 1 [Byte.x00] 3))) in
  exists c1 c2, DoAt 5 100 0 kfresh c APIMetadata 9 [] = (Fail (KFrame (IoErr Timeout)), c1) /\
    SetDeadline None c1 = (None, c2) /\
    fst (do_all 3 kfresh c2 APIMetadata 9 []) = replicate 3 (Fail ErrCorrelationMismatch).
Proof.
  apply (timeout_desyncs 5 100 2 kfresh
    (snd (SetDeadline (Some 10) (kconn (behind APIMetadata 9 1 [Byte.x00] 3)))) 10 APIMetadata 9 [] [Byte.x00]).
  - reflexivity.
  - lia.
  - reflexivity.
  - reflexivity.
  - intros id. unfold AppendRequestHeader. cbn. reflexivity.
  - intros id. unfold AppendResponseHeader. vm_compute. discriminate.
  - vm_compute. lia.
  - reflexivity.
Defined.

(** After [Close], no call reaches the broker, and a second [Close] is an
    error. *)
Theorem closed_is_closed pool fresh c k v req :
  len (request_frame c k v req) < 2 ^ 32 ->
  let '(err, _, c1) := KClose pool c in
  (err = None <-> K_closed c = false) /\
  fst (Do fresh c1 k v req) = Fail (KFrame (IoErr NetClosed)) /\
  K_w (snd (Do fresh c1 k v req)) = K_w c1 /\
  fst (fst (KClose pool c1)) = Some NetClosed /\ fst (SetDeadline None c1) = Some NetClosed.
Proof.
  intros Hlen. unfold KClose. split; [by destruct (K_closed c)|].
  unfold Do. by rewrite (write_frame_no_room _ _ NetClosed).
Qed.
