(* ===== verification/Poller.v ===== *)
(** * The telemetry poller: internal/telemetry/kafka_native.go

    One tick of the poller: DescribeGroups for the members' assignments,
    ListOffsets for the ends of their partitions, OffsetFetch for the committed
    offsets, and the snapshot of lags made from the three.  The coordinator is
    an argument, a function per call; the reports passed to [OnError] are part
    of the result.  Ranging over a map goes in any order ([PollOrder]). *)

From stdpp Require Import base numbers list strings gmap sorting.
From Stdlib Require Import ZArith Lia Strings.Byte.
From S2P Require Import Prelude Primitives Codec ConsumerProtocol ClientCodecs Telemetry.

(** ** Data *)

(** [Coordinator], with the errors its calls return. *)
Class Coordinator (E : Type) := {
  C_DescribeGroups : DescribeGroupsRequest -> E + DescribeGroupsResponse;
  C_OffsetFetch : OffsetFetchRequest -> E + OffsetFetchResponse;
  C_ListOffsets : ListOffsetsRequest -> E + ListOffsetsResponse;
}.

(** What is reported: the error of a call, a Kafka error code, a bad blob. *)
Inductive poll_err (E : Type) :=
| CallErr (e : E)
| kErr (op : string) (code : Z)
| BlobErr (e : kerr).
Arguments CallErr {E}.
Arguments kErr {E}.
Arguments BlobErr {E}.

Abbreviation ownedKey := (string * Z)%type.

(** The partitions of each member of each group. *)
Abbreviation Owned := (gmap string (gmap string (list TopicPartitions))).

Class PollOrder := {
  po_topics : list string -> list string;                 (** [range allParts] *)
  po_groups : list string -> list string;                 (** [range ownedByGroup] *)
  po_group_topics : string -> list string -> list string; (** [range topicMap], per group *)
}.

Class PollOrderOk (PO : PollOrder) : Prop := {
  po_topics_perm ks : po_topics ks ≡ₚ ks;
  po_groups_perm ks : po_groups ks ≡ₚ ks;
  po_group_topics_perm g ks : po_group_topics g ks ≡ₚ ks;
}.

Section poller.
Context {E : Type} `{Coordinator E} {PO : PollOrder}.

(** [report] and [reportAll], as the list of calls of [OnError]. *)
Definition report_all (groups : list string) (e : E) : list (string * poll_err E) :=
  map (fun g => (g, CallErr e)) groups.

(** ** The members' assignments *)

(** [ts[id] = struct{}{}] for the partitions of one topic. *)
Definition note_parts (all : gmap string (gset Z)) (tp : TopicPartitions) : gmap string (gset Z) :=
  <[TP_Topic tp := list_to_set (TP_Partitions tp) ∪ default ∅ (all !! TP_Topic tp)]> all.

Record described := mkDescribed {
  ownedByGroup : Owned;
  allParts : gmap string (gset Z);
  reports : list (string * poll_err E);
}.

(** One iteration of the member loop.  [DecodeAssignment] does not panic. *)
Definition describe_member (gid : string) (st : described) (m : DescribedGroupMember) : described :=
  if len (DM_MemberAssignment m) =? 0 then st else
  match DecodeAssignment (DM_MemberAssignment m) with
  | Ok a =>
      mkDescribed
        (<[gid := <[DM_MemberID m := ASG_Partitions a]> (default ∅ (ownedByGroup st !! gid))]>
           (ownedByGroup st))
        (fold_left note_parts (ASG_Partitions a) (allParts st)) (reports st)
  | Fail e => mkDescribed (ownedByGroup st) (allParts st) (reports st ++ [(gid, BlobErr e)])
  | Panic => st
  end.

Definition describe_group (st : described) (g : DescribedGroup) : described :=
  if negb (DG_ErrorCode g =? 0)
  then mkDescribed (ownedByGroup st) (allParts st)
         (reports st ++ [(DG_GroupID g, kErr "DescribeGroups" (DG_ErrorCode g))])
  else fold_left (describe_member (DG_GroupID g)) (DG_Members g)
         (mkDescribed (<[DG_GroupID g := ∅]> (ownedByGroup st)) (allParts st) (reports st)).

Definition describe (dg : DescribeGroupsResponse) : described :=
  fold_left describe_group (DR_Groups dg) (mkDescribed ∅ ∅ []).

(** ** The ends of the partitions *)

Definition sorted_ids (s : gset Z) : list Z := merge_sort Z.le (elements s).

Definition lo_request (all : gmap string (gset Z)) : ListOffsetsRequest :=
  mkListOffsetsRequest (-1) IsolationReadUncommitted
    (map (fun t => mkListOffsetsTopic t
                     (map (fun id => mkListOffsetsPartition id (-1) OffsetLatest)
                        (sorted_ids (default ∅ (all !! t)))))
       (po_topics (map fst (map_to_list all)))).

Definition read_hwm (lo : ListOffsetsResponse) : gmap ownedKey Z :=
  fold_left (fun hwm t =>
    fold_left (fun hwm pr =>
      if negb (LR_ErrorCode pr =? 0) then hwm
      else <[(LTR_Name t, LR_PartitionIndex pr) := LR_Offset pr]> hwm) (LTR_Partitions t) hwm)
    (LS_Topics lo) ∅.

Definition fetch_hwm (groups : list string) (all : gmap string (gset Z))
    : gmap ownedKey Z * list (string * poll_err E) :=
  if decide (size all = O) then (∅, []) else
  match C_ListOffsets (lo_request all) with
  | inl e => (∅, report_all groups e)
  | inr lo => (read_hwm lo, [])
  end.

(** ** The committed offsets *)

(** [topicMap] of one group. *)
Definition topic_map (members : gmap string (list TopicPartitions)) : gmap string (gset Z) :=
  fold_left (fun tm kv => fold_left note_parts kv.2 tm) (map_to_list members) ∅.

Definition of_request (owned : Owned) : OffsetFetchRequest :=
  mkOffsetFetchRequest
    (map (fun gid =>
       let tm := topic_map (default ∅ (owned !! gid)) in
       mkOffsetFetchGroup gid
         (map (fun t => mkOffsetFetchTopicReq t (sorted_ids (default ∅ (tm !! t))))
            (po_group_topics gid (map fst (map_to_list tm)))) false)
       (po_groups (map fst (map_to_list owned)))) false.

Definition read_group_offsets (g : OffsetFetchGroupResp) : gmap ownedKey Z :=
  fold_left (fun m t =>
    fold_left (fun m pr =>
      if negb (OP_ErrorCode pr =? 0) || (OP_CommittedOffset pr <? 0) then m
      else <[(OTR_Name t, OP_PartitionIndex pr) := OP_CommittedOffset pr]> m) (OTR_Partitions t) m)
    (OGR_Topics g) ∅.

Definition read_committed (resp : OffsetFetchResponse)
    : gmap string (gmap ownedKey Z) * list (string * poll_err E) :=
  fold_left (fun st g =>
    if negb (OGR_ErrorCode g =? 0)
    then (fst st, snd st ++ [(OGR_GroupID g, kErr "OffsetFetch" (OGR_ErrorCode g))])
    else (<[OGR_GroupID g := read_group_offsets g]> (fst st), snd st)) (OR_Groups resp) (∅, []).

Definition fetch_committed (groups : list string) (owned : Owned)
    : gmap string (gmap ownedKey Z) * list (string * poll_err E) :=
  if decide (size owned = O) then (∅, []) else
  match C_OffsetFetch (of_request owned) with
  | inl e => (∅, report_all groups e)
  | inr resp => read_committed resp
  end.

(** ** The snapshot *)

(** One iteration of the innermost loop; [LagMessages] is an [int64]. *)
Definition add_partition (hwm commit : gmap ownedKey Z) (topic : string) (ml : MemberLoad) (id : Z)
    : MemberLoad :=
  let lag :=
    match hwm !! (topic, id), commit !! (topic, id) with
    | Some h, Some c => if c <? h then swrap 64 (ML_LagMessages ml + swrap 64 (h - c))
                        else ML_LagMessages ml
    | _, _ => ML_LagMessages ml
    end in
  mkMemberLoad (ML_MemberID ml) (ML_AssignedPartitions ml + 1) lag (ML_LatencyMicros ml).

Definition member_load (hwm commit : gmap ownedKey Z) (memberID : string)
    (ownedList : list TopicPartitions) : MemberLoad :=
  fold_left (fun ml tp => fold_left (add_partition hwm commit (TP_Topic tp)) (TP_Partitions tp) ml)
    ownedList (mkMemberLoad memberID 0 0 0).

Definition group_load (hwm : gmap ownedKey Z) (committed : gmap string (gmap ownedKey Z))
    (gid : string) (members : gmap string (list TopicPartitions)) : GroupLoad :=
  mkGroupLoad gid (map_imap (fun mid owned => Some (member_load hwm (default ∅ (committed !! gid)) mid owned))
                     members).

Definition load_snapshot (now : Z) (hwm : gmap ownedKey Z) (committed : gmap string (gmap ownedKey Z))
    (owned : Owned) : LoadSnapshot :=
  mkLoadSnapshot now (map_imap (fun gid members => Some (group_load hwm committed gid members)) owned).

(** [tick]: what the holder holds afterwards and what was reported. *)
Definition tick (cancelled : bool) (now : Z) (groups : list string) (h : Holder)
    : Holder * list (string * poll_err E) :=
  if cancelled then (h, []) else
  if len groups =? 0 then (HolderStore h (EmptySnapshot now), []) else
  match C_DescribeGroups (mkDescribeGroupsRequest groups false) with
  | inl e => (match HolderGet h with None => HolderStore h (EmptySnapshot now) | Some _ => h end,
              report_all groups e)
  | inr dg =>
      let d := describe dg in
      let '(hwm, r1) := fetch_hwm groups (allParts d) in
      let '(committed, r2) := fetch_committed groups (ownedByGroup d) in
      (HolderStore h (load_snapshot now hwm committed (ownedByGroup d)), reports d ++ r1 ++ r2)
  end.

End poller.

(** ** The registry *)

Record SyncRegistry := mkSyncRegistry { reg_groups : gset string }.

Definition NewSyncRegistry : SyncRegistry := mkSyncRegistry ∅.
Definition RegAdd (r : SyncRegistry) (g : string) : SyncRegistry := mkSyncRegistry ({[g]} ∪ reg_groups r).
Definition RegRemove (r : SyncRegistry) (g : string) : SyncRegistry := mkSyncRegistry (reg_groups r ∖ {[g]}).
Definition RegGroups (r : SyncRegistry) : list string := merge_sort String.le (elements (reg_groups r)).

(** ** What the snapshot should say *)

(** The partitions of an assignment, one key each. *)
Definition keys_of (tps : list TopicPartitions) : list ownedKey :=
  tps ≫= fun tp => map (pair (TP_Topic tp)) (TP_Partitions tp).

(** The lag of a partition: known only when both offsets are, never negative. *)
Definition part_lag (hwm commit : gmap ownedKey Z) (k : ownedKey) : Z :=
  match hwm !! k, commit !! k with
  | Some h, Some c => Z.max 0 (h - c)
  | _, _ => 0
  end.

Definition total_lag (hwm commit : gmap ownedKey Z) (tps : list TopicPartitions) : Z :=
  fold_right Z.add 0 (map (part_lag hwm commit) (keys_of tps)).

(** *** The cluster *)

(** What a request asks: the end of a partition's log, the offset a group has
    committed for it. *)
Definition end_asked (req : ListOffsetsRequest) (t : string) (id : Z) : Prop :=
  exists lt lp, lt ∈ LQ_Topics req /\ LT_Name lt = t /\ lp ∈ LT_Partitions lt /\
    LP_PartitionIndex lp = id /\ LP_Timestamp lp = OffsetLatest.

Definition commit_asked (req : OffsetFetchRequest) (gid t : string) (id : Z) : Prop :=
  exists og ot, og ∈ OQ_Groups req /\ OG_GroupID og = gid /\ OG_TopicsNull og = false /\
    ot ∈ OG_Topics og /\ OT_Name ot = t /\ id ∈ OT_PartitionIndexes ot.

(** What a response says: an entry with an error code says nothing, and neither
    does a committed offset of -1. *)
Definition end_said (resp : ListOffsetsResponse) (t : string) (id o : Z) : Prop :=
  exists lt pr, lt ∈ LS_Topics resp /\ LTR_Name lt = t /\ pr ∈ LTR_Partitions lt /\
    LR_PartitionIndex pr = id /\ LR_ErrorCode pr = 0 /\ LR_Offset pr = o.

Definition group_said (g : OffsetFetchGroupResp) (t : string) (id o : Z) : Prop :=
  exists ot pr, ot ∈ OGR_Topics g /\ OTR_Name ot = t /\ pr ∈ OTR_Partitions ot /\
    OP_PartitionIndex pr = id /\ OP_ErrorCode pr = 0 /\ OP_CommittedOffset pr = o /\ 0 <= o.

Definition commit_said (resp : OffsetFetchResponse) (gid t : string) (id o : Z) : Prop :=
  exists g, g ∈ OR_Groups resp /\ OGR_GroupID g = gid /\ OGR_ErrorCode g = 0 /\ group_said g t id o.

(** A cluster in which a partition's log ends at [ends], and a group has
    committed [commits], answers what it is asked. *)
Class Truthful {E} `{Coordinator E} (ends : string -> Z -> option Z) (commits : string -> string -> Z -> option Z)
    : Prop := {
  truthful_ends req : exists resp, C_ListOffsets req = inr resp /\
    forall t id o, end_said resp t id o <-> end_asked req t id /\ ends t id = Some o;
  truthful_commits req : NoDup (map OG_GroupID (OQ_Groups req)) ->
    exists resp, C_OffsetFetch req = inr resp /\ NoDup (map OGR_GroupID (OR_Groups resp)) /\
    forall gid t id o, commit_said resp gid t id o <-> commit_asked req gid t id /\ commits gid t id = Some o;
}.

(** How far a group is behind on a partition. *)
Definition true_lag (ends : string -> Z -> option Z) (commits : string -> Z -> option Z) (k : ownedKey) : Z :=
  match ends k.1 k.2, commits k.1 k.2 with
  | Some h, Some c => Z.max 0 (h - c)
  | _, _ => 0
  end.

Definition group_lag (ends : string -> Z -> option Z) (commits : string -> Z -> option Z) (tps : list TopicPartitions) : Z :=
  fold_right Z.add 0 (map (true_lag ends commits) (keys_of tps)).

(** ** Facts *)

Lemma part_lag_nonneg hwm commit k : 0 <= part_lag hwm commit k.
Proof. unfold part_lag. destruct (hwm !! k), (commit !! k); lia. Qed.

Lemma lag_sum_nonneg hwm commit ks : 0 <= fold_right Z.add 0 (map (part_lag hwm commit) ks).
Proof.
  induction ks as [|k ks IH]; simpl; [lia|]. pose proof (part_lag_nonneg hwm commit k). lia.
Qed.

(** The nested loops are one loop over the keys. *)
Lemma member_load_keys hwm commit mid tps :
  member_load hwm commit mid tps =
  fold_left (fun ml k => add_partition hwm commit k.1 ml k.2) (keys_of tps) (mkMemberLoad mid 0 0 0).
Proof.
  unfold member_load. generalize (mkMemberLoad mid 0 0 0). induction tps as [|tp tps IH]; intros ml; [done|].
  cbn [fold_left]. unfold keys_of. rewrite bind_cons, fold_left_app. rewrite <- IH. f_equal.
  generalize ml. induction (TP_Partitions tp) as [|id ids IHi]; intros ml'; simpl; [done|]. apply IHi.
Qed.

Ltac proj_ml := cbn [ML_LagMessages ML_MemberID ML_AssignedPartitions ML_LatencyMicros] in *.

Lemma add_partition_lag hwm commit t ml id :
  0 <= ML_LagMessages ml -> ML_LagMessages ml + part_lag hwm commit (t, id) < 2 ^ 63 ->
  add_partition hwm commit t ml id =
  mkMemberLoad (ML_MemberID ml) (ML_AssignedPartitions ml + 1)
    (ML_LagMessages ml + part_lag hwm commit (t, id)) (ML_LatencyMicros ml).
Proof.
  unfold add_partition, part_lag. intros H0 Hb. f_equal.
  destruct (hwm !! (t, id)) as [h|], (commit !! (t, id)) as [c|]; try lia.
  destruct (Z.ltb_spec c h); [|lia].
  rewrite (swrap_id 64 (h - c)) by (unfold in_int; lia).
  rewrite swrap_id by (unfold in_int; lia). lia.
Qed.

Lemma member_load_loop hwm commit ks ml :
  0 <= ML_LagMessages ml ->
  ML_LagMessages ml + fold_right Z.add 0 (map (part_lag hwm commit) ks) < 2 ^ 63 ->
  fold_left (fun ml k => add_partition hwm commit k.1 ml k.2) ks ml =
  mkMemberLoad (ML_MemberID ml) (ML_AssignedPartitions ml + len ks)
    (ML_LagMessages ml + fold_right Z.add 0 (map (part_lag hwm commit) ks)) (ML_LatencyMicros ml).
Proof.
  revert ml. induction ks as [|[t id] ks IH]; intros [mid n lag lat] H0 Hb; cbn [fold_left map fold_right] in *.
  - proj_ml. rewrite (@len_nil ownedKey). f_equal; lia.
  - pose proof (lag_sum_nonneg hwm commit ks). pose proof (part_lag_nonneg hwm commit (t, id)).
    assert (add_partition hwm commit t (mkMemberLoad mid n lag lat) id =
            mkMemberLoad mid (n + 1) (lag + part_lag hwm commit (t, id)) lat) as E.
    { apply add_partition_lag; proj_ml; lia. }
    cbn [fst snd]. rewrite E, IH; proj_ml; [|lia|lia]. f_equal; len_lia.
Qed.

Lemma member_load_spec hwm commit mid tps :
  total_lag hwm commit tps < 2 ^ 63 ->
  member_load hwm commit mid tps =
  mkMemberLoad mid (len (keys_of tps)) (total_lag hwm commit tps) 0.
Proof.
  intros Hb. rewrite member_load_keys, member_load_loop by (cbn; done). cbn. f_equal; lia.
Qed.

Lemma nodup_key {A B} (f : A -> B) l x y :
  NoDup (map f l) -> x ∈ l -> y ∈ l -> f x = f y -> x = y.
Proof.
  induction l as [|z l IH]; simpl; [set_solver|].
  intros [Hz Hl]%NoDup_cons Hx Hy E.
  apply elem_of_cons in Hx as [->|Hx], Hy as [->|Hy]; try done; [| |by apply IH].
  - exfalso. apply Hz. rewrite E. by apply list_elem_of_fmap_2.
  - exfalso. apply Hz. rewrite <- E. by apply list_elem_of_fmap_2.
Qed.

Section facts.
Context {E : Type} `{Coordinator E} {PO : PollOrder} `{!PollOrderOk PO}.
Implicit Types st : described (E := E).

(** Other groups keep their entries. *)
Lemma describe_member_other gid gid' st m :
  gid' <> gid -> ownedByGroup (describe_member gid st m) !! gid' = ownedByGroup st !! gid'.
Proof.
  intros Hne. unfold describe_member. destruct (_ =? _); [done|].
  destruct (DecodeAssignment _) as [a| |]; [|done|done]. cbn [ownedByGroup].
  by rewrite lookup_insert_ne.
Qed.

Lemma describe_group_other gid st g :
  DG_GroupID g <> gid -> ownedByGroup (describe_group st g) !! gid = ownedByGroup st !! gid.
Proof.
  intros Hne. unfold describe_group. destruct (negb _); [done|].
  eapply (fold_left_inv (fun s => ownedByGroup s !! gid = ownedByGroup st !! gid)).
  - cbn [ownedByGroup]. by rewrite lookup_insert_ne.
  - intros s m _ Hs. by rewrite describe_member_other.
Qed.

Lemma empty_blob : DecodeAssignment [] = Fail ErrTruncated.
Proof. reflexivity. Qed.

(** The entry of a member with a readable assignment. *)
Definition has_entry (gid mid : string) (tps : list TopicPartitions) st : Prop :=
  exists ms, ownedByGroup st !! gid = Some ms /\ ms !! mid = Some tps.

Lemma describe_member_sets gid st m a :
  DecodeAssignment (DM_MemberAssignment m) = Ok a ->
  has_entry gid (DM_MemberID m) (ASG_Partitions a) (describe_member gid st m).
Proof.
  intros Ha. unfold describe_member. destruct (Z.eqb_spec (len (DM_MemberAssignment m)) 0) as [E0|_].
  { destruct (DM_MemberAssignment m); [by rewrite empty_blob in Ha|]. exfalso. len_lia. }
  rewrite Ha. eexists. cbn [ownedByGroup]. rewrite lookup_insert_eq. split; [done|].
  apply lookup_insert_eq.
Qed.

Lemma describe_member_keeps gid mid tps st m :
  DM_MemberID m <> mid -> has_entry gid mid tps st -> has_entry gid mid tps (describe_member gid st m).
Proof.
  intros Hne (ms & Hg & Hm). unfold describe_member. destruct (_ =? _); [by exists ms|].
  destruct (DecodeAssignment _) as [a| |]; [|by exists ms|by exists ms].
  eexists. cbn [ownedByGroup]. rewrite lookup_insert_eq. split; [done|].
  rewrite Hg. cbn [default]. by rewrite lookup_insert_ne.
Qed.

Lemma describe_group_sets st g m a :
  DG_ErrorCode g = 0 -> NoDup (map DM_MemberID (DG_Members g)) -> m ∈ DG_Members g ->
  DecodeAssignment (DM_MemberAssignment m) = Ok a ->
  has_entry (DG_GroupID g) (DM_MemberID m) (ASG_Partitions a) (describe_group st g).
Proof.
  intros He Hnd Hm Ha. unfold describe_group. rewrite He. cbn [negb Z.eqb].
  eapply (fold_left_reach (fun _ => True)); [exact Hm|done|done| |].
  - intros s _. by apply describe_member_sets.
  - intros s m' Hm' Hs. destruct (decide (DM_MemberID m' = DM_MemberID m)) as [Eq|Hne].
    + rewrite (nodup_key _ _ _ _ Hnd Hm' Hm Eq). by apply describe_member_sets.
    + by apply describe_member_keeps.
Qed.

Lemma described_entry dg g m a :
  NoDup (map DG_GroupID (DR_Groups dg)) -> g ∈ DR_Groups dg ->
  DG_ErrorCode g = 0 -> NoDup (map DM_MemberID (DG_Members g)) -> m ∈ DG_Members g ->
  DecodeAssignment (DM_MemberAssignment m) = Ok a ->
  has_entry (DG_GroupID g) (DM_MemberID m) (ASG_Partitions a) (describe dg).
Proof.
  intros Hnd Hg He Hndm Hm Ha. unfold describe.
  eapply (fold_left_reach (fun _ => True)); [exact Hg|done|done| |].
  - intros s _. by apply describe_group_sets.
  - intros s g' Hg' Hs. destruct (decide (DG_GroupID g' = DG_GroupID g)) as [Eq|Hne].
    + rewrite (nodup_key _ _ _ _ Hnd Hg' Hg Eq). by apply describe_group_sets.
    + destruct Hs as (ms & Hs & Hms). exists ms. by rewrite describe_group_other.
Qed.

(** ** The partitions asked about *)

Lemma note_parts_elem all tp t id :
  id ∈ default ∅ (note_parts all tp !! t) <->
  id ∈ default ∅ (all !! t) \/ (TP_Topic tp = t /\ id ∈ TP_Partitions tp).
Proof.
  unfold note_parts. destruct (decide (TP_Topic tp = t)) as [<-|Hne].
  - rewrite lookup_insert_eq. cbn [default]. set_solver.
  - rewrite lookup_insert_ne by done. naive_solver.
Qed.

Lemma elem_of_keys tps t id : (t, id) ∈ keys_of tps <-> exists tp, tp ∈ tps /\ TP_Topic tp = t /\ id ∈ TP_Partitions tp.
Proof.
  unfold keys_of. rewrite list_elem_of_bind. split.
  - intros (tp & Hk & Htp). apply list_elem_of_fmap in Hk as (id' & [= -> ->] & Hid). eauto.
  - intros (tp & Htp & <- & Hid). exists tp. split; [|done]. by apply list_elem_of_fmap_2.
Qed.

Lemma note_all_elem tps all t id :
  id ∈ default ∅ (fold_left note_parts tps all !! t) <-> id ∈ default ∅ (all !! t) \/ (t, id) ∈ keys_of tps.
Proof.
  revert all. induction tps as [|tp tps IH]; intros all; cbn [fold_left].
  - unfold keys_of. cbn. set_solver.
  - rewrite IH, note_parts_elem, !elem_of_keys. set_solver.
Qed.

(** Every partition a member owns is noted. *)
Definition all_noted st : Prop :=
  forall gid ms mid tps t id, ownedByGroup st !! gid = Some ms -> ms !! mid = Some tps ->
    (t, id) ∈ keys_of tps -> id ∈ default ∅ (allParts st !! t).

Lemma describe_member_noted gid st m : all_noted st -> all_noted (describe_member gid st m).
Proof.
  intros Hn. unfold describe_member. destruct (_ =? _); [done|].
  destruct (DecodeAssignment _) as [a| |]; [|done|done].
  intros gid' ms mid tps t id Hg Hm Hk. cbn [ownedByGroup allParts] in *. apply note_all_elem.
  destruct (decide (gid' = gid)) as [->|Hne].
  - rewrite lookup_insert_eq in Hg. injection Hg as <-.
    destruct (decide (mid = DM_MemberID m)) as [->|Hmne].
    + rewrite lookup_insert_eq in Hm. injection Hm as <-. by right.
    + rewrite lookup_insert_ne in Hm by done. left.
      destruct (ownedByGroup st !! gid) as [ms|] eqn:Eg; [by eapply Hn|].
      cbn [default] in Hm. by rewrite lookup_empty in Hm.
  - rewrite lookup_insert_ne in Hg by done. left. by eapply Hn.
Qed.

Lemma describe_noted dg : all_noted (describe (E := E) dg).
Proof.
  apply (fold_left_inv all_noted).
  - intros gid ms mid tps t id Hg. cbn in Hg. by rewrite lookup_empty in Hg.
  - intros st g _ Hn. unfold describe_group. destruct (negb _); [done|].
    apply (fold_left_inv all_noted); [|intros s m _; apply describe_member_noted].
    intros gid ms mid tps t id Hg Hm Hk. cbn [ownedByGroup allParts] in *.
    destruct (decide (gid = DG_GroupID g)) as [->|Hne].
    + rewrite lookup_insert_eq in Hg. injection Hg as <-. by rewrite lookup_empty in Hm.
    + rewrite lookup_insert_ne in Hg by done. by eapply Hn.
Qed.

Lemma topic_map_elem ms t id :
  id ∈ default ∅ (topic_map ms !! t) <-> exists mid tps, ms !! mid = Some tps /\ (t, id) ∈ keys_of tps.
Proof.
  unfold topic_map.
  assert (forall (l : list (string * list TopicPartitions)) (tm : gmap string (gset Z)),
    id ∈ default ∅ (fold_left (fun tm kv => fold_left note_parts kv.2 tm) l tm !! t) <->
    id ∈ default ∅ (tm !! t) \/ exists mid tps, (mid, tps) ∈ l /\ (t, id) ∈ keys_of tps) as Hl.
  { induction l as [|[mid tps] l IH]; intros tm; cbn [fold_left fst snd]; [set_solver|].
    rewrite IH, note_all_elem. set_solver. }
  rewrite Hl, lookup_empty. cbn [default]. setoid_rewrite elem_of_map_to_list. set_solver.
Qed.

Lemma elem_of_sorted_ids s id : id ∈ sorted_ids s <-> id ∈ s.
Proof. unfold sorted_ids. rewrite merge_sort_Permutation. apply elem_of_elements. Qed.

Lemma topic_listed (all : gmap string (gset Z)) t id :
  id ∈ default ∅ (all !! t) -> t ∈ map fst (map_to_list all).
Proof.
  destruct (all !! t) as [s|] eqn:Eq; [|set_solver]. intros _.
  apply list_elem_of_fmap. exists (t, s). by rewrite elem_of_map_to_list.
Qed.

(** ** Reading the answers *)

(** A loop over topics and partitions that keeps some entries. *)
Section kept.
Context {T P : Type} (parts : T -> list P) (skip : P -> bool) (key : T -> P -> ownedKey) (val : P -> Z).

Definition kept (m : gmap ownedKey Z) (t : T) : gmap ownedKey Z :=
  fold_left (fun m p => if skip p then m else <[key t p := val p]> m) (parts t) m.

Definition kept_entry (topics : list T) (k : ownedKey) (o : Z) : Prop :=
  exists t p, t ∈ topics /\ p ∈ parts t /\ skip p = false /\ key t p = k /\ val p = o.

Lemma kept_sound topics k o : fold_left kept topics ∅ !! k = Some o -> kept_entry topics k o.
Proof.
  apply (fold_left_inv (fun m => m !! k = Some o -> kept_entry topics k o)); [by rewrite lookup_empty|].
  intros m t Ht Hm. unfold kept. apply (fold_left_inv (fun m => m !! k = Some o -> kept_entry topics k o)); [done|].
  intros m' p Hp Hm'. destruct (skip p) eqn:Es; [done|].
  intros [[Hk Hv]|[_ ?]]%lookup_insert_Some; [by exists t, p|by apply Hm'].
Qed.

Lemma kept_complete topics k o : kept_entry topics k o -> is_Some (fold_left kept topics ∅ !! k).
Proof.
  intros (t & p & Ht & Hp & Hs & Hk & _).
  assert (forall m t', is_Some (m !! k) -> is_Some (kept m t' !! k)) as Hstay.
  { intros m t' Hm. unfold kept. apply (fold_left_inv (fun m => is_Some (m !! k))); [done|].
    intros m' p' _ Hm'. destruct (skip p'); [done|]. apply lookup_insert_is_Some'. by right. }
  eapply (fold_left_reach (fun _ => True)); [exact Ht|done|done| |intros m t' _; apply Hstay].
  intros m _. unfold kept. eapply (fold_left_reach (fun _ => True)); [exact Hp|done|done| |].
  - intros m' _. rewrite Hs, Hk, lookup_insert_eq. by eexists.
  - intros m' p' _ Hm'. destruct (skip p'); [done|]. apply lookup_insert_is_Some'. by right.
Qed.

End kept.

Lemma read_hwm_kept lo :
  read_hwm lo = fold_left (kept LTR_Partitions (fun pr => negb (LR_ErrorCode pr =? 0))
    (fun t pr => (LTR_Name t, LR_PartitionIndex pr)) LR_Offset) (LS_Topics lo) ∅.
Proof. reflexivity. Qed.

Lemma read_group_kept g :
  read_group_offsets g =
  fold_left (kept OTR_Partitions (fun pr => negb (OP_ErrorCode pr =? 0) || (OP_CommittedOffset pr <? 0))
    (fun t pr => (OTR_Name t, OP_PartitionIndex pr)) OP_CommittedOffset) (OGR_Topics g) ∅.
Proof. reflexivity. Qed.

Lemma end_said_kept lo t id o :
  end_said lo t id o <-> kept_entry LTR_Partitions (fun pr => negb (LR_ErrorCode pr =? 0))
    (fun t pr => (LTR_Name t, LR_PartitionIndex pr)) LR_Offset (LS_Topics lo) (t, id) o.
Proof.
  split.
  - intros (lt & pr & H1 & H2 & H3 & H4 & H5 & H6). exists lt, pr. rewrite H5. subst. by split_and!.
  - intros (lt & pr & H1 & H2 & H3 & [= H4 H5] & H6). exists lt, pr. apply negb_false_iff, Z.eqb_eq in H3. by split_and!.
Qed.

Lemma group_said_kept g t id o :
  group_said g t id o <->
  kept_entry OTR_Partitions (fun pr => negb (OP_ErrorCode pr =? 0) || (OP_CommittedOffset pr <? 0))
    (fun t pr => (OTR_Name t, OP_PartitionIndex pr)) OP_CommittedOffset (OGR_Topics g) (t, id) o.
Proof.
  split.
  - intros (ot & pr & H1 & H2 & H3 & H4 & H5 & H6 & H7). exists ot, pr. rewrite H5.
    assert ((OP_CommittedOffset pr <? 0) = false) as -> by (apply Z.ltb_ge; lia). subst. by split_and!.
  - intros (ot & pr & H1 & H2 & [H3 H3']%orb_false_iff & [= H4 H5] & H6). exists ot, pr.
    apply negb_false_iff, Z.eqb_eq in H3. apply Z.ltb_ge in H3'. subst. by split_and!.
Qed.

(** What a truthful response says is what is read from it. *)
Lemma read_hwm_spec lo (e : option Z) t id :
  (forall o, end_said lo t id o <-> e = Some o) -> read_hwm lo !! (t, id) = e.
Proof.
  intros He. rewrite read_hwm_kept. apply option_eq. intros o. split.
  - intros Hk%kept_sound%end_said_kept. by apply He.
  - intros Ho. pose proof Ho as [o' Ho']%He%end_said_kept%kept_complete. rewrite Ho'.
    apply kept_sound, end_said_kept, He in Ho'. congruence.
Qed.

Lemma read_group_spec g (e : option Z) t id :
  (forall o, group_said g t id o <-> e = Some o) -> read_group_offsets g !! (t, id) = e.
Proof.
  intros He. rewrite read_group_kept. apply option_eq. intros o. split.
  - intros Hk%kept_sound%group_said_kept. by apply He.
  - intros Ho. pose proof Ho as [o' Ho']%He%group_said_kept%kept_complete. rewrite Ho'.
    apply kept_sound, group_said_kept, He in Ho'. congruence.
Qed.

(** The table of a group without an error is its own. *)
Lemma read_committed_group resp g :
  NoDup (map OGR_GroupID (OR_Groups resp)) -> g ∈ OR_Groups resp -> OGR_ErrorCode g = 0 ->
  fst (read_committed (E := E) resp) !! OGR_GroupID g = Some (read_group_offsets g).
Proof.
  intros Hnd Hg He. unfold read_committed.
  eapply (fold_left_reach (fun _ => True) (fun acc => fst acc !! OGR_GroupID g = Some (read_group_offsets g)));
    [exact Hg|done|done| |].
  - intros acc _. rewrite He. cbn [negb Z.eqb fst]. apply lookup_insert_eq.
  - intros acc g' Hg' Hst. destruct (negb _) eqn:Ec; cbn [fst]; [done|].
    destruct (decide (OGR_GroupID g' = OGR_GroupID g)) as [Eq|Hne].
    + rewrite (nodup_key _ _ _ _ Hnd Hg' Hg Eq). apply lookup_insert_eq.
    + by rewrite lookup_insert_ne.
Qed.

(** A group that is not answered, or with an error, has no table. *)
Lemma read_committed_none resp gid :
  (forall g, g ∈ OR_Groups resp -> OGR_GroupID g = gid -> OGR_ErrorCode g <> 0) ->
  fst (read_committed (E := E) resp) !! gid = None.
Proof.
  intros Hno. unfold read_committed. apply (fold_left_inv (fun acc => fst acc !! gid = None)); [apply lookup_empty|].
  intros acc g Hg Hst. destruct (Z.eqb_spec (OGR_ErrorCode g) 0) as [E0|]; cbn [negb fst]; [|done].
  rewrite lookup_insert_ne; [done|]. intros Eq. by apply (Hno g).
Qed.

Lemma read_committed_spec resp gid (e : option Z) t id :
  NoDup (map OGR_GroupID (OR_Groups resp)) -> (forall o, commit_said resp gid t id o <-> e = Some o) ->
  default ∅ (fst (read_committed (E := E) resp) !! gid) !! (t, id) = e.
Proof.
  intros Hnd He.
  destruct (decide (Exists (fun g => OGR_GroupID g = gid /\ OGR_ErrorCode g = 0) (OR_Groups resp))) as [Hex|Hno].
  - apply Exists_exists in Hex as (g & Hg & <- & Hc). rewrite read_committed_group by done. cbn [default].
    apply read_group_spec. intros o. rewrite <- He. split.
    + intros Hs. by exists g.
    + intros (g' & Hg' & Eq & _ & Hs). by rewrite (nodup_key _ _ _ _ Hnd Hg Hg' (eq_sym Eq)).
  - rewrite read_committed_none; cbn [default].
    + rewrite lookup_empty. destruct e as [o|]; [|done]. destruct (proj2 (He o) eq_refl) as (g & Hg & Eq & Hc & _).
      destruct Hno. apply Exists_exists. eauto.
    + intros g Hg Eq Hc. apply Hno, Exists_exists. eauto.
Qed.

(** ** Asking *)

Lemma lo_asks (all : gmap string (gset Z)) t id :
  id ∈ default ∅ (all !! t) -> end_asked (lo_request all) t id.
Proof.
  intros Hid. eexists (mkListOffsetsTopic t _), (mkListOffsetsPartition id (-1) OffsetLatest).
  split; [|split; [reflexivity|split; [|by split]]].
  - apply list_elem_of_fmap. exists t. split; [reflexivity|]. rewrite po_topics_perm. by eapply topic_listed.
  - cbn [LT_Partitions]. apply list_elem_of_fmap. exists id. split; [reflexivity|]. by apply elem_of_sorted_ids.
Qed.

Lemma of_asks (owned : Owned) gid ms mid tps t id :
  owned !! gid = Some ms -> ms !! mid = Some tps -> (t, id) ∈ keys_of tps ->
  commit_asked (of_request owned) gid t id.
Proof.
  intros Hg Hm Hk. assert (id ∈ default ∅ (topic_map ms !! t)) as Hn by (apply topic_map_elem; eauto).
  eexists (mkOffsetFetchGroup gid _ false), (mkOffsetFetchTopicReq t _).
  split; [|split; [reflexivity|split; [reflexivity|split; [|split; [reflexivity|]]]]].
  - apply list_elem_of_fmap. exists gid. split; [reflexivity|]. rewrite po_groups_perm.
    apply list_elem_of_fmap. exists (gid, ms). by rewrite elem_of_map_to_list.
  - cbn [OG_Topics]. apply list_elem_of_fmap. exists t. split; [reflexivity|].
    rewrite po_group_topics_perm, Hg. cbn [default]. by eapply topic_listed.
  - cbn [OT_PartitionIndexes]. rewrite elem_of_sorted_ids, Hg. done.
Qed.

Lemma of_groups_nodup (owned : Owned) : NoDup (map OG_GroupID (OQ_Groups (of_request owned))).
Proof.
  unfold of_request. cbn [OQ_Groups]. rewrite map_map. cbn [OG_GroupID]. rewrite map_id, po_groups_perm.
  apply NoDup_fst_map_to_list.
Qed.

Section truthful.
Context (ends : string -> Z -> option Z) (commits : string -> string -> Z -> option Z) `{!Truthful ends commits}.

(** What a tick holds to be the end of a partition it knows of. *)
Lemma fetch_hwm_spec groups all t id :
  id ∈ default ∅ (all !! t) -> fst (fetch_hwm groups all) !! (t, id) = ends t id.
Proof.
  intros Hid. unfold fetch_hwm. destruct (decide (size all = 0%nat)) as [E0|_].
  { apply map_size_empty_inv in E0 as ->. rewrite lookup_empty in Hid. set_solver. }
  destruct (truthful_ends (lo_request all)) as (resp & -> & Hs). cbn [fst]. apply read_hwm_spec.
  intros o. rewrite Hs. split; [by intros [_ ?]|]. intros Ho. split; [by apply lo_asks|done].
Qed.

(** And what a group has committed for a partition a member owns. *)
Lemma fetch_committed_spec groups owned gid ms mid tps t id :
  owned !! gid = Some ms -> ms !! mid = Some tps -> (t, id) ∈ keys_of tps ->
  default ∅ (fst (fetch_committed groups owned) !! gid) !! (t, id) = commits gid t id.
Proof.
  intros Hg Hm Hk. unfold fetch_committed. destruct (decide (size owned = 0%nat)) as [E0|_].
  { apply map_size_empty_inv in E0 as ->. by rewrite lookup_empty in Hg. }
  destruct (truthful_commits (of_request owned) (of_groups_nodup owned)) as (resp & -> & Hnd & Hs).
  apply read_committed_spec; [done|]. intros o. rewrite Hs. split; [by intros [_ ?]|].
  intros Ho. split; [by eapply of_asks|done].
Qed.

Lemma tick_lag_true groups dg gid ms mid tps :
  ownedByGroup (describe (E := E) dg) !! gid = Some ms -> ms !! mid = Some tps ->
  total_lag (fst (fetch_hwm groups (allParts (describe (E := E) dg))))
    (default ∅ (fst (fetch_committed groups (ownedByGroup (describe (E := E) dg))) !! gid)) tps =
  group_lag ends (commits gid) tps.
Proof.
  intros Hg Hm. unfold total_lag, group_lag. f_equal. apply map_ext_in. intros [t id] Hk%list_elem_of_In.
  unfold part_lag, true_lag. cbn [fst snd]. rewrite (fetch_committed_spec groups _ gid ms mid tps) by done.
  by rewrite fetch_hwm_spec by (by eapply describe_noted).
Qed.

End truthful.

(** The published load of a member, in terms of the tables of the tick. *)
Lemma tick_member_load now groups h dg g m a :
  groups <> [] -> C_DescribeGroups (mkDescribeGroupsRequest groups false) = inr dg ->
  NoDup (map DG_GroupID (DR_Groups dg)) -> g ∈ DR_Groups dg -> DG_ErrorCode g = 0 ->
  NoDup (map DM_MemberID (DG_Members g)) -> m ∈ DG_Members g ->
  DecodeAssignment (DM_MemberAssignment m) = Ok a ->
  let d := describe (E := E) dg in
  let hwm := fst (fetch_hwm groups (allParts d)) in
  let commit := default ∅ (fst (fetch_committed groups (ownedByGroup d)) !! DG_GroupID g) in
  total_lag hwm commit (ASG_Partitions a) < 2 ^ 63 ->
  exists s gl, HolderGet (fst (tick false now groups h)) = Some s /\
    LS_Groups s !! DG_GroupID g = Some gl /\
    GL_Members gl !! DM_MemberID m =
      Some (mkMemberLoad (DM_MemberID m) (len (keys_of (ASG_Partitions a)))
              (total_lag hwm commit (ASG_Partitions a)) 0) /\
    lag_in (Some s) (DG_GroupID g) (DM_MemberID m) = total_lag hwm commit (ASG_Partitions a).
Proof.
  intros Hne Hdg Hnd Hg He Hndm Hm Ha. cbv zeta.
  destruct (described_entry dg g m a Hnd Hg He Hndm Hm Ha) as (ms & Hms & Hmid).
  unfold tick. destruct (Z.eqb_spec (len groups) 0) as [E0|_].
  { destruct groups; [done|]. exfalso. len_lia. }
  rewrite Hdg. cbv zeta. destruct (fetch_hwm _ _) as [hwm r1].
  destruct (fetch_committed _ _) as [committed r2]. cbn [fst]. intros Hb.
  eexists _, _. split; [done|].
  assert (LS_Groups (load_snapshot now hwm committed (ownedByGroup (describe (E := E) dg))) !! DG_GroupID g =
          Some (group_load hwm committed (DG_GroupID g) ms)) as Hl.
  { cbn [LS_Groups load_snapshot]. rewrite map_lookup_imap, Hms. done. }
  assert (GL_Members (group_load hwm committed (DG_GroupID g) ms) !! DM_MemberID m =
          Some (mkMemberLoad (DM_MemberID m) (len (keys_of (ASG_Partitions a)))
            (total_lag hwm (default ∅ (committed !! DG_GroupID g)) (ASG_Partitions a)) 0)) as Hgm.
  { cbn [GL_Members group_load]. rewrite map_lookup_imap, Hmid. cbn. by rewrite member_load_spec. }
  split; [exact Hl|]. split; [exact Hgm|]. unfold lag_in. by rewrite Hl, Hgm.
Qed.

End facts.

(** ** Properties *)

(** C33: the snapshot says what is true of the cluster.  Against a coordinator
    that answers ListOffsets and OffsetFetch truthfully for the partitions it is
    asked about (an entry with an error code, or an offset of -1, saying
    nothing): for a member of a group that was described without an error, whose
    assignment can be read, the published load counts exactly the partitions of
    the assignment, and the lag the planner will read is the sum over them of
    how far what the group has committed is behind the end of the log, nothing
    where one of the two is unknown, whatever happened to other groups and
    members, as long as that sum fits an [int64]. *)
Theorem poll_reports_lag {E} `{Coordinator E} {PO : PollOrder} `{!PollOrderOk PO} ends commits
    `{!Truthful ends commits} now groups h dg g m a :
  groups <> [] -> C_DescribeGroups (mkDescribeGroupsRequest groups false) = inr dg ->
  NoDup (map DG_GroupID (DR_Groups dg)) -> g ∈ DR_Groups dg -> DG_ErrorCode g = 0 ->
  NoDup (map DM_MemberID (DG_Members g)) -> m ∈ DG_Members g ->
  DecodeAssignment (DM_MemberAssignment m) = Ok a ->
  let lag := group_lag ends (commits (DG_GroupID g)) (ASG_Partitions a) in
  lag < 2 ^ 63 ->
  exists s gl, HolderGet (fst (tick false now groups h)) = Some s /\
    LS_Groups s !! DG_GroupID g = Some gl /\
    GL_Members gl !! DM_MemberID m =
      Some (mkMemberLoad (DM_MemberID m) (len (keys_of (ASG_Partitions a))) lag 0) /\
    lag_in (Some s) (DG_GroupID g) (DM_MemberID m) = lag.
Proof.
  intros Hne Hdg Hnd Hg He Hndm Hm Ha. cbv zeta. intros Hb.
  destruct (described_entry (E := E) dg g m a Hnd Hg He Hndm Hm Ha) as (ms & Hms & Hmid).
  pose proof (tick_lag_true ends commits groups dg _ _ _ _ Hms Hmid) as Hlag. rewrite <- Hlag in Hb |- *.
  by apply tick_member_load.
Qed.

(** Nothing is left out of the questions: every partition that some member
    of a described group owns is asked about in the ListOffsets request, and in
    the group's part of the OffsetFetch request; no topic is asked about twice
    and the partitions of a topic come in strictly ascending order. *)
Theorem poll_asks_for_everything {E} `{Coordinator E} {PO : PollOrder} `{!PollOrderOk PO}
    dg gid ms mid tps t id :
  let d := describe (E := E) dg in
  ownedByGroup d !! gid = Some ms -> ms !! mid = Some tps -> (t, id) ∈ keys_of tps ->
  (exists lt, lt ∈ LQ_Topics (lo_request (allParts d)) /\ LT_Name lt = t /\
     id ∈ map LP_PartitionIndex (LT_Partitions lt)) /\
  (exists og ot, og ∈ OQ_Groups (of_request (ownedByGroup d)) /\ OG_GroupID og = gid /\
     OG_TopicsNull og = false /\ ot ∈ OG_Topics og /\ OT_Name ot = t /\ id ∈ OT_PartitionIndexes ot) /\
  NoDup (map LT_Name (LQ_Topics (lo_request (allParts d)))) /\
  Forall (fun lt => Sorted Z.le (map LP_PartitionIndex (LT_Partitions lt)) /\
                    NoDup (map LP_PartitionIndex (LT_Partitions lt)))
    (LQ_Topics (lo_request (allParts d))).
Proof.
  cbv zeta. intros Hg Hm Hk.
  assert (forall s, map LP_PartitionIndex (map (fun id => mkListOffsetsPartition id (-1) OffsetLatest) (sorted_ids s))
    = sorted_ids s) as Hids by (intros s; rewrite map_map; cbn; apply map_id).
  split_and!.
  - pose proof (describe_noted (E := E) dg _ _ _ _ _ _ Hg Hm Hk) as Hn. eexists. split.
    + apply list_elem_of_fmap. exists t. split; [done|]. rewrite po_topics_perm. by eapply topic_listed.
    + split; [done|]. cbn [LT_Partitions]. by rewrite Hids, elem_of_sorted_ids.
  - by eapply of_asks.
  - unfold lo_request. cbn [LQ_Topics]. rewrite map_map. cbn [LT_Name]. rewrite map_id, po_topics_perm.
    apply NoDup_fst_map_to_list.
  - cbn [LQ_Topics lo_request]. apply Forall_map, Forall_forall. intros t' _. cbn [LT_Partitions].
    rewrite Hids. unfold sorted_ids. split; [apply Sorted_merge_sort, _|].
    rewrite merge_sort_Permutation. apply NoDup_elements.
Qed.

(** When DescribeGroups fails the snapshot in place stays, and every group is
    told. *)
Lemma failed_poll_keeps_snapshot {E} `{Coordinator E} {PO : PollOrder} now groups h e s :
  groups <> [] -> C_DescribeGroups (mkDescribeGroupsRequest groups false) = inl e ->
  HolderGet h = Some s ->
  tick false now groups h = (h, report_all groups e).
Proof.
  intros Hne He Hs. unfold tick. destruct (Z.eqb_spec (len groups) 0) as [E0|_].
  { destruct groups; [done|]. exfalso. len_lia. }
  by rewrite He, Hs.
Qed.

(** The registry hands out exactly the groups added and not removed since,
    each once, in lexical order. *)
Theorem registry_groups r g :
  (forall g', g' ∈ RegGroups (RegAdd r g) <-> g' = g \/ g' ∈ RegGroups r) /\
  (forall g', g' ∈ RegGroups (RegRemove r g) <-> g' <> g /\ g' ∈ RegGroups r) /\
  NoDup (RegGroups r) /\ Sorted String.le (RegGroups r).
Proof.
  unfold RegGroups. split_and!.
  - intros g'. rewrite !merge_sort_Permutation, !elem_of_elements. cbn. set_solver.
  - intros g'. rewrite !merge_sort_Permutation, !elem_of_elements. cbn. set_solver.
  - rewrite merge_sort_Permutation. apply NoDup_elements.
  - apply Sorted_merge_sort, _.
Qed.

(** ** A concrete tick *)

Definition listed_poll : PollOrder := {| po_topics ks := ks; po_groups ks := ks; po_group_topics _ ks := ks |}.
#[global] Instance listed_poll_ok : PollOrderOk listed_poll.
Proof. by split. Qed.

Definition poll_assignment : Assignment := mkAssignment 0 [mkTopicPartitions "t" [0; 1]] [] true "" false false.
Definition poll_member : DescribedGroupMember :=
  mkDescribedGroupMember "m1" "" true "c" "h" [] (AppendAssignment [] poll_assignment).
Definition poll_group : DescribedGroup := mkDescribedGroup 0 "g" "Stable" "consumer" "range" [poll_member] 0.
Definition failed_group : DescribedGroup := mkDescribedGroup 16 "other" "" "" "" [] 0.
Definition poll_groups : DescribeGroupsResponse := mkDescribeGroupsResponse 0 [failed_group; poll_group].

(** A coordinator that answers from given ends and commits: unknown partitions
    with an error code, unknown commits with -1. *)
Section honest.
Context (dg : DescribeGroupsResponse) (ends : string -> Z -> option Z) (commits : string -> string -> Z -> option Z).

Definition honest_end (t : string) (lp : ListOffsetsPartition) : ListOffsetsPartitionResp :=
  match ends t (LP_PartitionIndex lp), LP_Timestamp lp =? OffsetLatest with
  | Some o, true => mkListOffsetsPartitionResp (LP_PartitionIndex lp) 0 (-1) o (-1)
  | _, _ => mkListOffsetsPartitionResp (LP_PartitionIndex lp) 3 (-1) (-1) (-1)
  end.

Definition honest_commit (gid t : string) (id : Z) : OffsetFetchPartitionResp :=
  mkOffsetFetchPartitionResp id (default (-1) (commits gid t id)) (-1) "" true 0.

Definition honest_group (og : OffsetFetchGroup) : OffsetFetchGroupResp :=
  mkOffsetFetchGroupResp (OG_GroupID og)
    (if OG_TopicsNull og then [] else
     map (fun ot => mkOffsetFetchTopicResp (OT_Name ot)
                      (map (honest_commit (OG_GroupID og) (OT_Name ot)) (OT_PartitionIndexes ot))) (OG_Topics og)) 0.

Definition honest : Coordinator unit := {|
  C_DescribeGroups _ := inr dg;
  C_OffsetFetch req := inr (mkOffsetFetchResponse 0 (map honest_group (OQ_Groups req)));
  C_ListOffsets req := inr (mkListOffsetsResponse 0
    (map (fun lt => mkListOffsetsTopicResp (LT_Name lt) (map (honest_end (LT_Name lt)) (LT_Partitions lt)))
       (LQ_Topics req)));
|}.

Lemma honest_truthful :
  (forall gid t id o, commits gid t id = Some o -> 0 <= o) -> @Truthful unit honest ends commits.
Proof.
  intros Hc. split.
  - intros req. eexists. split; [reflexivity|]. intros t id o. split.
    + intros (lt' & pr & Hlt & <- & Hpr & <- & He & <-). cbn [LS_Topics] in Hlt.
      apply list_elem_of_fmap in Hlt as (lt & -> & Hlt). cbn [LTR_Name LTR_Partitions] in *.
      apply list_elem_of_fmap in Hpr as (lp & -> & Hlp). unfold honest_end in *.
      destruct (ends _ _) as [e|] eqn:Ee; [|done].
      destruct (Z.eqb_spec (LP_Timestamp lp) OffsetLatest) as [Ht|]; [|done]. split; [|done]. by exists lt, lp.
    + intros ((lt & lp & Hlt & <- & Hlp & <- & Ht) & He). eexists _, (honest_end (LT_Name lt) lp). split_and!.
      * apply list_elem_of_fmap. exists lt. split; [reflexivity|done].
      * done.
      * apply list_elem_of_fmap. by exists lp.
      * unfold honest_end. by rewrite He, Ht.
      * unfold honest_end. by rewrite He, Ht.
      * unfold honest_end. by rewrite He, Ht.
  - intros req Hnd. eexists. split; [reflexivity|]. cbn [OR_Groups]. split; [by rewrite map_map|].
    intros gid t id o. split.
    + intros (g & Hg & <- & _ & ot' & pr & Hot & <- & Hpr & <- & _ & <- & Ho).
      apply list_elem_of_fmap in Hg as (og & -> & Hg). unfold honest_group in *. cbn [OGR_GroupID OGR_Topics] in *.
      destruct (OG_TopicsNull og) eqn:En; [by apply elem_of_nil in Hot|].
      apply list_elem_of_fmap in Hot as (ot & -> & Hot). cbn [OTR_Name OTR_Partitions] in *.
      apply list_elem_of_fmap in Hpr as (i & -> & Hi). cbn [honest_commit OP_PartitionIndex OP_CommittedOffset] in *.
      split; [by exists og, ot|]. by destruct (commits _ _ i).
    + intros ((og & ot & Hg & <- & En & Hot & <- & Hi) & Ho). exists (honest_group og).
      split; [by apply list_elem_of_fmap_2|]. split; [done|]. split; [done|].
      eexists _, (honest_commit (OG_GroupID og) (OT_Name ot) id). cbn [honest_group OGR_Topics]. rewrite En. split_and!.
      * apply list_elem_of_fmap. exists ot. split; [reflexivity|done].
      * done.
      * cbn [OTR_Partitions]. by apply list_elem_of_fmap_2.
      * done.
      * done.
      * cbn. by rewrite Ho.
      * by eapply Hc.
Qed.

End honest.

(** Partition 0 of [t] ends at 100 with 40 committed, partition 1 at 7 with
    nothing committed. *)
Definition sample_ends (t : string) (id : Z) : option Z := if id =? 0 then Some 100 else if id =? 1 then Some 7 else None.
Definition sample_commits (gid t : string) (id : Z) : option Z := if id =? 0 then Some 40 else None.

Lemma sample_commits_nonneg gid t id o : sample_commits gid t id = Some o -> 0 <= o.
Proof. unfold sample_commits. destruct (id =? 0); [by intros [= <-]|done]. Qed.

Definition sample_coordinator : Coordinator unit := honest poll_groups sample_ends sample_commits.

Lemma poll_reports_lag_witness :
  exists s gl,
    HolderGet (fst (@tick unit sample_coordinator listed_poll false 9 ["g"; "other"]%string (mkHolder None))) = Some s /\
    LS_Groups s !! "g"%string = Some gl /\
    GL_Members gl !! "m1"%string = Some (mkMemberLoad "m1" 2 60 0) /\
    lag_in (Some s) "g" "m1" = 60.
Proof.
  apply (@poll_reports_lag unit sample_coordinator listed_poll listed_poll_ok sample_ends sample_commits
    (honest_truthful poll_groups sample_ends sample_commits sample_commits_nonneg) 9 ["g"; "other"]%string (mkHolder None)
    poll_groups poll_group poll_member poll_assignment).
  - discriminate.
  - reflexivity.
  - apply (bool_decide_unpack _). vm_compute. exact I.
  - right. left.
  - reflexivity.
  - apply (bool_decide_unpack _). vm_compute. exact I.
  - left.
  - vm_compute. reflexivity.
  - vm_compute. reflexivity.
Defined.

Lemma poll_asks_for_everything_witness :
  let d := @describe unit poll_groups in
  (exists lt, lt ∈ LQ_Topics (@lo_request listed_poll (allParts d)) /\ LT_Name lt = "t"%string /\
     1 ∈ map LP_PartitionIndex (LT_Partitions lt)) /\
  (exists og ot, og ∈ OQ_Groups (@of_request listed_poll (ownedByGroup d)) /\ OG_GroupID og = "g"%string /\
     OG_TopicsNull og = false /\ ot ∈ OG_Topics og /\ OT_Name ot = "t"%string /\ 1 ∈ OT_PartitionIndexes ot) /\
  NoDup (map LT_Name (LQ_Topics (@lo_request listed_poll (allParts d)))) /\
  Forall (fun lt => Sorted Z.le (map LP_PartitionIndex (LT_Partitions lt)) /\
                    NoDup (map LP_PartitionIndex (LT_Partitions lt)))
    (LQ_Topics (@lo_request listed_poll (allParts d))).
Proof.
  apply (@poll_asks_for_everything unit sample_coordinator listed_poll listed_poll_ok poll_groups "g"
    {["m1"%string := [mkTopicPartitions "t" [0; 1]]]} "m1" [mkTopicPartitions "t" [0; 1]] "t" 1).
  - vm_compute. reflexivity.
  - vm_compute. reflexivity.
  - vm_compute. right. left.
Defined.
