(* ===== verification/Listener.v ===== *)
(** * The accept loop: internal/proxy/listener.go

    [Serve] as a transition system: the loop's position, the back-off delay,
    the tokens in the semaphore, and the connections being served.  What the
    network does (accept, refuse, dial, end a connection) and when the context
    is cancelled is open. *)

From stdpp Require Import base numbers list relations.
From Stdlib Require Import ZArith Lia.
From S2P Require Import Prelude.

(** ** The back-off *)

Definition Millisecond : Z := 1000000.
Definition maxDelay : Z := 1000000000.

(** The delay after one more transient error. *)
Definition next_delay (acceptDelay : Z) : Z :=
  let d := if acceptDelay =? 0 then 5 * Millisecond else acceptDelay * 2 in
  if maxDelay <? d then maxDelay else d.

(** ** The loop *)

Inductive position :=
| Accepting      (** in [Listen.Accept] *)
| BackingOff     (** in the [select] on [time.After] *)
| Admitting      (** a client accepted, at the semaphore *)
| Dialing        (** in [DialBroker] *)
| Returned (ok : bool).

Record LState := mkLState {
  pos : position;
  acceptDelay : Z;
  sem : Z;          (** tokens in the channel, 0 without a semaphore *)
  live : Z;         (** goroutines serving a connection *)
  accepted : Z;     (** clients accepted so far *)
  refused : Z;      (** clients closed by the loop *)
  ended : Z;        (** connections that ran to their end *)
}.

Definition serve_start : LState := mkLState Accepting 0 0 0 0 0 0.

(** [if sem != nil { <-sem }] *)
Definition give_back (max n : Z) : Z := if 0 <? max then n - 1 else n.

Inductive serve_step (max : Z) : LState -> LState -> Prop :=
(** [Accept] returns a client: the delay is reset. *)
| accept_client d s l a r e :
    serve_step max (mkLState Accepting d s l a r e) (mkLState Admitting 0 s l (a + 1) r e)
(** [Accept] fails: the listener was closed, a transient error, another error. *)
| accept_closed d s l a r e :
    serve_step max (mkLState Accepting d s l a r e) (mkLState (Returned true) d s l a r e)
| accept_transient d s l a r e :
    serve_step max (mkLState Accepting d s l a r e) (mkLState BackingOff (next_delay d) s l a r e)
| accept_fails d s l a r e :
    serve_step max (mkLState Accepting d s l a r e) (mkLState (Returned false) d s l a r e)
| backoff_over d s l a r e :
    serve_step max (mkLState BackingOff d s l a r e) (mkLState Accepting d s l a r e)
| backoff_cancelled d s l a r e :
    serve_step max (mkLState BackingOff d s l a r e) (mkLState (Returned true) d s l a r e)
(** The semaphore: none, a token fits, or the context ends first. *)
| admit_unlimited d s l a r e :
    max <= 0 -> serve_step max (mkLState Admitting d s l a r e) (mkLState Dialing d s l a r e)
| admit_token d s l a r e :
    0 < max -> s < max ->
    serve_step max (mkLState Admitting d s l a r e) (mkLState Dialing d (s + 1) l a r e)
| admit_cancelled d s l a r e :
    0 < max ->
    serve_step max (mkLState Admitting d s l a r e) (mkLState (Returned true) d s l a (r + 1) e)
(** [DialBroker] fails, or the connection gets its goroutine. *)
| dial_fails d s l a r e :
    serve_step max (mkLState Dialing d s l a r e) (mkLState Accepting d (give_back max s) l a (r + 1) e)
| dial_connects d s l a r e :
    serve_step max (mkLState Dialing d s l a r e) (mkLState Accepting d s (l + 1) a r e)
(** A goroutine ends, whatever the loop does, also after [Serve]'s loop. *)
| conn_ends p d s l a r e :
    0 < l ->
    serve_step max (mkLState p d s l a r e) (mkLState p d (give_back max s) (l - 1) a r (e + 1)).

(** ** The invariant *)

(** A token in hand or not: the loop holds one while it dials. *)
Definition in_hand (p : position) : Z := match p with Dialing => 1 | _ => 0 end.

(** A client accepted and not yet placed. *)
Definition on_door (p : position) : Z := match p with Admitting | Dialing => 1 | _ => 0 end.

Definition serve_ok (max : Z) (s : LState) : Prop :=
  0 <= live s /\ 0 <= refused s /\ 0 <= ended s /\
  (0 < max -> sem s = live s + in_hand (pos s) /\ sem s <= max) /\
  accepted s = live s + refused s + ended s + on_door (pos s) /\
  (acceptDelay s = 0 \/ 5 * Millisecond <= acceptDelay s <= maxDelay).

Lemma next_delay_range d :
  d = 0 \/ 5 * Millisecond <= d <= maxDelay -> 5 * Millisecond <= next_delay d <= maxDelay.
Proof.
  unfold next_delay, Millisecond, maxDelay. intros Hd. destr_ltb; lia.
Qed.

Lemma serve_step_ok max s s' : serve_step max s s' -> serve_ok max s -> serve_ok max s'.
Proof.
  intros Hs (H1 & H2 & H3 & H4 & H5 & H6). unfold serve_ok in *.
  destruct Hs as [| |d| | | | | | | | |p]; cbn [pos acceptDelay sem live accepted refused ended] in *;
    try pose proof (next_delay_range d H6);
    (split_and!; [lia|lia|lia| | |lia]; [|cbn [on_door] in *; lia]);
    intros Hm; destruct (H4 Hm); cbn [in_hand] in *; unfold give_back; destr_ltb; lia.
Qed.

Lemma serve_reach_ok max s : rtc (serve_step max) serve_start s -> serve_ok max s.
Proof.
  apply (rtc_ind_r (serve_ok max)).
  - unfold serve_ok. cbn. lia.
  - intros s1 s2 _ Hs. by apply serve_step_ok.
Qed.

(** ** Properties *)

(** C35: the accept loop keeps its promises in every reachable state: with a cap,
    never more connections are live than the cap allows; every accepted client
    is accounted for (being served, served, closed, or the one at the door), so
    that no socket is forgotten; and the back-off delay is nothing or between
    5 ms and 1 s. *)
Theorem listener_invariant max s :
  rtc (serve_step max) serve_start s ->
  (0 < max -> live s <= max) /\
  accepted s = live s + refused s + ended s + on_door (pos s) /\
  (acceptDelay s = 0 \/ 5 * Millisecond <= acceptDelay s <= maxDelay).
Proof.
  intros (H1 & _ & _ & H4 & H5 & H6)%serve_reach_ok. split_and!; [|done|done].
  intros Hm. destruct (H4 Hm) as [E Hle]. destruct (pos s); cbn in E; lia.
Qed.

Definition full_house : LState := mkLState Admitting 0 1 1 2 0 0.

Lemma full_house_reached : rtc (serve_step 1) serve_start full_house.
Proof.
  eapply rtc_l; [apply accept_client|]. eapply rtc_l; [by apply admit_token|].
  eapply rtc_l; [apply dial_connects|]. eapply rtc_l; [apply accept_client|]. apply rtc_refl.
Qed.

Lemma listener_invariant_witness :
  (0 < 1 -> live full_house <= 1) /\
  accepted full_house = live full_house + refused full_house + ended full_house + on_door (pos full_house) /\
  (acceptDelay full_house = 0 \/ 5 * Millisecond <= acceptDelay full_house <= maxDelay).
Proof. apply (listener_invariant 1 full_house), full_house_reached. Defined.

(** The delay after [n] transient errors in a row. *)
Definition delay_after (n : nat) : Z := Nat.iter n next_delay 0.

(** The back-off is exponential with a ceiling: the [n]-th transient error
    in a row waits [5 ms * 2^(n-1)], or one second where that is more. *)
Theorem backoff_exponential n :
  delay_after (S n) = Z.min (5 * Millisecond * 2 ^ Z.of_nat n) maxDelay.
Proof.
  induction n as [|n IH]; [done|].
  change (delay_after (S (S n))) with (next_delay (delay_after (S n))). rewrite IH.
  rewrite Nat2Z.inj_succ, Z.pow_succ_r by lia.
  pose proof (Z.pow_pos_nonneg 2 (Z.of_nat n) ltac:(lia) ltac:(lia)).
  generalize dependent (2 ^ Z.of_nat n). intros p _ Hp.
  unfold next_delay, Millisecond, maxDelay.
  destruct (Z.eqb_spec (Z.min (5 * 1000000 * p) 1000000000) 0); [lia|].
  destruct (Z.ltb_spec 1000000000 (Z.min (5 * 1000000 * p) 1000000000 * 2)); lia.
Qed.
