(* ===== verification/Obs.v ===== *)
(** * Observability: internal/obs/metrics.go, admin.go

    The metrics with their two renderings (expvar and the Prometheus text
    format), down to the decimal digits of integers and of float64 seconds, and
    the handlers of the admin server.  The fields of [obs.Metrics] are grouped
    by the component that moves them: the frame counters of Conn.v, the
    counters of Interceptor.v, and the rest.

    A float64 is an IEEE 754 number of the Standard Library's [SpecFloat], with
    its correctly rounded conversion and division. *)

From stdpp Require Import base numbers list strings gmap pretty.
From Stdlib Require Import ZArith Lia Floats.SpecFloat Strings.Ascii.
From S2P Require Import Prelude Conn Topology Interceptor.

(** ** Metrics *)

Record Metrics := mkMetrics {
  M_frames : Counters;
  M_intercepts : Interceptor.Metrics;
  Panics : Z;
  MetadataRefreshErrors : Z;
  ConnActive : Z;
  TelemetryAgeNS : Z;
}.

(** [New]: every field zero. *)
Definition NewMetrics : Metrics :=
  mkMetrics (mkCounters 0 0 0) (Interceptor.mkMetrics 0 0 0 0 0 0 0 0 0) 0 0 0 0.

(** The map [New] publishes under its expvar name. *)
Definition expvar_view (m : Metrics) : list (string * Z) :=
  let f := M_frames m in let i := M_intercepts m in
  [("frames_client_to_broker", ClientToBroker f);
   ("frames_broker_to_client", BrokerToClient f);
   ("intercepts_total", InterceptsTotal i);
   ("intercepts_rewrote", InterceptsRewrote i);
   ("intercepts_passthrough", InterceptsPassthru i);
   ("intercepts_timeout", InterceptsTimeout i);
   ("intercepts_error", InterceptsError i);
   ("unmapped_brokers", UnmappedBrokers i);
   ("tracker_dropped", TrackerDropped f);
   ("plan_duration_nanos_total", PlanDurationNanosSum i);
   ("plan_count", PlanCount i);
   ("conn_active", ConnActive m);
   ("telemetry_age_nanos", TelemetryAgeNS m);
   ("subscription_len", SubscriptionLen i);
   ("panics", Panics m);
   ("metadata_refresh_errors", MetadataRefreshErrors m)]%string.

(** *** Numbers as text *)

(** [strconv.AppendInt(dst, v, 10)] *)
Definition AppendInt (dst : string) (v : Z) : string := (dst ++ pretty v)%string.

(** Conversion of an int64 to float64, and the division of two. *)
Definition float64 (n : Z) : spec_float := binary_normalize 53 1024 n 0 false.
Definition float_div (x y : spec_float) : spec_float := SFdiv 53 1024 x y.

(** [n / 2^k] to the nearest integer, halves to even. *)
Definition round_shift (n k : Z) : Z :=
  let q := n / 2 ^ k in
  let r := n mod 2 ^ k in
  match Z.compare (2 * r) (2 ^ k) with
  | Lt => q
  | Gt => q + 1
  | Eq => if Z.even q then q else q + 1
  end.

(** A finite float in millionths, rounded as [AppendFloat] rounds to 6 digits. *)
Definition millionths (m : positive) (e : Z) : Z :=
  if 0 <=? e then Z.pos m * 2 ^ e * 10 ^ 6 else round_shift (Z.pos m * 10 ^ 6) (- e).

(** The last [n] decimal digits of [v]. *)
Fixpoint low_digits (n : nat) (v : N) (s : string) : string :=
  match n with
  | O => s
  | S n => low_digits n (v / 10) (String (pretty_N_char (v mod 10)) s)
  end.

(** A number of millionths with its six decimals. *)
Definition fixed6 (micros : Z) : string :=
  (pretty (micros / 10 ^ 6) ++ "." ++ low_digits 6 (Z.to_N (micros mod 10 ^ 6)) "")%string.

(** [strconv.AppendFloat(dst, v, 'f', 6, 64)] *)
Definition AppendFloat (dst : string) (v : spec_float) : string :=
  let sign (s : bool) := if s then "-"%string else ""%string in
  match v with
  | S754_zero s => (dst ++ sign s ++ fixed6 0)%string
  | S754_infinity s => (dst ++ (if s then "-Inf" else "+Inf"))%string
  | S754_nan => (dst ++ "NaN")%string
  | S754_finite s m e => (dst ++ sign s ++ fixed6 (millionths m e))%string
  end.

(** *** The Prometheus text *)

Definition newline : string := String "010"%char "".
Definition quote : string := String "034"%char "".

Definition appendSimple (dst name : string) (v : Z) : string :=
  (AppendInt (dst ++ name ++ " ") v ++ newline)%string.

Definition appendCounter (dst name label value : string) (v : Z) : string :=
  (AppendInt (dst ++ name ++ "{" ++ label ++ "=" ++ quote ++ value ++ quote ++ "} ") v ++ newline)%string.

Definition appendFloat (dst name : string) (v : spec_float) : string :=
  (AppendFloat (dst ++ name ++ " ") v ++ newline)%string.

(** [float64(ns)/1e9] *)
Definition seconds (ns : Z) : spec_float := float_div (float64 ns) (float64 1000000000).

Definition PromText (m : Metrics) : string :=
  let f := M_frames m in let i := M_intercepts m in
  let b := ""%string in
  let b := appendCounter b "kproxy_frames_total" "direction" "client_to_broker" (ClientToBroker f) in
  let b := appendCounter b "kproxy_frames_total" "direction" "broker_to_client" (BrokerToClient f) in
  let b := appendCounter b "kproxy_intercepts_total" "outcome" "any" (InterceptsTotal i) in
  let b := appendCounter b "kproxy_intercepts_total" "outcome" "rewrote" (InterceptsRewrote i) in
  let b := appendCounter b "kproxy_intercepts_total" "outcome" "passthrough" (InterceptsPassthru i) in
  let b := appendCounter b "kproxy_intercepts_total" "outcome" "timeout" (InterceptsTimeout i) in
  let b := appendCounter b "kproxy_intercepts_total" "outcome" "error" (InterceptsError i) in
  let b := appendSimple b "kproxy_unmapped_brokers_total" (UnmappedBrokers i) in
  let b := appendSimple b "kproxy_tracker_dropped_total" (TrackerDropped f) in
  let b := appendSimple b "kproxy_plan_count_total" (PlanCount i) in
  let b := appendFloat b "kproxy_plan_duration_seconds_sum" (seconds (PlanDurationNanosSum i)) in
  let b := appendSimple b "kproxy_conn_active" (ConnActive m) in
  let b := appendFloat b "kproxy_telemetry_age_seconds" (seconds (TelemetryAgeNS m)) in
  let b := appendSimple b "kproxy_subscription_len" (SubscriptionLen i) in
  let b := appendSimple b "kproxy_panics_total" (Panics m) in
  appendSimple b "kproxy_metadata_refresh_errors_total" (MetadataRefreshErrors m).

(** ** The admin server *)

(** [Admin]: [A_Health] is the [HealthChecker]'s answer, if there is one. *)
Record Admin := mkAdmin {
  A_Metrics : option Metrics;
  A_Health : option bool;
  EnablePprof : bool;
}.

Inductive response :=
| Reply (status : Z) (contentType : option string) (body : string)
| NotFound
| RedirectTo (path : string)
| Pprof (path : string)   (** net/http/pprof answers *)
| HandlerPanic.

Definition index_body (pprof : bool) : string :=
  let body := ("kproxy admin" ++ newline ++ "  GET /healthz" ++ newline ++ "  GET /metrics" ++ newline)%string in
  if pprof then (body ++ "  GET /debug/pprof/" ++ newline)%string else body.

Definition handle_root (a : Admin) (path : string) : response :=
  if String.eqb path "/" then Reply 200 (Some "text/plain; charset=utf-8") (index_body (EnablePprof a))%string
  else NotFound.

Definition handle_healthz (a : Admin) : response :=
  match A_Health a with
  | Some false => Reply 503 None ("metadata stale" ++ newline)
  | _ =>
      let panics := match A_Metrics a with Some m => Panics m | None => 0 end in
      Reply 200 None (AppendInt "ok panics=" panics ++ newline)
  end.

Definition handle_metrics (a : Admin) : response :=
  match A_Metrics a with
  | None => HandlerPanic
  | Some m => Reply 200 (Some "text/plain; version=0.0.4; charset=utf-8"%string) (PromText m)
  end.

(** The routes of [Run]'s [ServeMux] on a clean path: an exact pattern first,
    then the longest matching subtree; a subtree's path without its final slash
    is redirected. *)
Definition serve (a : Admin) (path : string) : response :=
  if String.eqb path "/healthz" then handle_healthz a else
  if String.eqb path "/metrics" then handle_metrics a else
  if EnablePprof a && String.eqb path "/debug/pprof" then RedirectTo "/debug/pprof/" else
  if EnablePprof a && String.prefix "/debug/pprof/" path then Pprof path else
  handle_root a path.

(** How [Run] ends: the listener cannot be opened, the context ends, or
    [Serve] returns ([inl] for [http.ErrServerClosed]). *)
Inductive admin_end (E : Type) :=
| ListenFailed (e : E)
| ContextDone
| ServeReturned (r : unit + E).
Arguments ListenFailed {E}.
Arguments ContextDone {E}.
Arguments ServeReturned {E}.

Definition admin_result {E} (r : admin_end E) : option E :=
  match r with
  | ListenFailed e => Some e
  | ContextDone => None
  | ServeReturned (inl _) => None
  | ServeReturned (inr e) => Some e
  end.

(** ** Reading the text back *)

(** A scraper's view of a number: decimal, with at most one point and then six
    decimals; in millionths. *)
Definition read_unsigned (s : string) : option Z :=
  match split_on "."%char s with
  | [a] => (fun v => v * 10 ^ 6) <$> digits (String.list_ascii_of_string a) 0
  | [a; b] =>
      if Nat.eqb (String.length b) 6
      then digits (String.list_ascii_of_string a) 0 ≫= digits (String.list_ascii_of_string b)
      else None
  | _ => None
  end.

Definition read_value (s : string) : option Z :=
  match s with
  | String c s' => if Ascii.eqb c "-"%char then Z.opp <$> read_unsigned s' else read_unsigned s
  | EmptyString => None
  end.

(** One line: a key, a blank, a value. *)
Definition read_line (l : string) : option (string * option Z) :=
  match split_on " "%char l with
  | [k; v] => Some (k, read_value v)
  | _ => None
  end.

Definition scrape (text : string) : list (option (string * option Z)) :=
  map read_line (split_on "010"%char text).

(** What a float64 is printed as, in millionths; infinities have no value. *)
Definition float_value (v : spec_float) : option Z :=
  match v with
  | S754_zero _ => Some 0
  | S754_finite s m e => Some (if s then - millionths m e else millionths m e)
  | _ => None
  end.

Definition labelled (name label value : string) : string :=
  (name ++ "{" ++ label ++ "=" ++ quote ++ value ++ quote ++ "}")%string.

(** The samples [PromText] should show. *)
Definition samples (m : Metrics) : list (string * option Z) :=
  let f := M_frames m in let i := M_intercepts m in
  let int (v : Z) := Some (v * 10 ^ 6) in
  [(labelled "kproxy_frames_total" "direction" "client_to_broker", int (ClientToBroker f));
   (labelled "kproxy_frames_total" "direction" "broker_to_client", int (BrokerToClient f));
   (labelled "kproxy_intercepts_total" "outcome" "any", int (InterceptsTotal i));
   (labelled "kproxy_intercepts_total" "outcome" "rewrote", int (InterceptsRewrote i));
   (labelled "kproxy_intercepts_total" "outcome" "passthrough", int (InterceptsPassthru i));
   (labelled "kproxy_intercepts_total" "outcome" "timeout", int (InterceptsTimeout i));
   (labelled "kproxy_intercepts_total" "outcome" "error", int (InterceptsError i));
   ("kproxy_unmapped_brokers_total"%string, int (UnmappedBrokers i));
   ("kproxy_tracker_dropped_total"%string, int (TrackerDropped f));
   ("kproxy_plan_count_total"%string, int (PlanCount i));
   ("kproxy_plan_duration_seconds_sum"%string, float_value (seconds (PlanDurationNanosSum i)));
   ("kproxy_conn_active"%string, int (ConnActive m));
   ("kproxy_telemetry_age_seconds"%string, float_value (seconds (TelemetryAgeNS m)));
   ("kproxy_subscription_len"%string, int (SubscriptionLen i));
   ("kproxy_panics_total"%string, int (Panics m));
   ("kproxy_metadata_refresh_errors_total"%string, int (MetadataRefreshErrors m))].

(** *** Splitting *)

Lemma string_app_assoc (a b c : string) : ((a ++ b) ++ c = a ++ b ++ c)%string.
Proof.
  induction a as [|x a IH]; [done|]. change (String x ((a ++ b) ++ c) = String x (a ++ b ++ c))%string. by rewrite IH.
Qed.

Definition lacks (c : ascii) (s : string) : Prop := c ∉ String.list_ascii_of_string s.

Lemma list_ascii_app a b :
  String.list_ascii_of_string (a ++ b) = String.list_ascii_of_string a ++ String.list_ascii_of_string b.
Proof. induction a as [|c a IH]; simpl; [done|]. by rewrite IH. Qed.

Lemma lacks_app c a b : lacks c (a ++ b) <-> lacks c a /\ lacks c b.
Proof. unfold lacks. rewrite list_ascii_app, elem_of_app. naive_solver. Qed.

Lemma split_on_app sep a b :
  lacks sep a -> split_on sep (a ++ String sep b) = a :: split_on sep b.
Proof.
  unfold lacks. induction a as [|c a IH]; simpl; intros H.
  - by rewrite Ascii.eqb_refl.
  - destruct (Ascii.eqb_spec c sep) as [->|]; [set_solver|]. rewrite IH by set_solver. done.
Qed.

Lemma split_on_lacks sep a : lacks sep a -> split_on sep a = [a].
Proof.
  unfold lacks. induction a as [|c a IH]; simpl; intros H; [done|].
  destruct (Ascii.eqb_spec c sep) as [->|]; [set_solver|]. rewrite IH by set_solver. done.
Qed.

(** *** Digits *)

Lemma digit_char n : (n < 10)%N -> digit (pretty_N_char n) = Some (Z.of_N n).
Proof.
  intros Hn. assert (n ∈ [0;1;2;3;4;5;6;7;8;9]%N) as Hin.
  { rewrite !elem_of_cons. lia. }
  repeat (apply elem_of_cons in Hin as [->|Hin]; [reflexivity|]). by apply elem_of_nil in Hin.
Qed.

Lemma digits_pretty_go x s :
  digits (String.list_ascii_of_string (pretty_N_go x s)) 0 =
  digits (String.list_ascii_of_string s) (Z.of_N x).
Proof.
  revert s. induction (N.lt_wf_0 x) as [x _ IH]; intros s.
  destruct (decide (x = 0)%N) as [->|]; [by rewrite pretty_N_go_0|].
  rewrite pretty_N_go_step by lia. rewrite IH by (apply N.div_lt; lia). simpl.
  rewrite digit_char by (apply N.mod_lt; lia). f_equal.
  rewrite (N.div_mod x 10) at 3 by lia. lia.
Qed.

Lemma digits_pretty_N (n : N) : digits (String.list_ascii_of_string (pretty n)) 0 = Some (Z.of_N n).
Proof.
  unfold pretty, pretty_N. destruct (decide (n = 0)%N) as [->|]; [done|]. by rewrite digits_pretty_go.
Qed.

Lemma digits_low n v s acc :
  digits (String.list_ascii_of_string (low_digits n v s)) acc =
  digits (String.list_ascii_of_string s) (acc * 10 ^ Z.of_nat n + Z.of_N (v mod 10 ^ N.of_nat n)).
Proof.
  revert v s. induction n as [|n IH]; intros v s; cbn [low_digits].
  - rewrite N.mod_1_r. f_equal. simpl. lia.
  - rewrite IH. cbn [String.list_ascii_of_string digits].
    rewrite digit_char by (apply N.mod_lt; lia). f_equal.
    rewrite !Nat2Z.inj_succ, Nat2N.inj_succ, Z.pow_succ_r, N.pow_succ_r by lia.
    rewrite N.Div0.mod_mul_r by lia. lia.
Qed.

Lemma low_digits_length n v s : String.length (low_digits n v s) = (n + String.length s)%nat.
Proof.
  revert v s. induction n as [|n IH]; intros v s; simpl; [done|]. rewrite IH. simpl. lia.
Qed.

(** A numeral consists of digits. *)
Lemma digits_chars l acc v c : digits l acc = Some v -> c ∈ l -> is_Some (digit c).
Proof.
  revert acc. induction l as [|c' l IH]; intros acc; simpl; [set_solver|].
  destruct (digit c') eqn:E; [|done]. intros Hd [->|Hc]%elem_of_cons; [by rewrite E|by eapply IH].
Qed.

Lemma digits_lacks s acc v c :
  digits (String.list_ascii_of_string s) acc = Some v -> digit c = None -> lacks c s.
Proof.
  intros Hd Hc Hin. destruct (digits_chars _ _ _ _ Hd Hin) as [x Hx]. congruence.
Qed.
Lemma read_value_unsigned s : lacks "-"%char s -> s <> ""%string -> read_value s = read_unsigned s.
Proof.
  unfold lacks. destruct s as [|c s]; [done|]. simpl. intros H _.
  destruct (Ascii.eqb_spec c "-"%char) as [->|]; [set_solver|done].
Qed.

Lemma read_value_negative s : read_value ("-" ++ s) = Z.opp <$> read_unsigned s.
Proof. reflexivity. Qed.

Lemma pretty_N_lacks (n : N) c : digit c = None -> lacks c (pretty n).
Proof. intros Hc. by eapply digits_lacks; [apply digits_pretty_N|]. Qed.

Lemma pretty_N_not_empty (n : N) : pretty n <> ""%string.
Proof.
  unfold pretty, pretty_N. destruct (decide (n = 0)%N) as [->|Hn]; [done|].
  intros E. pose proof (digits_pretty_go n "") as H. rewrite E in H. simpl in H.
  injection H as H. lia.
Qed.

Lemma pretty_Z_of_N (n : N) : pretty (Z.of_N n) = pretty n.
Proof. by destruct n. Qed.

Lemma read_unsigned_N (n : N) : read_unsigned (pretty n) = Some (Z.of_N n * 10 ^ 6).
Proof.
  unfold read_unsigned. rewrite split_on_lacks by by apply pretty_N_lacks.
  by rewrite digits_pretty_N.
Qed.

Lemma read_value_int (v : Z) : read_value (pretty v) = Some (v * 10 ^ 6).
Proof.
  destruct v as [|p|p]; [done| |].
  - change (pretty (Z.pos p)) with (pretty (N.pos p)).
    rewrite read_value_unsigned by (apply pretty_N_lacks || apply pretty_N_not_empty; done).
    by rewrite read_unsigned_N.
  - change (pretty (Z.neg p)) with ("-" ++ pretty (N.pos p))%string.
    rewrite read_value_negative, read_unsigned_N. simpl. f_equal; lia.
Qed.

Lemma low_digits_value v : (v < 10 ^ 6)%N -> forall acc,
  digits (String.list_ascii_of_string (low_digits 6 v "")) acc = Some (acc * 10 ^ 6 + Z.of_N v).
Proof. intros Hv acc. rewrite digits_low. rewrite N.mod_small by done. done. Qed.

(** The two parts of a fixed-point numeral. *)
Lemma fixed6_parts z : 0 <= z ->
  exists a b : N, fixed6 z = (pretty a ++ "." ++ low_digits 6 b "")%string /\ (b < 10 ^ 6)%N /\
    z = Z.of_N a * 10 ^ 6 + Z.of_N b.
Proof.
  intros Hz. exists (Z.to_N (z / 10 ^ 6)), (Z.to_N (z mod 10 ^ 6)).
  pose proof (Z.mod_pos_bound z (10 ^ 6) ltac:(lia)). pose proof (Z.div_pos z (10 ^ 6) Hz ltac:(lia)).
  split_and!.
  - unfold fixed6. by rewrite <- (pretty_Z_of_N (Z.to_N (z / 10 ^ 6))), Z2N.id by done.
  - lia.
  - rewrite !Z2N.id by lia. pose proof (Z.div_mod z (10 ^ 6) ltac:(lia)). lia.
Qed.

Lemma fixed6_lacks z c : 0 <= z -> digit c = None -> c <> "."%char -> lacks c (fixed6 z).
Proof.
  intros Hz Hc Hp. destruct (fixed6_parts z Hz) as (a & b & -> & Hb & _).
  rewrite !lacks_app. split_and!; [by apply pretty_N_lacks| |].
  - unfold lacks. simpl. set_solver.
  - eapply digits_lacks; [by apply (low_digits_value b Hb 0)|done].
Qed.

Lemma read_unsigned_fixed6 z : 0 <= z -> read_unsigned (fixed6 z) = Some z.
Proof.
  intros Hz. destruct (fixed6_parts z Hz) as (a & b & -> & Hb & ->).
  unfold read_unsigned. change ("." ++ low_digits 6 b "")%string with (String "." (low_digits 6 b "")).
  rewrite split_on_app by by apply pretty_N_lacks.
  rewrite split_on_lacks by (by eapply digits_lacks; [apply (low_digits_value b Hb 0)|]).
  rewrite low_digits_length, digits_pretty_N. cbn [Nat.add String.length Nat.eqb mbind option_bind].
  by apply low_digits_value.
Qed.

Lemma read_value_fixed6 z : 0 <= z -> read_value (fixed6 z) = Some z.
Proof.
  intros Hz. rewrite read_value_unsigned; [by apply read_unsigned_fixed6|by apply fixed6_lacks|].
  destruct (fixed6_parts z Hz) as (a & b & -> & _). intros E. by destruct (pretty a).
Qed.

Lemma round_shift_nonneg n k : 0 <= n -> 0 <= k -> 0 <= round_shift n k.
Proof.
  intros Hn Hk. unfold round_shift. pose proof (Z.pow_pos_nonneg 2 k ltac:(lia) Hk).
  pose proof (Z.div_pos n (2 ^ k) Hn ltac:(lia)). repeat case_match; lia.
Qed.

Lemma millionths_nonneg m e : 0 <= millionths m e.
Proof.
  unfold millionths. destruct (Z.leb_spec 0 e); [lia|]. apply round_shift_nonneg; lia.
Qed.

Lemma read_value_float v : read_value (AppendFloat "" v) = float_value v.
Proof.
  destruct v as [[]|[]| |[] m e]; [vm_compute; reflexivity..| |]; cbn [AppendFloat float_value].
  - change ("" ++ "-" ++ fixed6 (millionths m e))%string with ("-" ++ fixed6 (millionths m e))%string.
    rewrite read_value_negative, read_unsigned_fixed6 by apply millionths_nonneg. done.
  - apply read_value_fixed6, millionths_nonneg.
Qed.

(** *** Lines *)

Definition line (kv : string * string) (rest : string) : string :=
  (fst kv ++ " " ++ snd kv ++ newline ++ rest)%string.

Definition clean_sample (kv : string * string) : Prop :=
  lacks " "%char (fst kv) /\ lacks "010"%char (fst kv) /\
  lacks " "%char (snd kv) /\ lacks "010"%char (snd kv).

Lemma split_lines kvs :
  Forall clean_sample kvs ->
  split_on "010"%char (fold_right line "" kvs) = map (fun kv => fst kv ++ " " ++ snd kv)%string kvs ++ [""%string].
Proof.
  induction 1 as [|[k v] kvs (H1 & H2 & H3 & H4) _ IH]; [done|].
  cbn [fold_right map app fst snd] in *. unfold line at 1. cbn [fst snd].
  replace (k ++ " " ++ v ++ newline ++ fold_right line "" kvs)%string
    with ((k ++ " " ++ v) ++ String "010"%char (fold_right line "" kvs))%string
    by (by rewrite !string_app_assoc).
  rewrite split_on_app by (rewrite !lacks_app; split_and!; [done|unfold lacks; simpl; set_solver|done]).
  by rewrite IH.
Qed.

Lemma scrape_lines kvs :
  Forall clean_sample kvs ->
  scrape (fold_right line "" kvs) = map (fun kv => Some (fst kv, read_value (snd kv))) kvs ++ [None].
Proof.
  intros Hk. unfold scrape. rewrite split_lines, map_app, map_map by done. f_equal.
  apply map_ext_Forall. eapply Forall_impl; [exact Hk|]. intros [k v] (H1 & H2 & H3 & H4).
  cbn [fst snd] in *. unfold read_line.
  change (" " ++ v)%string with (String " "%char v). rewrite split_on_app by done.
  by rewrite split_on_lacks.
Qed.

(** The lines of [PromText]: keys and printed values. *)
Definition entries (m : Metrics) : list (string * string) :=
  let f := M_frames m in let i := M_intercepts m in
  [(labelled "kproxy_frames_total" "direction" "client_to_broker", pretty (ClientToBroker f));
   (labelled "kproxy_frames_total" "direction" "broker_to_client", pretty (BrokerToClient f));
   (labelled "kproxy_intercepts_total" "outcome" "any", pretty (InterceptsTotal i));
   (labelled "kproxy_intercepts_total" "outcome" "rewrote", pretty (InterceptsRewrote i));
   (labelled "kproxy_intercepts_total" "outcome" "passthrough", pretty (InterceptsPassthru i));
   (labelled "kproxy_intercepts_total" "outcome" "timeout", pretty (InterceptsTimeout i));
   (labelled "kproxy_intercepts_total" "outcome" "error", pretty (InterceptsError i));
   ("kproxy_unmapped_brokers_total"%string, pretty (UnmappedBrokers i));
   ("kproxy_tracker_dropped_total"%string, pretty (TrackerDropped f));
   ("kproxy_plan_count_total"%string, pretty (PlanCount i));
   ("kproxy_plan_duration_seconds_sum"%string, AppendFloat "" (seconds (PlanDurationNanosSum i)));
   ("kproxy_conn_active"%string, pretty (ConnActive m));
   ("kproxy_telemetry_age_seconds"%string, AppendFloat "" (seconds (TelemetryAgeNS m)));
   ("kproxy_subscription_len"%string, pretty (SubscriptionLen i));
   ("kproxy_panics_total"%string, pretty (Panics m));
   ("kproxy_metadata_refresh_errors_total"%string, pretty (MetadataRefreshErrors m))].

Lemma AppendFloat_app dst v : AppendFloat dst v = (dst ++ AppendFloat "" v)%string.
Proof. by destruct v. Qed.

Lemma appendSimple_line dst name v rest :
  (appendSimple dst name v ++ rest = dst ++ line (name, pretty v) rest)%string.
Proof. unfold appendSimple, AppendInt, line. simpl. by rewrite !string_app_assoc. Qed.

Lemma appendCounter_line dst name label value v rest :
  (appendCounter dst name label value v ++ rest = dst ++ line (labelled name label value, pretty v) rest)%string.
Proof. unfold appendCounter, AppendInt, labelled, line. cbn [fst snd]. by rewrite !string_app_assoc. Qed.

Lemma appendFloat_line dst name v rest :
  (appendFloat dst name v ++ rest = dst ++ line (name, AppendFloat "" v) rest)%string.
Proof.
  unfold appendFloat, line. rewrite AppendFloat_app. cbn [fst snd]. by rewrite !string_app_assoc.
Qed.

Lemma PromText_lines m : PromText m = fold_right line ""%string (entries m).
Proof.
  assert (forall s : string, (s ++ "" = s)%string) as Hnil.
  { induction s as [|c s IH]; [done|]. change (String c (s ++ "") = String c s)%string. by rewrite IH. }
  rewrite <- (Hnil (PromText m)). unfold PromText. cbv zeta.
  rewrite !appendSimple_line, !appendFloat_line, !appendSimple_line, appendFloat_line,
    !appendSimple_line, !appendCounter_line. done.
Qed.

Lemma pretty_Z_lacks (v : Z) c : digit c = None -> c <> "-"%char -> lacks c (pretty v).
Proof.
  intros Hc Hm. destruct v as [|p|p].
  - change (pretty 0) with (pretty 0%N). by apply pretty_N_lacks.
  - change (pretty (Z.pos p)) with (pretty (N.pos p)). by apply pretty_N_lacks.
  - change (pretty (Z.neg p)) with ("-" ++ pretty (N.pos p))%string. apply lacks_app.
    split; [unfold lacks; simpl; set_solver|by apply pretty_N_lacks].
Qed.

Lemma AppendFloat_lacks v c :
  c ∈ [" "%char; "010"%char] -> lacks c (AppendFloat "" v).
Proof.
  intros Hc. assert (digit c = None /\ c <> "."%char /\ c <> "-"%char) as (Hd & Hp & Hm).
  { repeat (apply elem_of_cons in Hc as [->|Hc]; [by split_and!|]). by apply elem_of_nil in Hc. }
  destruct v as [s|s| |s m e]; cbn [AppendFloat]; change ("" ++ ?x)%string with x.
  - apply lacks_app. split; [destruct s; unfold lacks; simpl; set_solver|].
    by apply fixed6_lacks.
  - unfold lacks. destruct s; simpl; set_solver.
  - unfold lacks. simpl. set_solver.
  - apply lacks_app. split; [destruct s; unfold lacks; simpl; set_solver|].
    apply fixed6_lacks; [apply millionths_nonneg|done..].
Qed.

Lemma entries_clean m : Forall clean_sample (entries m).
Proof.
  assert (forall k (v : Z), lacks " "%char k -> lacks "010"%char k -> clean_sample (k, pretty v)) as Hi.
  { intros k v ? ?. split_and!; simpl; try done; by apply pretty_Z_lacks. }
  assert (forall k v, lacks " "%char k -> lacks "010"%char k -> clean_sample (k, AppendFloat "" v)) as Hf.
  { intros k v ? ?. split_and!; simpl; try done; apply AppendFloat_lacks; set_solver. }
  unfold entries.
  repeat constructor; (apply Hi || apply Hf); unfold lacks; apply (bool_decide_unpack _); vm_compute; exact I.
Qed.

(** ** Properties *)

(** C36: the Prometheus text is a faithful rendering: a scraper that splits it
    into lines and each line into key and value finds exactly the sixteen
    samples, in order, each integer with its exact value and each duration
    with the value of its float64 rounded to microseconds, whatever the
    counters hold (negative gauges included). *)
Theorem prom_text_roundtrip m :
  scrape (PromText m) = map Some (samples m) ++ [None].
Proof.
  rewrite PromText_lines, scrape_lines by apply entries_clean.
  f_equal. unfold entries, samples. cbn [map fst snd]. by rewrite !read_value_int, !read_value_float.
Qed.

Example seconds_ex : AppendFloat "" (seconds 1500000000) = "1.500000"%string.
Proof. vm_compute. reflexivity. Qed.
Example seconds_ex2 : AppendFloat "" (seconds 1234567890123456789) = "1234567890.123457"%string.
Proof. vm_compute. reflexivity. Qed.
Example seconds_ex3 : AppendFloat "" (seconds (-500)) = "-0.000000"%string.
Proof. vm_compute. reflexivity. Qed.

(** The admin server serves three paths and, only when it is enabled, the
    profiler; everything else is not found. *)
Theorem admin_routes a path :
  (EnablePprof a = false -> path ∉ ["/"; "/healthz"; "/metrics"]%string -> serve a path = NotFound) /\
  (forall p, serve a path = Pprof p -> EnablePprof a = true /\ p = path /\
     String.prefix "/debug/pprof/" path = true).
Proof.
  unfold serve, handle_root, handle_healthz, handle_metrics. split.
  - intros -> Hp. rewrite !not_elem_of_cons in Hp. destruct Hp as (H1 & H2 & H3 & _).
    destruct (String.eqb_spec path "/healthz"); [done|]. destruct (String.eqb_spec path "/metrics"); [done|].
    simpl. by destruct (String.eqb_spec path "/").
  - intros p. destruct (String.eqb path "/healthz"); [by repeat case_match|].
    destruct (String.eqb path "/metrics"); [by repeat case_match|].
    destruct (EnablePprof a); simpl.
    + destruct (String.eqb path "/debug/pprof"); [done|].
      destruct (String.prefix "/debug/pprof/" path); [|by repeat case_match]. by intros [= <-].
    + by repeat case_match.
Qed.

(** Both renderings show the same counters: the integers of the Prometheus
    text are those of the expvar map. *)
Lemma renderings_agree m :
  forall k v, (k, Some v) ∈ samples m ->
  k ∉ ["kproxy_plan_duration_seconds_sum"; "kproxy_telemetry_age_seconds"]%string ->
  v / 10 ^ 6 ∈ map snd (expvar_view m).
Proof.
  intros k v Hin Hk. unfold samples in Hin.
  repeat (apply elem_of_cons in Hin as [Heq|Hin];
    [first [injection Heq as -> ->; rewrite Z.div_mul by lia; cbn [expvar_view map snd]; set_solver
           |injection Heq as -> _; set_solver]|]).
  by apply elem_of_nil in Hin.
Qed.
