(* ===== verification/Background.v ===== *)
(** * The background loops: Cache.Run, Poller.Run, gaugeRefresher

    The three tickers of the process, each a fold over what its [select]
    receives: ticks, with what the tick's calls returned, and the end of the
    context.  A [select] with both ready may pick either; the sequence of
    events says which it picked. *)

From stdpp Require Import base numbers list strings gmap.
From Stdlib Require Import ZArith Lia.
From S2P Require Import Prelude Primitives Tracker MetaCache Telemetry Store Interceptor Poller Obs.

(** A loop [for { select { case <-ctx.Done(): return; case <-t.C: ... } }]. *)
Inductive wakeup (A : Type) := Tick (a : A) | CtxDone.
Arguments Tick {A}.
Arguments CtxDone {A}.

Fixpoint ticker {A S} (body : S -> A -> S) (s : S) (evs : list (wakeup A)) : S :=
  match evs with
  | [] => s
  | CtxDone :: _ => s
  | Tick a :: evs => ticker body (body s a) evs
  end.

(** The ticks served before the context ended. *)
Fixpoint served {A} (evs : list (wakeup A)) : list A :=
  match evs with
  | [] => []
  | CtxDone :: _ => []
  | Tick a :: evs => a :: served evs
  end.

Lemma ticker_served {A S} (body : S -> A -> S) s evs :
  ticker body s evs = fold_left body (served evs) s.
Proof. revert s. induction evs as [|[a|] evs IH]; intros s; simpl; [done|apply IH|done]. Qed.

(** ** The metadata refresher *)

(** The interval [NewCache] settles on. *)
Definition refresh_interval (refresh : Z) : Z := if refresh <=? 0 then 30 * Second else refresh.

(** The cache as the refresher leaves it when nobody else refreshes: the
    published snapshot, [errors], and the calls of [OnError]. *)
Record Refresher := mkRefresher {
  rf_cur : option Snapshot;
  rf_errors : Z;
  rf_reported : list kerr;
}.

Definition refresh_tick (rf : Refresher) (r : kerr + Snapshot) : Refresher :=
  match r with
  | inl e => mkRefresher (publish (rf_cur rf) r) (rf_errors rf + 1) (rf_reported rf ++ [e])
  | inr _ => mkRefresher (publish (rf_cur rf) r) (rf_errors rf) (rf_reported rf)
  end.

(** [Cache.Run] *)
Definition CacheRun (rf : Refresher) (evs : list (wakeup (kerr + Snapshot))) : Refresher :=
  ticker refresh_tick rf evs.

Definition ErrorsTotal (rf : Refresher) : Z := rf_errors rf.

(** The [OnError] that [run] installs counts into the metrics. *)
Definition count_refresh_errors (m : Metrics) (errs : list kerr) : Metrics :=
  mkMetrics (M_frames m) (M_intercepts m) (Panics m) (MetadataRefreshErrors m + len errs)
    (ConnActive m) (TelemetryAgeNS m).

(** ** The poller *)

Definition poll_interval (interval : Z) : Z := if interval <=? 0 then 15 * Second else interval.

Section poller.
Context {E : Type} {PO : PollOrder}.

(** What one tick meets: the coordinator's answers, whether the context has
    ended, the time, the registry's groups. *)
Record poll_env := mkPollEnv {
  pe_coord : Coordinator E;
  pe_cancelled : bool;
  pe_now : Z;
  pe_groups : list string;
}.

Definition poll_tick (h : Holder) (e : poll_env) : Holder :=
  fst (@tick E (pe_coord e) PO (pe_cancelled e) (pe_now e) (pe_groups e) h).

(** [Poller.Run]: a nil holder is replaced, one tick comes first. *)
Definition PollerRun (h : option Holder) (first : poll_env) (evs : list (wakeup poll_env)) : Holder :=
  ticker poll_tick (poll_tick (default (mkHolder None) h) first) evs.

End poller.
Arguments poll_env : clear implicits.

(** ** The gauges *)

(** One tick of [gaugeRefresher]. *)
Definition gauge_tick (m : Metrics) (e : Z * Holder * Store) : Metrics :=
  let '(now, h, s) := e in
  let age := match HolderGet h with
             | Some snap => now - LS_BuiltAt snap
             | None => TelemetryAgeNS m
             end in
  mkMetrics (M_frames m) (store_len (StoreLen s) (M_intercepts m)) (Panics m)
    (MetadataRefreshErrors m) (ConnActive m) age.

Definition gaugeRefresher (m : Metrics) (evs : list (wakeup (Z * Holder * Store))) : Metrics :=
  ticker gauge_tick m evs.

(** ** Facts *)

(** The last success of a list of refreshes. *)
Definition last_success (old : option Snapshot) (rs : list (kerr + Snapshot)) : option Snapshot :=
  fold_left publish rs old.

Definition failures (rs : list (kerr + Snapshot)) : list kerr :=
  omap (fun r => match r with inl e => Some e | inr _ => None end) rs.

Lemma last_success_snoc old rs r : last_success old (rs ++ [r]) = publish (last_success old rs) r.
Proof. unfold last_success. by rewrite fold_left_app. Qed.

Lemma cache_run_fold rf rs :
  fold_left refresh_tick rs rf =
  mkRefresher (last_success (rf_cur rf) rs) (rf_errors rf + len (failures rs))
    (rf_reported rf ++ failures rs).
Proof.
  revert rf. induction rs as [|[e|s] rs IH]; intros rf; cbn [fold_left failures omap list_omap].
  - unfold last_success. simpl. rewrite app_nil_r. change (len (@nil kerr)) with 0. rewrite Z.add_0_r.
    by destruct rf.
  - rewrite IH. unfold last_success. cbn [refresh_tick rf_cur rf_errors rf_reported fold_left publish].
    fold (failures rs). rewrite <- app_assoc. f_equal. len_lia.
  - rewrite IH. done.
Qed.

Lemma poll_tick_keeps {E} {PO : PollOrder} h (e : poll_env E) :
  HolderGet h <> None \/ pe_cancelled e = false -> HolderGet (poll_tick h e) <> None.
Proof.
  intros Hh. unfold poll_tick, tick. destruct (pe_cancelled e).
  { by destruct Hh as [?|?]. }
  destruct (_ =? 0); [done|]. destruct (C_DescribeGroups _) as [err|dg].
  - simpl. destruct (HolderGet h) eqn:Eh; [by rewrite Eh|done].
  - destruct (fetch_hwm _ _) as [hwm r1]. destruct (fetch_committed _ _) as [com r2]. done.
Qed.

Lemma poll_ticks_keep {E} {PO : PollOrder} h (evs : list (wakeup (poll_env E))) :
  HolderGet h <> None -> HolderGet (ticker poll_tick h evs) <> None.
Proof.
  revert h. induction evs as [|[e|] evs IH]; intros h Hh; simpl; [done| |done].
  apply IH, poll_tick_keeps. by left.
Qed.

(** ** Properties *)

(** The refresher's account is exact: when [Cache.Run] stops, the snapshot
    published is that of the last successful refresh it served (the earlier
    one if none succeeded: a failure never unpublishes), [ErrorsTotal] and the
    Prometheus counter both equal the number of failed refreshes, each of which
    was reported once and in order; refreshes after the end of the context do
    not happen. *)
Theorem cache_run_accounts evs m :
  let rs := served evs in
  let rf := CacheRun (mkRefresher None 0 []) evs in
  rf_cur rf = last_success None rs /\
  rf_reported rf = failures rs /\
  ErrorsTotal rf = len (failures rs) /\
  MetadataRefreshErrors (count_refresh_errors m (rf_reported rf)) = MetadataRefreshErrors m + ErrorsTotal rf.
Proof.
  cbv zeta. unfold CacheRun, ErrorsTotal. rewrite ticker_served, cache_run_fold. simpl. done.
Qed.

(** The poller is never without a snapshot: it polls before the first tick,
    and from then on the holder has a snapshot whatever the broker answers,
    unless the context had already ended. *)
Theorem poller_publishes {E} {PO : PollOrder} h (first : poll_env E) evs :
  pe_cancelled first = false -> HolderGet (PollerRun h first evs) <> None.
Proof.
  intros Hc. unfold PollerRun. apply poll_ticks_keep, poll_tick_keeps. by right.
Qed.

Lemma poller_publishes_witness :
  HolderGet (@PollerRun unit listed_poll None
    (mkPollEnv sample_coordinator false 9 ["g"]%string)
    [Tick (mkPollEnv {| C_DescribeGroups _ := inl tt; C_OffsetFetch _ := inl tt; C_ListOffsets _ := inl tt |}
             false 10 ["g"]%string); CtxDone]) <> None.
Proof.
  apply (@poller_publishes unit listed_poll None (mkPollEnv sample_coordinator false 9 ["g"]%string)).
  reflexivity.
Defined.

(** Each tick of the gauges shows the state it read. *)
Lemma gauges_show m evs now h s :
  let m' := gaugeRefresher m (evs ++ [Tick (now, h, s)]) in
  CtxDone ∉ evs ->
  SubscriptionLen (M_intercepts m') = StoreLen s /\
  (forall snap, HolderGet h = Some snap -> TelemetryAgeNS m' = now - LS_BuiltAt snap).
Proof.
  cbv zeta. unfold gaugeRefresher. rewrite ticker_served. intros Hev.
  assert (served (evs ++ [Tick (now, h, s)]) = served evs ++ [(now, h, s)]) as ->.
  { induction evs as [|[e|] evs IH]; simpl; [done| |set_solver]. rewrite IH by set_solver. done. }
  rewrite fold_left_app. cbn [fold_left gauge_tick]. simpl. split; [done|]. by intros snap ->.
Qed.
