(* ===== verification/Startup.v ===== *)
(** * Starting up: cmd/kproxy/main.go up to the listener, topology.LoadFile

    The configuration with its flag defaults, the choice and loading of the
    topology, the order in which the proxy acquires its resources and gives
    them back when a later step fails, and the health check.

    What the operating system answers (opening files, dialling, listening) is
    an argument.  The JSON decoder of Go's library is a parameter
    ([TopologyJson]); nothing is assumed of it. *)

From stdpp Require Import base numbers list strings gmap.
From Stdlib Require Import ZArith Lia Strings.Byte.
From S2P Require Import Prelude Primitives Codec Header MetadataCodec Topology Planner Tracker Frame Conn.
From S2P Require Import Store MetaCache Telemetry Interceptor Obs Background.

(** ** The topology file *)

(** [json.Unmarshal] into a [[]FileEntry]. *)
Class TopologyJson (E : Type) := { Unmarshal : list byte -> E + list FileEntry }.

(** An open file: its bytes, the error that ends them if it is not the end of
    the file, and the error of [Close]. *)
Record File (E : Type) := mkFile {
  f_data : list byte;
  f_err : option E;
  f_close : option E;
}.
Arguments mkFile {E}.
Arguments f_data {E}.
Arguments f_err {E}.
Arguments f_close {E}.

Inductive load_err (E : Type) :=
| OsErr (e : E)
| FileTooLarge
| ParseErr (e : E)
| BadEntry.
Arguments OsErr {E}.
Arguments FileTooLarge {E}.
Arguments ParseErr {E}.
Arguments BadEntry {E}.

Definition maxTopologyBytes : Z := 2 ^ 20.

Section loading.
Context {HT : HostText} {E : Type} `{TopologyJson E}.

(** [io.ReadAll(io.LimitReader(f, n))] *)
Definition read_limited (n : Z) (f : File E) : list byte * option E :=
  if n <=? len (f_data f) then (take (Z.to_nat n) (f_data f), None) else (f_data f, f_err f).

Definition LoadFile (open : E + File E) : load_err E + Mapping :=
  match open with
  | inl e => inl (OsErr e)
  | inr f =>
      let result :=
        match read_limited (maxTopologyBytes + 1) f with
        | (_, Some e) => inl (OsErr e)
        | (b, None) =>
            if maxTopologyBytes <? len b then inl FileTooLarge else
            match Unmarshal b with
            | inl e => inl (ParseErr e)
            | inr entries =>
                match LoadEntries entries with
                | None => inl BadEntry
                | Some m => inr m
                end
            end
        end in
      match result, f_close f with
      | inr _, Some e => inl (OsErr e)
      | _, _ => result
      end
  end.

(** ** Configuration *)

Record config := mkCfg {
  listen : string;
  broker : string;
  bootstrap : string;
  admin : string;
  topologyFlag : string;
  topologyFile : string;
  connLimit : Z;
  frameMax : Z;
  idleTimeout : Z;
  planTimeout : Z;
  refresh : Z;
  telemetryEv : Z;
  dialTimeout : Z;
  drainTimeout : Z;
  plannerWorker : Z;
  plannerQueue : Z;
  subMax : Z;
  clientID : string;
  enablePprof : bool;
  healthMaxMetadataAge : Z;
}.

(** The flags' default values. *)
Definition default_flags : config :=
  mkCfg ":9092" "" "" "127.0.0.1:9099" "" "" 4096 0 (5 * Minute) (2 * Second) (30 * Second)
    (15 * Second) (5 * Second) (30 * Second) 0 0 100000 "kproxy" false 0.

Definition with_bootstrap (c : config) (b : string) : config :=
  mkCfg (listen c) (broker c) b (admin c) (topologyFlag c) (topologyFile c) (connLimit c)
    (frameMax c) (idleTimeout c) (planTimeout c) (refresh c) (telemetryEv c) (dialTimeout c)
    (drainTimeout c) (plannerWorker c) (plannerQueue c) (subMax c) (clientID c) (enablePprof c)
    (healthMaxMetadataAge c).

(** The checks after [flag.Parse]; [None] is "-broker is required". *)
Definition resolve (c : config) : option config :=
  if bool_decide (broker c = ""%string) then None else
  if bool_decide (bootstrap c = ""%string) then Some (with_bootstrap c (broker c)) else Some c.

(** The topology switch; [open] opens the file of [-topology-file]. *)
Inductive start_err :=
| BrokerRequired
| BadTopologyFlag
| BadTopologyFile (e : load_err E)
| DialBootstrap (e : E)
| ListenFailed (e : E).

Definition select_topology (c : config) (open : string -> E + File E) : start_err + Mapping :=
  if negb (bool_decide (topologyFlag c = ""%string)) then
    match ParseFlag (topologyFlag c) with
    | None => inl BadTopologyFlag
    | Some m => inr m
    end
  else if negb (bool_decide (topologyFile c = ""%string)) then
    match LoadFile (open (topologyFile c)) with
    | inl e => inl (BadTopologyFile e)
    | inr m => inr m
    end
  else inr New.

(** ** Acquiring resources *)

(** What happens to the process's resources, in order. *)
Inductive event :=
| DialSide (addr : string)     (** the side-channel connection is open *)
| CloseSide
| StartPool (workers : Z)      (** [planner.New] has started its workers *)
| ClosePool
| CancelRoot                   (** the deferred [rootCancel] *)
| OpenListener (addr : string)
| CloseListener.

(** What the network answers to the two acquisitions, and the processors. *)
Record Net := mkNet {
  n_procs : Z;
  n_open : string -> E + File E;
  n_dial : string -> option E;
  n_listen : string -> option E;
}.

(** From [planner.New] to the listener, when the side channel is open: a failing
    [Listen] returns through the deferred calls, and [pp.Close] is not one. *)
Definition open_listener (net : Net) (c : config) (topo : Mapping)
    : (start_err + config * Mapping) * list event :=
  let pool := StartPool (workers_of (n_procs net) (plannerWorker c)) in
  match n_listen net (listen c) with
  | Some e => (inl (ListenFailed e), [pool; CancelRoot; CloseSide])
  | None => (inr (c, topo), [pool; OpenListener (listen c)])
  end.

(** [run] up to the listener: the error, or the resolved configuration and
    topology, and the events, deferred calls of an early return included. *)
Definition startup (net : Net) (flags : config) : (start_err + config * Mapping) * list event :=
  match resolve flags with
  | None => (inl BrokerRequired, [])
  | Some c =>
      match select_topology c (n_open net) with
      | inl e => (inl e, [])
      | inr topo =>
          match n_dial net (bootstrap c) with
          | Some e => (inl (DialBootstrap e), [])
          | None =>
              let '(r, evs) := open_listener net c topo in
              (r, DialSide (bootstrap c) :: evs)
          end
      end
  end.

(** The calls with which a [run] that got past the listener ends: those of the
    orderly shutdown, and the deferred ones. *)
Definition shutdown_calls : list event := [CloseListener; CancelRoot; ClosePool].
Definition deferred_calls : list event := [CloseListener; CancelRoot; CloseSide].

End loading.
Arguments start_err : clear implicits.
Arguments Net : clear implicits.

(** ** Wiring *)

(** The connections' configuration. *)
Definition conn_config (c : config) : Config := mkConfig (frameMax c) (idleTimeout c) 0 0.

(** The interceptor shared by all connections, in the state the shared
    components are in. *)
Definition deps_of (topo : Mapping) (cache : Cache) (store : Store) (h : Holder) (planner : PlanCall)
    (m : Metrics) (now rewrites : Z) : IState :=
  mkIState (Some topo) (Some (CacheGet cache)) (Some store) (Some h) (Some planner)
    (Some (M_intercepts m)) now rewrites.

(** [context.WithTimeout] of a parent that may have a deadline. *)
Definition WithTimeout (parent : option Z) (now d : Z) : option Z :=
  Some (match parent with Some p => Z.min p (now + d) | None => now + d end).

(** [dialContext] of the listener. *)
Definition dialContext (parent : option Z) (now d : Z) : option Z :=
  if d <=? 0 then parent else WithTimeout parent now d.

(** The [PlanTimeout] of the interceptor that [New] returns. *)
Definition PlanTimeout (d : Z) : Z := if d <=? 0 then 2 * Second else d.

(** [MakeConn] *)
Definition MakeConn (c : config) (ic : IState) (client broker : Stream) (toClient toBroker : Sink)
    (b1 b2 : Buffer) : Conn IState Rewriter :=
  NewConn (conn_config c) client broker toClient toBroker b1 b2 ic.

Definition OnConnStart (m : Metrics) : Metrics :=
  mkMetrics (M_frames m) (M_intercepts m) (Panics m) (MetadataRefreshErrors m) (ConnActive m + 1)
    (TelemetryAgeNS m).
Definition OnConnEnd (m : Metrics) : Metrics :=
  mkMetrics (M_frames m) (M_intercepts m) (Panics m) (MetadataRefreshErrors m) (ConnActive m - 1)
    (TelemetryAgeNS m).

(** ** Health *)

(** [healthMaxAge] *)
Definition healthMaxAge (c : config) : Z :=
  if 0 <? healthMaxMetadataAge c then healthMaxMetadataAge c else 3 * refresh c.

(** [healthCheck.MetadataAgeOK] *)
Definition MetadataAgeOK (c : Cache) (maxAge now : Z) : bool := Age c now <=? maxAge.

(** The admin server as [run] builds it, at time [now]. *)
Definition admin_of (c : config) (cache : Cache) (m : Metrics) (now : Z) : Admin :=
  mkAdmin (Some m) (Some (MetadataAgeOK cache (healthMaxAge c) now)) (enablePprof c).

(** ** Facts *)

(** What the process holds after some events. *)
Record held := mkHeld { h_side : bool; h_listener : bool; h_pool : bool }.

Definition hold (h : held) (ev : event) : held :=
  match ev with
  | DialSide _ => mkHeld true (h_listener h) (h_pool h)
  | CloseSide => mkHeld false (h_listener h) (h_pool h)
  | OpenListener _ => mkHeld (h_side h) true (h_pool h)
  | CloseListener => mkHeld (h_side h) false (h_pool h)
  | StartPool _ => mkHeld (h_side h) (h_listener h) true
  | ClosePool => mkHeld (h_side h) (h_listener h) false
  | CancelRoot => h
  end.

Definition held_after (evs : list event) : held := fold_left hold evs (mkHeld false false false).

Lemma resolve_some c c' :
  resolve c = Some c' ->
  broker c' = broker c /\ broker c <> ""%string /\
  bootstrap c' = (if bool_decide (bootstrap c = ""%string) then broker c else bootstrap c).
Proof.
  unfold resolve. destruct (bool_decide_reflect (broker c = ""%string)) as [|Hb]; [done|].
  destruct (bool_decide_reflect (bootstrap c = ""%string)); intros [= <-]; done.
Qed.

Section facts.
Context {HT : HostText} {E : Type} `{TopologyJson E}.

Lemma LoadFile_ok (f : File E) m :
  LoadFile (inr f) = inr m <->
  len (f_data f) <= maxTopologyBytes /\ f_err f = None /\ f_close f = None /\
  exists entries, Unmarshal (f_data f) = inr entries /\ LoadEntries entries = Some m.
Proof.
  unfold LoadFile, read_limited. destruct (Z.leb_spec (maxTopologyBytes + 1) (len (f_data f))) as [Hl|Hl].
  - destruct (Z.ltb_spec maxTopologyBytes (len (take (Z.to_nat (maxTopologyBytes + 1)) (f_data f)))) as [H1|H1].
    + split; [|lia]. by destruct (f_close f).
    + exfalso. revert H1. unfold len, maxTopologyBytes in *. rewrite length_take. lia.
  - destruct (f_err f) as [e|]. { split; [by destruct (f_close f)|naive_solver]. }
    destruct (Z.ltb_spec maxTopologyBytes (len (f_data f))); [lia|].
    destruct (Unmarshal (f_data f)) as [e|entries]. { split; [by destruct (f_close f)|naive_solver]. }
    destruct (LoadEntries entries) as [m'|] eqn:El. 2:{ split; [by destruct (f_close f)|naive_solver]. }
    destruct (f_close f); naive_solver.
Qed.

Lemma select_topology_servable c open m :
  select_topology c open = inr m -> servable_mapping m.
Proof.
  unfold select_topology. destruct (negb _).
  - destruct (ParseFlag _) as [m'|] eqn:Ep; [|done]. intros [= <-].
    revert Ep. unfold ParseFlag. destruct (bool_decide _).
    + intros [= <-]. apply servable_New.
    + apply fold_option_inv; [apply servable_New|apply parse_entry_servable].
  - destruct (negb _).
    + destruct (LoadFile _) as [|m'] eqn:El; [done|]. intros [= <-].
      destruct (open _) as [|f]; [done|]. apply LoadFile_ok in El as (_ & _ & _ & entries & _ & Ee).
      revert Ee. apply fold_option_inv; [apply servable_New|apply load_entry_servable].
    + intros [= <-]. apply servable_New.
Qed.

End facts.

(** ** Properties *)

(** Waiting is limited: a call of the planner has a deadline ahead of it whatever
    the flag says, and a dial ends no later than its parent context; without a
    positive -dial-timeout it has no limit of its own. *)
Lemma waits_limited parent now d :
  (exists t, WithTimeout None now (PlanTimeout d) = Some t /\ now < t) /\
  (forall p, parent = Some p -> exists t, dialContext parent now d = Some t /\ t <= p) /\
  (0 < d -> exists t, dialContext parent now d = Some t /\ t <= now + d) /\
  (d <= 0 -> dialContext parent now d = parent).
Proof.
  unfold WithTimeout, PlanTimeout, dialContext, WithTimeout, Second. destruct (Z.leb_spec d 0); split_and!; try lia;
    intros; subst; repeat case_match; simplify_eq; eauto with lia.
Qed.

(** A topology file is loaded whole or not at all: [LoadFile] succeeds
    exactly when the file can be read and closed, has at most 1 MiB, is valid
    JSON and every entry of it is valid and consistent with the others; a file
    that is larger is refused, never read in part, and an unreadable or
    unclosable one is an error. *)
Theorem load_file_spec {HT : HostText} {E} `{TopologyJson E} (f : File E) m :
  LoadFile (inr f) = inr m <->
  len (f_data f) <= maxTopologyBytes /\ f_err f = None /\ f_close f = None /\
  exists entries, Unmarshal (f_data f) = inr entries /\ LoadEntries entries = Some m.
Proof. apply LoadFile_ok. Qed.

(** C37: what starting up leaves behind.  Whatever the flags, the topology file
    and the network: an error leaves neither the side channel nor the listener
    open, and leaves the planner's workers running exactly when it is the error
    of [Listen], which comes after they were started and returns without closing
    the pool; success leaves all three open, for a configuration with a broker
    and a side channel address and a topology whose advertised endpoints can be
    dialled, and the calls of the orderly shutdown and the deferred ones release
    all three. *)
Theorem startup_outcome {HT : HostText} {E} `{TopologyJson E} (net : Net E) flags :
  match startup net flags with
  | (inl err, evs) =>
      held_after evs = mkHeld false false (match err with ListenFailed _ => true | _ => false end)
  | (inr (c, topo), evs) =>
      held_after evs = mkHeld true true true /\
      held_after (evs ++ shutdown_calls ++ deferred_calls) = mkHeld false false false /\
      broker c = broker flags /\ broker c <> ""%string /\ bootstrap c <> ""%string /\
      (bootstrap flags <> ""%string -> bootstrap c = bootstrap flags) /\
      servable_mapping topo
  end.
Proof.
  unfold startup. destruct (resolve flags) as [c|] eqn:Er; [|done].
  apply resolve_some in Er as (Eb & Hb & Ebs).
  destruct (select_topology c (n_open net)) as [e|topo] eqn:Et.
  { revert Et. unfold select_topology. intros Et. by repeat case_match; simplify_eq. }
  destruct (n_dial net (bootstrap c)); [done|]. unfold open_listener.
  destruct (n_listen net (listen c)); [done|].
  apply select_topology_servable in Et. rewrite Eb, Ebs. split_and!; try done.
  - by destruct (bool_decide_reflect (bootstrap flags = ""%string)).
  - intros Hne. by rewrite bool_decide_eq_false_2.
Qed.

(** What /healthz answers: 200 when the age of the published metadata is
    within the budget (the flag's, or three refresh intervals), 503 when it is
    older; and 503 as long as no refresh has succeeded, for every budget below
    a year. *)
Theorem healthz_reports_age c cache m now :
  let budget := healthMaxAge c in
  (Age cache now <= budget ->
     exists body, serve (admin_of c cache m now) "/healthz" = Reply 200 None body) /\
  (budget < Age cache now ->
     exists body, serve (admin_of c cache m now) "/healthz" = Reply 503 None body) /\
  (cur cache = None -> budget < 365 * 24 * 60 * Minute ->
     exists body, serve (admin_of c cache m now) "/healthz" = Reply 503 None body).
Proof.
  cbv zeta. change (serve ?a "/healthz") with (handle_healthz a).
  unfold handle_healthz, admin_of, MetadataAgeOK. cbn [A_Health A_Metrics]. split_and!.
  - intros Hle. apply Z.leb_le in Hle. rewrite Hle. eauto.
  - intros Hlt. apply Z.leb_gt in Hlt. rewrite Hlt. eauto.
  - intros Hn Hb. unfold Age. rewrite Hn.
    destruct (Z.leb_spec (3600 * 24 * 365 * 1000000000) (healthMaxAge c)); [|eauto].
    unfold Minute, Second in Hb. lia.
Qed.

(** One missed refresh does not make the proxy unhealthy: when refreshes
    start every [refresh] and take at most one interval, no two in a row fail
    and the default budget is in force, the health check holds from the end of
    the first one on, at every moment until the next one ends. *)
Theorem one_missed_refresh_is_healthy c t0 d rs now cache :
  healthMaxMetadataAge c <= 0 -> 0 <= d <= refresh c ->
  rs <> [] ->
  (forall k s, rs !! k = Some (inr s) -> t0 + Z.of_nat k * refresh c <= BuiltAt s) ->
  (forall k e, rs !! k = Some (inl e) ->
     exists k' s, k = S k' /\ rs !! k' = Some (inr s)) ->
  cur cache = last_success None rs ->
  now <= t0 + len rs * refresh c + d ->
  MetadataAgeOK cache (healthMaxAge c) now = true.
Proof.
  intros Hflag Hd Hne Hbuilt Hfail Hcur Hnow.
  assert (exists s k, cur cache = Some s /\ rs !! k = Some (inr s) /\ len rs - 2 <= Z.of_nat k)
    as (s & k & Hs & Hk & Hlen).
  { destruct rs as [|r rs _] using rev_ind; [done|]. rewrite last_success_snoc in Hcur.
    assert ((rs ++ [r]) !! length rs = Some r) as Hr by by apply list_lookup_middle.
    destruct r as [e|s].
    - destruct (Hfail _ _ Hr) as (k' & s & Hl & Hk').
      destruct rs as [|r' rs _] using rev_ind; [done|].
      rewrite length_app in Hl. cbn [length] in Hl. assert (k' = length rs) as -> by lia.
      rewrite <- app_assoc in Hk'. cbn [app] in Hk'. rewrite list_lookup_middle in Hk' by done. injection Hk' as ->.
      rewrite last_success_snoc in Hcur. exists s, (length rs).
      split; [done|]. split; [rewrite <- app_assoc; by apply list_lookup_middle|].
      unfold len. rewrite !length_app. simpl. lia.
    - exists s, (length rs). split; [done|]. split; [done|]. unfold len. rewrite length_app. simpl. lia. }
  specialize (Hbuilt k s Hk). unfold MetadataAgeOK, Age, healthMaxAge. rewrite Hs.
  destruct (Z.ltb_spec 0 (healthMaxMetadataAge c)); [lia|]. apply Z.leb_le. nia.
Qed.

Definition missed_refresh : list (kerr + Snapshot) :=
  [inr (mkSnapshot 5 ∅ ∅); inl ErrTruncated].

Lemma one_missed_refresh_is_healthy_witness :
  MetadataAgeOK (mkCache (Some (mkSnapshot 5 ∅ ∅)) None []) (healthMaxAge default_flags) (80 * Second) = true.
Proof.
  apply (one_missed_refresh_is_healthy default_flags 0 (20 * Second) missed_refresh).
  - vm_compute. discriminate.
  - vm_compute. split; discriminate.
  - discriminate.
  - intros [|[|k]] s Hk; try discriminate. injection Hk as <-. vm_compute. discriminate.
  - intros [|[|k]] e Hk; try discriminate. exists 0%nat, (mkSnapshot 5 ∅ ∅). split; reflexivity.
  - reflexivity.
  - vm_compute. discriminate.
Defined.

(** A refresh interval of zero means 30 seconds to the cache but no time at all
    to the health check: once a snapshot is a nanosecond old, and before there
    is one, the proxy reports itself unhealthy. *)
Theorem zero_refresh_is_unhealthy c cache now :
  refresh c = 0 -> healthMaxMetadataAge c <= 0 ->
  (forall s, cur cache = Some s -> BuiltAt s < now) ->
  refresh_interval (refresh c) = 30 * Second /\ MetadataAgeOK cache (healthMaxAge c) now = false.
Proof.
  intros Hr Hm Hs. split; [by rewrite Hr|].
  unfold MetadataAgeOK, healthMaxAge, Age. destruct (Z.ltb_spec 0 (healthMaxMetadataAge c)); [lia|].
  rewrite Hr. apply Z.leb_gt. destruct (cur cache) as [s|]; [specialize (Hs s eq_refl)|]; lia.
Qed.

(** ** A concrete start *)

Definition no_json : TopologyJson unit := {| Unmarshal _ := inl tt |}.
Definition quiet_net : Net unit := mkNet 8 (fun _ => inl tt) (fun _ => None) (fun _ => None).
Definition only_broker : config :=
  mkCfg ":9092" "b:9092" "" "127.0.0.1:9099" "" "" 4096 0 (5 * Minute) (2 * Second) (30 * Second)
    (15 * Second) (5 * Second) (30 * Second) 0 0 100000 "kproxy" false 0.

Example start_refused :
  fst (@startup ascii_host_text unit no_json quiet_net default_flags) = inl BrokerRequired.
Proof. reflexivity. Qed.

Example start_ok :
  @startup ascii_host_text unit no_json quiet_net only_broker =
  (inr (with_bootstrap only_broker "b:9092", New), [DialSide "b:9092"; StartPool 8; OpenListener ":9092"])%string.
Proof. reflexivity. Qed.

(** ** From the topology file to the client *)

Section configured.
Context {HT : HostText} {RO : RenderOrder} {E : Type} `{TopologyJson E}.

(** The topology of a proxy started from a file is that of the file's entries. *)
Lemma started_topology (net : Net E) flags c topo evs f entries :
  startup net flags = (inr (c, topo), evs) ->
  topologyFlag flags = ""%string -> topologyFile flags <> ""%string ->
  n_open net (topologyFile flags) = inr f -> Unmarshal (f_data f) = inr entries ->
  LoadEntries entries = Some topo.
Proof.
  intros Hs Hf Hne Ho Hu. unfold startup in Hs.
  destruct (resolve flags) as [c'|] eqn:Er; [|done].
  assert (topologyFlag c' = ""%string /\ topologyFile c' = topologyFile flags) as [Ef Et].
  { unfold resolve in Er. destruct (bool_decide _); [done|]. destruct (bool_decide _); by injection Er as <-. }
  unfold select_topology in Hs. rewrite Ef, Et in Hs. rewrite bool_decide_eq_true_2 in Hs by done.
  rewrite bool_decide_eq_false_2 in Hs by done. cbn [negb] in Hs. rewrite Ho in Hs.
  destruct (LoadFile (inr f)) as [|m] eqn:El; [done|].
  destruct (n_dial net (bootstrap c')); [done|].
  unfold open_listener in Hs. destruct (n_listen net _); [done|]. injection Hs as -> -> <-.
  apply LoadFile_ok in El as (_ & _ & _ & entries' & Hu' & Hl). congruence.
Qed.

(** C15: a broker listed in the topology file under its node id is hidden from
    every client. For a proxy that started with [-topology-file] and without
    [-topology], and an entry of the file with a node id of at least 0, on
    every connection it makes: a Metadata request is registered with the
    rewriter of Metadata responses; and in the response as rewritten, a broker
    with the entry's node id has the host and port the entry advertises,
    whatever address the broker's own response gave for it. (Entries by host
    and port only, with node id -1, are not covered: a file of only such
    entries is not applied at all, [host_only_topology_not_applied].) *)
Theorem configured_brokers_hidden (net : Net E) flags c topo evs f entries e
    cache store h planner m now n hdr body resp b :
  startup net flags = (inr (c, topo), evs) ->
  topologyFlag flags = ""%string -> topologyFile flags <> ""%string ->
  n_open net (topologyFile flags) = inr f -> Unmarshal (f_data f) = inr entries ->
  e ∈ entries -> 0 <= FI_NodeID e ->
  RH_APIKey hdr = APIMetadata -> b ∈ MR_Brokers resp -> MB_NodeID b = FI_NodeID e ->
  (exists p st, OnRequest (deps_of topo cache store h planner m now n) hdr body = (Some p, st) /\
     P_Rewrite p = Some rewriteMetadataResp /\ D_Topology st = Some topo) /\
  (exists adv, parseEndpoint (FI_Advertised e) = Some adv /\
     mkMetadataBroker (MB_NodeID b) (EP_Host adv) (EP_Port adv) (MB_Rack b) (MB_RackNull b)
       ∈ MR_Brokers (fst (RewriteMetadataResponse resp (Some topo))) /\
     forall b', b' ∈ MR_Brokers (fst (RewriteMetadataResponse resp (Some topo))) ->
       MB_NodeID b' = FI_NodeID e -> MB_Host b' = EP_Host adv /\ MB_Port b' = EP_Port adv).
Proof.
  intros Hs Hf Hne Ho Hu He Hn Hk Hb Hid.
  pose proof (started_topology net flags c topo evs f entries Hs Hf Hne Ho Hu) as Hl.
  assert (forall host port, exists adv, parseEndpoint (FI_Advertised e) = Some adv /\
            Lookup (Some topo) (FI_NodeID e) host port = Some adv) as Hlk.
  { intros host port. destruct (loaded_entries_in_force entries topo e Hl He Hn) as (adv & Ha & Hin).
    exists adv. split; [done|]. by apply lookup_node. }
  destruct (Hlk (MB_Host b) (MB_Port b)) as (adv & Hadv & Hb').
  assert (forall b0, MB_NodeID b0 = FI_NodeID e -> rewrite_broker (Some topo) b0 =
    (mkMetadataBroker (MB_NodeID b0) (EP_Host adv) (EP_Port adv) (MB_Rack b0) (MB_RackNull b0), 1)) as Hrw.
  { intros b0 E0. destruct (Hlk (MB_Host b0) (MB_Port b0)) as (adv0 & Ha & Hb0).
    unfold rewrite_broker. rewrite E0, Hb0. congruence. }
  split.
  - assert (no_topology (with_metrics inc_total (deps_of topo cache store h planner m now n)) = false) as Hno.
    { unfold no_topology. cbn [D_Topology with_metrics set_Metrics deps_of]. apply Z.eqb_neq.
      intros E0. unfold Len in E0. assert (byNodeID topo = ∅) as Em.
      { apply map_size_empty_inv. lia. }
      destruct (loaded_entries_in_force entries topo e Hl He Hn) as (adv' & _ & Hin).
      by rewrite Em in Hin. }
    cbn [OnRequest production]. unfold on_request. rewrite Hk, Z.eqb_refl. unfold onMetadata.
    rewrite Hno. by eexists _, _.
  - exists adv. split; [done|]. cbn [RewriteMetadataResponse fst set_brokers MR_Brokers].
    rewrite map_map. split.
    + apply list_elem_of_fmap. exists b. split; [by rewrite Hrw|done].
    + intros b' (b0 & -> & Hin)%list_elem_of_fmap Hid'.
      assert (MB_NodeID b0 = FI_NodeID e) as E0.
      { destruct (rewrite_broker_fields (Some topo) b0) as (E0 & _). congruence. }
      by rewrite (Hrw b0 E0).
Qed.

End configured.

Definition two_json : TopologyJson unit := {| Unmarshal _ := inr two_entries |}.
Definition file_net : Net unit := mkNet 8 (fun _ => inr (mkFile [] None None)) (fun _ => None) (fun _ => None).
Definition from_file : config :=
  mkCfg ":9092" "b:9092" "" "127.0.0.1:9099" "" "t.json" 4096 0 (5 * Minute) (2 * Second) (30 * Second)
    (15 * Second) (5 * Second) (30 * Second) 0 0 100000 "kproxy" false 0.
Definition from_file_topology : Mapping := default New (@LoadEntries ascii_host_text two_entries).
Definition broker_one : MetadataBroker := mkMetadataBroker 1 "10.9.9.9" 1 "r" false.
Definition one_broker : MetadataResponse := mkMetadataResponse 9 0 [broker_one] "c" false 1 [] 0.

Lemma configured_brokers_hidden_witness :
  (exists p st, @OnRequest _ _ (@production ascii_host_text {| ord_topics l := l |})
     (deps_of from_file_topology NewCache (NewStore 1) (mkHolder None) (fun _ => (None, 0, None)) NewMetrics 0 0)
     (mkRequestHeader APIMetadata 9 5 "c" false 12) [] = (Some p, st) /\
     P_Rewrite p = Some rewriteMetadataResp /\ D_Topology st = Some from_file_topology) /\
  (exists adv, parseEndpoint "proxy:9193" = Some adv /\
     mkMetadataBroker 1 (EP_Host adv) (EP_Port adv) "r" false
       ∈ MR_Brokers (fst (@RewriteMetadataResponse ascii_host_text one_broker (Some from_file_topology))) /\
     forall b', b' ∈ MR_Brokers (fst (@RewriteMetadataResponse ascii_host_text one_broker (Some from_file_topology))) ->
       MB_NodeID b' = 1 -> MB_Host b' = EP_Host adv /\ MB_Port b' = EP_Port adv).
Proof.
  apply (@configured_brokers_hidden ascii_host_text {| ord_topics l := l |} unit two_json file_net from_file
    (with_bootstrap from_file "b:9092") from_file_topology [DialSide "b:9092"; StartPool 8; OpenListener ":9092"]%string
    (mkFile [] None None) two_entries (mkFileEntry 1 "10.0.0.2:9092" "proxy:9193")
    NewCache (NewStore 1) (mkHolder None) (fun _ => (None, 0, None)) NewMetrics 0 0
    (mkRequestHeader APIMetadata 9 5 "c" false 12) [] one_broker broker_one).
  - vm_compute. reflexivity.
  - reflexivity.
  - discriminate.
  - reflexivity.
  - reflexivity.
  - right. left.
  - simpl. lia.
  - reflexivity.
  - left.
  - reflexivity.
Defined.
