(* ===== verification/Process.v ===== *)
(** * The running process: cmd/kproxy/main.go from the listener on

    How [run] ties the components together: the notification of the store that
    feeds the poller's registry, and the life of the process, its five
    goroutines in an [errgroup], the signal, the drain and the shutdown, as a
    transition system.  Connections are counted; what one does, and that it
    ends when its context does, is ConnRun.v. *)

From stdpp Require Import base numbers list strings gmap relations sorting.
From Stdlib Require Import ZArith Lia.
From S2P Require Import Prelude Primitives Codec Header ConsumerProtocol JoinGroup SyncGroup Topology Store.
From S2P Require Import Interceptor Poller.

(** ** Store and registry *)

(** [subStore.SetOnChange(func(group) { groupReg.Add(group) })]: the store, the
    calls of the callback that are still to come, the registry. *)
Record Wiring := mkWiring {
  w_store : Store;
  w_pending : list string;
  w_registry : SyncRegistry;
}.

Definition wire_start (subMax : Z) : Wiring := mkWiring (NewStore subMax) [] NewSyncRegistry.

(** A [Put] by some connection's interceptor, and its callback later. *)
Inductive wire_step : Wiring -> Wiring -> Prop :=
| wire_put w now sub ok s note :
    Put (w_store w) now sub = (ok, s, note) ->
    wire_step w (mkWiring s (w_pending w ++ option_list note) (w_registry w))
| wire_notify s p1 g p2 r :
    wire_step (mkWiring s (p1 ++ g :: p2) r) (mkWiring s (p1 ++ p2) (RegAdd r g)).

(** The interceptor changes the store by a [Put] only. *)
Lemma on_request_store {HT : HostText} {RO : RenderOrder} st h body store :
  D_Subscription st = Some store ->
  let st' := snd (on_request st h body) in
  D_Subscription st' = Some store \/
  exists sub, D_Subscription st' = Some (snd (fst (Put store (clock st) sub))).
Proof.
  intros Hs. unfold on_request.
  destruct (_ =? _). { unfold onMetadata. case_match; by left. }
  destruct (_ =? _). { unfold onFindCoordinator. case_match; by left. }
  destruct (_ =? _).
  { unfold onJoinGroup. cbn [D_Subscription with_metrics set_Metrics]. rewrite Hs.
    destruct (DecodeJoinGroupRequest _ _) as [jg| |]; [|by left..].
    destruct (JG_Protocols jg); [by left|]. case_match; [by left|].
    destruct (DecodeSubscription _) as [sub| |]; [|by left..].
    cbn [clock with_metrics set_Metrics].
    destruct (Put store (clock st) _) as [[ok store'] note] eqn:Ep. right. eexists. by rewrite Ep. }
  destruct (_ =? _); [|by left].
  unfold onSyncGroup. repeat case_match; by left.
Qed.

(** Every group with a subscription is registered or about to be, and nothing
    else is registered than groups a [Put] announced. *)
Definition wired (w : Wiring) : Prop :=
  store_ok (w_store w) /\
  forall g m, is_Some (Get (w_store w) g m) -> g ∈ reg_groups (w_registry w) \/ g ∈ w_pending w.

Lemma wire_step_ok w w' : wire_step w w' -> wired w -> wired w'.
Proof.
  intros [w1 now sub ok s note Hp|s p1 g p2 r] [Hok Hg]; split; simpl in *; try done.
  - by eapply (store_step_refines _ (OpPut now sub) s (ok, note)); [|simpl; rewrite Hp].
  - pose proof (Put_spec (w_store w1) now sub Hok) as Hs. rewrite Hp in Hs. intros g m.
    destruct ok.
    + destruct Hs as (Hv & -> & _). rewrite Get_view, Hv. rewrite lookup_insert_is_Some'.
      intros [Hk|H]; [right; injection Hk as <- _; simpl; set_solver|].
      rewrite <- Get_view in H. destruct (Hg g m H); [by left|right; set_solver].
    + destruct Hs as (-> & -> & _). intros H. destruct (Hg g m H); [by left|right; set_solver].
  - intros g' m' H. destruct (Hg g' m' H) as [?|[?|[->|?]%elem_of_cons]%elem_of_app]; set_solver.
Qed.

Lemma wire_reach_ok n w : rtc wire_step (wire_start n) w -> wired w.
Proof.
  apply (rtc_ind_r wired).
  - split; [apply NewStore_ok|]. intros g m [x Hx]. by rewrite Get_view in Hx.
  - intros w1 w2 _ Hs. by apply wire_step_ok.
Qed.

(** ** The process *)

Inductive task := TCache | TPoller | TAdmin | TServe | TGauges.

#[global] Instance task_eq_dec : EqDecision task.
Proof. solve_decision. Defined.

(** The body of [run] after the goroutines are started. *)
Inductive main_at :=
| Serving        (** in the [select] on the signal and the group's context *)
| Closing        (** before [ln.Close()] *)
| Draining       (** in the [select] on [serveDone] and the drain deadline *)
| Cancelling     (** before [rootCancel()] *)
| ClosingPool    (** before [pp.Close()] *)
| Waiting        (** in [eg.Wait()] *)
| Stopped.       (** [return nil] *)

(** The accept loop of [listener.Serve]: in [Accept], in the back-off after a
    transient error, at the semaphore with a client in hand, dialling for it, or
    left with its result and waiting for the connections. *)
Inductive loop_at (E : Type) := Accepting | BackingOff | AtSemaphore | Dialling | LoopLeft (r : option E).
Arguments Accepting {E}.
Arguments BackingOff {E}.
Arguments AtSemaphore {E}.
Arguments Dialling {E}.
Arguments LoopLeft {E}.

(** Whose step it is: the process's own, which nothing but the scheduler can
    hold up; a choice of the environment (clients, brokers, signals, failures),
    which need not come; a tick of a ticker; an answer on the side channel. *)
Inductive who := Own | Env | Tick | Answer.

#[global] Instance who_eq_dec : EqDecision who.
Proof. solve_decision. Defined.

Section process.
Context {E : Type}.

Record Proc := mkProc {
  p_at : main_at;
  running : list task;        (** goroutines of the errgroup *)
  egErr : option E;           (** the group's first error, which ends its context *)
  rootCancelled : bool;
  lnClosed : bool;
  poolClosed : bool;
  serveDone : bool;
  drainExpired : bool;
  p_loop : loop_at E;
  p_live : nat;               (** connections being served *)
  busy : list task;           (** refresher and poller inside a side-channel call *)
}.

Definition proc_start : Proc :=
  mkProc Serving [TCache; TPoller; TAdmin; TServe; TGauges] None false false false false false Accepting 0 [].

(** [egCtx.Done()] *)
Definition group_done (s : Proc) : bool :=
  rootCancelled s || match egErr s with Some _ => true | None => false end.

Definition left_by (t : task) (l : list task) : list task := filter (fun x => x <> t) l.

(** [errgroup]: the first error is kept. *)
Definition first_err (old : option E) (new : option E) : option E :=
  match old with Some e => Some e | None => new end.

Definition go_to (s : Proc) (a : main_at) : Proc :=
  mkProc a (running s) (egErr s) (rootCancelled s) (lnClosed s) (poolClosed s) (serveDone s)
    (drainExpired s) (p_loop s) (p_live s) (busy s).

(** Task [t] returns [r]. *)
Definition task_returns (s : Proc) (t : task) (r : option E) : Proc :=
  mkProc (p_at s) (left_by t (running s)) (first_err (egErr s) r) (rootCancelled s) (lnClosed s)
    (poolClosed s) (serveDone s) (drainExpired s) (p_loop s) (p_live s) (busy s).

Definition set_loop (s : Proc) (l : loop_at E) (live : nat) : Proc :=
  mkProc (p_at s) (running s) (egErr s) (rootCancelled s) (lnClosed s) (poolClosed s) (serveDone s)
    (drainExpired s) l live (busy s).

Definition set_busy (s : Proc) (b : list task) : Proc :=
  mkProc (p_at s) (running s) (egErr s) (rootCancelled s) (lnClosed s) (poolClosed s) (serveDone s)
    (drainExpired s) (p_loop s) (p_live s) b.

(** What happens by itself once the group's context has ended, and is up to the
    environment before. *)
Definition on_cancel (s : Proc) : who := if group_done s then Own else Env.

(** [side_answers]: the side channel's broker answers, or closes it.  [Do] sets
    no deadline and does not look at the context. *)
Inductive proc_step (admin_enabled side_answers : bool) : who -> Proc -> Proc -> Prop :=
(** The main goroutine. *)
| main_signal s : p_at s = Serving -> proc_step admin_enabled side_answers Env s (go_to s Closing)
| main_failed s :
    p_at s = Serving -> group_done s = true -> proc_step admin_enabled side_answers Own s (go_to s Closing)
| main_close s :
    p_at s = Closing ->
    proc_step admin_enabled side_answers Own s
      (mkProc Draining (running s) (egErr s) (rootCancelled s) true (poolClosed s) (serveDone s)
         (drainExpired s) (p_loop s) (p_live s) (busy s))
| main_drained s :
    p_at s = Draining -> serveDone s = true -> proc_step admin_enabled side_answers Own s (go_to s Cancelling)
| main_expired s :
    p_at s = Draining ->
    proc_step admin_enabled side_answers Own s
      (mkProc Cancelling (running s) (egErr s) (rootCancelled s) (lnClosed s) (poolClosed s)
         (serveDone s) true (p_loop s) (p_live s) (busy s))
| main_cancel s :
    p_at s = Cancelling ->
    proc_step admin_enabled side_answers Own s
      (mkProc ClosingPool (running s) (egErr s) true (lnClosed s) (poolClosed s) (serveDone s)
         (drainExpired s) (p_loop s) (p_live s) (busy s))
| main_close_pool s :
    p_at s = ClosingPool ->
    proc_step admin_enabled side_answers Own s
      (mkProc Waiting (running s) (egErr s) (rootCancelled s) (lnClosed s) true (serveDone s)
         (drainExpired s) (p_loop s) (p_live s) (busy s))
| main_wait s :
    p_at s = Waiting -> running s = [] -> proc_step admin_enabled side_answers Own s (go_to s Stopped)
(** The background tasks return nil when the group's context ends. *)
| background_returns s t :
    t ∈ [TCache; TPoller; TGauges] -> t ∈ running s -> t ∉ busy s -> group_done s = true ->
    proc_step admin_enabled side_answers Own s (task_returns s t None)
(** A tick: the refresher or the poller calls the broker. *)
| background_calls s t :
    t ∈ [TCache; TPoller] -> t ∈ running s -> t ∉ busy s ->
    proc_step admin_enabled side_answers Tick s (set_busy s (t :: busy s))
| background_answered s t :
    t ∈ busy s -> side_answers = true ->
    proc_step admin_enabled side_answers Answer s (set_busy s (left_by t (busy s)))
(** The admin server: not configured, shut down, or failing. *)
| admin_returns s :
    TAdmin ∈ running s -> admin_enabled = false \/ group_done s = true ->
    proc_step admin_enabled side_answers Own s (task_returns s TAdmin None)
| admin_fails s e :
    TAdmin ∈ running s -> admin_enabled = true ->
    proc_step admin_enabled side_answers Env s (task_returns s TAdmin (Some e))
(** The accept loop: [Accept] returns a client, a transient error or another
    one, and [net.ErrClosed] once the listener is closed; it does not look at
    the context. *)
| loop_accepts s :
    p_loop s = Accepting -> lnClosed s = false ->
    proc_step admin_enabled side_answers Env s (set_loop s AtSemaphore (p_live s))
| loop_transient s :
    p_loop s = Accepting -> lnClosed s = false ->
    proc_step admin_enabled side_answers Env s (set_loop s BackingOff (p_live s))
| loop_fails s e :
    p_loop s = Accepting -> lnClosed s = false ->
    proc_step admin_enabled side_answers Env s (set_loop s (LoopLeft (Some e)) (p_live s))
| loop_closed s :
    p_loop s = Accepting -> lnClosed s = true ->
    proc_step admin_enabled side_answers Own s (set_loop s (LoopLeft None) (p_live s))
(** The two places where the loop watches the context: the back-off and the
    semaphore, whose token comes when a connection ends. *)
| loop_retries s :
    p_loop s = BackingOff -> proc_step admin_enabled side_answers Own s (set_loop s Accepting (p_live s))
| loop_admits s :
    p_loop s = AtSemaphore -> proc_step admin_enabled side_answers Env s (set_loop s Dialling (p_live s))
| loop_cancelled s :
    p_loop s = BackingOff \/ p_loop s = AtSemaphore -> group_done s = true ->
    proc_step admin_enabled side_answers Own s (set_loop s (LoopLeft None) (p_live s))
(** Dialling: the broker accepts, or the dial fails, as it does when its context
    ends; the loop then goes on to [Accept]. *)
| loop_serves s :
    p_loop s = Dialling -> proc_step admin_enabled side_answers Env s (set_loop s Accepting (S (p_live s)))
| loop_drops s :
    p_loop s = Dialling ->
    proc_step admin_enabled side_answers (on_cancel s) s (set_loop s Accepting (p_live s))
(** A connection ends when its peers end it, and when its context does
    ([ConnRun.run_terminates]). *)
| conn_returns s n :
    p_live s = S n -> proc_step admin_enabled side_answers (on_cancel s) s (set_loop s (p_loop s) n)
(** [Serve] returns when the loop is left and no connection is live, and then
    [serveDone] is closed. *)
| serve_returns s r :
    p_loop s = LoopLeft r -> p_live s = 0%nat -> TServe ∈ running s ->
    proc_step admin_enabled side_answers Own s
      (mkProc (p_at s) (left_by TServe (running s)) (first_err (egErr s) r) (rootCancelled s)
         (lnClosed s) (poolClosed s) true (drainExpired s) (p_loop s) (p_live s) (busy s)).

(** A step of anybody. *)
Definition proc_moves (adm sa : bool) (s s' : Proc) : Prop := exists k, proc_step adm sa k s s'.

(** A run, with whose steps it consists of. *)
Inductive proc_run (adm sa : bool) : list who -> Proc -> Proc -> Prop :=
| run_nil s : proc_run adm sa [] s s
| run_cons k l s1 s2 s3 : proc_step adm sa k s1 s2 -> proc_run adm sa l s2 s3 -> proc_run adm sa (k :: l) s1 s3.

(** How often a run's tickers tick. *)
Definition tick_count (l : list who) : nat := length (filter (fun k => k = Tick) l).

(** What [run] returns once it has stopped, and the exit status [main] makes of
    what [run] returns. *)
Definition run_returns (s : Proc) : option E := None.
Definition exit_status (err : option E) : Z := match err with Some _ => 1 | None => 0 end.

(** ** The invariant *)

Definition main_rank (a : main_at) : nat :=
  match a with
  | Serving => 6 | Closing => 5 | Draining => 4 | Cancelling => 3 | ClosingPool => 2
  | Waiting => 1 | Stopped => 0
  end.

Definition past (a b : main_at) : bool := (main_rank a <=? main_rank b)%nat.

Record proc_inv (s : Proc) : Prop := {
  pi_closed : lnClosed s = past (p_at s) Draining;
  pi_root : rootCancelled s = past (p_at s) ClosingPool;
  pi_pool : poolClosed s = past (p_at s) Waiting;
  pi_drained : past (p_at s) Cancelling = true -> serveDone s || drainExpired s = true;
  pi_expired : drainExpired s = true -> past (p_at s) Cancelling = true;
  pi_stopped : p_at s = Stopped -> running s = [];
  pi_serving : TServe ∈ running s <-> serveDone s = false;
  pi_served : serveDone s = true -> p_live s = 0%nat /\ exists r, p_loop s = LoopLeft r;
}.

Lemma proc_start_inv : proc_inv proc_start.
Proof. constructor; try done. simpl. split; [done|]. set_solver. Qed.

Lemma elem_of_left_by t x l : t ∈ left_by x l <-> t ∈ l /\ t <> x.
Proof. unfold left_by. rewrite list_elem_of_filter. naive_solver. Qed.

Lemma left_by_nil x : left_by x [] = [].
Proof. done. Qed.

Lemma proc_step_inv adm sa k s s' : proc_step adm sa k s s' -> proc_inv s -> proc_inv s'.
Proof.
  intros Hs [H1 H2 H3 H4 H5 H6 H7 H8].
  destruct Hs; constructor; cbn [go_to task_returns set_loop set_busy p_at running egErr rootCancelled lnClosed
    poolClosed serveDone drainExpired p_loop p_live busy] in *;
    repeat match goal with Ha : p_at _ = _ |- _ => rewrite Ha in *; clear Ha end;
    cbn in *; try assumption; try congruence; try reflexivity.
  all: try (intros _; match goal with Ed : serveDone _ = true |- _ => by rewrite Ed end).
  all: try (intros _; apply orb_true_r).
  all: try (intros Ha; apply H6 in Ha; by rewrite Ha).
  all: try (rewrite elem_of_left_by, <- H7; split; [tauto|]; intros; split; [done|set_solver]).
  all: try (intros Hd; destruct (H8 Hd) as [? [? ?]]; intuition congruence || eauto).
  - rewrite elem_of_left_by. naive_solver.
  - eauto.
Qed.

Lemma proc_reach_inv adm sa s : rtc (proc_moves adm sa) proc_start s -> proc_inv s.
Proof.
  apply (rtc_ind_r proc_inv); [apply proc_start_inv|]. intros s1 s2 _ [k Hs]. by apply (proc_step_inv adm sa k).
Qed.

(** ** Progress *)

Definition loop_rank (l : loop_at E) : nat :=
  match l with Accepting => 1 | BackingOff => 2 | Dialling => 3 | AtSemaphore => 4 | LoopLeft _ => 0 end.

(** What is left to do once the listener is closed. *)
Definition proc_left (s : Proc) : nat :=
  main_rank (p_at s) + length (running s) + loop_rank (p_loop s) + p_live s + length (busy s).

Lemma left_by_shrinks t l : t ∈ l -> (length (left_by t l) < length l)%nat.
Proof.
  intros Ht. unfold left_by. induction l as [|x l IH]; [set_solver|].
  rewrite filter_cons. pose proof (length_filter (fun x => x <> t) l).
  case_decide as Hx; simpl; [|lia]. assert (t ∈ l) as H1%IH by set_solver. lia.
Qed.

(** Once the listener is closed, every step but a tick is progress, and a tick
    costs one. *)
Lemma proc_step_progress adm sa k s s' :
  proc_step adm sa k s s' -> lnClosed s = true ->
  lnClosed s' = true /\ (S (proc_left s') <= proc_left s + (if decide (k = Tick) then 2 else 0))%nat.
Proof.
  intros Hs Hc. unfold proc_left, on_cancel.
  destruct Hs; cbn [go_to task_returns set_loop set_busy p_at running lnClosed p_loop p_live busy];
    (split; [done|]);
    repeat match goal with Ha : p_at _ = _ |- _ => rewrite Ha; clear Ha end;
    repeat match goal with Ha : p_loop _ = _ |- _ => rewrite Ha; clear Ha
                      | Ha : p_loop _ = _ \/ _ |- _ => destruct Ha as [Ha|Ha] end;
    try match goal with Ht : _ ∈ busy _ |- _ => apply left_by_shrinks in Ht; cbn; lia end;
    try match goal with Ht : _ ∈ running _, Hb : _ ∉ busy _ |- context [_ :: busy _] => rewrite decide_True by done; cbn; lia end;
    try match goal with Ht : _ ∈ running _ |- _ => apply left_by_shrinks in Ht; cbn; lia end;
    try match goal with |- context [group_done ?s] => destruct (group_done s) end;
    cbn; try lia; congruence.
Qed.

Lemma closed_runs_end adm sa l s s' :
  proc_run adm sa l s s' -> lnClosed s = true -> (length l + proc_left s' <= proc_left s + 2 * tick_count l)%nat.
Proof.
  induction 1 as [s|k l s1 s2 s3 Hs _ IH]; intros Hc; [cbn; lia|].
  destruct (proc_step_progress adm sa k s1 s2 Hs Hc) as [Hc' Hl]. specialize (IH Hc').
  unfold tick_count in *. rewrite filter_cons. destruct (decide (k = Tick)); cbn [length]; lia.
Qed.

(** A step that nobody can hold up. *)
Definition due (adm : bool) (s : Proc) : Prop :=
  exists k s', (k = Own \/ k = Answer) /\ proc_step adm true k s s'.

Lemma due_own adm s s' : proc_step adm true Own s s' -> due adm s.
Proof. intros Hs. exists Own, s'. auto. Qed.

(** A task that has not returned is due when the context has ended and the
    listener is closed. *)
Lemma task_due adm s t :
  proc_inv s -> group_done s = true -> lnClosed s = true -> t ∈ running s -> due adm s.
Proof.
  intros Hi Hd Hc Ht. assert (on_cancel s = Own) as Ho by (unfold on_cancel; by rewrite Hd).
  destruct (decide (t ∈ busy s)) as [Hb|Hb].
  { eexists _, _. split; [by right|]. by apply (background_answered adm true s t). }
  destruct t.
  - eapply due_own, (background_returns adm true s TCache); [set_solver|done..].
  - eapply due_own, (background_returns adm true s TPoller); [set_solver|done..].
  - eapply due_own, admin_returns; [done|by right].
  - destruct (p_loop s) as [| | | |r] eqn:El.
    + by eapply due_own, loop_closed.
    + by eapply due_own, loop_retries.
    + eapply due_own, loop_cancelled; [by right|done].
    + eapply due_own. rewrite <- Ho. by apply loop_drops.
    + destruct (p_live s) as [|n] eqn:En.
      * by eapply due_own, serve_returns.
      * eapply due_own. rewrite <- Ho. by eapply conn_returns.
  - eapply due_own, (background_returns adm true s TGauges); [set_solver|done..].
Qed.

(** Once it has left its [select], the process has always something to do that
    nobody can hold up, until it has stopped. *)
Lemma always_due adm s : proc_inv s -> p_at s <> Serving -> p_at s <> Stopped -> due adm s.
Proof.
  intros Hi H1 H2. destruct (p_at s) eqn:Ea; try done.
  - by eapply due_own, main_close.
  - by eapply due_own, main_expired.
  - by eapply due_own, main_cancel.
  - by eapply due_own, main_close_pool.
  - destruct (running s) as [|t ts] eqn:Er; [by eapply due_own, main_wait|].
    apply (task_due adm s t Hi); [| |rewrite Er; set_solver].
    + unfold group_done. by rewrite (pi_root s Hi), Ea.
    + by rewrite (pi_closed s Hi), Ea.
Qed.

End process.
Arguments Proc : clear implicits.

(** ** Properties *)

(** C39: the poller hears of every group: in every state of the store, its
    callbacks and the registry, a group with a subscription is registered or
    its notification is on the way; so once the callbacks have run, the groups
    the next poll asks about include every group the planner can plan for. *)
Theorem polled_groups_complete n w g m :
  rtc wire_step (wire_start n) w -> is_Some (Get (w_store w) g m) ->
  (g ∈ RegGroups (w_registry w) \/ g ∈ w_pending w) /\
  (w_pending w = [] -> g ∈ RegGroups (w_registry w)).
Proof.
  intros [_ Hg]%wire_reach_ok Hs. unfold RegGroups.
  rewrite merge_sort_Permutation, elem_of_elements. destruct (Hg g m Hs) as [H|H].
  - by split; [left|].
  - split; [by right|]. intros E. rewrite E in H. by apply elem_of_nil in H.
Qed.

Definition one_sub : Sub := mkSub "g" "m" ["t"]%string [] 0 0.

Lemma polled_groups_complete_witness :
  let w := mkWiring (snd (fst (Put (NewStore 10) 5 one_sub))) ([] ++ []) (RegAdd NewSyncRegistry "g") in
  ("g"%string ∈ RegGroups (w_registry w) \/ "g"%string ∈ w_pending w) /\
  (w_pending w = [] -> "g"%string ∈ RegGroups (w_registry w)).
Proof.
  apply (polled_groups_complete 10 _ "g" "m").
  - eapply rtc_l; [eapply (wire_put (wire_start 10) 5 one_sub); reflexivity|].
    eapply rtc_l; [apply (wire_notify _ [] "g" [])|]. apply rtc_refl.
  - vm_compute. eauto.
Defined.

(** C16: shutting down is orderly. In every reachable state: the shutdown
    cancels the root context only after the listener was closed and either
    every connection had finished or the drain deadline had passed; unless a
    goroutine of the group failed, whose error ends the group's context, and
    with it the connections', at once, that context ends in no other way; the
    planner pool is closed after that; and when [run] returns, every goroutine
    of the group has returned, no connection is live, and listener, pool and
    root context are closed. *)
Theorem shutdown_ordered {E} adm sa (s : Proc E) :
  rtc (proc_moves adm sa) proc_start s ->
  (rootCancelled s = true -> lnClosed s = true /\
     ((serveDone s = true /\ p_live s = 0%nat) \/ drainExpired s = true)) /\
  (egErr s = None -> group_done s = true -> rootCancelled s = true) /\
  (poolClosed s = true -> rootCancelled s = true) /\
  (p_at s = Stopped -> running s = [] /\ p_live s = 0%nat /\
     lnClosed s = true /\ poolClosed s = true /\ rootCancelled s = true).
Proof.
  intros [H1 H2 H3 H4 H5 H6 H7 H8]%proc_reach_inv.
  assert (forall a b c, past a b = true -> (main_rank b <= main_rank c)%nat -> past a c = true) as Hmono.
  { intros a b c. unfold past. rewrite !Nat.leb_le. lia. }
  assert (serveDone s = true -> p_live s = 0%nat) as Hlive by (intros Hd; by destruct (H8 Hd)).
  split_and!.
  - rewrite H1, H2. intros Hr. split; [by apply (Hmono _ ClosingPool); [|simpl; lia]|].
    apply (Hmono _ _ Cancelling), H4, orb_true_iff in Hr as [Hr|Hr]; [|by right|simpl; lia].
    left. auto.
  - unfold group_done. intros ->. by rewrite orb_false_r.
  - rewrite H2, H3. intros Hp. by apply (Hmono _ Waiting); [|simpl; lia].
  - intros Hs. specialize (H6 Hs). rewrite H1, H2, H3, Hs. split_and!; try done.
    apply Hlive. destruct (serveDone s) eqn:Ed; [done|].
    assert (TServe ∈ running s) as Hin by by apply H7. rewrite H6 in Hin. by apply elem_of_nil in Hin.
Qed.

(** C17: shutting down completes, if the side channel's broker answers or hangs
    up.  Whatever clients, brokers and the admin server do: once the process has
    left its main [select] it always has a step that nobody can hold up (its own,
    or the answer on the side channel), until [run] has returned; and from the
    moment the listener is closed the number of steps of a run is bounded by what
    is left to do, plus two for every tick of the background loops, so that only
    tickers which never stop could keep it from ending. *)
Theorem shutdown_completes {E} adm (s : Proc E) :
  rtc (proc_moves adm true) proc_start s ->
  (p_at s <> Serving -> p_at s <> Stopped -> due adm s) /\
  (lnClosed s = true -> forall l s', proc_run adm true l s s' ->
     (length l <= proc_left s + 2 * tick_count l)%nat).
Proof.
  intros Hr%proc_reach_inv. split; [by apply always_due|].
  intros Hc l s' Hl. pose proof (closed_runs_end _ _ _ _ _ Hl Hc). lia.
Qed.

(** ** A run in which the admin server cannot bind its port *)

Definition failed_admin {E} (e : E) : Proc E :=
  mkProc Stopped [] (Some e) true true true true false (LoopLeft None) 0 [].

Ltac proc_tidy :=
  cbv [proc_start go_to task_returns set_loop set_busy p_at running egErr rootCancelled lnClosed
       poolClosed serveDone drainExpired p_loop p_live busy first_err
       left_by filter list_filter decide decide_rel task_eq_dec task_rec task_rect sumbool_rec
       sumbool_rect not_dec].

(** The way from the closed listener through the drain to [eg.Wait]. *)
Lemma failed_admin_run {E} (e : E) : rtc (proc_moves true true) proc_start (failed_admin e).
Proof.
  eapply rtc_l; [eexists; by apply (admin_fails true true _ e); [set_solver|]|]. proc_tidy.
  eapply rtc_l; [eexists; by apply main_failed|]. proc_tidy.
  eapply rtc_l; [eexists; by apply main_close|]. proc_tidy.
  eapply rtc_l; [eexists; by apply loop_closed|]. proc_tidy.
  eapply rtc_l; [eexists; by eapply serve_returns; [| |set_solver]|]. proc_tidy.
  eapply rtc_l; [eexists; by apply main_drained|]. proc_tidy.
  eapply rtc_l; [eexists; by apply main_cancel|]. proc_tidy.
  eapply rtc_l; [eexists; by apply main_close_pool|]. proc_tidy.
  eapply rtc_l; [eexists; by apply (background_returns true true _ TCache); [set_solver..|]|]. proc_tidy.
  eapply rtc_l; [eexists; by apply (background_returns true true _ TPoller); [set_solver..|]|]. proc_tidy.
  eapply rtc_l; [eexists; by apply (background_returns true true _ TGauges); [set_solver..|]|]. proc_tidy.
  eapply rtc_l; [eexists; by apply main_wait|]. proc_tidy. apply rtc_refl.
Qed.

(** A subsystem's failure is not reported: when the admin server fails (its
    port is in use, say) the whole process shuts down, and [run] returns nil,
    so that the exit status is that of a clean stop. *)
Theorem failure_exits_cleanly {E} (e : E) :
  exists s : Proc E, rtc (proc_moves true true) proc_start s /\ p_at s = Stopped /\
    egErr s = Some e /\ exit_status (run_returns s) = 0.
Proof. exists (failed_admin e). split; [apply failed_admin_run|done]. Qed.

Lemma shutdown_ordered_witness :
  let s := failed_admin tt in
  (rootCancelled s = true -> lnClosed s = true /\
     ((serveDone s = true /\ p_live s = 0%nat) \/ drainExpired s = true)) /\
  (egErr s = None -> group_done s = true -> rootCancelled s = true) /\
  (poolClosed s = true -> rootCancelled s = true) /\
  (p_at s = Stopped -> running s = [] /\ p_live s = 0%nat /\
     lnClosed s = true /\ poolClosed s = true /\ rootCancelled s = true).
Proof. apply (shutdown_ordered true true (failed_admin tt)), failed_admin_run. Defined.

(** A client is connected, the refresher waits for the broker, and a signal has
    closed the listener. *)
Definition draining : Proc unit :=
  mkProc Draining [TCache; TPoller; TAdmin; TServe; TGauges] None false true false false false Accepting 1 [TCache].

Lemma draining_run : rtc (proc_moves true true) proc_start draining.
Proof.
  eapply rtc_l; [eexists; by apply loop_accepts|]. proc_tidy.
  eapply rtc_l; [eexists; by apply loop_admits|]. proc_tidy.
  eapply rtc_l; [eexists; by apply loop_serves|]. proc_tidy.
  eapply rtc_l; [eexists; by apply (background_calls true true _ TCache); set_solver|]. proc_tidy.
  eapply rtc_l; [eexists; by apply main_signal|]. proc_tidy.
  eapply rtc_l; [eexists; by apply main_close|]. proc_tidy. apply rtc_refl.
Qed.

Lemma shutdown_completes_witness :
  due true draining /\
  forall l s', proc_run true true l draining s' -> (length l <= 12 + 2 * tick_count l)%nat.
Proof.
  destruct (shutdown_completes true draining draining_run) as [H1 H2]. split; [by apply H1|by apply H2].
Defined.

(** ** A run in which the side channel's broker goes silent *)

Definition hung : Proc unit :=
  mkProc Waiting [TCache] None true true true true false (LoopLeft None) 0 [TCache].

(** Shutting down can hang for ever: a side-channel call has no deadline, does
    not watch the context, and the connection it waits on is closed by a
    deferred call that runs after [eg.Wait].  With a broker that stays silent,
    a process that was told to stop is left with no step it can take, having
    released everything but the refresher. *)
Theorem silent_side_channel_hangs_shutdown :
  rtc (proc_moves true false) proc_start hung /\ nf (proc_moves true false) hung /\ p_at hung <> Stopped.
Proof.
  split_and!; [| |done].
  - eapply rtc_l; [eexists; by apply (background_calls true false _ TCache); set_solver|]. proc_tidy.
    eapply rtc_l; [eexists; by apply main_signal|]. proc_tidy.
    eapply rtc_l; [eexists; by apply main_close|]. proc_tidy.
    eapply rtc_l; [eexists; by apply loop_closed|]. proc_tidy.
    eapply rtc_l; [eexists; by eapply serve_returns; [| |set_solver]|]. proc_tidy.
    eapply rtc_l; [eexists; by apply main_drained|]. proc_tidy.
    eapply rtc_l; [eexists; by apply main_cancel|]. proc_tidy.
    eapply rtc_l; [eexists; by apply main_close_pool|]. proc_tidy.
    eapply rtc_l; [eexists; by apply admin_returns; [set_solver|right]|]. proc_tidy.
    eapply rtc_l; [eexists; by apply (background_returns true false _ TPoller); [set_solver..|]|]. proc_tidy.
    eapply rtc_l; [eexists; by apply (background_returns true false _ TGauges); [set_solver..|]|]. proc_tidy.
    apply rtc_refl.
  - intros (s & k & Hs). inversion Hs; subst; simpl in *; try discriminate; set_solver.
Qed.
