(* ===== verification/Utf8.v ===== *)
(** * Strings as Go ranges over them

    [for _, c := range s] decodes UTF-8: it yields the runes of [s], and U+FFFD
    for each byte that does not start a well-formed sequence; [string(c)]
    encodes a rune.  Both are functions here, total on every string of bytes, so
    that a loop over runes can be compared with one over bytes. *)

From stdpp Require Import base numbers list strings.
From Stdlib Require Import ZArith Lia Strings.Ascii.
From S2P Require Import Prelude.

Definition char_val (c : ascii) : Z := Z.of_N (N_of_ascii c).
Definition char_of (z : Z) : ascii := ascii_of_N (Z.to_N (z mod 256)).

Definition RuneError : Z := 0xFFFD.

(** The shape of a sequence, from its first byte: how many bytes follow, and the
    range of the first of them; the others are continuation bytes. *)
Definition utf8_first (b : Z) : option (nat * Z * Z) :=
  if (0xC2 <=? b) && (b <=? 0xDF) then Some (1%nat, 0x80, 0xBF) else
  if b =? 0xE0 then Some (2%nat, 0xA0, 0xBF) else
  if b =? 0xED then Some (2%nat, 0x80, 0x9F) else
  if (0xE1 <=? b) && (b <=? 0xEF) then Some (2%nat, 0x80, 0xBF) else
  if b =? 0xF0 then Some (3%nat, 0x90, 0xBF) else
  if b =? 0xF4 then Some (3%nat, 0x80, 0x8F) else
  if (0xF1 <=? b) && (b <=? 0xF3) then Some (3%nat, 0x80, 0xBF) else None.

Definition within (lo hi b : Z) : bool := (lo <=? b) && (b <=? hi).

(** The runes a [range] over the string yields. *)
Fixpoint runes (s : string) : list Z :=
  match s with
  | EmptyString => []
  | String c0 s1 =>
      let b0 := char_val c0 in
      if b0 <? 0x80 then b0 :: runes s1 else
      match utf8_first b0, s1 with
      | Some (1%nat, lo, hi), String c1 s2 =>
          let b1 := char_val c1 in
          if within lo hi b1 then (b0 mod 0x20 * 0x40 + b1 mod 0x40) :: runes s2 else RuneError :: runes s1
      | Some (2%nat, lo, hi), String c1 (String c2 s3) =>
          let b1 := char_val c1 in let b2 := char_val c2 in
          if within lo hi b1 && within 0x80 0xBF b2
          then ((b0 mod 0x10 * 0x40 + b1 mod 0x40) * 0x40 + b2 mod 0x40) :: runes s3
          else RuneError :: runes s1
      | Some (3%nat, lo, hi), String c1 (String c2 (String c3 s4)) =>
          let b1 := char_val c1 in let b2 := char_val c2 in let b3 := char_val c3 in
          if within lo hi b1 && within 0x80 0xBF b2 && within 0x80 0xBF b3
          then (((b0 mod 8 * 0x40 + b1 mod 0x40) * 0x40 + b2 mod 0x40) * 0x40 + b3 mod 0x40) :: runes s4
          else RuneError :: runes s1
      | _, _ => RuneError :: runes s1
      end
  end.

Definition of_codes (l : list Z) : string := String.string_of_list_ascii (map char_of l).

(** A code point that is encoded as it is: no surrogate, not out of range. *)
Definition scalar (r : Z) : bool :=
  (0 <=? r) && (r <=? 0x10FFFF) && negb ((0xD800 <=? r) && (r <=? 0xDFFF)).

(** [string(r)] *)
Definition string_of_rune (r : Z) : string :=
  let r := if scalar r then r else RuneError in
  of_codes
    (if r <? 0x80 then [r] else
     if r <? 0x800 then [0xC0 + r / 0x40; 0x80 + r mod 0x40] else
     if r <? 0x10000 then [0xE0 + r / 0x1000; 0x80 + r / 0x40 mod 0x40; 0x80 + r mod 0x40] else
     [0xF0 + r / 0x40000; 0x80 + r / 0x1000 mod 0x40; 0x80 + r / 0x40 mod 0x40; 0x80 + r mod 0x40]).

Definition string_of_runes (rs : list Z) : string := String.concat "" (map string_of_rune rs).

(** The string with every ill-formed byte replaced. *)
Definition to_valid (s : string) : string := string_of_runes (runes s).

(** ** Facts *)

Lemma char_val_range c : 0 <= char_val c < 256.
Proof. unfold char_val. pose proof (N_ascii_bounded c). lia. Qed.

Lemma char_val_of z : 0 <= z < 256 -> char_val (char_of z) = z.
Proof.
  intros Hz. unfold char_val, char_of. rewrite Z.mod_small by lia. rewrite N_ascii_embedding; lia.
Qed.

Lemma char_of_val c : char_of (char_val c) = c.
Proof.
  unfold char_of. pose proof (char_val_range c). rewrite Z.mod_small by lia.
  unfold char_val. rewrite N2Z.id. apply ascii_N_embedding.
Qed.

Lemma string_app_nil_r s : (s ++ "")%string = s.
Proof.
  induction s as [|c s IH]; [done|]. change (String c s ++ "")%string with (String c (s ++ "")). by rewrite IH.
Qed.

Lemma concat_empty_cons s l : String.concat "" (s :: l) = (s ++ String.concat "" l)%string.
Proof. destruct l as [|t l]; [|done]. symmetry. apply string_app_nil_r. Qed.

Lemma string_of_runes_cons r rs : string_of_runes (r :: rs) = (string_of_rune r ++ string_of_runes rs)%string.
Proof. unfold string_of_runes. cbn [map]. apply concat_empty_cons. Qed.

Definition rune_of (r : Z) : Z := if scalar r then r else RuneError.

Lemma scalar_rune_of r : scalar (rune_of r) = true.
Proof. unfold rune_of. by destruct (scalar r) eqn:E. Qed.

Lemma of_codes_cons z l s : (of_codes (z :: l) ++ s)%string = String (char_of z) (of_codes l ++ s).
Proof. done. Qed.

(** Decide the comparisons and range tests of a decoder step by [lia]. *)
Ltac decide_ranges :=
  repeat first
    [ rewrite char_val_of by (Z.to_euclidean_division_equations; lia)
    | match goal with
      | |- context [?a <? ?b] => destruct (Z.ltb_spec a b); [first [lia | idtac]|first [lia | idtac]]
      | |- context [?a <=? ?b] => destruct (Z.leb_spec a b); [first [lia | idtac]|first [lia | idtac]]
      | |- context [?a =? ?b] => destruct (Z.eqb_spec a b); [first [lia | idtac]|first [lia | idtac]]
      end ].

(** The sequence lengths and ranges for what the encoder emits first. *)
Lemma utf8_first_2 x : 2 <= x < 0x20 -> utf8_first (0xC0 + x) = Some (1%nat, 0x80, 0xBF).
Proof. intros Hx. unfold utf8_first. decide_ranges; done. Qed.

Lemma utf8_first_3 x y :
  0 <= x < 0x10 -> 0 <= y < 0x40 -> (x = 0 -> 0x20 <= y) -> (x = 13 -> y < 0x20) ->
  exists lo hi, utf8_first (0xE0 + x) = Some (2%nat, lo, hi) /\ within lo hi (0x80 + y) = true.
Proof.
  intros Hx Hy H0 H13. unfold utf8_first, within.
  destruct (decide (x = 0)) as [->|]; [|destruct (decide (x = 13)) as [->|]];
    cbn -[Z.leb Z.add]; eexists _, _; (split; [decide_ranges; done|]); decide_ranges; done.
Qed.

Lemma utf8_first_4 x y :
  0 <= x < 5 -> 0 <= y < 0x40 -> (x = 0 -> 0x10 <= y) -> (x = 4 -> y < 0x10) ->
  exists lo hi, utf8_first (0xF0 + x) = Some (3%nat, lo, hi) /\ within lo hi (0x80 + y) = true.
Proof.
  intros Hx Hy H0 H4. unfold utf8_first, within.
  destruct (decide (x = 0)) as [->|]; [|destruct (decide (x = 4)) as [->|]];
    cbn -[Z.leb Z.add]; eexists _, _; (split; [decide_ranges; done|]); decide_ranges; done.
Qed.

Lemma within_cont y : 0 <= y < 0x40 -> within 0x80 0xBF (0x80 + y) = true.
Proof. intros. unfold within. decide_ranges; done. Qed.

(** One step of the decoder on each length of sequence. *)
Lemma runes_1 z s : 0 <= z < 0x80 -> runes (String (char_of z) s) = z :: runes s.
Proof. intros Hz. cbn [runes]. rewrite char_val_of by lia. decide_ranges; done. Qed.

Lemma runes_2 x y s : 2 <= x < 0x20 -> 0 <= y < 0x40 ->
  runes (String (char_of (0xC0 + x)) (String (char_of (0x80 + y)) s)) = (x * 0x40 + y) :: runes s.
Proof.
  intros Hx Hy. cbn [runes]. rewrite !char_val_of by lia.
  destruct (Z.ltb_spec (0xC0 + x) 0x80); [lia|]. rewrite utf8_first_2 by lia.
  rewrite within_cont by lia. f_equal. Z.to_euclidean_division_equations. lia.
Qed.

Lemma runes_3 x y z s :
  0 <= x < 0x10 -> 0 <= y < 0x40 -> 0 <= z < 0x40 -> (x = 0 -> 0x20 <= y) -> (x = 13 -> y < 0x20) ->
  runes (String (char_of (0xE0 + x)) (String (char_of (0x80 + y)) (String (char_of (0x80 + z)) s))) =
  ((x * 0x40 + y) * 0x40 + z) :: runes s.
Proof.
  intros Hx Hy Hz H0 H13. cbn [runes]. rewrite !char_val_of by lia.
  destruct (Z.ltb_spec (0xE0 + x) 0x80); [lia|].
  destruct (utf8_first_3 x y) as (lo & hi & -> & ->); try done.
  rewrite within_cont by lia. cbn [andb]. f_equal. Z.to_euclidean_division_equations. lia.
Qed.

Lemma runes_4 x y z w s :
  0 <= x < 5 -> 0 <= y < 0x40 -> 0 <= z < 0x40 -> 0 <= w < 0x40 -> (x = 0 -> 0x10 <= y) -> (x = 4 -> y < 0x10) ->
  runes (String (char_of (0xF0 + x)) (String (char_of (0x80 + y)) (String (char_of (0x80 + z))
    (String (char_of (0x80 + w)) s)))) = (((x * 0x40 + y) * 0x40 + z) * 0x40 + w) :: runes s.
Proof.
  intros Hx Hy Hz Hw H0 H4. cbn [runes]. rewrite !char_val_of by lia.
  destruct (Z.ltb_spec (0xF0 + x) 0x80); [lia|].
  destruct (utf8_first_4 x y) as (lo & hi & -> & ->); try done.
  rewrite !within_cont by lia. cbn [andb]. f_equal. Z.to_euclidean_division_equations. lia.
Qed.

(** What is encoded is decoded. *)
Lemma runes_of_rune r s : runes (string_of_rune r ++ s) = rune_of r :: runes s.
Proof.
  unfold string_of_rune. fold (rune_of r). pose proof (scalar_rune_of r) as Hs.
  set (q := rune_of r) in *. clearbody q. unfold scalar in Hs.
  assert (0 <= q <= 0x10FFFF /\ (q < 0xD800 \/ 0xDFFF < q)) as [Hq Hsur].
  { destruct (Z.leb_spec 0 q), (Z.leb_spec q 0x10FFFF), (Z.leb_spec 0xD800 q), (Z.leb_spec q 0xDFFF);
      simpl in Hs; try done; lia. }
  destruct (Z.ltb_spec q 0x80); [|destruct (Z.ltb_spec q 0x800); [|destruct (Z.ltb_spec q 0x10000)]];
    rewrite !of_codes_cons; change (of_codes [] ++ s)%string with s.
  - apply runes_1. lia.
  - rewrite runes_2 by (Z.to_euclidean_division_equations; lia). f_equal. Z.to_euclidean_division_equations. lia.
  - rewrite runes_3 by (Z.to_euclidean_division_equations; lia). f_equal. Z.to_euclidean_division_equations. lia.
  - rewrite runes_4 by (Z.to_euclidean_division_equations; lia). f_equal. Z.to_euclidean_division_equations. lia.
Qed.

Lemma runes_of_runes rs : runes (string_of_runes rs) = map rune_of rs.
Proof.
  induction rs as [|r rs IH]; [done|]. rewrite string_of_runes_cons, runes_of_rune. cbn [map]. by rewrite IH.
Qed.

Lemma string_of_rune_of r : string_of_rune (rune_of r) = string_of_rune r.
Proof.
  unfold string_of_rune. rewrite scalar_rune_of. unfold rune_of. done.
Qed.

(** A string that was encoded is not changed. *)
Lemma to_valid_encoded rs : to_valid (string_of_runes rs) = string_of_runes rs.
Proof.
  unfold to_valid. rewrite runes_of_runes. induction rs as [|r rs IH]; [done|]. cbn [map].
  by rewrite !string_of_runes_cons, IH, string_of_rune_of.
Qed.

(** ASCII text is encoded as it is. *)
Lemma to_valid_ascii s : Forall (fun c => char_val c < 0x80) (String.list_ascii_of_string s) -> to_valid s = s.
Proof.
  unfold to_valid. induction s as [|c s IH]; intros Hs; [done|]. inversion Hs as [|? ? Hc Hr]; subst.
  cbn [runes]. destruct (Z.ltb_spec (char_val c) 0x80); [|lia]. rewrite string_of_runes_cons, IH by done.
  pose proof (char_val_range c). unfold string_of_rune.
  assert (scalar (char_val c) = true) as ->.
  { unfold scalar. decide_ranges; done. }
  destruct (Z.ltb_spec (char_val c) 0x80); [|lia].
  change (of_codes [char_val c] ++ s)%string with (String (char_of (char_val c)) s). by rewrite char_of_val.
Qed.
