(* ===== verification/TopologyText.v ===== *)
(** * Topologies as text

    The text forms of a topology read back: an endpoint printed by
    [Endpoint.String] parses to that endpoint, and the [-topology] flag and the
    entries of a [-topology-file] that say the same give the same mapping.  The
    facts on [strings.Split], [strings.TrimSpace] and [strconv.ParseInt] that
    this takes are of use wherever text is read. *)

From stdpp Require Import base numbers list strings gmap pretty.
From Stdlib Require Import ZArith Lia Strings.Ascii.
From S2P Require Import Prelude Primitives Utf8 Topology Obs.

(** ** Splitting and trimming *)

Lemma split_on_parts sep s : Forall (lacks sep) (split_on sep s).
Proof.
  unfold lacks. induction s as [|c s IH]; cbn [split_on].
  - apply Forall_singleton. simpl. set_solver.
  - destruct (Ascii.eqb_spec c sep) as [->|Hne]; [constructor; [simpl; set_solver|done]|].
    destruct (split_on sep s) as [|h t]; [apply Forall_singleton; simpl; set_solver|].
    inversion IH; subst. constructor; [simpl; set_solver|done].
Qed.

Lemma split_on_not_nil sep s : split_on sep s <> [].
Proof. destruct s as [|c s]; simpl; [done|]. destruct (Ascii.eqb c sep); [done|]. by destruct (split_on sep s). Qed.

Lemma split_on_snoc sep a b :
  split_on sep (a ++ String sep b) = split_on sep a ++ split_on sep b.
Proof.
  induction a as [|c a IH].
  - change ("" ++ String sep b)%string with (String sep b). cbn [split_on]. by rewrite Ascii.eqb_refl.
  - change (String c a ++ String sep b)%string with (String c (a ++ String sep b)). cbn [split_on]. rewrite IH.
    destruct (Ascii.eqb c sep); [done|]. destruct (split_on sep a) eqn:E; [|done].
    by destruct (split_on_not_nil sep a).
Qed.

(** Joined with a separator and split again. *)
Lemma split_on_concat sep x xs :
  Forall (lacks sep) (x :: xs) -> split_on sep (String.concat (String sep "") (x :: xs)) = x :: xs.
Proof.
  revert x. induction xs as [|y xs IH]; intros x Hx; inversion Hx; subst.
  - by apply split_on_lacks.
  - change (String.concat (String sep "") (x :: y :: xs))
      with (x ++ String sep (String.concat (String sep "") (y :: xs)))%string.
    rewrite split_on_app by done. by rewrite IH.
Qed.

(** *** White space *)

(** A byte that is neither white space nor a part of it. *)
Definition plain (c : ascii) : Prop := is_space c = false /\ (N_of_ascii c < 128)%N.

Definition no_space (s : string) : Prop := Forall plain (String.list_ascii_of_string s).

Lemma no_space_app a b : no_space (a ++ b) <-> no_space a /\ no_space b.
Proof. unfold no_space. by rewrite list_ascii_app, Forall_app. Qed.

Lemma is_space2_high c1 c2 : is_space2 c1 c2 = true -> (128 <= N_of_ascii c1)%N /\ (128 <= N_of_ascii c2)%N.
Proof. unfold is_space2. rewrite andb_true_iff, orb_true_iff, !N.eqb_eq. lia. Qed.

Lemma is_space3_high c1 c2 c3 :
  is_space3 c1 c2 c3 = true -> (128 <= N_of_ascii c1)%N /\ (128 <= N_of_ascii c2)%N /\ (128 <= N_of_ascii c3)%N.
Proof.
  unfold is_space3. rewrite !orb_true_iff, !andb_true_iff, !orb_true_iff, !andb_true_iff, !N.eqb_eq, !N.leb_le. lia.
Qed.

(** Trimming one end, for encodings without ASCII bytes. *)
Section trim.
Context (sp2 : ascii -> ascii -> bool) (sp3 : ascii -> ascii -> ascii -> bool).
Hypothesis sp2_high : forall c1 c2, sp2 c1 c2 = true -> (128 <= N_of_ascii c1)%N /\ (128 <= N_of_ascii c2)%N.
Hypothesis sp3_high : forall c1 c2 c3, sp3 c1 c2 c3 = true ->
  (128 <= N_of_ascii c1)%N /\ (128 <= N_of_ascii c2)%N /\ (128 <= N_of_ascii c3)%N.

Lemma trim_length l : (length (trim sp2 sp3 l) <= length l)%nat.
Proof.
  induction l as [l IH] using (induction_ltof1 _ (@length ascii)). unfold ltof in IH.
  destruct l as [|c1 l1]; [done|]. cbn [trim]. destruct (is_space c1).
  { specialize (IH l1). cbn [length] in *. lia. }
  destruct l1 as [|c2 l2]; [done|]. destruct (sp2 c1 c2). { specialize (IH l2). cbn [length] in *. lia. }
  destruct l2 as [|c3 l3]; [done|]. destruct (sp3 c1 c2 c3); [|done]. specialize (IH l3). cbn [length] in *. lia.
Qed.

(** A plain byte ends the trimming. *)
Lemma trim_plain c l : plain c -> trim sp2 sp3 (c :: l) = c :: l.
Proof.
  intros [Hs Hc]. cbn [trim]. rewrite Hs. destruct l as [|c2 l2]; [done|].
  destruct (sp2 c c2) eqn:E2. { apply sp2_high in E2. lia. }
  destruct l2 as [|c3 l3]; [done|]. destruct (sp3 c c2 c3) eqn:E3; [|done]. apply sp3_high in E3. lia.
Qed.

(** What is trimmed already stays so before a plain byte. *)
Lemma trim_before a x b : plain x -> trim sp2 sp3 a = a -> trim sp2 sp3 (a ++ x :: b) = a ++ x :: b.
Proof.
  intros Hx Ha. destruct a as [|c1 a1]; [by apply trim_plain|].
  assert (forall l, (length l < length (c1 :: a1))%nat -> trim sp2 sp3 l <> c1 :: a1) as Hshort.
  { intros l Hl E. pose proof (trim_length l) as Ht. rewrite E in Ht. lia. }
  cbn [app trim] in *. destruct (is_space c1); [by destruct (Hshort a1); [simpl; lia|]|].
  destruct a1 as [|c2 a2]; cbn [app].
  { destruct (sp2 c1 x) eqn:E2; [apply sp2_high in E2; destruct Hx; lia|].
    destruct b as [|y b]; [done|]. destruct (sp3 c1 x y) eqn:E3; [apply sp3_high in E3; destruct Hx; lia|done]. }
  destruct (sp2 c1 c2); [by destruct (Hshort a2); [simpl; lia|]|].
  destruct a2 as [|c3 a3]; cbn [app].
  { destruct (sp3 c1 c2 x) eqn:E3; [apply sp3_high in E3; destruct Hx; lia|done]. }
  destruct (sp3 c1 c2 c3); [by destruct (Hshort a3); [simpl; lia|]|done].
Qed.

(** Plain bytes are never trimmed. *)
Lemma trim_keeps x l : plain x -> x ∈ l -> x ∈ trim sp2 sp3 l.
Proof.
  intros [Hx Hc]. induction l as [l IH] using (induction_ltof1 _ (@length ascii)). unfold ltof in IH.
  destruct l as [|c1 l1]; [done|]. cbn [trim]. intros Hin. destruct (is_space c1) eqn:E1.
  { apply IH; [simpl; lia|]. apply elem_of_cons in Hin as [->|]; [congruence|done]. }
  destruct l1 as [|c2 l2]; [done|]. destruct (sp2 c1 c2) eqn:E2.
  { apply sp2_high in E2. apply IH; [simpl; lia|].
    apply elem_of_cons in Hin as [->|Hin]; [lia|]. apply elem_of_cons in Hin as [->|]; [lia|done]. }
  destruct l2 as [|c3 l3]; [done|]. destruct (sp3 c1 c2 c3) eqn:E3; [|done].
  apply sp3_high in E3. apply IH; [simpl; lia|]. apply elem_of_cons in Hin as [->|Hin]; [lia|].
  apply elem_of_cons in Hin as [->|Hin]; [lia|]. apply elem_of_cons in Hin as [->|]; [lia|done].
Qed.

Lemma trim_sublength l : trim sp2 sp3 l = l \/ (length (trim sp2 sp3 l) < length l)%nat.
Proof.
  destruct l as [|c1 l1]; [by left|]. cbn [trim]. destruct (is_space c1).
  { right. pose proof (trim_length l1). cbn [length]. lia. }
  destruct l1 as [|c2 l2]; [by left|]. destruct (sp2 c1 c2). { right. pose proof (trim_length l2). cbn [length]. lia. }
  destruct l2 as [|c3 l3]; [by left|]. destruct (sp3 c1 c2 c3); [|by left]. right. pose proof (trim_length l3). cbn [length]. lia.
Qed.

End trim.

Lemma is_space2_high' c2 c1 : is_space2 c1 c2 = true -> (128 <= N_of_ascii c2)%N /\ (128 <= N_of_ascii c1)%N.
Proof. intros ?%is_space2_high. tauto. Qed.

Lemma is_space3_high' c3 c2 c1 :
  is_space3 c1 c2 c3 = true -> (128 <= N_of_ascii c3)%N /\ (128 <= N_of_ascii c2)%N /\ (128 <= N_of_ascii c1)%N.
Proof. intros ?%is_space3_high. tauto. Qed.

(** Text that starts and ends with something else than white space. *)
Definition trimmed (s : string) : Prop := TrimSpace s = s.

Lemma trimmed_sides s :
  trimmed s <-> trim_left (String.list_ascii_of_string s) = String.list_ascii_of_string s /\
                trim_right (String.list_ascii_of_string s) = String.list_ascii_of_string s.
Proof.
  unfold trimmed, TrimSpace. set (l := String.list_ascii_of_string s). split.
  - intros E%(f_equal String.list_ascii_of_string). rewrite String.list_ascii_of_string_of_list_ascii in E. fold l in E.
    destruct (trim_sublength is_space2 is_space3 l) as [El|El]; [by unfold trim_left in *; rewrite El in *|].
    exfalso. apply (f_equal length) in E. unfold trim_right in E. rewrite length_reverse in E.
    pose proof (trim_length (fun c2 c1 => is_space2 c1 c2) (fun c3 c2 c1 => is_space3 c1 c2 c3) (reverse (trim_left l))) as Ht.
    rewrite length_reverse in Ht. unfold trim_left in *. lia.
  - intros [-> ->]. apply String.string_of_list_ascii_of_string.
Qed.

Lemma trim_right_before a x b : plain x -> trim_right b = b -> trim_right (a ++ x :: b) = a ++ x :: b.
Proof.
  unfold trim_right. intros Hx Hb. rewrite reverse_app, reverse_cons, <- app_assoc. cbn [app].
  rewrite (trim_before _ _ is_space2_high' is_space3_high'); [|done|].
  - rewrite reverse_app, reverse_cons, !reverse_involutive, <- app_assoc. done.
  - by rewrite <- Hb at 2; rewrite reverse_involutive.
Qed.

Lemma trim_left_plain c l : plain c -> trim_left (c :: l) = c :: l.
Proof. apply trim_plain; [apply is_space2_high|apply is_space3_high]. Qed.

(** Text with a plain byte is not trimmed away. *)
Lemma trim_not_empty c s : plain c -> c ∈ String.list_ascii_of_string s -> TrimSpace s <> ""%string.
Proof.
  intros Hc Hin E%(f_equal String.list_ascii_of_string). unfold TrimSpace in E.
  rewrite String.list_ascii_of_string_of_list_ascii in E.
  assert (c ∈ trim_right (trim_left (String.list_ascii_of_string s))) as Hk; [|by rewrite E in Hk; apply elem_of_nil in Hk].
  unfold trim_right. apply elem_of_reverse. apply trim_keeps; [exact is_space2_high'|exact is_space3_high'|done|].
  apply elem_of_reverse. apply trim_keeps; [exact is_space2_high|exact is_space3_high|done|done].
Qed.

Lemma TrimSpace_id s : no_space s -> TrimSpace s = s.
Proof.
  intros Hs. apply trimmed_sides. unfold no_space in Hs. split.
  - destruct Hs as [|c l Hc _]; [done|]. by apply trim_left_plain.
  - induction Hs as [|c l Hc Hl IH]; [done|]. by apply (trim_right_before []).
Qed.

Lemma TrimSpace_blank s : no_space s -> TrimSpace (String " "%char s) = s.
Proof. intros Hs. rewrite <- (TrimSpace_id s) at 2 by done. done. Qed.

(** The encodings are those of the runes that [unicode.IsSpace] accepts. *)
Definition space_runes : list Z :=
  [0x09; 0x0A; 0x0B; 0x0C; 0x0D; 0x20; 0x85; 0xA0; 0x1680; 0x2000; 0x2001; 0x2002; 0x2003; 0x2004; 0x2005; 0x2006;
   0x2007; 0x2008; 0x2009; 0x200A; 0x2028; 0x2029; 0x202F; 0x205F; 0x3000].

Lemma TrimSpace_rune r s : r ∈ space_runes -> TrimSpace (string_of_rune r ++ s) = TrimSpace s.
Proof.
  unfold space_runes. intros Hr. repeat (apply elem_of_cons in Hr as [->|Hr]; [reflexivity|]). by apply elem_of_nil in Hr.
Qed.

(** *** Numbers *)

Lemma pretty_no_space (v : Z) : no_space (pretty v).
Proof.
  apply Forall_forall. intros c Hc.
  assert (digit c <> None \/ c = "-"%char) as [Hd| ->]; [|unfold plain, is_space, digit in *|done].
  - destruct (digit c) eqn:Ed; [by left|]. destruct (decide (c = "-"%char)) as [->|Hn]; [by right|].
    exfalso. revert Hc. by apply pretty_Z_lacks.
  - destruct (_ && _) eqn:E in Hd; [|done]. rewrite andb_true_iff, !Z.leb_le in E. cbv zeta.
    split; [|lia]. rewrite orb_false_iff, andb_false_iff, !N.leb_gt, N.eqb_neq. lia.
Qed.

Lemma pretty_not_empty (v : Z) : String.eqb (pretty v) "" = false.
Proof.
  apply String.eqb_neq. destruct v as [|p|p]; [done| |done].
  change (pretty (Z.pos p)) with (pretty (N.pos p)). apply pretty_N_not_empty.
Qed.

Lemma ParseInt32_digits (n : N) :
  Z.of_N n < 2 ^ 31 -> ParseInt32 (pretty n) = Some (Z.of_N n).
Proof.
  intros Hn. unfold ParseInt32. pose proof (digits_pretty_N n) as Hd.
  pose proof (pretty_N_lacks n "-"%char eq_refl) as Hm. pose proof (pretty_N_lacks n "+"%char eq_refl) as Hp.
  pose proof (pretty_N_not_empty n) as He. destruct (pretty n) as [|c s]; [done|].
  unfold lacks in *. cbn [String.list_ascii_of_string] in *.
  destruct (Ascii.eqb_spec c "-"%char) as [->|]; [set_solver|].
  destruct (Ascii.eqb_spec c "+"%char) as [->|]; [set_solver|]. rewrite Hd.
  destruct (Z.leb_spec (2 ^ 31) (Z.of_N n)); [lia|done].
Qed.

Lemma ParseInt32_pretty (n : Z) : int32 n -> ParseInt32 (pretty n) = Some n.
Proof.
  intros [H1 H2]. destruct n as [|p|p]; [done| |].
  - apply (ParseInt32_digits (N.pos p)). done.
  - change (pretty (Z.neg p)) with ("-" ++ pretty (N.pos p))%string. unfold ParseInt32.
    change (String.list_ascii_of_string ("-" ++ ?s)) with ("-"%char :: String.list_ascii_of_string s).
    cbv iota beta; rewrite Ascii.eqb_refl. pose proof (digits_pretty_N (N.pos p)) as Hd.
    pose proof (pretty_N_not_empty (N.pos p)) as He. destruct (pretty (N.pos p)) as [|c s]; [done|].
    cbn [String.list_ascii_of_string] in *. rewrite Hd.
    destruct (Z.ltb_spec (2 ^ 31) (Z.of_N (N.pos p))); [|done]. simpl in *. lia.
Qed.

(** ** Endpoints *)

Lemma index_byte_notin c l : c ∉ l -> index_byte c l = None.
Proof.
  induction l as [|x l IH]; intros Hc; [done|]. simpl.
  destruct (Ascii.eqb_spec x c) as [->|]; [set_solver|]. rewrite IH by set_solver. done.
Qed.

Lemma index_byte_app c a b : c ∉ a -> index_byte c (a ++ c :: b) = Some (length a).
Proof.
  induction a as [|x a IH]; intros Hc; simpl; [by rewrite Ascii.eqb_refl|].
  destruct (Ascii.eqb_spec x c) as [->|]; [set_solver|]. rewrite IH by set_solver. done.
Qed.

Lemma last_index_byte_app c a b : c ∉ b -> last_index_byte c (a ++ c :: b) = Some (length a).
Proof.
  intros Hc. unfold last_index_byte. rewrite reverse_app, reverse_cons, <- app_assoc. cbn [app].
  rewrite index_byte_app by by rewrite elem_of_reverse. f_equal. rewrite length_reverse, length_app. simpl. lia.
Qed.

Lemma has_byte_notin c l : c ∉ l -> has_byte c l = false.
Proof. intros Hc. unfold has_byte. by rewrite index_byte_notin. Qed.

(** A first byte that is no bracket. *)
Lemma no_bracket {A} (c : ascii) (x y : A) :
  c <> "["%char -> match c with "["%char => x | _ => y end = y.
Proof. destruct c as [[] [] [] [] [] [] [] []]; done. Qed.

Lemma SplitHostPort_plain s lh lp :
  String.list_ascii_of_string s = lh ++ ":"%char :: lp ->
  ":"%char ∉ lh ++ lp -> "["%char ∉ lh ++ lp -> "]"%char ∉ lh ++ lp ->
  SplitHostPort s = Some (String.string_of_list_ascii lh, String.string_of_list_ascii lp).
Proof.
  unfold SplitHostPort. intros -> H1 H2 H3. rewrite last_index_byte_app by set_solver.
  rewrite take_app_length, has_byte_notin by set_solver.
  transitivity (if has_byte "[" (drop 0 (lh ++ ":"%char :: lp)) || has_byte "]" (drop 0 (lh ++ ":"%char :: lp))
    then None else Some (String.string_of_list_ascii lh,
                         String.string_of_list_ascii (drop (S (length lh)) (lh ++ ":"%char :: lp)))).
  { destruct lh as [|c l]; [done|]. cbn [app]. rewrite no_bracket by set_solver. done. }
  cbn [drop]. rewrite !has_byte_notin by set_solver. cbn [orb]. do 3 f_equal.
  rewrite drop_app_ge by lia. by replace (S (length lh) - length lh)%nat with 1%nat by lia.
Qed.

Lemma SplitHostPort_bracket s lh lp :
  String.list_ascii_of_string s = "["%char :: lh ++ "]"%char :: ":"%char :: lp ->
  ":"%char ∉ lp -> "["%char ∉ lh ++ lp -> "]"%char ∉ lh ++ lp ->
  SplitHostPort s = Some (String.string_of_list_ascii lh, String.string_of_list_ascii lp).
Proof.
  unfold SplitHostPort. intros -> H1 H2 H3.
  assert (forall c, "["%char :: lh ++ "]"%char :: c :: lp = ("["%char :: lh ++ ["]"%char]) ++ c :: lp) as E.
  { intros c. simpl. by rewrite <- app_assoc. }
  rewrite (E ":"%char) at 1. rewrite last_index_byte_app by done. cbv iota beta.
  assert (index_byte "]"%char ("["%char :: lh ++ "]"%char :: ":"%char :: lp) = Some (S (length lh))) as ->.
  { apply (index_byte_app "]"%char ("["%char :: lh)). set_solver. }
  assert (length ("["%char :: lh ++ ["]"%char]) = S (S (length lh))) as -> by (simpl; rewrite length_app; simpl; lia).
  cbn [length]. rewrite Nat.eqb_refl. cbn [take drop]. rewrite take_app_length.
  assert (drop (S (length lh)) (lh ++ "]"%char :: ":"%char :: lp) = ":"%char :: lp) as E2.
  { rewrite drop_app_ge by lia. by replace (S (length lh) - length lh)%nat with 1%nat by lia. }
  assert (drop (S (S (length lh))) (lh ++ "]"%char :: ":"%char :: lp) = lp) as E3.
  { rewrite drop_app_ge by lia. by replace (S (S (length lh)) - length lh)%nat with 2%nat by lia. }
  rewrite E2, E3, !has_byte_notin by set_solver. done.
Qed.

(** An endpoint whose text is unambiguous: no bracket in the host, and no
    colon unless the host is printed in brackets. *)
Definition printable `{HostText} (e : Endpoint) : Prop :=
  lacks "["%char (EP_Host e) /\ lacks "]"%char (EP_Host e) /\
  (is_ip6 (EP_Host e) = true \/ lacks ":"%char (EP_Host e)) /\ 1 <= EP_Port e <= 65535.

Lemma SplitHostPort_printed `{HostText} e :
  printable e -> SplitHostPort (EndpointString e) = Some (EP_Host e, pretty (EP_Port e)).
Proof.
  intros (H1 & H2 & H3 & Hp). unfold EndpointString.
  assert (forall c, digit c = None -> c <> "-"%char -> lacks c (pretty (EP_Port e))) as Hl by (intros; by apply pretty_Z_lacks).
  pose proof (Hl ":"%char eq_refl ltac:(done)). pose proof (Hl "["%char eq_refl ltac:(done)).
  pose proof (Hl "]"%char eq_refl ltac:(done)). unfold lacks in *.
  set (lh := String.list_ascii_of_string (EP_Host e)) in *.
  set (lp := String.list_ascii_of_string (pretty (EP_Port e))) in *.
  destruct (is_ip6 (EP_Host e)).
  - rewrite (SplitHostPort_bracket _ lh lp); [|by rewrite !list_ascii_app|set_solver..].
    unfold lh, lp. by rewrite !String.string_of_list_ascii_of_string.
  - destruct H3 as [?|H3]; [done|]. rewrite (SplitHostPort_plain _ lh lp); [|by rewrite !list_ascii_app|set_solver..].
    unfold lh, lp. by rewrite !String.string_of_list_ascii_of_string.
Qed.

(** ** Specifications of a topology *)

(** An entry as the [-topology] flag writes it, and a list of entries. *)
Definition entry_text (e : FileEntry) : string :=
  (pretty (FI_NodeID e) ++ "=" ++ FI_Real e ++ "=" ++ FI_Advertised e)%string.

Definition spec_text (es : list FileEntry) : string := String.concat "," (map entry_text es).

(** An entry that can be written there: the flag trims white space off its
    fields, and splits them at equals signs and commas. *)
Definition writable (e : FileEntry) : Prop :=
  int32 (FI_NodeID e) /\
  (trimmed (FI_Real e) /\ lacks "="%char (FI_Real e) /\ lacks ","%char (FI_Real e)) /\
  (trimmed (FI_Advertised e) /\ lacks "="%char (FI_Advertised e) /\ lacks ","%char (FI_Advertised e)).

(** The first byte of a numeral is plain. *)
Lemma pretty_head (v : Z) : exists c l, plain c /\ String.list_ascii_of_string (pretty v) = c :: l.
Proof.
  pose proof (pretty_no_space v) as Hp. pose proof (pretty_not_empty v) as He. unfold no_space in Hp.
  destruct (pretty v) as [|c s]; [done|]. exists c, (String.list_ascii_of_string s). by inversion Hp.
Qed.

Lemma entry_text_head e : exists c l, plain c /\ String.list_ascii_of_string (entry_text e) = c :: l.
Proof.
  destruct (pretty_head (FI_NodeID e)) as (c & l & Hc & E). unfold entry_text. rewrite list_ascii_app, E.
  eexists c, _. split; [done|]. reflexivity.
Qed.

Lemma plain_equals : plain "="%char.
Proof. done. Qed.

Lemma entry_text_clean e : writable e -> trimmed (entry_text e) /\ lacks ","%char (entry_text e).
Proof.
  intros (Hn & (Hr1 & Hr2 & Hr3) & (Ha1 & Ha2 & Ha3)). split.
  - apply trimmed_sides. split.
    + destruct (entry_text_head e) as (c & l & Hc & ->). by apply trim_left_plain.
    + unfold entry_text. rewrite !list_ascii_app, !app_assoc. rewrite <- (app_assoc _ (String.list_ascii_of_string "=")).
      apply (trim_right_before _ "="%char); [apply plain_equals|]. by apply trimmed_sides.
  - unfold entry_text. rewrite !lacks_app. split_and!; try done; [by apply pretty_Z_lacks|unfold lacks; simpl; set_solver..].
Qed.

Lemma entry_text_not_empty e : entry_text e <> ""%string.
Proof.
  unfold entry_text. intros E%(f_equal String.list_ascii_of_string). rewrite list_ascii_app in E.
  by apply app_eq_nil in E as [_ E].
Qed.

Lemma spec_text_cons e e' es : spec_text (e :: e' :: es) = (entry_text e ++ "," ++ spec_text (e' :: es))%string.
Proof. reflexivity. Qed.

Lemma spec_text_head e es : exists c l, plain c /\ String.list_ascii_of_string (spec_text (e :: es)) = c :: l.
Proof.
  destruct (entry_text_head e) as (c & l & Hc & E). destruct es as [|e' es]; [by exists c, l|].
  rewrite spec_text_cons, list_ascii_app, E. eexists c, _. split; [done|]. reflexivity.
Qed.

Lemma parse_entry_text `{HostText} m e : writable e -> parse_entry m (entry_text e) = load_entry m e.
Proof.
  intros Hw. destruct (entry_text_clean e Hw) as [Hs Hc].
  destruct Hw as (Hn & (Hr1 & Hr2 & Hr3) & (Ha1 & Ha2 & Ha3)).
  unfold parse_entry. rewrite Hs.
  rewrite bool_decide_eq_false_2 by apply entry_text_not_empty.
  change (entry_text e)
    with (pretty (FI_NodeID e) ++ String "="%char (FI_Real e ++ String "="%char (FI_Advertised e)))%string.
  rewrite split_on_app by by apply pretty_Z_lacks. rewrite split_on_app by done.
  rewrite split_on_lacks by done. rewrite (TrimSpace_id (pretty _)) by apply pretty_no_space. rewrite Hr1, Ha1.
  rewrite ParseInt32_pretty by done. done.
Qed.

Lemma parse_printed `{HostText} e : printable e -> parseEndpoint (EndpointString e) = Some e.
Proof.
  intros He. unfold parseEndpoint. rewrite bool_decide_eq_false_2.
  - rewrite SplitHostPort_printed by done. destruct He as (_ & _ & _ & Hp).
    rewrite ParseInt32_pretty by (split; simpl; lia).
    destruct (Z.leb_spec (EP_Port e) 0); [lia|]. destruct (Z.ltb_spec 65535 (EP_Port e)); [lia|]. by destruct e.
  - intros E%(f_equal String.list_ascii_of_string). unfold EndpointString in E.
    destruct (is_ip6 (EP_Host e)); [done|]. rewrite list_ascii_app in E. by apply app_eq_nil in E as [_ E].
Qed.

Lemma parse_spec_text `{HostText} es : Forall writable es -> ParseFlag (spec_text es) = LoadEntries es.
Proof.
  intros Hw. destruct es as [|e es]; [done|]. unfold ParseFlag.
  destruct (spec_text_head e es) as (c & l & Hc & El).
  rewrite bool_decide_eq_false_2 by (apply (trim_not_empty c); [done|rewrite El; set_solver]).
  assert (split_on "," (spec_text (e :: es)) = map entry_text (e :: es)) as ->.
  { apply (split_on_concat ","%char (entry_text e) (map entry_text es)).
    apply (proj2 (Forall_fmap entry_text _ (e :: es))). eapply Forall_impl; [exact Hw|]. intros e' He'. by apply entry_text_clean. }
  clear El. unfold LoadEntries. generalize New. induction Hw as [|e' es' He' _ IH]; intros m; [done|].
  cbn [map fold_option]. rewrite parse_entry_text by done. by destruct (load_entry m e').
Qed.

(** ** Properties *)

(** The text of an endpoint is read back: [Endpoint.String] followed by the
    endpoint parser is the identity, on names and IPv4 addresses and, in
    brackets, on IPv6 addresses. *)
Theorem endpoint_roundtrip {HT : HostText} e : printable e -> parseEndpoint (EndpointString e) = Some e.
Proof. apply parse_printed. Qed.

(** C19: the two ways to configure a topology agree. Entries whose endpoints
    contain no comma and no equals sign and neither begin nor end with white
    space (as [strings.TrimSpace] understands it, Unicode spaces included),
    with a 32-bit node id, written on the [-topology] flag give exactly the
    result, mapping or refusal, that the same entries give in a
    [-topology-file]. *)
Theorem flag_and_file_agree {HT : HostText} es : Forall writable es -> ParseFlag (spec_text es) = LoadEntries es.
Proof. apply parse_spec_text. Qed.

(** Two entries, one with an IPv6 address. *)
Definition mixed_entries : list FileEntry :=
  [mkFileEntry 1 "10.0.0.1:9092" "[::1]:19092"; mkFileEntry 2 "b2:9092" "proxy:19093"]%string.

Lemma flag_and_file_agree_witness :
  @ParseFlag ascii_host_text (spec_text mixed_entries) = @LoadEntries ascii_host_text mixed_entries /\
  spec_text mixed_entries = "1=10.0.0.1:9092=[::1]:19092,2=b2:9092=proxy:19093"%string.
Proof.
  split; [|vm_compute; reflexivity]. apply (@flag_and_file_agree ascii_host_text mixed_entries).
  unfold mixed_entries, writable, trimmed, lacks. cbn [FI_NodeID FI_Real FI_Advertised].
  repeat apply Forall_cons_2; [..|apply Forall_nil_2];
    (split_and!; [split; vm_compute; [discriminate|reflexivity]|..]);
    first [ vm_compute; reflexivity | apply (bool_decide_unpack _); vm_compute; exact I ].
Defined.

Lemma endpoint_roundtrip_witness :
  @parseEndpoint (@EndpointString ascii_host_text (mkEndpoint "::1" 9092)) = Some (mkEndpoint "::1" 9092).
Proof.
  apply (@endpoint_roundtrip ascii_host_text). unfold printable, lacks. split_and!;
    first [ by left | apply (bool_decide_unpack _); vm_compute; exact I | vm_compute; discriminate ].
Defined.
