(* ===== verification/Examples.v ===== *)
(** * The example clients: example/consumer/main.go, example/producer/main.go

    The programs that drive the proxy in its demonstration: a consumer that
    polls, counts and commits, and a producer that sends at a rate; and, at the
    end, the probe of example/probe/main.go, which sends one record.  All sit on
    a Kafka client library that is not part of the repository; what it
    answers (the batches it delivers, the results of commits and of sends) are
    events of the model, and so are signals, timers and ticks.  Each program is
    a step relation over its goroutines' common state. *)

From stdpp Require Import base numbers list strings gmap pretty sorting relations.
From Stdlib Require Import ZArith Lia Strings.Ascii.
From S2P Require Import Prelude Primitives Utf8 Topology Tracker Obs Background.

(** ** Flags that are lists *)

(** [splitCSV]: one rune at a time, dropping empty parts. *)
Definition csv_step (st : list string * string) (c : Z) : list string * string :=
  let '(out, cur) := st in
  if c =? 44 then (if String.eqb cur "" then (out, cur) else (out ++ [cur], ""%string))
  else (out, (cur ++ string_of_rune c)%string).

Definition splitCSV (s : string) : list string :=
  let '(out, cur) := fold_left csv_step (runes s) ([], ""%string) in
  if String.eqb cur "" then out else out ++ [cur].

(** The parts between commas, without the empty ones. *)
Definition csv_fields (s : string) : list string :=
  List.filter (fun f => negb (String.eqb f "")) (split_on ","%char s).

Lemma char_of_comma z : 0 <= z < 256 -> char_of z = ","%char -> z = 44.
Proof. intros Hz E. apply (f_equal char_val) in E. by rewrite char_val_of in E. Qed.

Lemma of_codes_lacks l :
  Forall (fun z => 0 <= z < 256 /\ z <> 44) l -> lacks ","%char (of_codes l).
Proof.
  intros Hl. unfold lacks, of_codes. rewrite String.list_ascii_of_string_of_list_ascii.
  intros (z & E & Hz)%list_elem_of_fmap. rewrite Forall_forall in Hl.
  destruct (Hl z Hz). by apply eq_sym, char_of_comma in E.
Qed.

(** Only the comma is encoded with a comma. *)
Lemma rune_lacks_comma r : r <> 44 -> lacks ","%char (string_of_rune r).
Proof.
  intros Hr. unfold string_of_rune. fold (rune_of r). pose proof (scalar_rune_of r) as Hs.
  assert (rune_of r <> 44) as Hq by (unfold rune_of; by destruct (scalar r)).
  set (q := rune_of r) in *. clearbody q. unfold scalar in Hs.
  assert (0 <= q <= 0x10FFFF).
  { destruct (Z.leb_spec 0 q), (Z.leb_spec q 0x10FFFF); simpl in Hs; try done; lia. }
  apply of_codes_lacks.
  destruct (Z.ltb_spec q 0x80); [|destruct (Z.ltb_spec q 0x800); [|destruct (Z.ltb_spec q 0x10000)]];
    repeat constructor; Z.to_euclidean_division_equations; lia.
Qed.

Lemma csv_fold rs : forall out cur, lacks ","%char cur ->
  (let '(o, c) := fold_left csv_step rs (out, cur) in if String.eqb c "" then o else o ++ [c]) =
  out ++ csv_fields (cur ++ string_of_runes rs).
Proof.
  induction rs as [|r rs IH]; intros out cur Hc.
  - cbn [fold_left]. change (string_of_runes []) with ""%string.
    rewrite string_app_nil_r.
    unfold csv_fields. rewrite split_on_lacks by done. cbn [List.filter].
    destruct (String.eqb_spec cur ""); simpl; [by rewrite app_nil_r|done].
  - rewrite string_of_runes_cons. cbn [fold_left csv_step]. destruct (Z.eqb_spec r 44) as [->|Hr].
    + change (string_of_rune 44 ++ string_of_runes rs)%string with (String "," (string_of_runes rs)).
      unfold csv_fields. rewrite split_on_app by done. cbn [List.filter].
      destruct (String.eqb_spec cur "") as [->|]; cbn [negb].
      * rewrite IH by done. done.
      * rewrite IH by (unfold lacks; simpl; set_solver). rewrite <- app_assoc. done.
    + rewrite IH by (apply lacks_app; split; [done|by apply rune_lacks_comma]).
      by rewrite <- string_app_assoc.
Qed.

(** ** Partitions as text *)

(** [fmt.Sprintf("%v", ps)] on a slice of integers. *)
Definition fmt_ints (ps : list Z) : string := ("[" ++ String.concat " " (map pretty ps) ++ "]")%string.

(** One turn of [fmtParts]' loop: a sorted copy is printed. *)
Definition fmt_part (out : string) (e : string * list Z) : string :=
  let sorted := merge_sort Z.le (snd e) in
  (out ++ fst e ++ "=" ++ fmt_ints sorted ++ " ")%string.

(** [fmtParts], over the entries of the map in the order the range visits them. *)
Definition fmtParts (m : list (string * list Z)) : string :=
  match m with
  | [] => "<none>"
  | _ => fold_left fmt_part m ""%string
  end.

(** ** What the programs ask of the Kafka client library *)

Inductive Opt :=
| SeedBrokers (seeds : list string)
| ClientID (id : string)
| ConsumerGroup (group : string)
| ConsumeTopics (topic : string)
| CooperativeSticky
| AutoCommitInterval (d : Z)
| SessionTimeout (d : Z)
| RebalanceTimeout (d : Z)
| OnPartitions                      (** a callback that only logs *)
| InstanceID (id : string)
| DefaultProduceTopic (topic : string)
| AllowAutoTopicCreation.

(** ** The consumer *)

Record consumer_flags := mkConsumerFlags {
  cf_brokers : string;
  cf_topic : string;
  cf_group : string;
  cf_clientID : string;
  cf_instance : string;
  cf_slow : Z;
  cf_crashAfter : Z;
  cf_commitEvery : Z;
}.

Definition consumer_defaults : consumer_flags :=
  mkConsumerFlags "localhost:19094" "event-tracking_track-events-approved" "demo-group" "" "" 0 0 (5 * Second).

(** The [client.id] in force. *)
Definition client_id (f : consumer_flags) (pid : Z) : string :=
  if String.eqb (cf_clientID f) "" then ("demo-consumer-" ++ pretty pid)%string else cf_clientID f.

Definition consumer_options (f : consumer_flags) (pid : Z) : list Opt :=
  [SeedBrokers (splitCSV (cf_brokers f)); ClientID (client_id f pid); ConsumerGroup (cf_group f);
   ConsumeTopics (cf_topic f); CooperativeSticky; AutoCommitInterval (cf_commitEvery f);
   SessionTimeout (15 * Second); RebalanceTimeout (30 * Second);
   OnPartitions; OnPartitions; OnPartitions] ++
  (if String.eqb (cf_instance f) "" then [] else [InstanceID (cf_instance f)]).


(** *** The reporter *)

(** One tick: the count, and the difference to the last one it logged. *)
Definition report_tick (st : Z * list Z) (cur : Z) : Z * list Z :=
  let '(prev, logged) := st in (cur, logged ++ [swrap 64 (cur - prev)]).

(** [reportLoop], over the counts it finds at its ticks. *)
Definition reportLoop (evs : list (wakeup Z)) : Z * list Z := ticker report_tick (0, []) evs.

(** *** The poll loop *)

Section poll_loop.
Context {Rec E : Type}.

(** What [PollFetches] returns: errors by topic and partition, and records. *)
Record Fetches := mkFetches { F_Errors : list (string * Z * E); F_Records : list Rec }.

(** Where the loop is; [InErrors] and [InRecords] hold what is left to visit. *)
Inductive loop_pc :=
| AtCheck
| AtPoll
| InErrors (es : list (string * Z * E)) (rs : list Rec)
| InRecords (rs : list Rec)
| AtCommit
| Returned
| Exited (status : Z).

Record Loop := mkLoop {
  pc : loop_pc;
  cancelled : bool;                       (** [ctx] has ended *)
  processed : Z;                          (** the atomic counter *)
  errLog : list (string * Z * E);         (** poll errors logged *)
  commits : list (option E);              (** final commits and their results *)
  clientClosed : bool;                    (** [cl.Close] ran *)
  polled : list Rec;                      (** every record delivered so far *)
  reporting : bool;                       (** the reporter is running *)
  report : Z * list Z;                    (** its last count, the differences it logged *)
}.

Definition loop_start : Loop := mkLoop AtCheck false 0 [] [] false [] true (0, []).

Definition goto (s : Loop) (p : loop_pc) : Loop :=
  mkLoop p (cancelled s) (processed s) (errLog s) (commits s) (clientClosed s) (polled s) (reporting s) (report s).

Definition ended (p : loop_pc) : bool := match p with Returned | Exited _ => true | _ => false end.

(** [logs]: whether the loop logs the errors of a poll. *)
Context (logs : bool).

(** One step of the main goroutine. *)
Inductive main_step : Loop -> Loop -> Prop :=
| step_ctx_done s : pc s = AtCheck -> cancelled s = true -> main_step s (goto s AtCommit)
| step_ctx_live s : pc s = AtCheck -> cancelled s = false -> main_step s (goto s AtPoll)
| step_poll s f : pc s = AtPoll ->
    main_step s
      (mkLoop (if logs then InErrors (F_Errors f) (F_Records f) else InRecords (F_Records f))
        (cancelled s) (processed s) (errLog s) (commits s) (clientClosed s)
        (polled s ++ F_Records f) (reporting s) (report s))
| step_error s e es rs : pc s = InErrors (e :: es) rs ->
    main_step s
      (mkLoop (InErrors es rs) (cancelled s) (processed s)
        (if cancelled s then errLog s else errLog s ++ [e])
        (commits s) (clientClosed s) (polled s) (reporting s) (report s))
| step_errors_done s rs : pc s = InErrors [] rs -> main_step s (goto s (InRecords rs))
| step_record s r rs : pc s = InRecords (r :: rs) ->
    main_step s
      (mkLoop (InRecords rs) (cancelled s) (swrap 64 (processed s + 1)) (errLog s) (commits s)
        (clientClosed s) (polled s) (reporting s) (report s))
| step_records_done s : pc s = InRecords [] -> main_step s (goto s AtCheck)
| step_commit s err : pc s = AtCommit ->
    (* the deferred calls: cancel(), then cl.Close() *)
    main_step s
      (mkLoop Returned true (processed s) (errLog s) (commits s ++ [err]) true (polled s) (reporting s) (report s)).

(** The other goroutines: the signal handler, the crash timer when it is
    [armed], the reporter. *)
Inductive side_step (armed : bool) : Loop -> Loop -> Prop :=
| step_signal s : ended (pc s) = false ->
    side_step armed s
      (mkLoop (pc s) true (processed s) (errLog s) (commits s) (clientClosed s) (polled s) (reporting s) (report s))
| step_crash s : armed = true -> ended (pc s) = false -> side_step armed s (goto s (Exited 1))
| step_report s : ended (pc s) = false -> reporting s = true ->
    side_step armed s
      (mkLoop (pc s) (cancelled s) (processed s) (errLog s) (commits s) (clientClosed s) (polled s)
        true (report_tick (report s) (processed s)))
| step_report_stop s : ended (pc s) = false -> cancelled s = true ->
    side_step armed s
      (mkLoop (pc s) (cancelled s) (processed s) (errLog s) (commits s) (clientClosed s) (polled s)
        false (report s)).

Definition loop_step (armed : bool) (s s' : Loop) : Prop := main_step s s' \/ side_step armed s s'.

End poll_loop.
Arguments Fetches : clear implicits.
Arguments loop_pc : clear implicits.
Arguments Loop : clear implicits.

(** *** Facts of the poll loop *)

Section loop_facts.
Context {Rec E : Type} (logs : bool).
Implicit Types s : Loop Rec E.

(** The records a batch still holds. *)
Definition unvisited (p : loop_pc Rec E) : list Rec :=
  match p with InErrors _ rs => rs | InRecords rs => rs | _ => [] end.

(** What holds between any two steps of the program. *)
Definition count_ok s : Prop :=
  exists counted rest, polled s = counted ++ rest /\ processed s = swrap 64 (len counted) /\
    (rest = unvisited (pc s) \/ pc s = Exited 1).

Definition commit_ok s : Prop :=
  match pc s with
  | Returned => (exists r, commits s = [r]) /\ cancelled s = true /\ clientClosed s = true
  | AtCommit => commits s = [] /\ cancelled s = true /\ clientClosed s = false
  | _ => commits s = [] /\ clientClosed s = false
  end.

(** The logged differences add up to the last count, modulo the counter's width. *)
Definition report_ok (st : Z * list Z) : Prop :=
  in_int 64 (fst st) /\ fst st = swrap 64 (total (snd st)).

Definition loop_inv s : Prop :=
  count_ok s /\ commit_ok s /\ report_ok (report s).

Lemma report_tick_ok st cur : in_int 64 cur -> report_ok st -> report_ok (report_tick st cur).
Proof.
  destruct st as [p ds]. intros Hcur [Hp Hsum]. split; [done|]. cbn [report_tick fst snd] in *.
  assert (total (ds ++ [swrap 64 (cur - p)]) = total ds + swrap 64 (cur - p)) as ->.
  { clear. unfold total. induction ds; simpl; lia. }
  rewrite Z.add_comm, swrap_add_l, Z.add_comm. rewrite <- (swrap_id 64 cur) at 1 by done.
  replace cur with (p + (cur - p)) at 1 by lia. rewrite Hsum at 1. by rewrite swrap_add_l.
Qed.

Lemma count_int s : count_ok s -> in_int 64 (processed s).
Proof. intros (counted & rest & _ & -> & _). by apply swrap_range. Qed.

(** A step that neither counts nor delivers keeps the batch. *)
Lemma count_keep s s' :
  count_ok s -> ended (pc s) = false -> unvisited (pc s') = unvisited (pc s) ->
  polled s' = polled s -> processed s' = processed s -> count_ok s'.
Proof.
  intros (counted & rest & Hpo & Hpr & Hrest) He Hu Ep Er. exists counted, rest. rewrite Ep, Er.
  split_and!; [done..|]. left. destruct Hrest as [->|E']; [by rewrite Hu|]. by rewrite E' in He.
Qed.

Lemma main_count s s' : main_step logs s s' -> count_ok s -> count_ok s'.
Proof.
  intros Hs. destruct Hs as [s Hp Hc|s Hp Hc|s f Hp|s e es rs Hp|s rs Hp|s r rs Hp|s Hp|s err Hp]; intros Hcount.
  all: try by (eapply count_keep; [exact Hcount|by rewrite Hp..|done|done]).
  all: destruct Hcount as (counted & rest & Hpo & Hpr & [Hrest|?]); [|congruence];
    rewrite Hp in Hrest; cbn [unvisited] in Hrest; subst rest.
  - exists counted, (F_Records f). cbn [pc polled processed]. rewrite app_nil_r in Hpo.
    split_and!; [by rewrite Hpo|done|]. left. by destruct logs.
  - exists (counted ++ [r]), rs. cbn [pc polled processed]. split_and!; [by rewrite <- app_assoc| |by left].
    rewrite Hpr, swrap_add_l. f_equal. len_lia.
Qed.

Lemma main_commit s s' : main_step logs s s' -> commit_ok s -> commit_ok s'.
Proof.
  intros Hs. unfold commit_ok.
  destruct Hs as [s Hp Hc|s Hp Hc|s f Hp|s e es rs Hp|s rs Hp|s r rs Hp|s Hp|s err Hp]; rewrite Hp;
    cbn [pc goto commits cancelled clientClosed]; try done.
  - by intros [-> ->].
  - by destruct logs.
  - intros (-> & _ & _). split; [by exists err|done].
Qed.

Lemma main_inv s s' : main_step logs s s' -> loop_inv s -> loop_inv s'.
Proof.
  intros Hs (Hcount & Hcom & Hrep). split_and!; [by eapply main_count|by eapply main_commit|].
  by destruct Hs.
Qed.

Lemma side_inv armed s s' : side_step armed s s' -> loop_inv s -> loop_inv s'.
Proof.
  intros Hs. destruct Hs as [s He|s _ He|s He _|s He Hc]; intros (Hcount & Hcom & Hrep); split_and!; try done.
  all: try by (eapply count_keep; [exact Hcount|done..]).
  - unfold commit_ok in *. cbn [pc commits cancelled clientClosed]. destruct (pc s); naive_solver.
  - destruct Hcount as (counted & rest & Hpo & Hpr & _). exists counted, rest. split_and!; [done..|by right].
  - unfold commit_ok in *. cbn [goto pc commits clientClosed]. destruct (pc s); naive_solver.
  - apply report_tick_ok; [by apply count_int|done].
Qed.

Lemma loop_reachable armed s : rtc (loop_step logs armed) loop_start s -> loop_inv s.
Proof.
  intros Hr. revert s Hr. apply rtc_ind_r.
  - split_and!; [exists [], []; split_and!; try done; by left|done|done].
  - intros s1 s2 _ [Hs|Hs]; [by apply main_inv|by eapply side_inv].
Qed.

(** Once the context has ended, the main goroutine has finitely many steps
    left, whatever batch a poll under way still returns. *)
Definition winds_down s : Prop := Acc (fun s' s => main_step logs s s') s.

Ltac wind :=
  constructor; intros s' Hs; inversion Hs; subst; try congruence;
  repeat match goal with H1 : pc ?s = _, H2 : pc ?s = _ |- _ => rewrite H1 in H2; injection H2 as ?; subst end.

Lemma wind_ended s : ended (pc s) = true -> winds_down s.
Proof. intros He. wind; by match goal with H : pc _ = _ |- _ => rewrite H in He end. Qed.

Lemma wind_commit s : pc s = AtCommit -> winds_down s.
Proof. intros Hp. wind. by apply wind_ended. Qed.

Lemma wind_check s : pc s = AtCheck -> cancelled s = true -> winds_down s.
Proof. intros Hp Hc. wind. by apply wind_commit. Qed.

Lemma wind_records rs : forall s, pc s = InRecords rs -> cancelled s = true -> winds_down s.
Proof.
  induction rs as [|r rs IH]; intros s Hp Hc; wind.
  - by apply wind_check.
  - by apply IH.
Qed.

Lemma wind_errors es : forall s rs, pc s = InErrors es rs -> cancelled s = true -> winds_down s.
Proof.
  induction es as [|e es IH]; intros s rs Hp Hc; wind.
  - by eapply wind_records.
  - by eapply IH.
Qed.

Lemma wind_poll s : pc s = AtPoll -> cancelled s = true -> winds_down s.
Proof.
  intros Hp Hc. wind. destruct logs eqn:El; rewrite <- El; [by eapply wind_errors|by eapply wind_records].
Qed.

Lemma winds_down_cancelled s : cancelled s = true -> winds_down s.
Proof.
  intros Hc. destruct (pc s) eqn:Hp;
    eauto using wind_check, wind_poll, wind_errors, wind_records, wind_commit.
  all: apply wind_ended; by rewrite Hp.
Qed.

Lemma main_progress s : ended (pc s) = false -> exists s', main_step logs s s'.
Proof.
  intros He. destruct (pc s) as [| |[|e es] rs|[|r rs]| | |st] eqn:Hp; try done.
  - destruct (cancelled s) eqn:Hc; eauto using main_step.
  - eexists. by apply (step_poll _ _ (mkFetches [] [])).
  - eauto using main_step.
  - eauto using main_step.
  - eauto using main_step.
  - eauto using main_step.
  - eexists. by apply (step_commit _ _ None).
Qed.

End loop_facts.

(** ** Properties of the consumer *)

(** The list of bootstrap servers the examples pass on is the flag split
    at its commas, without empty parts, whatever the bytes of the flag: the
    loop over runes equals splitting the bytes, after ill-formed UTF-8 has been
    replaced; on text a terminal can produce, every string of runes, nothing is
    replaced. *)
Theorem split_csv_spec s :
  splitCSV s = csv_fields (to_valid s) /\
  (forall rs, to_valid (string_of_runes rs) = string_of_runes rs).
Proof.
  split.
  - unfold splitCSV, to_valid. by rewrite csv_fold by (unfold lacks; simpl; set_solver).
  - apply to_valid_encoded.
Qed.

(** The partitions of a topic are printed in order, whatever order they came
    in; only the order of the topics is the map's. *)
Theorem fmt_parts_sorted m m' :
  Forall2 (fun a b => fst a = fst b /\ snd a ≡ₚ snd b) m m' -> fmtParts m = fmtParts m'.
Proof.
  intros Hm. assert (forall out, fold_left fmt_part m out = fold_left fmt_part m' out) as Hf.
  { induction Hm as [|[t ps] [t' ps'] m m' [Ht Hp] Hm IH]; intros out; [done|]. simpl in Ht, Hp. subst t'.
    cbn [fold_left]. rewrite IH. f_equal. unfold fmt_part. cbn [fst snd].
    assert (merge_sort Z.le ps = merge_sort Z.le ps') as ->; [|done].
    apply (Sorted_unique Z.le); [apply Sorted_merge_sort, _..|].
    by rewrite !merge_sort_Permutation. }
  destruct Hm as [|a b m m' Hab Hm]; [done|]. apply Hf.
Qed.

Example fmt_parts_example :
  fmtParts [("a", [2; 0; 1]); ("b", [7])]%string = "a=[0 1 2] b=[7] "%string /\ fmtParts [] = "<none>"%string.
Proof. split; vm_compute; reflexivity. Qed.

(** What a run of a consumer amounts to, over every interleaving of the poll
    loop with the signal handler, the crash timer and the reporter: the counter
    is the number of records delivered less those of the current batch not yet
    visited, at the counter's width; when the program returns, everything
    delivered is counted, the offsets were committed exactly once, at the end,
    and the client is closed; when it crashes instead, nothing was committed;
    and the differences the reporter logs add up to the count it last saw. *)
Theorem consumer_accounts {Rec E} (logs armed : bool) (s : Loop Rec E) :
  rtc (loop_step logs armed) loop_start s ->
  (exists counted rest, polled s = counted ++ rest /\ processed s = swrap 64 (len counted) /\
     (rest = unvisited (pc s) \/ pc s = Exited 1)) /\
  (pc s = Returned -> processed s = swrap 64 (len (polled s)) /\ (exists r, commits s = [r]) /\
     clientClosed s = true) /\
  (pc s <> Returned -> commits s = [] /\ clientClosed s = false) /\
  fst (report s) = swrap 64 (total (snd (report s))).
Proof.
  intros (Hcount & Hcom & Hrep)%loop_reachable. split; [done|]. split; [|split].
  - intros Hp. unfold commit_ok in Hcom. rewrite Hp in Hcom. destruct Hcom as (Hr & _ & Hcl).
    destruct Hcount as (counted & rest & -> & -> & [->|E']); [|congruence].
    rewrite Hp. cbn [unvisited]. by rewrite app_nil_r.
  - intros Hne. unfold commit_ok in Hcom. destruct (pc s); naive_solver.
  - apply Hrep.
Qed.

(** A run: a batch with an error and two records, a signal, a last commit. *)
Definition quick_end : Loop nat unit :=
  mkLoop Returned true 2 [("t"%string, 0, tt)] [None] true [7%nat; 8%nat] true (2, [2]).

Lemma quick_run : rtc (loop_step true false) loop_start quick_end.
Proof.
  unfold loop_start.
  eapply rtc_l; [left; by apply step_ctx_live|]. cbn.
  eapply rtc_l; [left; by apply (step_poll _ _ (mkFetches [("t"%string, 0, tt)] [7%nat; 8%nat]))|]. cbn.
  eapply rtc_l; [left; by eapply step_error|]. cbn.
  eapply rtc_l; [left; by eapply step_errors_done|]. cbn.
  eapply rtc_l; [left; by eapply step_record|]. cbn.
  eapply rtc_l; [left; by eapply step_record|]. cbn.
  eapply rtc_l; [right; by eapply step_report|]. cbn.
  eapply rtc_l; [right; by eapply step_signal|]. cbn.
  eapply rtc_l; [left; by eapply step_records_done|]. cbn.
  eapply rtc_l; [left; by eapply step_ctx_done|]. cbn.
  apply rtc_once. left. match goal with |- main_step _ ?s _ => exact (step_commit true s None eq_refl) end.
Qed.

Lemma consumer_accounts_witness :
  pc quick_end = Returned /\
  (pc quick_end = Returned -> processed quick_end = swrap 64 (len (polled quick_end)) /\
     (exists r, commits quick_end = [r]) /\ clientClosed quick_end = true).
Proof.
  split; [reflexivity|].
  destruct (consumer_accounts true false quick_end quick_run) as (_ & H & _). exact H.
Defined.

(** After the signal the consumer leaves the group: from any state with the
    context ended, the main goroutine cannot loop for ever and cannot stop
    before it has returned. *)
Theorem consumer_winds_down {Rec E} (logs : bool) (s : Loop Rec E) :
  cancelled s = true ->
  winds_down logs s /\ (ended (pc s) = false -> exists s', main_step logs s s' /\ cancelled s' = true).
Proof.
  intros Hc. split; [by apply winds_down_cancelled|]. intros He.
  destruct (main_progress logs s He) as [s' Hs]. exists s'. split; [done|]. by destruct Hs.
Qed.

(** ** The producer *)

Record producer_flags := mkProducerFlags {
  pf_brokers : string;
  pf_topic : string;
  pf_rate : Z;
  pf_clientID : string;
  pf_keySpace : Z;
}.

Definition producer_defaults : producer_flags :=
  mkProducerFlags "localhost:19094" "event-tracking_track-events-approved" 100 "demo-producer" 1000.

(** The producer's own copy of [splitCSV]. *)
Definition producer_splitCSV (s : string) : list string :=
  let '(out, cur) :=
    fold_left (fun st c => let '(out, cur) := st in
      if c =? 44 then (if String.eqb cur "" then (out, cur) else (out ++ [cur], ""%string))
      else (out, (cur ++ string_of_rune c)%string)) (runes s) ([], ""%string) in
  if String.eqb cur "" then out else out ++ [cur].

Lemma producer_splitCSV_same s : producer_splitCSV s = splitCSV s.
Proof. reflexivity. Qed.

Definition producer_options (f : producer_flags) : list Opt :=
  [SeedBrokers (producer_splitCSV (pf_brokers f)); ClientID (pf_clientID f); DefaultProduceTopic (pf_topic f);
   AllowAutoTopicCreation].

(** The time between two sends. *)
Definition send_interval (f : producer_flags) : Z := Z.quot Second (Z.max 1 (pf_rate f)).

(** [time.NewTicker] panics on an interval that is not positive, [rand.IntN] on
    a range that is empty. *)
Definition ticker_ok (d : Z) : bool := 0 <? d.
Definition IntN_ok (n : Z) : bool := 0 <? n.

(** A record, from what [rand.IntN], the clock and [rand.Int64] gave. *)
Record producer_record := mkRecord { Key : string; Value : string }.

Definition producer_event (k now rnd : Z) : producer_record :=
  mkRecord (pretty k) ("evt@" ++ pretty now ++ " k=" ++ pretty k ++ " rnd=" ++ pretty rnd).

Inductive producer_pc := Running | Flushing | Done | Panicked.

Section producer.
Context {E : Type} (f : producer_flags).

Record ProducerState := mkProducerState {
  at_pc : producer_pc;
  stop : bool;                    (** [ctx] has ended *)
  handed : list producer_record;          (** every record passed to [Produce] *)
  buffered : list producer_record;        (** handed to the client, promise not yet called *)
  acked : list producer_record;           (** promise called without an error *)
  refused : list (producer_record * E);   (** promise called with one *)
  sent : Z;                       (** the atomic counter *)
  errorsLogged : list E;
  finalCount : option Z;          (** what the last log line says *)
  producerReport : Z * list Z;
}.

Definition producer_start : ProducerState :=
  mkProducerState (if ticker_ok (send_interval f) then Running else Panicked) false [] [] [] [] 0 [] None (0, []).

Definition producer_move (s : ProducerState) (p : producer_pc) : ProducerState :=
  mkProducerState p (stop s) (handed s) (buffered s) (acked s) (refused s) (sent s) (errorsLogged s) (finalCount s) (producerReport s).

Inductive producer_step : ProducerState -> ProducerState -> Prop :=
| producer_tick s k now rnd : at_pc s = Running -> 0 <= k < pf_keySpace f ->
    producer_step s (mkProducerState Running (stop s) (handed s ++ [producer_event k now rnd]) (buffered s ++ [producer_event k now rnd]) (acked s) (refused s) (sent s)
              (errorsLogged s) (finalCount s) (producerReport s))
| producer_tick_panics s : at_pc s = Running -> IntN_ok (pf_keySpace f) = false -> producer_step s (producer_move s Panicked)
| producer_done s : at_pc s = Running -> stop s = true ->
    producer_step s (mkProducerState Flushing (stop s) (handed s) (buffered s) (acked s) (refused s) (sent s) (errorsLogged s)
              (Some (sent s)) (producerReport s))
| producer_flushed s : at_pc s = Flushing -> buffered s = [] -> producer_step s (producer_move s Done)
| producer_acked s b1 r b2 : at_pc s <> Done -> at_pc s <> Panicked -> buffered s = b1 ++ r :: b2 ->
    producer_step s (mkProducerState (at_pc s) (stop s) (handed s) (b1 ++ b2) (acked s ++ [r]) (refused s) (swrap 64 (sent s + 1))
              (errorsLogged s) (finalCount s) (producerReport s))
| producer_refused s b1 r b2 e : at_pc s <> Done -> at_pc s <> Panicked -> buffered s = b1 ++ r :: b2 ->
    producer_step s (mkProducerState (at_pc s) (stop s) (handed s) (b1 ++ b2) (acked s) (refused s ++ [(r, e)]) (sent s)
              (if stop s then errorsLogged s else errorsLogged s ++ [e]) (finalCount s) (producerReport s))
| producer_signal s : at_pc s <> Done -> at_pc s <> Panicked ->
    producer_step s (mkProducerState (at_pc s) true (handed s) (buffered s) (acked s) (refused s) (sent s) (errorsLogged s)
              (finalCount s) (producerReport s))
| producer_report s : at_pc s <> Done -> at_pc s <> Panicked ->
    producer_step s (mkProducerState (at_pc s) (stop s) (handed s) (buffered s) (acked s) (refused s) (sent s) (errorsLogged s)
              (finalCount s) (report_tick (producerReport s) (sent s))).

End producer.
Arguments ProducerState : clear implicits.

(** *** Facts *)

Definition from_key_space (f : producer_flags) (r : producer_record) : Prop :=
  exists k now rnd, r = producer_event k now rnd /\ 0 <= k < pf_keySpace f.

Definition producer_inv {E} (f : producer_flags) (s : ProducerState E) : Prop :=
  handed s ≡ₚ buffered s ++ acked s ++ (refused s).*1 /\
  Forall (from_key_space f) (handed s) /\
  sent s = swrap 64 (len (acked s)) /\
  (at_pc s = Done -> buffered s = []) /\
  (at_pc s = Panicked -> ticker_ok (send_interval f) = false \/ IntN_ok (pf_keySpace f) = false) /\
  report_ok (producerReport s).

Lemma producer_step_inv {E} f (s s' : ProducerState E) : producer_step f s s' -> producer_inv f s -> producer_inv f s'.
Proof.
  intros Hs. destruct Hs as [s k now rnd Hp Hk|s Hp Hn|s Hp Hst|s Hp Hb|s b1 r b2 Hd Hpa Hb|s b1 r b2 e Hd Hpa Hb
    |s Hd Hpa|s Hd Hpa]; intros (Hh & Hks & Hsent & Hdone & Hpan & Hrep).
  all: unfold producer_inv; cbn [producer_move handed buffered acked refused at_pc sent producerReport].
  all: split_and!; try done; try by (right; assumption).
  - rewrite Hh, <- !app_assoc. apply Permutation_app_head. rewrite (Permutation_app_comm [_]).
    by rewrite <- !app_assoc.
  - apply Forall_app; split; [done|]. apply Forall_singleton. by exists k, now, rnd.
  - rewrite Hh, Hb, <- !app_assoc. apply Permutation_app_head.
    cbn [app]. rewrite (Permutation_middle b2). apply Permutation_app_head.
    by rewrite (Permutation_middle (acked s)).
  - rewrite Hsent, swrap_add_l. f_equal. len_lia.
  - rewrite Hh, Hb, fmap_app, <- !app_assoc. apply Permutation_app_head.
    cbn [app fmap list_fmap fst]. rewrite (Permutation_middle b2). apply Permutation_app_head.
    rewrite (Permutation_middle (acked s)). apply Permutation_app_head. apply Permutation_cons_append.
  - apply report_tick_ok; [|done]. rewrite Hsent. by apply swrap_range.
Qed.

Lemma producer_reachable {E} f (s : ProducerState E) : rtc (producer_step f) (producer_start f) s -> producer_inv f s.
Proof.
  intros Hr. revert s Hr. apply rtc_ind_r; [|intros s1 s2 _ Hs; by apply producer_step_inv].
  unfold producer_inv, producer_start. cbn [handed buffered acked refused at_pc sent producerReport].
  split_and!; try done. destruct (ticker_ok _); [done|by left].
Qed.

Lemma interval_bounds f :
  1 <= pf_rate f <= Second ->
  0 < send_interval f /\ pf_rate f * send_interval f <= Second < pf_rate f * (send_interval f + 1).
Proof.
  intros Hr. unfold send_interval. rewrite Z.max_r by lia. rewrite Z.quot_div_nonneg by lia.
  pose proof (Z.div_mod Second (pf_rate f) ltac:(lia)). pose proof (Z.mod_pos_bound Second (pf_rate f) ltac:(lia)).
  pose proof (Z.div_str_pos Second (pf_rate f) ltac:(lia)). lia.
Qed.

(** *** Properties *)

(** What a run of the producer amounts to, over every interleaving of its
    ticks, the client's callbacks, the signal and the reporter: every record it
    handed over is still buffered, or was acknowledged or refused, once; its
    keys are those of the key space; the counter is the number of
    acknowledgements; when the program returns nothing is left in the buffer; and
    it panics only for a rate above a thousand million per second or an empty
    key space. *)
Theorem producer_accounts {E} f (s : ProducerState E) :
  rtc (producer_step f) (producer_start f) s ->
  handed s ≡ₚ buffered s ++ acked s ++ (refused s).*1 /\
  Forall (from_key_space f) (handed s) /\
  sent s = swrap 64 (len (acked s)) /\
  (at_pc s = Done -> handed s ≡ₚ acked s ++ (refused s).*1) /\
  (at_pc s = Panicked -> Second < pf_rate f \/ pf_keySpace f <= 0).
Proof.
  intros (Hh & Hks & Hsent & Hdone & Hpan & _)%producer_reachable. split_and!; try done.
  - intros Hd. by rewrite Hh, (Hdone Hd).
  - intros [Ht|Hn]%Hpan; [left|right].
    + unfold ticker_ok in Ht. destruct (Z.ltb_spec 0 (send_interval f)) as [|Hi]; [done|].
      destruct (decide (pf_rate f <= Second)); [|lia]. exfalso.
      destruct (decide (1 <= pf_rate f)); [by destruct (interval_bounds f); lia|].
      unfold send_interval in Hi. rewrite Z.max_l in Hi by lia. by vm_compute in Hi.
    + unfold IntN_ok in Hn. destruct (Z.ltb_spec 0 (pf_keySpace f)); [done|lia].
Qed.

(** A run: two messages, one acknowledged before the signal, one refused while
    flushing. *)
Definition small_flags : producer_flags := mkProducerFlags "a:1,b:2" "t" 2 "p" 10.
Definition small_end : ProducerState unit :=
  mkProducerState Done true [producer_event 3 5 6; producer_event 4 7 8] [] [producer_event 3 5 6] [(producer_event 4 7 8, tt)] 1 [] (Some 1) (0, []).

Lemma small_run : rtc (producer_step small_flags) (producer_start small_flags) small_end.
Proof.
  unfold producer_start. change (ticker_ok (send_interval small_flags)) with true. cbn [negb].
  eapply rtc_l; [apply (producer_tick small_flags _ 3 5 6); [done|by split]|]. cbn -[producer_event].
  eapply rtc_l; [apply (producer_tick small_flags _ 4 7 8); [done|by split]|]. cbn -[producer_event].
  eapply rtc_l; [by apply (producer_acked small_flags _ [] (producer_event 3 5 6) [producer_event 4 7 8])|]. cbn -[producer_event].
  eapply rtc_l; [by apply (producer_signal small_flags)|]. cbn -[producer_event].
  eapply rtc_l; [by apply (producer_done small_flags)|]. cbn -[producer_event].
  eapply rtc_l; [by apply (producer_refused small_flags _ [] (producer_event 4 7 8) [] tt)|]. cbn -[producer_event].
  apply rtc_once. match goal with |- producer_step _ ?s _ => exact (producer_flushed small_flags s eq_refl eq_refl) end.
Qed.

Lemma producer_accounts_witness :
  handed small_end ≡ₚ acked small_end ++ (refused small_end).*1 /\ sent small_end = 1.
Proof.
  destruct (producer_accounts small_flags small_end small_run) as (_ & _ & H1 & H2 & _).
  split; [by apply H2|exact H1].
Defined.

(** *** Findings *)

(** The rate and the number of keys are not checked: a rate above 10^9 stops the
    producer before its first message, an empty key space at it. *)
Theorem unchecked_flags_panic {E} f :
  (Second < pf_rate f -> at_pc (@producer_start E f) = Panicked) /\
  (pf_keySpace f <= 0 -> forall s s' : ProducerState E, at_pc s = Running -> producer_step f s s' ->
     length (handed s') = length (handed s)).
Proof.
  split.
  - intros Hr. unfold producer_start, send_interval. cbn [at_pc]. rewrite Z.max_r, Z.quot_small by (unfold Second in *; lia). done.
  - intros Hk s s' Hp Hs. destruct Hs; try done. lia.
Qed.

(** ** The probe: example/probe/main.go *)

(** What it prints for a result of [ProduceSync]. *)
Definition probe_line (r : string + Z * Z) : string :=
  match r with
  | inl err => ("ERR " ++ err)%string
  | inr (partition, offset) => ("OK " ++ pretty partition ++ " " ++ pretty offset)%string
  end.

(** [os.Args[1]] is taken unchecked, and a client that cannot be made is a
    panic; [res] is what [ProduceSync] returns. *)
Definition probe_main (args : list string) (newClient : option string) (res : list (string + Z * Z))
    : outcome string (list string) :=
  match args !! 1%nat with
  | None => Panic
  | Some bs => match newClient with Some _ => Panic | None => Ok (map probe_line res) end
  end.

(** The report tells the records that arrived from those that did not. *)
Theorem probe_reports args res lines :
  probe_main args None res = Ok lines ->
  Forall2 (fun r l => String.prefix "OK " l = true <-> exists at_, r = inr at_) res lines.
Proof.
  unfold probe_main. destruct (args !! 1%nat); [|done]. intros [= <-]. apply Forall2_fmap_r, Forall_Forall2_diag.
  apply Forall_true. intros [e|[pt off]]; cbn [probe_line].
  - split; [intros Hp; by cbn in Hp|intros [? ?]; done].
  - split; [eauto|]. intros _. cbn. by destruct (pretty pt).
Qed.
