(* ===== verification/Scenario.v ===== *)
(** * The demonstration: example/scenario/main.go

    The program that starts the proxy as a subprocess, waits until it is
    healthy, runs consumers through it, kills one, and prints totals with some
    of the proxy's metrics.  Its readers of the proxy's output are composed here
    with the writers: [waitReady] with the health check, [pluck] with the
    metrics page, the [-topology] argument with its parser. *)

From stdpp Require Import base numbers list strings gmap pretty sorting relations.
From Stdlib Require Import ZArith Lia Strings.Ascii.
From S2P Require Import Prelude Primitives Utf8 TopologyText Topology Tracker Conn Interceptor Obs Background.
From S2P Require Import MetaCache Startup Examples.

(** ** Arguments *)

Record scenario_flags := mkScenarioFlags {
  kproxyBin : string;
  broker : string;
  listen : string;
  admin : string;
  nodeID : Z;
  topic : string;
  group : string;
  consumers : Z;
  duration : Z;
  killAfter : Z;
  slow : Z;
  skipKproxy : bool;
}.

Definition scenario_defaults : scenario_flags :=
  mkScenarioFlags "../bin/kproxy" "localhost:9094" "127.0.0.1:19094" "127.0.0.1:9099" 1
    "event-tracking_track-events-approved" "scenario-group" 4 (60 * Second) (25 * Second) 0 false.

(** [fmt.Sprintf("%d=%s=%s", ...)] *)
Definition topo (f : scenario_flags) : string := (pretty (nodeID f) ++ "=" ++ broker f ++ "=" ++ listen f)%string.

(** The command line of the subprocess. *)
Definition kproxy_args (f : scenario_flags) : list string :=
  ["-broker"; broker f; "-listen"; listen f; "-admin"; admin f; "-topology"; topo f;
   "-telemetry"; "5s"; "-refresh"; "10s"]%string.

(** What the subprocess's [flag.Parse] makes of a flag and its value, for the
    flags on that command line; a duration is a number of seconds there. *)
Definition parse_seconds (v : string) : option Z :=
  match reverse (String.list_ascii_of_string v) with
  | "s"%char :: ((_ :: _) as ds) => (fun n => n * Second) <$> digits (reverse ds) 0
  | _ => None
  end.

Definition set_flag (c : config) (name v : string) : option config :=
  let upd l b a t r te :=
    mkCfg l b (bootstrap c) a t (topologyFile c) (connLimit c) (frameMax c) (idleTimeout c)
      (planTimeout c) r te (dialTimeout c) (drainTimeout c) (plannerWorker c) (plannerQueue c)
      (subMax c) (clientID c) (enablePprof c) (healthMaxMetadataAge c) in
  let l := Startup.listen c in let b := Startup.broker c in let a := Startup.admin c in
  let t := topologyFlag c in let r := refresh c in let te := telemetryEv c in
  if String.eqb name "-broker" then Some (upd l v a t r te) else
  if String.eqb name "-listen" then Some (upd v b a t r te) else
  if String.eqb name "-admin" then Some (upd l b v t r te) else
  if String.eqb name "-topology" then Some (upd l b a v r te) else
  if String.eqb name "-refresh" then (fun r => upd l b a t r te) <$> parse_seconds v else
  if String.eqb name "-telemetry" then (fun te => upd l b a t r te) <$> parse_seconds v else
  None.

Fixpoint parse_args (args : list string) (c : config) : option config :=
  match args with
  | [] => Some c
  | name :: v :: args => match set_flag c name v with Some c => parse_args args c | None => None end
  | [_] => None
  end.

(** The options of one consumer. *)
Definition scenario_consumer_opts (f : scenario_flags) (id : string) : list Opt :=
  [SeedBrokers [listen f]; ClientID ("scenario-" ++ id); ConsumerGroup (group f); ConsumeTopics (topic f);
   CooperativeSticky; AutoCommitInterval (3 * Second); SessionTimeout (15 * Second);
   OnPartitions; OnPartitions].

(** ** The proxy's output *)

(** [prefixWriter.Write]: what the underlying writer received, and the count
    returned. *)
Definition prefix_line (prefix out line : string) : string :=
  if String.eqb line "" then out else (out ++ prefix ++ line ++ newline)%string.

Definition prefixWrite (prefix out b : string) : string * Z :=
  (fold_left (prefix_line prefix) (split_on "010"%char b) out, slen b).

(** ** Metrics *)

(** [pluck] *)
Fixpoint pluck_lines (lines : list string) (key : string) : string :=
  match lines with
  | [] => ""
  | line :: lines =>
      if negb (String.prefix key line) then pluck_lines lines key
      else TrimSpace (String.substring (String.length key) (String.length line - String.length key) line)
  end.

Definition pluck (text key : string) : string := pluck_lines (split_on "010"%char text) key.

Definition scrape_keys : list string :=
  [labelled "kproxy_intercepts_total" "outcome" "any"; "kproxy_plan_count_total";
   "kproxy_unmapped_brokers_total"; "kproxy_conn_active"]%string.

Definition scrape_key (text out k : string) : string :=
  let v := pluck text k in
  if String.eqb v "" then out else (out ++ k ++ "=" ++ v ++ " ")%string.

(** [scrapeMetrics]: what the GET answered ([None] for an error, else the status
    and the body as far as it could be read), and whether a body was left open. *)
Definition scrapeMetrics (adm : string) (got : option (Z * string)) : string * bool :=
  if String.eqb adm "" then (""%string, false) else
  match got with
  | None => (""%string, false)
  | Some (status, b) =>
      if negb (status =? 200) then (""%string, true)
      else (fold_left (scrape_key b) scrape_keys ""%string, false)
  end.

(** ** Totals *)

#[local] Abbreviation string_le := (fun a b : string => Is_true (String.leb a b)).

(** The counts as they are printed, [c0=..] for the first. *)
Definition count_parts (ns : list Z) : list string :=
  imap (fun i n => ("c" ++ pretty (Z.of_nat i) ++ "=" ++ pretty n)%string) ns.

Definition sum64 (ns : list Z) : Z := fold_left (fun t n => swrap 64 (t + n)) ns 0.

(** The line [summary] logs. *)
Definition summary (ns : list Z) (scraped : string) : string :=
  ("totals: [" ++ String.concat " " (merge_sort string_le (count_parts ns)) ++ "] sum=" ++
   pretty (sum64 ns) ++ " " ++ scraped)%string.

(** ** Waiting for the proxy *)

(** The pause between two attempts. *)
Definition retry_pause : Z := 200 * 1000000.

(** One GET: how long it takes at most, the client's timeout included, and the
    status it answers. *)
Record attempt := mkAttempt { took : Z; status : option Z }.

Inductive wait_result := Ready | NotReady (at_ : Z).

(** [waitReady] at time [now], with the deadline of its context ([ctx] ending
    earlier makes it earlier): an attempt that the deadline overtakes fails then.
    [None]: the attempts given were too few. *)
Fixpoint waitReady (attempts : list attempt) (now deadline : Z) : option wait_result :=
  match attempts with
  | [] => None
  | a :: attempts =>
      let answered := now + took a in
      if bool_decide (status a = Some 200) && (answered <? deadline) then Some Ready else
      let now := Z.min answered (Z.max now deadline) in
      if deadline <=? now + retry_pause then Some (NotReady (Z.max now deadline))
      else waitReady attempts (now + retry_pause) deadline
  end.

(** ** Facts *)

(** *** Text *)

Lemma prefix_app_same (k s : string) : String.prefix k (k ++ s) = true.
Proof.
  induction k as [|c k IH]; [by destruct s|]. change (String c k ++ s)%string with (String c (k ++ s)).
  cbn [String.prefix]. destruct (ascii_dec c c); [done|congruence].
Qed.

Lemma substring_all s : String.substring 0 (String.length s) s = s.
Proof. induction s as [|c s IH]; [done|]. simpl. by rewrite IH. Qed.

(** [line[len(key):]] *)
Lemma substring_tail k s :
  String.substring (String.length k) (String.length (k ++ s) - String.length k) (k ++ s) = s.
Proof.
  induction k as [|c k IH]; [|exact IH]. change ("" ++ s)%string with s. simpl. rewrite Nat.sub_0_r.
  apply substring_all.
Qed.

Lemma prefix_lacks key k v :
  lacks " "%char key -> String.prefix key (k ++ String " "%char v) = String.prefix key k.
Proof.
  unfold lacks. revert k. induction key as [|c key IH]; intros k Hk; [by destruct k|].
  destruct k as [|c' k].
  - change ("" ++ String " " v)%string with (String " "%char v). cbn [String.prefix]. destruct (ascii_dec c " ") as [->|]; [|done]. simpl in Hk. set_solver.
  - change (String c' k ++ String " " v)%string with (String c' (k ++ String " "%char v)). cbn [String.prefix].
    destruct (ascii_dec c c'); [|done]. apply IH. simpl in Hk. set_solver.
Qed.

(** *** Plucking a sample *)

(** The first value under a key. *)
Fixpoint sample_of (kvs : list (string * string)) (key : string) : option string :=
  match kvs with
  | [] => None
  | (k, v) :: kvs => if String.eqb k key then Some v else sample_of kvs key
  end.

(** No other key starts with this one. *)
Definition unambiguous (keys : list string) (key : string) : bool :=
  forallb (fun k => implb (String.prefix key k) (String.eqb k key)) keys.

Lemma pluck_sample kvs key :
  Forall clean_sample kvs -> lacks " "%char key -> key <> ""%string -> unambiguous (map fst kvs) key = true ->
  pluck (fold_right line "" kvs) key =
  match sample_of kvs key with Some v => TrimSpace (String " "%char v) | None => ""%string end.
Proof.
  intros Hk Hl Hne Hu. unfold pluck. rewrite split_lines by done. clear Hk.
  induction kvs as [|[k v] kvs IH].
  - cbn. by destruct key.
  - cbn [map app pluck_lines fst snd sample_of unambiguous forallb] in *.
    apply andb_prop in Hu as [Hu1 Hu]. change (" " ++ v)%string with (String " "%char v).
    rewrite prefix_lacks by done. destruct (String.eqb_spec k key) as [->|Hkey].
    + pose proof (prefix_app_same key "") as Hp. rewrite string_app_nil_r in Hp. rewrite Hp. cbn [negb].
      by rewrite substring_tail.
    + destruct (String.prefix key k); [done|]. by apply IH.
Qed.

(** *** The prefixed output *)

Definition nonempty (l : string) : bool := negb (String.eqb l "").

Lemma prefix_fold prefix lines out :
  fold_left (prefix_line prefix) lines out =
  (out ++ String.concat "" (map (fun l => prefix ++ l ++ newline) (List.filter nonempty lines)))%string.
Proof.
  revert out. induction lines as [|l lines IH]; intros out; cbn [fold_left List.filter].
  - by rewrite string_app_nil_r.
  - rewrite IH. unfold prefix_line at 1, nonempty at 2. destruct (String.eqb l ""); cbn [negb map]; [done|].
    rewrite concat_empty_cons. apply string_app_assoc.
Qed.

Lemma split_on_joined ls :
  Forall (lacks "010"%char) ls ->
  split_on "010"%char (String.concat "" (map (fun l => l ++ newline)%string ls)) = ls ++ [""%string].
Proof.
  induction 1 as [|l ls Hl _ IH]; [done|]. cbn [map]. rewrite concat_empty_cons, string_app_assoc.
  change (newline ++ ?r)%string with (String "010"%char r). rewrite split_on_app by done. by rewrite IH.
Qed.

Definition metric_keys : list string := map fst (entries NewMetrics).

Lemma pluck_metric m key (v : Z) :
  lacks " "%char key -> key <> ""%string -> unambiguous metric_keys key = true ->
  sample_of (entries m) key = Some (pretty v) -> pluck (PromText m) key = pretty v.
Proof.
  intros Hl Hne Hu Hs. rewrite PromText_lines, pluck_sample; [|apply entries_clean|done..].
  rewrite Hs. apply TrimSpace_blank, pretty_no_space.
Qed.

(** ** Properties *)

(** The demonstration reads the proxy's metrics page back: when the GET of
    /metrics is answered by the admin server, the text it prints holds, for
    each of its four keys, exactly the value of that counter, whatever the
    counters hold, and the body is closed. *)
Theorem scrape_reads_metrics a m adm :
  A_Metrics a = Some m -> adm <> ""%string ->
  exists body, serve a "/metrics" = Reply 200 (Some "text/plain; version=0.0.4; charset=utf-8"%string) body /\
    scrapeMetrics adm (Some (200, body)) =
      ((labelled "kproxy_intercepts_total" "outcome" "any" ++ "=" ++ pretty (InterceptsTotal (M_intercepts m)) ++ " " ++
        "kproxy_plan_count_total=" ++ pretty (PlanCount (M_intercepts m)) ++ " " ++
        "kproxy_unmapped_brokers_total=" ++ pretty (UnmappedBrokers (M_intercepts m)) ++ " " ++
        "kproxy_conn_active=" ++ pretty (ConnActive m) ++ " ")%string, false).
Proof.
  intros Hm Ha. exists (PromText m). split.
  { change (serve a "/metrics") with (handle_metrics a). unfold handle_metrics. by rewrite Hm. }
  unfold scrapeMetrics. destruct (String.eqb_spec adm ""); [done|]. cbn [negb Z.eqb Pos.eqb].
  unfold scrape_keys. cbn [fold_left]. unfold scrape_key.
  rewrite (pluck_metric m (labelled _ _ _) (InterceptsTotal (M_intercepts m))),
    (pluck_metric m "kproxy_plan_count_total" (PlanCount (M_intercepts m))),
    (pluck_metric m "kproxy_unmapped_brokers_total" (UnmappedBrokers (M_intercepts m))),
    (pluck_metric m "kproxy_conn_active" (ConnActive m));
    try first [ reflexivity | discriminate | unfold lacks; apply (bool_decide_unpack _); vm_compute; exact I ].
  rewrite !pretty_not_empty. f_equal. by rewrite !string_app_assoc.
Qed.

Lemma scrape_reads_metrics_witness :
  exists body, serve (mkAdmin (Some NewMetrics) None false) "/metrics" =
      Reply 200 (Some "text/plain; version=0.0.4; charset=utf-8"%string) body /\
    fst (scrapeMetrics "127.0.0.1:9099" (Some (200, body))) =
      (labelled "kproxy_intercepts_total" "outcome" "any" ++
       "=0 kproxy_plan_count_total=0 kproxy_unmapped_brokers_total=0 kproxy_conn_active=0 ")%string.
Proof.
  destruct (scrape_reads_metrics (mkAdmin (Some NewMetrics) None false) NewMetrics "127.0.0.1:9099")
    as (body & H1 & H2); [reflexivity|discriminate|].
  exists body. split; [exact H1|]. rewrite H2. vm_compute. reflexivity.
Defined.

(** The proxy's output appears line by line, each line with the prefix and
    empty lines dropped; every write is accepted whole; and how the output was
    cut into writes does not show, as long as the cuts are at line ends. *)
Theorem prefix_writer_lines prefix :
  lacks "010"%char prefix ->
  (forall b, snd (prefixWrite prefix "" b) = slen b /\
     split_on "010"%char (fst (prefixWrite prefix "" b)) =
       map (fun l => prefix ++ l)%string (List.filter nonempty (split_on "010"%char b)) ++ [""%string]) /\
  (forall out b1 b2,
     fst (prefixWrite prefix (fst (prefixWrite prefix out (b1 ++ newline))) b2) =
     fst (prefixWrite prefix out (b1 ++ newline ++ b2))).
Proof.
  intros Hp. split.
  - intros b. split; [done|]. unfold prefixWrite. cbn [fst]. rewrite prefix_fold.
    change ("" ++ ?x)%string with x. rewrite <- split_on_joined.
    + f_equal. f_equal. rewrite map_map. apply map_ext. intros l. by rewrite string_app_assoc.
    + apply Forall_fmap, Forall_forall. intros l Hl. apply lacks_app. split; [done|].
      apply list_elem_of_In, filter_In in Hl as [Hl _]. apply list_elem_of_In in Hl.
      by apply (proj1 (Forall_forall _ _) (split_on_parts "010"%char b)).
  - intros out b1 b2. unfold prefixWrite. cbn [fst].
    change (b1 ++ newline ++ b2)%string with (b1 ++ String "010"%char b2)%string.
    change (b1 ++ newline)%string with (b1 ++ String "010"%char "")%string.
    rewrite !split_on_snoc, !fold_left_app. done.
Qed.

(** A line that reaches the writer in two pieces is shown as two lines. *)
Theorem split_write_breaks_line :
  let w1 := fst (prefixWrite "[kproxy] " "" "listening on") in
  fst (prefixWrite "[kproxy] " w1 (" :9092" ++ newline)) =
  ("[kproxy] listening on" ++ newline ++ "[kproxy]  :9092" ++ newline)%string.
Proof. vm_compute. reflexivity. Qed.

(** A reply that is not 200 is not read and its body is not closed. *)
Theorem refused_scrape_leaks_body adm st b :
  adm <> ""%string -> st <> 200 -> scrapeMetrics adm (Some (st, b)) = (""%string, true).
Proof.
  intros Ha Hs. unfold scrapeMetrics. destruct (String.eqb_spec adm ""); [done|].
  by destruct (Z.eqb_spec st 200).
Qed.

(** *** Waiting *)

Lemma wait_ready_decides attempts : forall now deadline,
  Forall (fun a => 0 <= took a) attempts -> now <= deadline ->
  deadline - now < retry_pause * len attempts ->
  exists r, waitReady attempts now deadline = Some r /\
    match r with
    | Ready => exists a, a ∈ attempts /\ status a = Some 200
    | NotReady t => t = deadline
    end.
Proof.
  induction attempts as [|a attempts IH]; intros now deadline Hok Hn Hl.
  { change (len (@nil attempt)) with 0 in Hl. lia. }
  inversion Hok as [|? ? Ha Hrest]; subst. cbn [waitReady]. cbv zeta.
  destruct (bool_decide (status a = Some 200) && (now + took a <? deadline)) eqn:E.
  { apply andb_prop in E as [E%bool_decide_eq_true _]. exists Ready. split; [done|]. exists a. set_solver. }
  destruct (Z.leb_spec deadline (Z.min (now + took a) (Z.max now deadline) + retry_pause)).
  { eexists. split; [done|]. cbn. lia. }
  destruct (IH (Z.min (now + took a) (Z.max now deadline) + retry_pause) deadline) as (r & -> & Hr);
    [done|lia| |].
  { assert (len (a :: attempts) = 1 + len attempts) as E' by len_lia. rewrite E' in Hl.
    unfold retry_pause in *. lia. }
  exists r. split; [done|]. destruct r; [|done]. destruct Hr as (a' & ? & ?). exists a'. set_solver.
Qed.

(** The configuration the subprocess runs with. *)
Definition proxy_config (f : scenario_flags) : config :=
  default Startup.default_flags (parse_args (kproxy_args f) Startup.default_flags).

Lemma proxy_config_spec f :
  parse_args (kproxy_args f) Startup.default_flags = Some (proxy_config f) /\
  Startup.listen (proxy_config f) = listen f /\ Startup.broker (proxy_config f) = broker f /\
  Startup.admin (proxy_config f) = admin f /\ topologyFlag (proxy_config f) = topo f.
Proof. split_and!; vm_compute; reflexivity. Qed.

Lemma proxy_config_budget f : healthMaxAge (proxy_config f) = 30 * Second.
Proof. vm_compute. reflexivity. Qed.

Lemma serve_healthz a : serve a "/healthz" = handle_healthz a.
Proof. reflexivity. Qed.


(** The demonstration waits for the right thing.  Within fifty-one attempts
    [waitReady] decides, whatever the attempts meet: it succeeds, and then the
    proxy it started had published cluster metadata at most thirty seconds old
    when it answered (the answer to each attempt being that of the admin server
    of a proxy configured by the arguments it was given); or it fails exactly
    at the deadline. *)
Theorem wait_until_fresh f attempts now (seen : attempt -> Cache * Metrics * Z) :
  (forall a, a ∈ attempts -> 0 <= took a /\ forall st, status a = Some st ->
     let '(cache, m, t) := seen a in
     exists body, serve (admin_of (proxy_config f) cache m t) "/healthz" = Reply st None body) ->
  50 < len attempts ->
  (waitReady attempts now (now + 10 * Second) = Some Ready /\
   exists a, a ∈ attempts /\
     let '(cache, m, t) := seen a in exists snap, cur cache = Some snap /\ t - BuiltAt snap <= 30 * Second) \/
  waitReady attempts now (now + 10 * Second) = Some (NotReady (now + 10 * Second)).
Proof.
  intros Hs Hl.
  destruct (wait_ready_decides attempts now (now + 10 * Second)) as ([|t] & Hr & Hres).
  - apply Forall_forall. intros a Ha. by destruct (Hs a Ha).
  - unfold Second. lia.
  - unfold Second, retry_pause. lia.
  - left. split; [done|]. destruct Hres as (a & Ha & Hst). exists a. split; [done|].
    destruct (Hs a Ha) as [_ H]. specialize (H 200 Hst). destruct (seen a) as [[cache m] t].
    destruct H as [body H]. rewrite serve_healthz in H.
    unfold handle_healthz, admin_of, MetadataAgeOK in H. cbn [A_Health] in H.
    rewrite proxy_config_budget in H. destruct (Z.leb_spec (Age cache t) (30 * Second)) as [Hage|]; [|done]. unfold Age in Hage.
    destruct (cur cache) as [snap|]; [by exists snap|]. by vm_compute in Hage.
  - right. by rewrite Hr, Hres.
Qed.

(** A proxy that does not answer at first and is fresh when it does. *)
Definition fresh_cache : Cache := mkCache (Some (mkSnapshot 5 ∅ ∅)) None [].
Definition starting : list attempt := mkAttempt 0 None :: replicate 50 (mkAttempt 3 (Some 200)).

Lemma fresh_reply f :
  exists body, serve (admin_of (proxy_config f) fresh_cache NewMetrics 7) "/healthz" = Reply 200 None body.
Proof.
  rewrite serve_healthz. unfold handle_healthz, admin_of, MetadataAgeOK. cbn [A_Health].
  rewrite proxy_config_budget. by eexists.
Qed.

Lemma starting_ok f a :
  a ∈ starting -> 0 <= took a /\ forall st, status a = Some st ->
    exists body, serve (admin_of (proxy_config f) fresh_cache NewMetrics 7) "/healthz" = Reply st None body.
Proof.
  intros [->|[-> _]%elem_of_replicate]%elem_of_cons; (split; [discriminate|]); intros st; [discriminate|].
  intros [= <-]. apply fresh_reply.
Qed.

Lemma wait_until_fresh_witness :
  (waitReady starting 0 (0 + 10 * Second) = Some Ready /\ exists a, a ∈ starting /\
     exists snap, cur fresh_cache = Some snap /\ 7 - BuiltAt snap <= 30 * Second) \/
  waitReady starting 0 (0 + 10 * Second) = Some (NotReady (0 + 10 * Second)).
Proof.
  apply (wait_until_fresh scenario_defaults starting 0 (fun _ => (fresh_cache, NewMetrics, 7))
    (starting_ok scenario_defaults)).
  vm_compute. reflexivity.
Defined.

Example starting_ready : waitReady starting 0 (10 * Second) = Some Ready.
Proof. vm_compute. reflexivity. Qed.

(** *** The topology of the demonstration *)

(** The proxy of the demonstration hides its broker: the [-topology] argument
    the program builds from its flags is accepted by the proxy, and every
    lookup of that broker's node id is answered with the address the
    demonstration's clients connect to. *)
Theorem demo_hides_broker {HT : HostText} {E} `{TopologyJson E} f rb ab (open : string -> E + File E) :
  broker f = EndpointString rb -> listen f = EndpointString ab ->
  printable rb -> printable ab -> EP_Host rb <> ""%string -> EP_Host ab <> ""%string ->
  writable (mkFileEntry (nodeID f) (broker f) (listen f)) -> 0 <= nodeID f ->
  exists m, select_topology (proxy_config f) open = inr m /\
    forall host port, Lookup (Some m) (nodeID f) host port = Some ab.
Proof.
  intros Hb Hl Hrb Hab Hhr Hha Hw Hn. set (e := mkFileEntry (nodeID f) (broker f) (listen f)) in *.
  destruct (proxy_config_spec f) as (_ & _ & _ & _ & Ht).
  assert (ParseFlag (topo f) = load_entry New e) as Hp.
  { change (topo f) with (spec_text [e]). rewrite parse_spec_text by by constructor.
    unfold LoadEntries. cbn [fold_option]. by destruct (load_entry New e). }
  assert (load_entry New e = Some (mkMapping {[nodeID f := ab]} {[EndpointString rb := ab]})) as He.
  { unfold load_entry, e. cbn [FI_Real FI_Advertised FI_NodeID]. rewrite Hb, Hl, !parse_printed by done.
    unfold Add, valid_endpoint. destruct Hrb as (_ & _ & _ & ?), Hab as (_ & _ & _ & ?).
    rewrite !bool_decide_eq_false_2 by done. destruct (Z.ltb_spec 0 (EP_Port rb)); [|lia].
    destruct (Z.ltb_spec 0 (EP_Port ab)); [|lia]. cbn [negb andb].
    destruct (Z.leb_spec 0 (nodeID f)); [|lia]. unfold conflict. cbn [byNodeID byHostPt New].
    by rewrite !lookup_empty. }
  exists (mkMapping {[nodeID f := ab]} {[EndpointString rb := ab]}). split.
  - unfold select_topology. rewrite Ht, bool_decide_eq_false_2 by apply (entry_text_not_empty e).
    cbn [negb]. by rewrite Hp, He.
  - intros host port. unfold Lookup. destruct (Z.leb_spec 0 (nodeID f)); [|lia]. cbn [byNodeID].
    by rewrite lookup_singleton_eq.
Qed.

(** ** The run *)

Section demo.
Context {Rec E : Type}.

Inductive demo_pc := WaitAll | Complete.

(** The subprocess; [ProxyKilled] is what [exec.CommandContext] does to it when
    its context ends, [ProxyStopped] the deferred SIGTERM. *)
Inductive proxy_state := NotSpawned | ProxyUp | ProxyKilled | ProxyStopped.

(** A consumer goroutine is [runConsumer]: the poll loop without the logging of
    errors; [None] when its client could not be created and it has returned. *)
Record Demo := mkDemo {
  d_pc : demo_pc;
  rootDone : bool;
  cons : list (option (Loop Rec E));
  proxy : proxy_state;
  auto : nat;               (** commits the client library made by its timer *)
}.

Definition runConsumer_step : Loop Rec E -> Loop Rec E -> Prop := main_step false.

Definition cancel_loop (l : Loop Rec E) : Loop Rec E :=
  mkLoop (pc l) true (processed l) (errLog l) (commits l) (clientClosed l) (polled l) (reporting l) (report l).

Definition returned (c : option (Loop Rec E)) : bool :=
  match c with Some l => ended (pc l) | None => true end.

(** One goroutine for each of [-consumers]; [created]: which of their clients
    could be created. *)
Definition demo_start (f : scenario_flags) (created : nat -> bool) : Demo :=
  mkDemo WaitAll false (map (fun i => if created i then Some loop_start else None) (seq 0 (Z.to_nat (consumers f))))
    (if skipKproxy f then NotSpawned else ProxyUp) 0.

(** How [main] gets there: the status of an early exit with the subprocess as it
    is left behind, or the running demonstration.  [spawned] and [ready] are what
    [cmd.Start] and [waitReady] answer; [log.Fatalf] exits without the deferred
    calls, a panic runs them. *)
Definition demo_boot (f : scenario_flags) (spawned : bool) (ready : wait_result) (created : nat -> bool)
    : (Z * proxy_state) + Demo :=
  if negb (skipKproxy f) && negb spawned then inl (1, NotSpawned) else
  match (if skipKproxy f then Ready else ready) with
  | NotReady _ => inl (1, ProxyUp)
  | Ready =>
      if consumers f <? 0 then inl (2, if skipKproxy f then NotSpawned else ProxyStopped)
      else inr (demo_start f created)
  end.

Inductive demo_step (f : scenario_flags) : Demo -> Demo -> Prop :=
| demo_consumer d i l l' : d_pc d = WaitAll -> cons d !! i = Some (Some l) -> runConsumer_step l l' ->
    demo_step f d (mkDemo WaitAll (rootDone d) (<[i := Some l']> (cons d)) (proxy d) (auto d))
| demo_autocommit d i l :   (* [kgo.AutoCommitInterval]: any number of times, while the client is open *)
    d_pc d = WaitAll -> cons d !! i = Some (Some l) -> clientClosed l = false ->
    demo_step f d (mkDemo WaitAll (rootDone d) (cons d) (proxy d) (S (auto d)))
| demo_kill d : 0 < killAfter f -> 1 < consumers f -> d_pc d = WaitAll ->
    demo_step f d (mkDemo WaitAll (rootDone d) (alter (fmap cancel_loop) 0%nat (cons d)) (proxy d) (auto d))
| demo_root d : d_pc d = WaitAll ->   (* the duration has elapsed, or a signal *)
    demo_step f d (mkDemo WaitAll true (map (fmap cancel_loop) (cons d)) (proxy d) (auto d))
| demo_proxy_killed d : rootDone d = true -> proxy d = ProxyUp ->
    demo_step f d (mkDemo (d_pc d) true (cons d) ProxyKilled (auto d))
| demo_finish d : d_pc d = WaitAll -> forallb returned (cons d) = true ->
    (* wg.Wait has returned; the deferred calls: SIGTERM and Wait, rootCancel *)
    demo_step f d (mkDemo Complete true (cons d)
      match proxy d with ProxyUp => ProxyStopped | p => p end (auto d)).

(** The counts [summary] prints at the end. *)
Definition final_counts (d : Demo) : list Z :=
  map (fun c => match c with Some l => processed l | None => 0 end) (cons d).

(** *** Facts *)

Definition consumer_inv (c : option (Loop Rec E)) : Prop :=
  match c with Some l => loop_inv l /\ (forall st, pc l <> Exited st) | None => True end.

Lemma cancel_inv l : loop_inv l -> loop_inv (cancel_loop l).
Proof.
  intros (Hc & Hm & Hr). split_and!; [exact Hc| |exact Hr].
  unfold commit_ok in *. cbn [cancel_loop pc commits cancelled clientClosed]. destruct (pc l); naive_solver.
Qed.

Lemma cancel_consumer c : consumer_inv c -> consumer_inv (cancel_loop <$> c).
Proof. destruct c as [l|]; [|done]. intros [Hi He]. split; [by apply cancel_inv|done]. Qed.

Definition demo_inv (d : Demo) : Prop :=
  Forall consumer_inv (cons d) /\
  (rootDone d = true -> Forall (fun c => match c with Some l => cancelled l = true | None => True end) (cons d)) /\
  (d_pc d = Complete -> rootDone d = true /\ forallb returned (cons d) = true /\ proxy d <> ProxyUp).

Lemma step_consumer l l' :
  runConsumer_step l l' -> consumer_inv (Some l) ->
  consumer_inv (Some l') /\ (cancelled l = true -> cancelled l' = true).
Proof.
  intros Hs [Hi He]. split; [|by destruct Hs]. split; [by eapply main_inv|]. by destruct Hs.
Qed.

Lemma demo_step_inv f d d' : demo_step f d d' -> demo_inv d -> demo_inv d'.
Proof.
  intros Hs. destruct Hs as [d i l l' Hp Hi Hl|d i l Hp Hi Hl|d _ _ Hp|d Hp|d Hr Hpr|d Hp Hall];
    intros (Hc & Hroot & Hend); (split; [|split]); cbn [cons rootDone d_pc proxy]; try done.
  - apply Forall_insert; [done|]. apply (step_consumer l l' Hl). by eapply Forall_lookup_1 in Hc.
  - intros Hr. specialize (Hroot Hr). apply Forall_insert; [done|].
    pose proof (Forall_lookup_1 _ _ _ _ Hroot Hi) as Hcl. simpl in Hcl.
    apply (step_consumer l l' Hl); [|done]. by eapply Forall_lookup_1 in Hc.
  - by apply Forall_alter; [|intros c ? ?; apply cancel_consumer].
  - intros Hr. apply Forall_alter; [by apply Hroot|]. intros [l|] ? ?; done.
  - apply Forall_fmap. eapply Forall_impl; [exact Hc|]. intros c Hc'. by apply cancel_consumer.
  - intros _. apply Forall_fmap, Forall_true. by intros [l|].
  - intros _. by apply Hroot.
  - intros E'. destruct (Hend E') as (_ & ? & _). by split_and!.
  - intros _. apply Forall_forall. intros [l|] Hl; [|done].
    rewrite Forall_forall in Hc. destruct (Hc _ Hl) as [(_ & Hm & _) He].
    assert (returned (Some l) = true) as Hret.
    { rewrite forallb_forall in Hall. apply Hall. by apply list_elem_of_In. }
    cbn [returned] in Hret. unfold commit_ok in Hm. destruct (pc l) as [| | | | | |st] eqn:Ep; try done; [naive_solver|].
    by destruct (He st).
  - intros _. split_and!; [done..|]. by destruct (proxy d).
Qed.

Lemma demo_reachable f created d : rtc (demo_step f) (demo_start f created) d -> demo_inv d.
Proof.
  intros Hr. revert d Hr. apply rtc_ind_r; [|intros d1 d2 _ Hs; by eapply demo_step_inv].
  split_and!; [|done|done]. apply Forall_fmap, Forall_true. intros i. change (consumer_inv (if created i then Some loop_start else None)). destruct (created i); [|done]. split; [|done].
  split_and!; [|done|done]. exists [], []. split_and!; try done. by left.
Qed.

(** The number of consumers is that of the flag. *)
Lemma demo_consumers f created d :
  rtc (demo_step f) (demo_start f created) d -> length (cons d) = Z.to_nat (consumers f).
Proof.
  intros Hr. revert d Hr. apply rtc_ind_r; [unfold demo_start; cbn [cons]; by rewrite length_map, length_seq|].
  intros d1 d2 _ Hs IH. destruct Hs; cbn [cons]; by rewrite ?length_insert, ?length_alter, ?length_map.
Qed.

Lemma sum64_spec ns t : fold_left (fun t n => swrap 64 (t + n)) ns (swrap 64 t) = swrap 64 (t + total ns).
Proof.
  revert t. induction ns as [|n ns IH]; intros t; cbn [fold_left total fold_right]; [by rewrite Z.add_0_r|].
  rewrite swrap_add_l, IH. f_equal. unfold total. lia.
Qed.

Lemma total_swrap ns ms :
  Forall2 (fun n m => n = swrap 64 m) ns ms -> swrap 64 (total ns) = swrap 64 (total ms).
Proof.
  induction 1 as [|n m ns ms -> _ IH]; [done|]. change (total (?a :: ?l)) with (a + total l).
  rewrite swrap_add_l, Z.add_comm, <- swrap_add_l, IH, swrap_add_l. f_equal. lia.
Qed.

(** Consumers taking steps in any order, once the context has ended. *)
Definition consumers_step (cs cs' : list (option (Loop Rec E))) : Prop :=
  exists i l l', cs !! i = Some (Some l) /\ runConsumer_step l l' /\ cs' = <[i := Some l']> cs.

Lemma consumers_cons c cs :
  (forall l, c = Some l -> winds_down false l) -> Acc (fun b a => consumers_step a b) cs ->
  Acc (fun b a => consumers_step a b) (c :: cs).
Proof.
  intros Hc Hcs. revert c Hc. induction Hcs as [cs _ IHcs]. intros c Hc.
  assert (forall l, winds_down false l -> Acc (fun b a => consumers_step a b) (Some l :: cs)) as Hl.
  { intros l Hl. induction Hl as [l Hl' IHl]. constructor. intros cs' ([|i] & l1 & l2 & Hi & Hs & ->).
    - injection Hi as <-. by apply IHl.
    - apply IHcs; [by exists i, l1, l2|]. intros l' [= <-]. by constructor. }
  destruct c as [l|]; [by apply Hl, Hc|]. constructor. intros cs' ([|i] & l1 & l2 & Hi & Hs & ->); [done|].
  apply IHcs; [by exists i, l1, l2|done].
Qed.

Lemma consumers_wind_down cs :
  Forall (fun c => match c with Some l => cancelled l = true | None => True end) cs ->
  Acc (fun b a => consumers_step a b) cs.
Proof.
  induction 1 as [|c cs Hc _ IH].
  - constructor. intros cs' (i & l & l' & Hi & _). by rewrite lookup_nil in Hi.
  - apply consumers_cons; [|done]. intros l ->. by apply winds_down_cancelled.
Qed.

End demo.

(** C40: what the demonstration's final line reports, over every interleaving of
    the consumers, the commits their client library makes by its timer, the kill
    timer, the end of the run and the subprocess: when the program completes,
    there were as many consumer goroutines as the flag says, and every one whose
    client could be created has returned, has itself asked for a commit exactly
    once (with whatever result), and has counted every record it was given; the
    sum in the last summary is the number of records of all of them; and the
    subprocess is no longer running. *)
Theorem demo_accounts {Rec E} f created (d : Demo (Rec := Rec) (E := E)) :
  rtc (demo_step f) (demo_start f created) d -> d_pc d = Complete ->
  length (cons d) = Z.to_nat (consumers f) /\
  Forall (fun c => match c with
    | Some l => pc l = Returned /\ (exists r, commits l = [r]) /\ processed l = swrap 64 (len (polled l))
    | None => True end) (cons d) /\
  sum64 (final_counts d) =
    swrap 64 (total (map (fun c => match c with Some l => len (polled l) | None => 0 end) (cons d))) /\
  proxy d <> ProxyUp.
Proof.
  intros Hr Hp. pose proof (demo_consumers _ _ _ Hr) as Hlen. apply demo_reachable in Hr as (Hc & _ & Hend). destruct (Hend Hp) as (_ & Hall & Hpr).
  assert (Forall (fun c : option (Loop Rec E) => match c with
    | Some l => pc l = Returned /\ (exists r, commits l = [r]) /\ processed l = swrap 64 (len (polled l))
    | None => True end) (cons d)) as Hcs.
  { apply Forall_forall. intros [l|] Hl; [|done]. rewrite Forall_forall in Hc.
    destruct (Hc _ Hl) as [Hi He]. destruct Hi as (Hcount & Hm & _).
    assert (pc l = Returned) as Hret.
    { rewrite forallb_forall in Hall. specialize (Hall (Some l) (proj1 (list_elem_of_In _ _) Hl)).
      cbn [returned] in Hall. destruct (pc l) as [| | | | | |st] eqn:Ep; try done. by destruct (He st). }
    unfold commit_ok in Hm. rewrite Hret in Hm. split_and!; [done|apply Hm|].
    destruct Hcount as (counted & rest & -> & -> & [->|E']); [|by destruct (He 1)].
    rewrite Hret. cbn [unvisited]. by rewrite app_nil_r. }
  split_and!; [done|done| |done].
  unfold sum64. change 0 with (swrap 64 0) at 1. rewrite sum64_spec. cbn [Z.add]. apply total_swrap.
  unfold final_counts. clear Hc Hall Hend Hlen. induction Hcs as [|[l|] cs Hc _ IH]; cbn [map]; constructor; try done.
  apply Hc.
Qed.

(** A run of two consumers, one of which could not start; the other counts one
    record, is cancelled and commits. *)
Definition two_consumers : scenario_flags :=
  mkScenarioFlags "kproxy" "b:9092" "p:19092" "a:9099" 1 "t" "g" 2 Second 0 0 false.
Definition counted_one : Loop unit unit := mkLoop Returned true 1 [] [None] true [tt] true (0, []).
Definition demo_end : Demo (Rec := unit) (E := unit) :=
  mkDemo Complete true [Some counted_one; None] ProxyStopped 1.

Lemma demo_run : rtc (demo_step two_consumers) (demo_start two_consumers (Nat.eqb 0)) demo_end.
Proof.
  unfold demo_start. cbn.
  eapply rtc_l; [eapply (demo_consumer _ _ 0); [done|done|by apply step_ctx_live]|]. cbn.
  eapply rtc_l; [eapply (demo_consumer _ _ 0); [done|done|by apply (step_poll _ _ (mkFetches [] [tt]))]|]. cbn.
  eapply rtc_l; [eapply (demo_consumer _ _ 0); [done|done|by eapply step_record]|]. cbn.
  eapply rtc_l; [by eapply (demo_autocommit _ _ 0)|]. cbn.
  eapply rtc_l; [by apply demo_root|]. cbn.
  eapply rtc_l; [eapply (demo_consumer _ _ 0); [done|done|by eapply step_records_done]|]. cbn.
  eapply rtc_l; [eapply (demo_consumer _ _ 0); [done|done|by eapply step_ctx_done]|]. cbn.
  eapply rtc_l; [eapply (demo_consumer _ _ 0); [done|done|by apply (step_commit _ _ None)]|]. cbn.
  apply rtc_once. match goal with |- demo_step _ ?d _ => exact (demo_finish two_consumers d eq_refl eq_refl) end.
Qed.

Lemma demo_accounts_witness : sum64 (final_counts demo_end) = 1 /\ proxy demo_end <> ProxyUp.
Proof.
  destruct (demo_accounts two_consumers (Nat.eqb 0) demo_end demo_run eq_refl) as (_ & _ & H1 & H2).
  split; [rewrite H1; reflexivity|exact H2].
Defined.

(** And it does complete: once the run has ended, the consumers have finitely
    many steps left, in whatever order they are scheduled, and until they have
    all returned one of them can move; then the program completes. *)
Theorem demo_winds_down {Rec E} f created (d : Demo (Rec := Rec) (E := E)) :
  rtc (demo_step f) (demo_start f created) d -> rootDone d = true -> d_pc d = WaitAll ->
  Acc (fun b a => consumers_step a b) (cons d) /\
  ((exists cs, consumers_step (cons d) cs) \/
   exists d', demo_step f d d' /\ d_pc d' = Complete).
Proof.
  intros Hr Hroot Hp. pose proof (demo_reachable _ _ _ Hr) as (Hc & Hcan & _).
  split; [by apply consumers_wind_down, Hcan|].
  destruct (forallb returned (cons d)) eqn:Hall.
  - right. eexists. split; [by apply demo_finish|done].
  - left. assert (exists i l, cons d !! i = Some (Some l) /\ ended (pc l) = false) as (i & l & Hi & He).
    { clear -Hall. induction (cons d) as [|c cs IH]; [done|]. cbn [forallb] in Hall.
      destruct (returned c) eqn:Ec; [|exists 0%nat; destruct c as [l|]; [by exists l|done]].
      destruct (IH Hall) as (i & l & Hi & He). by exists (S i), l. }
    destruct (main_progress false l He) as [l' Hs]. by exists (<[i := Some l']> (cons d)), i, l, l'.
Qed.

(** *** Findings *)

(** A proxy that does not become healthy in time is left running: the program
    exits without the deferred SIGTERM. *)
Theorem not_ready_leaves_proxy {Rec E} f t created :
  skipKproxy f = false -> demo_boot (Rec := Rec) (E := E) f true (NotReady t) created = inl (1, ProxyUp).
Proof. intros Hs. unfold demo_boot. by rewrite Hs. Qed.

(** One consumer, with nothing polled yet. *)
Definition one_consumer : scenario_flags :=
  mkScenarioFlags "kproxy" "b:9092" "p:19092" "a:9099" 1 "t" "g" 1 Second 0 0 false.
Definition interrupted : Demo (Rec := unit) (E := unit) :=
  mkDemo WaitAll true [Some (cancel_loop loop_start)] ProxyKilled 0.

(** The end of the run does not wait for the consumers: the subprocess is killed
    when the context ends (it was started with that context), so the consumers
    have yet to commit and leave their group through a proxy that is gone; the
    SIGTERM meant to stop it comes after them. *)
Theorem proxy_killed_before_commit :
  rtc (demo_step one_consumer) (demo_start one_consumer (fun _ => true)) interrupted /\
  proxy interrupted = ProxyKilled /\
  Forall (fun c => match c with Some l => commits l = [] /\ ended (pc l) = false | None => False end) (cons interrupted).
Proof.
  split; [|split; [done|by repeat constructor]].
  eapply rtc_l; [by apply demo_root|]. cbn.
  apply rtc_once. match goal with |- demo_step _ ?d _ => exact (demo_proxy_killed one_consumer d eq_refl eq_refl) end.
Qed.

Lemma demo_hides_broker_witness :
  exists m, @select_topology ascii_host_text unit no_json (proxy_config scenario_defaults) (fun _ => inl tt) = inr m /\
    forall host port, @Lookup ascii_host_text (Some m) 1 host port = Some (mkEndpoint "127.0.0.1" 19094).
Proof.
  apply (@demo_hides_broker ascii_host_text unit no_json scenario_defaults (mkEndpoint "localhost" 9094)
    (mkEndpoint "127.0.0.1" 19094)); try discriminate; try (vm_compute; reflexivity).
  1-2: unfold printable, lacks; split_and!;
    first [ apply (bool_decide_unpack _); vm_compute; exact I
          | right; apply (bool_decide_unpack _); vm_compute; exact I | vm_compute; discriminate ].
  unfold writable, no_space, lacks. split_and!;
    first [ apply (bool_decide_unpack _); vm_compute; exact I | split; vm_compute; [discriminate|reflexivity] ].
Defined.

(** Eleven consumers are listed in the order of their text, as [sort.Strings]
    has it. *)
Example summary_order :
  summary [0; 0; 5; 0; 0; 0; 0; 0; 0; 0; 7] "" =
  "totals: [c0=0 c10=7 c1=0 c2=5 c3=0 c4=0 c5=0 c6=0 c7=0 c8=0 c9=0] sum=12 "%string.
Proof. vm_compute. reflexivity. Qed.
